(* ===== verification/_CoqProject ===== *)
-Q . S2P
Prelude.v
Grpc.v
Host.v
Net.v
Tss.v
FaultSpec.v
SimTpm.v
FaultSim.v
Steps.v
Envelope.v
Sealer.v
SealerSteps.v
Kms.v
KmsConc.v
Fleet.v
KmsVault.v
Authz.v
Certs.v
Clap.v
Cli.v
Permits.v
Enroll.v
EnrollConc.v
Join.v
Main.v
Faults.v
Ceremony.v
Cluster.v
Vex.v
VexJson.v
VexCli.v
