(* ===== verification/Prelude.v ===== *)
(** * sceau: a verification development

    sceau is a Kubernetes KMS v2 plugin that seals data encryption keys with a
    TPM 2.0.  A node seals either under its own storage root key (SRK), which
    the TPM recreates from its owner seed, or under a fleet key shared by all
    controllers.  [genesis] creates the fleet key on a first node, [enroll]
    hands it to joiners by [TPM2_Duplicate] over mutually authenticated TLS,
    [join] imports it, [serve] answers kube-apiserver, and [status] reports the
    key in use.  A second crate, [sceau-vex], derives OpenVEX statements from
    vulnerability reports.

    ** Files

    - [Prelude.v]: outcomes of fallible code ([Ok], [Err], [Panic]), the monad
      [M W E A] of code that acts on a world, total-correctness triples [run]
      and [fails] with the tactic [step], scopes that clean up ([finally],
      [on_failure]), machine integers, bytes, slices and strings, sums over lists,
      and the hint database [sceau].
    - [Grpc.v], [Host.v], [Net.v]: what the components share of tonic and [std]:
      [Status], [Mutex], what a client sees of a handler that panics; paths and
      files; socket addresses and their parser.
    - [Tss.v]: the interface of the crate tss-esapi and of the TPM behind it.
      Neither is part of the repository.  [TssData] and [TssOps] are the types
      and calls the code uses; [TssDataLaws] and [TpmSpec] state what it relies
      on, one triple per TPM command over an abstract view of the TPM (owner
      seed, persistent slots, open contexts with their sessions and loaded
      objects), the one [TpmModel] gives.
    - [FaultSpec.v]: the laws of a TPM any of whose commands may fail, with its
      effect or without it, and the judgement [keeps] about persistent slots that follows from them, with its
      rules in the database [nv].
    - [SimTpm.v], [FaultSim.v]: a software TPM that satisfies every law of
      [Tss.v], on which the examples of all files run, and one with a schedule
      of lost commands and lost answers, which satisfies those of [FaultSpec.v].
    - [Steps.v]: code that can be interrupted between two TPM commands ([Prog]), its
      agreement with the uninterrupted code ([exec]), and a weakest precondition for
      code that works in one TPM context while others work in theirs ([wp]).
    - [Envelope.v]: [envelope_encode] and [envelope_decode] of [src/src/tpm.rs].
    - [Sealer.v]: [TpmSealer] of [src/src/tpm.rs], its templates and its [Drop].
    - [SealerSteps.v]: its [seal] and [unseal] one TPM command at a time.
    - [Kms.v]: [src/src/kms.rs]: the service with its two mutexes and the handlers
      [status], [encrypt] and [decrypt].
    - [KmsConc.v]: the same handlers as concurrent tasks, whose actions are single
      TPM commands.
    - [Fleet.v]: [src/src/fleet.rs]: creating, duplicating, importing, persisting
      and loading the fleet key.
    - [KmsVault.v]: the contract of the KMS service under the interleavings of
      [KmsConc.v].
    - [Authz.v], [Certs.v]: [src/src/authz.rs] and [src/src/certs.rs].
    - [Clap.v], [Cli.v]: declared command lines and the matcher of the crate clap,
      and [src/src/cli.rs].
    - [Permits.v]: the permit counter and the shutdown notification of
      [src/src/enroll.rs] under every interleaving of concurrent requests.
    - [Enroll.v]: [src/src/enroll.rs]: the [Duplicate] handler and [run_enroll].
    - [EnrollConc.v]: the same handler as concurrent tasks on the counter, the
      notification and the mutex, while the cluster changes and clients disconnect;
      it refines [Permits.v].
    - [Join.v]: [src/src/join.rs].
    - [Main.v]: [src/src/main.rs]: the commands and the process.
    - [Faults.v]: the commands on a TPM that may fail.
    - [Ceremony.v]: the commands of two nodes together.
    - [Cluster.v]: the commands of any number of nodes in any order.
    - [Vex.v], [VexJson.v], [VexCli.v]: [src/crates/sceau-vex]: the derivation, its
      driver, the JSON schemas as [serde] derives them, and the command line.

    ** How the code is represented

    A Rust function that returns a [Result] and touches the TPM is a value of
    [M World E A]; [?] is a bind with [map_errM] for the error conversion,
    [let r = f();] without [?] is [attempt], an [expect] or an index out of
    range is [Panic].  Sessions, handles, slots and flushes are explicit in the
    world, so a forgotten flush shows in a statement about the view.  A value with
    a destructor that leaves its scope is a [finally], one that is moved out on
    success an [on_failure]; the destructors are those of [Context] and of
    [TpmSealer].  Mutexes carry their poison flag, and a handler that panics
    costs its client the connection and nothing else.  The shared [AtomicUsize] of [enroll] is a 64-bit
    integer that wraps.  [HashSet] is [gset], [BTreeMap] a list in key order.
    Definitions keep the names of the source; where a long function is split,
    the parts are named after what they do.

    ** What is proved

    - Codec: encode and decode are inverse, decode accepts exactly the
      documented format, never panics, and has one error.
    - Sealing: seal and unseal are inverse across sealers for the same key,
      across restarts and across nodes; both leave the TPM as it was, except
      that a failing unseal leaves its object loaded.
    - KMS: the service refines a vault, a ledger of past encryptions, over every
      sequence of requests ([kms_step], [rtc]) and under every interleaving of
      the TPM commands of concurrent ones ([kms_reach]), also between the preferred
      and the legacy sealer, whose mutexes do not exclude each other.  Concurrent
      requests are free of deadlock and finish in a bounded number of actions, and
      with one sealer they are linearizable; error codes; what a poisoned lock does.
    - Fleet key: what a whole [genesis] does, forced genesis recreates the same
      key, duplication and import transfer the key, and a blob the TPM refuses
      leaves the joiner as it was.
    - Failures: whatever TPM command fails, no command touches another slot, only
      [genesis --force] and [join] can lose the fleet key, and a reported success
      means that there is one; how a join that fails late loses both the old key
      and the seed's slot.
    - Enrollment: only current cluster nodes are served, refused requests change
      nothing, entitled ones are served if the TPM takes the key they send, and
      refused without a trace if it does not; at most [--max] are served when requests
      do not overlap in a refusal window, and without bound when they do; what
      [--listen] accepts.  Under every interleaving of the whole handlers only
      nodes are served and the TPM stays as it was, no deadlock arises, and the
      permits are those of the counter's model; a client that disconnects at the
      wrong time keeps its permit.  These hold for the whole command, from the
      setup to the dropped service.
    - Command lines: a file, the seed or a slot changes only if the command line has
      the word for it, a line without a subcommand touches nothing, and without the
      words [--force] and [join] no failure can cost a node its key; the VEX tool
      never runs without an SBOM.
    - Join, commands and the ceremony: whole sessions of [serve] with clients that
      choose their requests by the answers so far; the whole path from [genesis] on
      one node to decryption on another, with the ciphertext of the old key still
      readable, and [status] agreeing with [serve].  Every command's final TPM is
      given exactly.  A cluster of any size refines a table that says from which
      node each one has its key.
    - VEX: the exact set and order of the statements, independence of input
      order, exit codes, what fails closed and what does not; the document's JSON
      round trip, and that a second run over its own output emits nothing.

    Statements about code that cannot fail for lack of resources carry the
    hypotheses [ready] (the TPM answers) and [room n] (at least [n] of the
    handles it can hold at once are free); [n] is what the code opens at the same
    time: two for one sealer's critical section, four for those of two sealers at
    once.  That a command on a public area from the network succeeds is not assumed:
    [loadable] and [storage_parent] say which areas the TPM takes, and the others are
    refused.  Where two keys must be told apart by their 64-bit identifiers, it is
    assumed of the keys in question and no others.  No definition uses fuel except
    [run_pc], whose bound of three actions is the length of the longest path through
    [duplicate] there; [enroll_alone] counts actions, of which a request has at most five, as a request of the KMS
    service has at most nine.

    ** What is not modelled

    The cryptography of the TPM (its commands are specified by their effect),
    tonic's transport and accept loop, clap's matching of words to declared arguments
    (a parameter with laws), tracing, the time crate, the generated protobuf code
    and the fuzz target that exercises it, and signal handling.  Within one TPM
    command nothing is interleaved, and in [EnrollConc.v] not within the critical
    section of its one mutex.  In [EnrollConc.v] the connection is
    abstract: any request can arrive at any time, also after the notification.  A
    crash of the process is covered by [FaultSpec.v] as a point after which every
    command is lost. *)
From Stdlib Require Import ZArith Lia.
From Stdlib Require Export Strings.Byte.
From stdpp Require Export base tactics option list gmap sets strings numbers.

#[global] Open Scope Z_scope.

(** * Outcomes of fallible code

    [outcome E A] is Rust's [Result<A, E>] plus the third way a call can end:
    a panic (an [expect] on an error, a slice out of range). *)
Inductive outcome (E A : Type) : Type :=
| Ok (a : A)
| Err (e : E)
| Panic.
Arguments Ok {E A} a.
Arguments Err {E A} e.
Arguments Panic {E A}.

#[export] Instance outcome_ret E : MRet (outcome E) := λ A a, Ok a.
#[export] Instance outcome_bind E : MBind (outcome E) := λ A B f m,
  match m with Ok a => f a | Err e => Err e | Panic => Panic end.
#[export] Instance outcome_fmap E : FMap (outcome E) := λ A B f m,
  match m with Ok a => Ok (f a) | Err e => Err e | Panic => Panic end.

(** [Result::map_err], also the [From] conversion that [?] inserts. *)
Definition map_err {E E' A} (f : E → E') (m : outcome E A) : outcome E' A :=
  match m with Ok a => Ok a | Err e => Err (f e) | Panic => Panic end.

(** [Option::ok_or]. *)
Definition ok_or {E A} (e : E) (o : option A) : outcome E A :=
  match o with Some a => Ok a | None => Err e end.

(** [Result::expect]: an error becomes a panic. *)
Definition expect {E E' A} (m : outcome E A) : outcome E' A :=
  match m with Ok a => Ok a | _ => Panic end.

(** [Result::is_ok]. *)
Definition is_ok {E A} (m : outcome E A) : bool := match m with Ok _ => true | _ => false end.
Definition no_panic {E A} (m : outcome E A) : Prop := m ≠ Panic.

Lemma pair_fst {A B} (p : A * B) a : p.1 = a → p = (a, p.2).
Proof. by destruct p; cbn; intros ->. Qed.
Lemma bind_Ok {E A B} (m : outcome E A) (f : A → outcome E B) b :
  m ≫= f = Ok b ↔ ∃ a, m = Ok a ∧ f a = Ok b.
Proof.
  destruct m as [a|e|]; cbn; split;
    [eauto|by intros (? & [= <-] & ?)|done|by intros (? & [=] & _)|done|by intros (? & [=] & _)].
Qed.
Lemma map_err_Ok {E E' A} (g : E → E') (m : outcome E A) a : map_err g m = Ok a ↔ m = Ok a.
Proof. destruct m; cbn; split; congruence. Qed.
Lemma ok_or_Ok {E A} (e : E) o (a : A) : ok_or e o = Ok a ↔ o = Some a.
Proof. destruct o; cbn; split; congruence. Qed.

(** * Stateful code: [M W E A] threads a world [W] through fallible calls. *)
Definition M (W E A : Type) : Type := W → outcome E A * W.

#[export] Instance M_ret W E : MRet (M W E) := λ A a w, (Ok a, w).
#[export] Instance M_bind W E : MBind (M W E) := λ A B f m w,
  match m w with
  | (Ok a, w') => f a w'
  | (Err e, w') => (Err e, w')
  | (Panic, w') => (Panic, w')
  end.

Definition lift {W E A} (m : outcome E A) : M W E A := λ w, (m, w).
Definition throw {W E A} (e : E) : M W E A := λ w, (Err e, w).
Definition map_errM {W E E' A} (f : E → E') (m : M W E A) : M W E' A :=
  λ w, let (r, w') := m w in (map_err f r, w').

(** Run [m] and hand its result to the continuation as a value (Rust's
    [match f() {..}] or [let result = ..;] without a [?]); panics propagate. *)
Definition attempt {W E E' A} (m : M W E A) : M W E' (A + E) := λ w,
  match m w with
  | (Ok a, w') => (Ok (inl a), w')
  | (Err e, w') => (Ok (inr e), w')
  | (Panic, w') => (Panic, w')
  end.

Definition of_sum {W E A} (r : A + E) : M W E A :=
  match r with inl a => mret a | inr e => throw e end.

(** A local that is dropped at the end of its scope, however the scope is left,
    and one that the scope hands on when it succeeds. *)
Definition finally {W E A} (cleanup : W → W) (m : M W E A) : M W E A :=
  λ w, let (r, w') := m w in (r, cleanup w').
Definition on_failure {W E A} (cleanup : W → W) (m : M W E A) : M W E A :=
  λ w, match m w with (Ok a, w') => (Ok a, w') | (r, w') => (r, cleanup w') end.

Section Equations.
Context {W E : Type}.
Implicit Types w : W.

Lemma bind_ok {A B} (m : M W E A) (f : A → M W E B) w a w' :
  m w = (Ok a, w') → (m ≫= f) w = f a w'.
Proof. unfold mbind, M_bind. by intros ->. Qed.
Lemma bind_err {A B} (m : M W E A) (f : A → M W E B) w e w' :
  m w = (Err e, w') → (m ≫= f) w = (Err e, w').
Proof. unfold mbind, M_bind. by intros ->. Qed.
Lemma bind_ok_inv {A B} (m : M W E A) (f : A → M W E B) w b w' :
  (m ≫= f) w = (Ok b, w') → ∃ a w1, m w = (Ok a, w1) ∧ f a w1 = (Ok b, w').
Proof.
  unfold mbind, M_bind. destruct (m w) as [[a|e|] w1] eqn:Hm; intros; simplify_eq; eauto.
Qed.
Lemma map_errM_ok {E' A} (g : E → E') (m : M W E A) w a w' :
  m w = (Ok a, w') → map_errM g m w = (Ok a, w').
Proof. unfold map_errM. by intros ->. Qed.
Lemma map_errM_err {E' A} (g : E → E') (m : M W E A) w e w' :
  m w = (Err e, w') → map_errM g m w = (Err (g e), w').
Proof. unfold map_errM. by intros ->. Qed.
Lemma map_errM_ok_inv {E' A} (g : E → E') (m : M W E A) w a w' :
  map_errM g m w = (Ok a, w') → m w = (Ok a, w').
Proof. unfold map_errM. destruct (m w) as [[]]; intros; simplify_eq/=; done. Qed.
End Equations.

(** * Total-correctness triples

    [run m w Q]: started in [w], [m] returns a value (neither an error nor a
    panic), and [Q] holds of that value and of the final world. *)
Definition run {W E A} (m : M W E A) (w : W) (Q : A → W → Prop) : Prop :=
  ∃ a w', m w = (Ok a, w') ∧ Q a w'.

(** [fails m w Q]: [m] returns an error satisfying [Q]. *)
Definition fails {W E A} (m : M W E A) (w : W) (Q : E → W → Prop) : Prop :=
  ∃ e w', m w = (Err e, w') ∧ Q e w'.

Section Triples.
Context {W E : Type}.

Lemma run_ret {A} (a : A) (w : W) (Q : A → W → Prop) :
  Q a w → run (mret a : M W E A) w Q.
Proof. intros. by exists a, w. Qed.
Lemma run_lift {A} (m : outcome E A) a (w : W) (Q : A → W → Prop) :
  m = Ok a → Q a w → run (lift m) w Q.
Proof. intros -> ?. by exists a, w. Qed.
Lemma run_bind {A B} (m : M W E A) (f : A → M W E B) w P Q :
  run m w P → (∀ a w', P a w' → run (f a) w' Q) → run (m ≫= f) w Q.
Proof.
  intros (a & w1 & Hm & HP) Hf. destruct (Hf a w1 HP) as (b & w2 & Hb & HQ).
  exists b, w2. split; [|done]. by rewrite (bind_ok _ _ _ _ _ Hm).
Qed.
Lemma run_bind_eq {A B} (m : M W E A) (f : A → M W E B) a w w' Q :
  m w = (Ok a, w') → run (f a) w' Q → run (m ≫= f) w Q.
Proof. intros Hm H. unfold run. by rewrite (bind_ok _ _ _ _ _ Hm). Qed.
Lemma run_bind_lift {A B} (m : outcome E A) (f : A → M W E B) a w Q :
  m = Ok a → run (f a) w Q → run (lift m ≫= f) w Q.
Proof. intros -> H. exact H. Qed.
Lemma fails_bind_lift {A B} (m : outcome E A) (f : A → M W E B) a w Q :
  m = Ok a → fails (f a) w Q → fails (lift m ≫= f) w Q.
Proof. intros -> H. exact H. Qed.
Lemma run_mono {A} (m : M W E A) w P Q :
  run m w P → (∀ a w', P a w' → Q a w') → run m w Q.
Proof. intros (a & w1 & ? & ?) HPQ. exists a, w1. auto. Qed.
Lemma run_map_errM {E' A} (g : E → E') (m : M W E A) w Q :
  run m w Q → run (map_errM g m) w Q.
Proof. intros (a & w1 & ? & ?). exists a, w1. split; [by apply map_errM_ok|done]. Qed.
Lemma run_attempt {E' A} (m : M W E A) w Q :
  run m w Q → run (attempt (E':=E') m) w (λ r w', ∃ a, r = inl a ∧ Q a w').
Proof.
  intros (a & w1 & Hm & ?). exists (inl a), w1. unfold attempt. rewrite Hm. eauto.
Qed.
Lemma fails_attempt {E' A} (m : M W E A) w Q :
  fails m w Q → run (attempt (E':=E') m) w (λ r w', ∃ e, r = inr e ∧ Q e w').
Proof.
  intros (e & w1 & Hm & ?). exists (inr e), w1. unfold attempt. rewrite Hm. eauto.
Qed.
Lemma run_finally {A} g (m : M W E A) w Q :
  run m w (λ a w', Q a (g w')) → run (finally g m) w Q.
Proof. intros (a & w1 & Hm & ?). exists a, (g w1). unfold finally. by rewrite Hm. Qed.
Lemma fails_finally {A} g (m : M W E A) w Q :
  fails m w (λ e w', Q e (g w')) → fails (finally g m) w Q.
Proof. intros (e & w1 & Hm & ?). exists e, (g w1). unfold finally. by rewrite Hm. Qed.
Lemma run_on_failure {A} g (m : M W E A) w Q : run m w Q → run (on_failure g m) w Q.
Proof. intros (a & w1 & Hm & ?). exists a, w1. unfold on_failure. by rewrite Hm. Qed.
Lemma fails_on_failure {A} g (m : M W E A) w Q :
  fails m w (λ e w', Q e (g w')) → fails (on_failure g m) w Q.
Proof. intros (e & w1 & Hm & ?). exists e, (g w1). unfold on_failure. by rewrite Hm. Qed.
Lemma finally_ok_inv {A} g (m : M W E A) w a w' :
  finally g m w = (Ok a, w') → ∃ w1, m w = (Ok a, w1) ∧ w' = g w1.
Proof. unfold finally. destruct (m w) as [r w1]. intros [= -> <-]. eauto. Qed.
Lemma on_failure_ok_inv {A} g (m : M W E A) w a w' : on_failure g m w = (Ok a, w') → m w = (Ok a, w').
Proof. unfold on_failure. by destruct (m w) as [[] w1]. Qed.
Lemma fails_bind_l {A B} (m : M W E A) (f : A → M W E B) w Q :
  fails m w Q → fails (m ≫= f) w Q.
Proof. intros (e & w1 & Hm & ?). exists e, w1. by rewrite (bind_err _ _ _ _ _ Hm). Qed.
Lemma fails_bind_r {A B} (m : M W E A) (f : A → M W E B) w P Q :
  run m w P → (∀ a w', P a w' → fails (f a) w' Q) → fails (m ≫= f) w Q.
Proof.
  intros (a & w1 & Hm & HP) Hf. destruct (Hf a w1 HP) as (b & w2 & Hb & HQ).
  exists b, w2. split; [|done]. by rewrite (bind_ok _ _ _ _ _ Hm).
Qed.
Lemma fails_map_errM {E' A} (g : E → E') (m : M W E A) w (Q : E' → W → Prop) :
  fails m w (λ e, Q (g e)) → fails (map_errM g m) w Q.
Proof. intros (e & w1 & ? & ?). exists (g e), w1. split; [by apply map_errM_err|done]. Qed.
Lemma fails_mono {A} (m : M W E A) w P Q :
  fails m w P → (∀ a w', P a w' → Q a w') → fails m w Q.
Proof. intros (a & w1 & ? & ?) HPQ. exists a, w1. auto. Qed.
End Triples.

(** Take one step of a sequence: [step lem as pat] discharges the head of a
    bind with the triple [lem] and introduces its postcondition. *)
Tactic Notation "step" "by" tactic3(tac) "as" simple_intropattern(pat) :=
  eapply run_bind; [tac | cbv beta; intros ? ? pat].

(** * Machine integers and bytes *)
#[export] Instance byte_eq_dec : EqDecision byte := Byte.byte_eq_dec.

Definition Z_of_u8 (b : byte) : Z := Z.of_N (Byte.to_N b).
Definition u8_of_Z (z : Z) : byte := default x00 (Byte.of_N (Z.to_N (z `mod` 256))).

Lemma Z_of_u8_range b : 0 ≤ Z_of_u8 b < 256.
Proof. unfold Z_of_u8. pose proof (Byte.to_N_bounded b). lia. Qed.

Lemma Z_of_u8_of_Z z : Z_of_u8 (u8_of_Z z) = z `mod` 256.
Proof.
  unfold Z_of_u8, u8_of_Z. pose proof (Z.mod_pos_bound z 256 ltac:(lia)).
  destruct (Byte.of_N _) as [b|] eqn:Hb; simpl.
  - apply Byte.to_of_N in Hb. rewrite Hb. lia.
  - apply Byte.of_N_None_iff in Hb. lia.
Qed.

Lemma u8_of_Z_of_u8 b : u8_of_Z (Z_of_u8 b) = b.
Proof.
  unfold u8_of_Z. rewrite Z.mod_small by apply Z_of_u8_range.
  unfold Z_of_u8. by rewrite N2Z.id, Byte.of_to_N.
Qed.

(** [n as u16]: the low 16 bits. *)
Definition as_u16 (n : Z) : Z := n `mod` 2 ^ 16.
(** [u16::to_be_bytes] and [u16::from_be_bytes]. *)
Definition u16_to_be_bytes (n : Z) : list byte := [u8_of_Z (Z.shiftr n 8); u8_of_Z n].
Definition u16_from_be_bytes (hi lo : byte) : Z :=
  Z.lor (Z.shiftl (Z_of_u8 hi) 8) (Z_of_u8 lo).

Lemma u16_from_be_bytes_add hi lo :
  u16_from_be_bytes hi lo = Z_of_u8 hi * 256 + Z_of_u8 lo.
Proof.
  unfold u16_from_be_bytes. pose proof (Z_of_u8_range lo).
  assert (Z.land (Z.shiftl (Z_of_u8 hi) 8) (Z_of_u8 lo) = 0) as H0.
  { apply Z.bits_inj'. intros n Hn. rewrite Z.land_spec, Z.bits_0.
    destruct (decide (n < 8)).
    - by rewrite Z.shiftl_spec_low by lia.
    - rewrite (Z.bits_above_log2 (Z_of_u8 lo)); [by rewrite andb_false_r|lia|].
      destruct (decide (Z_of_u8 lo = 0)) as [->|]; [simpl; lia|].
      apply Z.log2_lt_pow2; [lia|]. pose proof (Z.pow_le_mono_r 2 8 n). lia. }
  pose proof (Z.add_lor_land (Z.shiftl (Z_of_u8 hi) 8) (Z_of_u8 lo)).
  rewrite Z.shiftl_mul_pow2 in * by lia. lia.
Qed.

Lemma u16_from_be_bytes_range hi lo : 0 ≤ u16_from_be_bytes hi lo < 2 ^ 16.
Proof.
  rewrite u16_from_be_bytes_add. pose proof (Z_of_u8_range hi). pose proof (Z_of_u8_range lo). lia.
Qed.

Lemma u16_be_round_trip n :
  0 ≤ n < 2 ^ 16 →
  u16_from_be_bytes (u8_of_Z (Z.shiftr n 8)) (u8_of_Z n) = n.
Proof.
  intros. rewrite u16_from_be_bytes_add, !Z_of_u8_of_Z, Z.shiftr_div_pow2 by lia.
  change (2 ^ 8) with 256. pose proof (Z.div_mod n 256 ltac:(lia)).
  rewrite (Z.mod_small (n / 256)); [lia|].
  split; [apply Z.div_pos; lia|apply Z.div_lt_upper_bound; lia].
Qed.


Lemma as_u16_small n : 0 ≤ n < 2 ^ 16 → as_u16 n = n.
Proof. intros. by apply Z.mod_small. Qed.

(** Slicing [&xs[a..b]] and [&xs[a..]]: out of range is a panic. *)
Definition slice {E A} (a b : nat) (xs : list A) : outcome E (list A) :=
  if bool_decide (a ≤ b ≤ length xs)%nat then Ok (take (b - a) (drop a xs)) else Panic.
Definition slice_from {E A} (a : nat) (xs : list A) : outcome E (list A) :=
  slice a (length xs) xs.
(** Indexing [xs[i]]. *)
Definition index {E A} (i : nat) (xs : list A) : outcome E A :=
  match xs !! i with Some x => Ok x | None => Panic end.

Lemma slice_ok {E A} a b (xs : list A) :
  (a ≤ b ≤ length xs)%nat → slice (E:=E) a b xs = Ok (take (b - a) (drop a xs)).
Proof. intros. unfold slice. by rewrite bool_decide_true. Qed.
Lemma slice_from_ok {E A} a (xs : list A) :
  (a ≤ length xs)%nat → slice_from (E:=E) a xs = Ok (drop a xs).
Proof.
  intros. unfold slice_from. rewrite slice_ok by lia.
  rewrite take_ge; [done|rewrite length_drop; lia].
Qed.

(** * Strings *)
(** [str::strip_prefix] and [str::starts_with]. *)
Fixpoint strip_prefix (p s : string) : option string :=
  match p, s with
  | EmptyString, _ => Some s
  | String a p', String b s' => if Ascii.eqb a b then strip_prefix p' s' else None
  | String _ _, EmptyString => None
  end.
Definition starts_with (p s : string) : bool := bool_decide (is_Some (strip_prefix p s)).
(** [str::contains]. *)
Fixpoint contains (needle s : string) : bool :=
  starts_with needle s ||
  match s with EmptyString => false | String _ s' => contains needle s' end.
(** [str::is_empty]. *)
Definition str_is_empty (s : string) : bool :=
  match s with EmptyString => true | _ => false end.

Lemma append_nil s : (EmptyString +:+ s)%string = s.
Proof. done. Qed.
Lemma append_cons a s t : (String a s +:+ t)%string = String a (s +:+ t).
Proof. done. Qed.
Lemma append_assoc (a b c : string) : (a +:+ (b +:+ c) = (a +:+ b) +:+ c)%string.
Proof. induction a as [|x a IH]; [done|]. change (String x (a +:+ (b +:+ c)) = String x ((a +:+ b) +:+ c))%string. by rewrite IH. Qed.
Lemma strip_prefix_Some p s t : strip_prefix p s = Some t ↔ s = (p +:+ t)%string.
Proof.
  revert s. induction p as [|a p IH]; intros s; simpl; rewrite ?append_nil, ?append_cons;
    [split; congruence|].
  destruct s as [|b s]; [split; discriminate|].
  destruct (Ascii.eqb_spec a b) as [->|Hne]; [rewrite IH|]; split; congruence.
Qed.
Lemma starts_with_spec p s : starts_with p s = true ↔ ∃ t, s = (p +:+ t)%string.
Proof.
  unfold starts_with. rewrite bool_decide_eq_true. unfold is_Some.
  by setoid_rewrite strip_prefix_Some.
Qed.
Lemma contains_spec n s : contains n s = true ↔ ∃ a b, s = (a +:+ n +:+ b)%string.
Proof.
  induction s as [|c s IH]; cbn [contains]; rewrite orb_true_iff, starts_with_spec.
  - split; [intros [[t Ht]|]; [by exists EmptyString, t|done]|].
    intros ([|] & b & H); [left; by exists b|discriminate H].
  - rewrite IH. split.
    + intros [[t Ht]|(a & b & ->)]; [by exists EmptyString, t|by exists (String c a), b].
    + intros ([|c' a] & b & H); [left; by exists b|right; exists a, b].
      rewrite append_cons in H. congruence.
Qed.

(** * Hints *)
Create HintDb sceau.
#[export] Hint Resolve run_ret run_map_errM : sceau.

(** * Sums over a list *)
Fixpoint sum_with {A} (f : A → Z) (l : list A) : Z :=
  match l with [] => 0 | x :: l' => f x + sum_with f l' end.

Lemma sum_with_app {A} (f : A → Z) l l' : sum_with f (l ++ l') = sum_with f l + sum_with f l'.
Proof. induction l; simpl; lia. Qed.
Lemma sum_with_insert {A} (f : A → Z) l t x0 y :
  l !! t = Some x0 → sum_with f (<[t := y]> l) = sum_with f l - f x0 + f y.
Proof.
  revert t. induction l as [|x l IH]; intros [|t] H; simplify_eq/=; [lia|].
  rewrite (IH _ H). lia.
Qed.
Lemma sum_with_nonneg {A} (f : A → Z) l : (∀ x, 0 ≤ f x) → 0 ≤ sum_with f l.
Proof. intros Hf. induction l as [|x l IH]; simpl; [lia|]. pose proof (Hf x). lia. Qed.
Lemma sum_with_mono {A} (f g : A → Z) l : (∀ x, f x ≤ g x) → sum_with f l ≤ sum_with g l.
Proof. intros H. induction l as [|x l IH]; simpl; [lia|]. pose proof (H x). lia. Qed.
Lemma sum_with_lookup {A} (f : A → Z) l t x0 : (∀ x, 0 ≤ f x) → l !! t = Some x0 → f x0 ≤ sum_with f l.
Proof.
  intros Hf. revert t. induction l as [|x l IH]; intros [|t] H; simplify_eq/=.
  - pose proof (sum_with_nonneg f l Hf). lia.
  - pose proof (Hf x). pose proof (IH _ H). lia.
Qed.
Lemma sum_with_two {A} (f : A → Z) l t t' x y :
  (∀ x, 0 ≤ f x) → t ≠ t' → l !! t = Some x → l !! t' = Some y → f x + f y ≤ sum_with f l.
Proof.
  intros Hf. revert t t'. induction l as [|z l IH]; intros [|t] [|t'] Hne Ht Ht'; try done; cbn in *; simplify_eq.
  - pose proof (sum_with_lookup f l t' y Hf Ht'). lia.
  - pose proof (sum_with_lookup f l t x Hf Ht). lia.
  - specialize (Hf z). specialize (IH t t' ltac:(congruence) Ht Ht'). lia.
Qed.
Lemma sum_with_one {A} (f : A → Z) l t t' x y :
  (∀ x, 0 ≤ f x) → l !! t = Some x → l !! t' = Some y → f x = 1 → f y = 1 → sum_with f l ≤ 1 → t = t'.
Proof.
  intros Hf Ht Ht' Hx Hy Hs. destruct (decide (t = t')); [done|].
  pose proof (sum_with_two f l t t' x y Hf ltac:(done) Ht Ht'). lia.
Qed.
Lemma sum_with_pos {A} (f : A → Z) l : 0 < sum_with f l → ∃ t x, l !! t = Some x ∧ 0 < f x.
Proof.
  induction l as [|x l IH]; cbn; [lia|]. intros H. destruct (decide (0 < f x)).
  - by exists 0%nat, x.
  - destruct IH as (t & y & ? & ?); [lia|]. by exists (S t), y.
Qed.
Lemma sum_with_length {A} (f : A → Z) b l : (∀ x, f x ≤ b) → sum_with f l ≤ b * Z.of_nat (length l).
Proof. intros Hf. induction l as [|x l IH]; cbn [sum_with length]; [lia|]. pose proof (Hf x). lia. Qed.
Lemma sum_with_fmap {A B} (f : B → Z) (g : A → B) l : sum_with f (g <$> l) = sum_with (f ∘ g) l.
Proof. induction l; cbn in *; lia. Qed.
Lemma sum_with_plus {A} (f g : A → Z) l : sum_with (λ x, f x + g x) l = sum_with f l + sum_with g l.
Proof. induction l; cbn; lia. Qed.
