(* ===== verification/Grpc.v ===== *)
(** What the gRPC services share: [tonic::Status], [std::sync::Mutex], the fate
    of one request in a server, and [std]'s [Debug] of a string. *)
From Stdlib Require Import Strings.Ascii.
From S2P Require Import Prelude.

(** [std::sync::Mutex]. *)
Record Mutex (A : Type) := mkMutex { poisoned : bool; inner : A }.
Arguments mkMutex {A}.
Arguments poisoned {A}.
Arguments inner {A}.
(** [Display] of [PoisonError]. *)
Definition poison_message : string := "poisoned lock: another task failed inside".

(** [tonic::Status]: the gRPC codes the program uses. *)
Inductive Code := Code_Internal | Code_InvalidArgument | Code_PermissionDenied.
Record Status := mkStatus { status_code : Code; status_message : string }.

#[export] Instance Code_eq_dec : EqDecision Code.
Proof. solve_decision. Defined.

(** What a client sees of its request.  A handler runs in the task of its
    connection: when it panics the task ends and the connection breaks, while
    the server and the state it shares go on. *)
Inductive RpcResult (A : Type) := Answered (a : A) | Refused (s : Status) | Aborted.
Arguments Answered {A} a.
Arguments Refused {A} s.
Arguments Aborted {A}.
Definition rpc_result {A} (r : outcome Status A) : RpcResult A :=
  match r with Ok a => Answered a | Err s => Refused s | Panic => Aborted end.
Definition respond {W E A} (m : M W Status A) : M W E (RpcResult A) := λ w,
  match m w with
  | (Ok a, w') => (Ok (Answered a), w')
  | (Err s, w') => (Ok (Refused s), w')
  | (Panic, w') => (Ok Aborted, w')
  end.

Lemma run_respond {W E A} (m : M W Status A) w Q :
  run m w Q → run (respond (E:=E) m) w (λ x w', ∃ a, x = Answered a ∧ Q a w').
Proof. intros (a & w1 & Hm & ?). exists (Answered a), w1. unfold respond. rewrite Hm. eauto. Qed.

(** [Debug] of a [str] ([{:?}]): quoted, with control characters, quotes and
    backslashes escaped.  Bytes from 128 on (non-ASCII text) are copied. *)
Definition DQUOTE : Ascii.ascii := Ascii.ascii_of_nat 34.
Definition hex_lower (n : nat) : Ascii.ascii :=
  Ascii.ascii_of_nat (if bool_decide (n < 10)%nat then 48 + n else 87 + n).
Definition escape_debug (a : Ascii.ascii) (tail : string) : string :=
  let n := Ascii.nat_of_ascii a in
  let bs := Ascii.ascii_of_nat 92 in
  let esc c := String bs (String c tail) in
  if Ascii.eqb a DQUOTE then esc DQUOTE
  else if Ascii.eqb a bs then esc bs
  else match n with
  | 0%nat => esc "0"%char | 9%nat => esc "t"%char | 10%nat => esc "n"%char | 13%nat => esc "r"%char
  | _ =>
      if bool_decide (n < 32 ∨ n = 127)%nat then
        String bs (String "u"%char (String "{"%char (
          (if bool_decide (n < 16)%nat then id else String (hex_lower (n / 16)))
            (String (hex_lower (n `mod` 16)) (String "}"%char tail)))))
      else String a tail
  end.
Fixpoint str_debug_body (s tail : string) : string :=
  match s with
  | EmptyString => tail
  | String a s' => escape_debug a (str_debug_body s' tail)
  end.
Definition str_debug (s : string) : string :=
  String DQUOTE (str_debug_body s (String DQUOTE EmptyString)).
