(* ===== verification/Host.v ===== *)
(** The host's files as the program sees them through [std::fs] and
    [std::path]: an [Fs] is what the calls answer, an argument of the code that
    reads files. *)
From Stdlib Require Import Strings.Ascii.
From S2P Require Import Prelude.

Inductive ErrorKind := NotFound | PermissionDenied | InvalidData | OtherKind.
(** [std::io::Error] with its [Display] text. *)
Record IoError := mkIoError { io_kind : ErrorKind; io_display : string }.

#[export] Instance ErrorKind_eq_dec : EqDecision ErrorKind.
Proof. solve_decision. Defined.

(** [metadata(p)?.len()] (a u64), [read(p)] and [read_dir(p)], whose entries
    can fail one by one; a good entry is its path. *)
Record Fs := mkFs {
  metadata_len : string → outcome IoError Z;
  fs_read : string → outcome IoError (list byte);
  read_dir : string → outcome IoError (list (outcome IoError string))
}.

(** A file is read with the length its metadata shows, and [std::fs] does not
    panic. *)
Definition fs_coherent (fs : Fs) : Prop :=
  ∀ p bs, fs_read fs p = Ok bs → metadata_len fs p = Ok (Z.of_nat (length bs)).
Definition fs_no_panic (fs : Fs) : Prop :=
  ∀ p, no_panic (metadata_len fs p) ∧ no_panic (fs_read fs p) ∧ no_panic (read_dir fs p) ∧
       ∀ es, read_dir fs p = Ok es → Forall no_panic es.

(** [String::from_utf8]'s validity check (RFC 3629: no overlong forms, no
    surrogates, nothing above U+10FFFF). *)
Definition in_range (lo hi : Z) (b : byte) : bool := bool_decide (lo ≤ Z_of_u8 b ≤ hi).
Definition utf8_cont : byte → bool := in_range 0x80 0xBF.
Fixpoint utf8_valid (bs : list byte) : bool :=
  match bs with
  | [] => true
  | a :: r0 =>
      if in_range 0 0x7F a then utf8_valid r0 else
      match r0 with
      | [] => false
      | b :: r1 =>
          if in_range 0xC2 0xDF a then utf8_cont b && utf8_valid r1 else
          match r1 with
          | [] => false
          | c :: r2 =>
              if in_range 0xE0 0xEF a then
                in_range (if bool_decide (Z_of_u8 a = 0xE0) then 0xA0 else 0x80)
                         (if bool_decide (Z_of_u8 a = 0xED) then 0x9F else 0xBF) b
                && utf8_cont c && utf8_valid r2
              else match r2 with
              | [] => false
              | d :: r3 =>
                  in_range 0xF0 0xF4 a
                  && in_range (if bool_decide (Z_of_u8 a = 0xF0) then 0x90 else 0x80)
                              (if bool_decide (Z_of_u8 a = 0xF4) then 0x8F else 0xBF) b
                  && utf8_cont c && utf8_cont d && utf8_valid r3
              end
          end
      end
  end.

(** [std::fs::read_to_string]. *)
Definition read_to_string (fs : Fs) (p : string) : outcome IoError string :=
  bs ← fs_read fs p;
  if utf8_valid bs then Ok (String.string_of_list_byte bs)
  else Err (mkIoError InvalidData "stream did not contain valid UTF-8").

(** [Path::join] with a relative path. *)
Fixpoint ends_with_slash (s : string) : bool :=
  match s with
  | EmptyString => false
  | String a EmptyString => Ascii.eqb a "/"%char
  | String _ s' => ends_with_slash s'
  end.
Definition path_join (dir rel : string) : string :=
  if starts_with "/" rel then rel
  else if str_is_empty dir || ends_with_slash dir then (dir +:+ rel)%string
  else (dir +:+ "/" +:+ rel)%string.

(** The last component of a path, and [Path::file_name]: [None] for [..] and
    the empty path. *)
Fixpoint last_component (s acc : string) : string :=
  match s with
  | EmptyString => acc
  | String a s' => if Ascii.eqb a "/"%char then last_component s' EmptyString
                   else last_component s' (acc +:+ String a EmptyString)%string
  end.
Definition file_name (p : string) : option string :=
  let n := last_component p EmptyString in
  if bool_decide (n = "" ∨ n = "." ∨ n = "..") then None else Some n.

(** [Path::extension]: what follows the last dot of the file name, unless that
    dot is its first character. *)
Fixpoint rsplit_dot (s : string) : option (string * string) :=
  match s with
  | EmptyString => None
  | String a s' =>
      match rsplit_dot s' with
      | Some (before, after) => Some (String a before, after)
      | None => if Ascii.eqb a "."%char then Some (EmptyString, s') else None
      end
  end.
Definition extension (p : string) : option string :=
  n ← file_name p;
  match rsplit_dot n with
  | Some (EmptyString, _) | None => None
  | Some (_, ext) => Some ext
  end.


(** [Path::parent]. *)
Fixpoint drop_while (p : ascii → bool) (l : list ascii) : list ascii :=
  match l with
  | [] => []
  | a :: l' => if p a then drop_while p l' else l
  end.
Definition is_slash (a : ascii) : bool := Ascii.eqb a "/"%char.
Definition of_rev (l : list ascii) : string := String.string_of_list_ascii (rev l).
Definition path_parent (p : string) : option string :=
  match drop_while is_slash (rev (String.list_ascii_of_string p)) with
  | [] => None
  | r => match drop_while (negb ∘ is_slash) r with
         | [] => Some EmptyString
         | r' => match drop_while is_slash r' with
                 | [] => Some "/"%string
                 | r'' => Some (of_rev r'')
                 end
         end
  end.

(** * Files the program creates
    Paths with their mode bits.  [faults] are the calls the operating system
    refuses for reasons of its own. *)
Inductive FsCall := CreateDirAll | RemoveFile | UnixBind | SetPermissions.
#[export] Instance FsCall_eq_dec : EqDecision FsCall.
Proof. solve_decision. Defined.
Record HostFs := mkHostFs { entries : gmap string Z; faults : FsCall → option IoError }.

(** The octal modes 0755 and 0600. *)
Definition MODE_0755 : Z := 7 * 64 + 5 * 8 + 5.
Definition MODE_0600 : Z := 6 * 64.

Definition guarded {A} (c : FsCall) (m : M HostFs IoError A) : M HostFs IoError A := λ h,
  match faults h c with Some e => (Err e, h) | None => m h end.
Definition no_such_file : IoError := mkIoError NotFound "No such file or directory (os error 2)".
Definition set_entries (f : gmap string Z → gmap string Z) (h : HostFs) : HostFs :=
  mkHostFs (f (entries h)) (faults h).

Definition create_dir_all (p : string) : M HostFs IoError unit := guarded CreateDirAll (λ h,
  (Ok tt, if bool_decide (is_Some (entries h !! p)) then h
          else set_entries (insert p MODE_0755) h)).
Definition path_exists (h : HostFs) (p : string) : bool := bool_decide (is_Some (entries h !! p)).
Definition remove_file (p : string) : M HostFs IoError unit := guarded RemoveFile (λ h,
  if path_exists h p then (Ok tt, set_entries (delete p) h) else (Err no_such_file, h)).
Definition unix_bind (p : string) : M HostFs IoError unit := guarded UnixBind (λ h,
  if path_exists h p then (Err (mkIoError OtherKind "Address already in use (os error 98)"), h)
  else (Ok tt, set_entries (insert p MODE_0755) h)).
Definition set_permissions (p : string) (mode : Z) : M HostFs IoError unit := guarded SetPermissions (λ h,
  if path_exists h p then (Ok tt, set_entries (insert p mode) h) else (Err no_such_file, h)).
