(* ===== verification/Net.v ===== *)
(** [std::net::SocketAddr] and its [FromStr], which [run_enroll] of
    [src/src/enroll.rs] applies to [--listen].

    The parser is that of the Rust standard library ([core::net::parser]): every
    reader is atomic, that is, it consumes nothing when it fails, so a reader is a
    function from the input to a value and what is left of the input. *)
From Stdlib Require Import Strings.Ascii.
From stdpp Require Import strings pretty.
From S2P Require Import Prelude.

Record SocketAddrV4 := mkSocketAddrV4 { v4_octets : Z * Z * Z * Z; v4_port : Z }.
Record SocketAddrV6 := mkSocketAddrV6 { v6_segments : list Z; v6_port : Z; v6_scope_id : Z }.
Inductive SocketAddr := V4 (a : SocketAddrV4) | V6 (a : SocketAddrV6).
(** [AddrParseError] of kind [AddrKind::Socket]. *)
Inductive AddrParseError := AddrKind_Socket.

Definition Reader (A : Type) : Type := string → option (A * string).

Definition read_given_char (c : Ascii.ascii) : Reader unit := λ s,
  match s with
  | String d rest => if Ascii.eqb d c then Some (tt, rest) else None
  | EmptyString => None
  end.

(** [char::to_digit] for radix 10 and 16. *)
Definition to_digit (radix : Z) (c : Ascii.ascii) : option Z :=
  let n := Z.of_nat (Ascii.nat_of_ascii c) in
  let d := if (48 <=? n) && (n <=? 57) then Some (n - 48)
           else if (97 <=? n) && (n <=? 122) then Some (n - 87)
           else if (65 <=? n) && (n <=? 90) then Some (n - 55)
           else None in
  v ← d; if v <? radix then Some v else None.

(** The longest prefix of digits, as its value, its length and the rest. *)
Fixpoint read_digits (radix result : Z) (count : nat) (s : string) : Z * nat * string :=
  match s with
  | String c rest =>
      match to_digit radix c with
      | Some d => read_digits radix (result * radix + d) (S count) rest
      | None => (result, count, s)
      end
  | EmptyString => (result, count, s)
  end.
(** [read_number]: at most [max_digits] digits if that is given, a value of at
    most [max], and no leading zero unless [allow_zero_prefix]. *)
Definition read_number (radix : Z) (max_digits : option nat) (allow_zero_prefix : bool) (max : Z) :
  Reader Z := λ s,
  match read_digits radix 0 0 s with
  | (result, count, rest) =>
      let has_leading_zero := match s with String c _ => Ascii.eqb c "0"%char | EmptyString => false end in
      if match max_digits with Some m => (m <? count)%nat | None => false end then None
      else if (count =? 0)%nat then None
      else if negb allow_zero_prefix && has_leading_zero && (1 <? count)%nat then None
      else if max <? result then None
      else Some (result, rest)
  end.
Definition U8_MAX : Z := 255.
Definition U16_MAX : Z := 65535.
Definition U32_MAX : Z := 4294967295.

(** [read_separator]: the separator before every element but the first. *)
Definition read_separator {A} (sep : Ascii.ascii) (index : nat) (inner : Reader A) : Reader A := λ s,
  if (0 <? index)%nat then r ← read_given_char sep s; inner r.2 else inner s.

Definition read_octet (i : nat) : Reader Z := read_separator "."%char i (read_number 10 (Some 3%nat) false U8_MAX).
Definition read_ipv4_addr : Reader (Z * Z * Z * Z) := λ s,
  a ← read_octet 0 s; b ← read_octet 1 a.2; c ← read_octet 2 b.2; d ← read_octet 3 c.2;
  Some (a.1, b.1, c.1, d.1, d.2).

(** [read_groups]: up to [left] more groups, the next being number [i]; the
    groups read, whether they end in an IPv4 address, and the rest. *)
Fixpoint read_groups (left i : nat) (s : string) : list Z * bool * string :=
  match left with
  | O => ([], false, s)
  | S left' =>
      match (if (0 <? left')%nat then read_separator ":"%char i read_ipv4_addr s else None) with
      | Some (one, two, three, four, rest) => ([one * 256 + two; three * 256 + four], true, rest)
      | None =>
          match read_separator ":"%char i (read_number 16 (Some 4%nat) true U16_MAX) s with
          | Some (g, rest) =>
              match read_groups left' (S i) rest with (gs, v4, rest') => (g :: gs, v4, rest') end
          | None => ([], false, s)
          end
      end
  end.
Definition read_ipv6_addr : Reader (list Z) := λ s,
  match read_groups 8 0 s with
  | (head, head_ipv4, rest) =>
      if (length head =? 8)%nat then Some (head, rest)
      else if head_ipv4 then None
      else
        c1 ← read_given_char ":"%char rest;
        c2 ← read_given_char ":"%char c1.2;
        match read_groups (8 - (length head + 1)) 0 c2.2 with
        | (tail, _, rest') =>
            Some (head ++ replicate (8 - length head - length tail) 0 ++ tail, rest')
        end
  end.

Definition read_port : Reader Z := λ s,
  c ← read_given_char ":"%char s; read_number 10 None true U16_MAX c.2.
Definition read_scope_id : Reader Z := λ s,
  c ← read_given_char "%"%char s; read_number 10 None true U32_MAX c.2.
Definition read_socket_addr_v4 : Reader SocketAddrV4 := λ s,
  ip ← read_ipv4_addr s; port ← read_port ip.2; Some (mkSocketAddrV4 ip.1 port.1, port.2).
Definition read_socket_addr_v6 : Reader SocketAddrV6 := λ s,
  o ← read_given_char "["%char s;
  ip ← read_ipv6_addr o.2;
  let sc := match read_scope_id ip.2 with Some r => r | None => (0, ip.2) end in
  c ← read_given_char "]"%char sc.2;
  port ← read_port c.2;
  Some (mkSocketAddrV6 ip.1 port.1 sc.1, port.2).
Definition read_socket_addr : Reader SocketAddr := λ s,
  match read_socket_addr_v4 s with
  | Some (a, rest) => Some (V4 a, rest)
  | None => r ← read_socket_addr_v6 s; Some (V6 r.1, r.2)
  end.

(** [<SocketAddr as FromStr>::from_str]: the whole input is an address. *)
Definition parse_socket_addr (s : string) : outcome AddrParseError SocketAddr :=
  match read_socket_addr s with
  | Some (a, EmptyString) => Ok a
  | _ => Err AddrKind_Socket
  end.

(** [Display] of an IPv4 socket address. *)
Definition show_v4 (a : SocketAddrV4) : string :=
  match v4_octets a with
  | (o1, o2, o3, o4) =>
      pretty o1 +:+ "." +:+ pretty o2 +:+ "." +:+ pretty o3 +:+ "." +:+ pretty o4 +:+ ":" +:+ pretty (v4_port a)
  end%string.
Definition v4_in_range (a : SocketAddrV4) : Prop :=
  match v4_octets a with
  | (o1, o2, o3, o4) => 0 ≤ o1 ≤ U8_MAX ∧ 0 ≤ o2 ≤ U8_MAX ∧ 0 ≤ o3 ≤ U8_MAX ∧ 0 ≤ o4 ≤ U8_MAX ∧
                        0 ≤ v4_port a ≤ U16_MAX
  end.

(** * Reading back what was printed *)
(** [s] does not go on with a digit. *)
Definition no_digit (radix : Z) (s : string) : Prop :=
  match s with String c _ => to_digit radix c = None | EmptyString => True end.
Lemma read_digits_app radix s rest : no_digit radix rest →
  ∀ r c v k, read_digits radix r c s = (v, k, ""%string) →
  read_digits radix r c (s +:+ rest)%string = (v, k, rest).
Proof.
  intros Hn. induction s as [|a s IH]; intros r c v k; cbn.
  - intros [= <- <-]. rewrite append_nil. destruct rest as [|a rest]; cbn; [done|]. by rewrite Hn.
  - rewrite append_cons. cbn. destruct (to_digit radix a); [apply IH|done].
Qed.
(** [n] prints as [k] digits without a leading zero, which read as [n]. *)
Definition prints_back (max_digits : nat) (n : Z) : bool :=
  match read_digits 10 0 0 (pretty n) with
  | (v, k, EmptyString) =>
      (v =? n) && (0 <? k)%nat && (k <=? max_digits)%nat &&
      ((k =? 1)%nat || negb (starts_with "0" (pretty n)))
  | _ => false
  end.
Lemma prints_back_all m k : forallb (prints_back k) (seqZ 0 m) = true → ∀ n, 0 ≤ n < m → prints_back k n = true.
Proof. rewrite forallb_forall. intros H n Hn. apply H, list_elem_of_In, elem_of_seqZ. lia. Qed.
Lemma octet_prints_back n : 0 ≤ n ≤ U8_MAX → prints_back 3 n = true.
Proof. intros Hn. apply (prints_back_all 256); [vm_compute; reflexivity|]. unfold U8_MAX in Hn. lia. Qed.

Lemma to_digit_char x : (x < 10)%N → to_digit 10 (pretty_N_char x) = Some (Z.of_N x).
Proof.
  intros Hx. assert (x = 0 ∨ x = 1 ∨ x = 2 ∨ x = 3 ∨ x = 4 ∨ x = 5 ∨ x = 6 ∨ x = 7 ∨ x = 8 ∨ x = 9)%N
    as Hc by lia. by destruct_or! Hc; subst.
Qed.
(** The digits of a positive number, read back. *)
Lemma read_digits_pretty x s r c :
  ∃ k, ((0 < x)%N → (0 < k)%nat) ∧
    read_digits 10 r c (pretty_N_go x s) = read_digits 10 (r * 10 ^ Z.of_nat k + Z.of_N x) (c + k) s.
Proof.
  revert s r c. induction (N.lt_wf_0 x) as [x _ IH]; intros s r c. destruct (decide (x = 0%N)) as [->|Hx].
  - exists 0%nat. split; [lia|]. rewrite pretty_N_go_0. f_equal; lia.
  - rewrite pretty_N_go_step by lia. pose proof (N.div_mod x 10 ltac:(lia)). pose proof (N.mod_lt x 10 ltac:(lia)).
    destruct (IH (x `div` 10)%N ltac:(apply N.div_lt; lia) (String (pretty_N_char (x `mod` 10)) s) r c)
      as (k & _ & Hk).
    exists (S k). split; [lia|]. rewrite Hk. cbn [read_digits]. rewrite to_digit_char by done.
    f_equal; [|lia]. rewrite Nat2Z.inj_succ, Z.pow_succ_r by lia. lia.
Qed.

Lemma read_number_prints k m azp max n rest :
  prints_back k n = true → match m with Some m => (k ≤ m)%nat | None => True end → n ≤ max →
  no_digit 10 rest → read_number 10 m azp max (pretty n +:+ rest)%string = Some (n, rest).
Proof.
  intros Hb Hm Hmax Hr. unfold prints_back in Hb.
  destruct (read_digits 10 0 0 (pretty n)) as [[v c] r] eqn:Hd. destruct r; [|done].
  rewrite !andb_true_iff in Hb. destruct Hb as [[[Hv Hc] Hk] Hz].
  unfold read_number. rewrite (read_digits_app _ _ _ Hr _ _ _ _ Hd).
  apply Z.eqb_eq in Hv as ->. apply Nat.ltb_lt in Hc. apply Nat.leb_le in Hk.
  replace (match m with Some m0 => (m0 <? c)%nat | None => false end) with false
    by (destruct m; [symmetry; apply Nat.ltb_ge; lia|done]).
  replace (c =? 0)%nat with false by (symmetry; apply Nat.eqb_neq; lia).
  replace (max <? n) with false by (symmetry; apply Z.ltb_ge; lia).
  destruct (pretty n) as [|a t]; [cbn in Hd; injection Hd as _ <- ; lia|].
  apply orb_true_iff in Hz as [->%Nat.eqb_eq|Hz]; [by rewrite andb_false_r|].
  destruct (Ascii.eqb a "0"%char) eqn:Ha.
  - apply Ascii.eqb_eq in Ha as ->. done.
  - rewrite append_cons. cbn. by rewrite Ha, andb_false_r.
Qed.

Lemma read_octet_first n rest :
  0 ≤ n ≤ U8_MAX → no_digit 10 rest → read_octet 0 (pretty n +:+ rest)%string = Some (n, rest).
Proof. intros Hn Hr. apply (read_number_prints 3); [by apply octet_prints_back|done|lia|done]. Qed.
Lemma read_octet_next i n rest :
  0 ≤ n ≤ U8_MAX → no_digit 10 rest → read_octet (S i) ("." +:+ pretty n +:+ rest)%string = Some (n, rest).
Proof. intros Hn Hr. apply (read_number_prints 3); [by apply octet_prints_back|done|lia|done]. Qed.


Lemma read_port_prints n : 0 ≤ n ≤ U16_MAX → read_port (":" +:+ pretty n)%string = Some (n, ""%string).
Proof.
  intros Hn. change (read_number 10 None true U16_MAX (pretty n) = Some (n, ""%string)).
  destruct n as [|p|p]; [done| |lia]. unfold read_number.
  destruct (read_digits_pretty (Npos p) "" 0 0) as (k & Hk & Hd).
  change (pretty (Zpos p)) with (pretty_N_go (Npos p) ""). rewrite Hd. cbn [read_digits].
  replace (0 + k =? 0)%nat with false by (symmetry; apply Nat.eqb_neq; lia). cbn [negb andb].
  replace (0 * 10 ^ Z.of_nat k + Z.of_N (Npos p)) with (Zpos p) by lia.
  by replace (U16_MAX <? Zpos p) with false by (symmetry; apply Z.ltb_ge; lia).
Qed.

(** Every IPv4 socket address is read back from its text. *)
Lemma parse_show_v4 a : v4_in_range a → parse_socket_addr (show_v4 a) = Ok (V4 a).
Proof.
  destruct a as [[[[o1 o2] o3] o4] port]. unfold v4_in_range. cbn [v4_octets v4_port].
  intros (H1 & H2 & H3 & H4 & Hp).
  unfold parse_socket_addr, read_socket_addr, read_socket_addr_v4, read_ipv4_addr, show_v4.
  cbn [v4_octets v4_port]. rewrite read_octet_first by done. cbn [mbind option_bind snd fst].
  rewrite !read_octet_next by done. cbn [mbind option_bind snd fst].
  rewrite read_octet_next by done. cbn [mbind option_bind snd fst].
  rewrite read_octet_next by done. cbn [mbind option_bind snd fst].
  rewrite read_port_prints by done. done.
Qed.

(** * Whatever is read is in range *)
Definition in_range (a : SocketAddr) : Prop :=
  match a with
  | V4 a => v4_in_range a
  | V6 a => length (v6_segments a) = 8%nat ∧ Forall (λ g, 0 ≤ g ≤ U16_MAX) (v6_segments a) ∧
            0 ≤ v6_port a ≤ U16_MAX ∧ 0 ≤ v6_scope_id a ≤ U32_MAX
  end.

Lemma to_digit_nonneg radix c d : to_digit radix c = Some d → 0 ≤ d.
Proof.
  unfold to_digit. intros (v & Hv & Hd)%bind_Some. destruct (v <? radix); [|done]. injection Hd as <-.
  repeat case_match; simplify_eq; rewrite ?andb_true_iff, ?Z.leb_le in *; lia.
Qed.
Lemma read_digits_nonneg radix s r c : 0 ≤ radix → 0 ≤ r → 0 ≤ (read_digits radix r c s).1.1.
Proof.
  intros Hx. revert r c. induction s as [|a s IH]; intros r c Hr; cbn; [done|].
  destruct (to_digit radix a) as [d|] eqn:Hd; [|done]. apply IH. apply to_digit_nonneg in Hd. nia.
Qed.
Lemma read_number_range radix m azp max s v rest :
  0 ≤ radix → read_number radix m azp max s = Some (v, rest) → 0 ≤ v ≤ max.
Proof.
  intros Hx. unfold read_number. pose proof (read_digits_nonneg radix s 0 0 Hx ltac:(done)) as Hn.
  destruct (read_digits radix 0 0 s) as [[x k] r]. cbn in Hn.
  destruct (match m with Some _ => _ | None => _ end), (k =? 0)%nat; try done.
  destruct (negb azp && _ && _); [done|]. destruct (Z.ltb_spec max x); [done|]. intros [= <- _]. lia.
Qed.
Lemma read_separator_inv {A} sep i (inner : Reader A) s x :
  read_separator sep i inner s = Some x → ∃ s', inner s' = Some x.
Proof. unfold read_separator. case_match; [intros (? & _ & ?)%bind_Some|]; eauto. Qed.
Lemma read_octet_range i s v rest : read_octet i s = Some (v, rest) → 0 ≤ v ≤ U8_MAX.
Proof. intros [s' H]%read_separator_inv. by eapply read_number_range in H. Qed.
Lemma read_ipv4_range s a b c d rest :
  read_ipv4_addr s = Some (a, b, c, d, rest) →
  0 ≤ a ≤ U8_MAX ∧ 0 ≤ b ≤ U8_MAX ∧ 0 ≤ c ≤ U8_MAX ∧ 0 ≤ d ≤ U8_MAX.
Proof.
  intros ([] & H1 & ([] & H2 & ([] & H3 & ([] & H4 & H)%bind_Some)%bind_Some)%bind_Some)%bind_Some.
  injection H as <- <- <- <- _. eauto 10 using read_octet_range.
Qed.
Lemma read_groups_range left : ∀ i s gs v4 rest,
  read_groups left i s = (gs, v4, rest) → (length gs ≤ left)%nat ∧ Forall (λ g, 0 ≤ g ≤ U16_MAX) gs.
Proof.
  induction left as [|left IH]; intros i s gs v4 rest; cbn [read_groups]; [by intros [= <- _ _]|].
  destruct (if (0 <? left)%nat then _ else None) as [[[[[a b] c] d] r]|] eqn:H4.
  - destruct (Nat.ltb_spec 0 left); [|done]. apply read_separator_inv in H4 as [s' H4].
    apply read_ipv4_range in H4. unfold U8_MAX, U16_MAX in *. intros [= <- _ _]. cbn.
    split; [lia|]. repeat constructor; lia.
  - clear H4. destruct (read_separator ":" i (read_number 16 (Some 4%nat) true U16_MAX) s)
      as [[g r]|] eqn:Hg; [|intros [= <- _ _]; split; [cbn; lia|done]].
    apply read_separator_inv in Hg as [s' Hg]. apply read_number_range in Hg; [|done].
    destruct (read_groups left (S i) r) as [[gs' v4'] r'] eqn:Hr. intros [= <- _ _].
    destruct (IH _ _ _ _ _ Hr) as [? ?]. split; [cbn; lia|by constructor].
Qed.
Lemma read_ipv6_range s gs rest :
  read_ipv6_addr s = Some (gs, rest) → length gs = 8%nat ∧ Forall (λ g, 0 ≤ g ≤ U16_MAX) gs.
Proof.
  unfold read_ipv6_addr. destruct (read_groups 8 0 s) as [[hd v4] r] eqn:Hh.
  apply read_groups_range in Hh as [Hl Hf]. destruct (Nat.eqb_spec (length hd) 8); [by intros [= <- _]|].
  destruct v4; [done|]. intros (c1 & _ & (c2 & _ & H)%bind_Some)%bind_Some.
  destruct (read_groups _ 0 c2.2) as [[tl v4'] r'] eqn:Ht. apply read_groups_range in Ht as [Htl Htf].
  injection H as <- _. rewrite !length_app, length_replicate. split; [lia|].
  repeat apply Forall_app_2; try done. by apply Forall_replicate.
Qed.
Lemma read_port_range s v rest : read_port s = Some (v, rest) → 0 ≤ v ≤ U16_MAX.
Proof. intros (c & _ & H)%bind_Some. by apply read_number_range in H. Qed.
Lemma read_scope_id_range s v rest : read_scope_id s = Some (v, rest) → 0 ≤ v ≤ U32_MAX.
Proof. intros (c & _ & H)%bind_Some. by apply read_number_range in H. Qed.

(** A parsed address has octets, segments, port and scope of their widths, and
    an IPv6 address has eight segments. *)
Lemma parse_socket_addr_range s a : parse_socket_addr s = Ok a → in_range a.
Proof.
  unfold parse_socket_addr, read_socket_addr. destruct (read_socket_addr_v4 s) as [[x r]|] eqn:H4.
  - destruct r; [|done]. intros [= <-].
    apply bind_Some in H4 as ([[[[o1 o2] o3] o4] r1] & H1%read_ipv4_range & H).
    apply bind_Some in H as ([p r2] & H2%read_port_range & [= <- _]).
    destruct H1 as (? & ? & ? & ?). unfold in_range, v4_in_range. cbn [v4_octets v4_port]. split_and!; lia.
  - destruct (read_socket_addr_v6 s) as [[x r]|] eqn:H6; [|done]. cbn. destruct r; [|done]. intros [= <-].
    apply bind_Some in H6 as (o & _ & H). apply bind_Some in H as ([gs r1] & [H1 H2]%read_ipv6_range & H).
    apply bind_Some in H as (c & _ & H). apply bind_Some in H as ([p r2] & H3%read_port_range & [= <- _]).
    split; [done|]. split; [done|]. split; [done|]. cbn.
    destruct (read_scope_id r1) as [[sc r3]|] eqn:Hs; [by apply read_scope_id_range in Hs|done].
Qed.

(** * Examples *)
Example parse_default_listen : parse_socket_addr "0.0.0.0:8443" = Ok (V4 (mkSocketAddrV4 (0, 0, 0, 0) 8443)).
Proof. reflexivity. Qed.
Example parse_loopback_v6 :
  parse_socket_addr "[::1]:8443" = Ok (V6 (mkSocketAddrV6 [0; 0; 0; 0; 0; 0; 0; 1] 8443 0)).
Proof. reflexivity. Qed.
Example parse_mapped_v6 :
  parse_socket_addr "[fe80::ffff:10.0.0.7%2]:80" =
  Ok (V6 (mkSocketAddrV6 [0xfe80; 0; 0; 0; 0; 0xffff; 0x0a00; 7] 80 2)).
Proof. reflexivity. Qed.
Example parse_refuses :
  (λ s, is_ok (parse_socket_addr s)) <$>
    ["localhost:8443"; "0.0.0.0"; "10.0.0.1:65536"; "010.0.0.1:80"; "10.0.0.256:80"; "::1:8443";
     "[1:2:3:4:5:6:7:8::]:80"; "10.0.0.1:80 "; ""]%string
  = replicate 9 false.
Proof. reflexivity. Qed.
