(* ===== verification/Tss.v ===== *)
(** The interface of the [tss-esapi] crate and of the TPM behind it, as far as
    [src/src/tpm.rs] and [src/src/fleet.rs] call them.

    Neither the crate nor the TPM is part of the repository, so their types and
    functions are the fields of two operational classes, [TssData] (structures,
    builders, codecs) and [TssOps] (the [Context] methods, which act on a
    [World]: the TPM and the open ESAPI contexts of one host).  What the code
    relies on is stated in two law classes, [TssDataLaws] and [TpmSpec].  The
    laws of [TpmSpec] are triples over an abstract view of the TPM (loaded
    objects, persistent slots, sessions), one per command.  [SimTpm.v] gives a
    concrete world that satisfies all of them. *)
From S2P Require Import Prelude.

(** * Structures *)
(** ESAPI resource handles ([ESYS_TR]): [KeyHandle], [ObjectHandle] and
    [SessionHandle] are wrappers of it, and [.into()] converts between them. *)
Definition ESYS_TR : Type := N.
Abbreviation KeyHandle := ESYS_TR (only parsing).
Abbreviation ObjectHandle := ESYS_TR (only parsing).
(** The identity of one [tss_esapi::Context]. *)
Definition Ctx : Type := N.
(** A persistent TPM handle ([TPM2_HANDLE], a [u32]). *)
Definition PersistentTpmHandle : Type := Z.

#[export] Instance ESYS_TR_eq_dec : EqDecision ESYS_TR := _.
#[export] Instance ESYS_TR_countable : Countable ESYS_TR := _.
#[export] Instance Ctx_eq_dec : EqDecision Ctx := _.
#[export] Instance Ctx_countable : Countable Ctx := _.
#[export] Instance PersistentTpmHandle_eq_dec : EqDecision PersistentTpmHandle := _.
#[export] Instance PersistentTpmHandle_countable : Countable PersistentTpmHandle := _.

Inductive PublicAlgorithm := PublicAlgorithm_Rsa | PublicAlgorithm_KeyedHash.
Inductive HashingAlgorithm := HashingAlgorithm_Sha256.
Inductive Hierarchy := Hierarchy_Owner.
Inductive Provision := Provision_Owner.
Inductive SessionType := SessionType_Hmac | SessionType_Policy | SessionType_Trial.
Inductive CommandCode := CommandCode_Duplicate.
Inductive SymmetricDefinitionObject := AES_128_CFB.
Inductive RsaKeyBits := RsaKeyBits_Rsa2048.
Inductive RsaExponent := RsaExponent_default.
Inductive KeyedHashScheme := KeyedHashScheme_Null.
(** [PublicKeyRsa::default()] and [Digest::default()]. *)
Inductive UniqueIdentifier := PublicKeyRsa_default | Digest_default.

#[export] Instance SessionType_eq_dec : EqDecision SessionType.
Proof. solve_decision. Defined.

(** [TPMA_OBJECT]; the builder starts with every bit clear. *)
Record ObjectAttributes := mkObjectAttributes {
  fixed_tpm : bool;
  fixed_parent : bool;
  sensitive_data_origin : bool;
  user_with_auth : bool;
  attr_decrypt : bool;
  restricted : bool
}.

(** [TPMA_SESSION], the three bits the code sets. *)
Record SessionAttributes := mkSessionAttributes {
  continue_session : bool;
  sess_decrypt : bool;
  sess_encrypt : bool
}.

Inductive PublicParameters (Rsa : Type) :=
| RsaParameters (r : Rsa)
| KeyedHashParameters (s : KeyedHashScheme).
Arguments RsaParameters {Rsa} r.
Arguments KeyedHashParameters {Rsa} s.

(** The arguments given to a [PublicBuilder]; [with_auth_policy] is optional. *)
Record PublicBuilder (Digest Rsa : Type) := mkPublicBuilder {
  pb_public_algorithm : PublicAlgorithm;
  pb_name_hashing_algorithm : HashingAlgorithm;
  pb_object_attributes : ObjectAttributes;
  pb_auth_policy : option Digest;
  pb_parameters : PublicParameters Rsa;
  pb_unique_identifier : UniqueIdentifier
}.
Arguments mkPublicBuilder {Digest Rsa}.
Arguments pb_public_algorithm {Digest Rsa}.
Arguments pb_object_attributes {Digest Rsa}.
Arguments pb_auth_policy {Digest Rsa}.
Arguments pb_parameters {Digest Rsa}.
Arguments pb_unique_identifier {Digest Rsa}.

(** A builder whose algorithm, parameters and unique field are of one kind. *)
Definition pb_consistent {Digest Rsa} (b : PublicBuilder Digest Rsa) : Prop :=
  match pb_public_algorithm b, pb_parameters b, pb_unique_identifier b with
  | PublicAlgorithm_Rsa, RsaParameters _, PublicKeyRsa_default => True
  | PublicAlgorithm_KeyedHash, KeyedHashParameters _, Digest_default => True
  | _, _, _ => False
  end.

(** Raw [TPM2B_*] byte buffers: [TryFrom<Vec<u8>>] and [value()]. *)
Class Tpm2b (TssError T : Type) := {
  try_from : list byte → outcome TssError T;
  value : T → list byte
}.
Class Tpm2bLaws (TssError T : Type) `{Tpm2b TssError T} : Prop := {
  try_from_value (x : T) : try_from (value x) = Ok x;
  value_try_from bs (x : T) : try_from bs = Ok x → value x = bs;
  try_from_no_panic bs : no_panic (try_from bs)
}.

Class TssData := {
  TssError : Type;
  Public : Type;
  Private : Type;
  EncryptedSecret : Type;
  Data : Type;
  SensitiveData : Type;
  Digest : Type;
  PublicRsaParameters : Type;
  TctiNameConf : Type;
  private_2b :: Tpm2b TssError Private;
  encrypted_secret_2b :: Tpm2b TssError EncryptedSecret;
  data_2b :: Tpm2b TssError Data;
  sensitive_2b :: Tpm2b TssError SensitiveData;
  (** [Public::marshall], [Public::unmarshall]. *)
  marshall : Public → outcome TssError (list byte);
  unmarshall : list byte → outcome TssError Public;
  object_attributes : Public → ObjectAttributes;
  auth_policy : Public → option Digest;
  (** the [build()] of the three builders *)
  build_attributes : ObjectAttributes → outcome TssError ObjectAttributes;
  build_restricted_decryption_key :
    SymmetricDefinitionObject → RsaKeyBits → RsaExponent → outcome TssError PublicRsaParameters;
  build_public : PublicBuilder Digest PublicRsaParameters → outcome TssError Public;
  (** [PersistentTpmHandle::new], [TctiNameConf::from_str]. *)
  persistent_tpm_handle_new : Z → outcome TssError PersistentTpmHandle;
  tcti_from_str : string → outcome TssError TctiNameConf
}.

(** Attributes that no consistency rule of the builder or the TPM concerns. *)
Definition coherent_attributes (a : ObjectAttributes) : Prop :=
  fixed_tpm a = fixed_parent a ∧ restricted a = attr_decrypt a.

(** [MAX_SYM_DATA]: capacity of a [TPM2B_SENSITIVE_DATA]. *)
Definition MAX_SYM_DATA : nat := 128.

Class TssDataLaws `{D : TssData} : Prop := {
  private_laws :: Tpm2bLaws TssError Private;
  encrypted_secret_laws :: Tpm2bLaws TssError EncryptedSecret;
  data_laws :: Tpm2bLaws TssError Data;
  sensitive_laws :: Tpm2bLaws TssError SensitiveData;
  (** buffers of at most [MAX_SYM_DATA] bytes fit a [SensitiveData] *)
  sensitive_fits bs :
    (length bs ≤ MAX_SYM_DATA)%nat → ∃ sd : SensitiveData, try_from bs = Ok sd;
  (** a public area marshals to fewer than 2^16 bytes, its TPM2B size being a
      UINT16, and unmarshals back *)
  marshall_total p : ∃ bs, marshall p = Ok bs ∧ (Z.of_nat (length bs) < 2 ^ 16)
                           ∧ unmarshall bs = Ok p;
  unmarshall_no_panic bs : no_panic (unmarshall bs);
  build_attributes_ok a : coherent_attributes a → build_attributes a = Ok a;
  build_restricted_decryption_key_ok s k e :
    ∃ r, build_restricted_decryption_key s k e = Ok r;
  build_public_ok b :
    pb_consistent b →
    ∃ p, build_public b = Ok p ∧ object_attributes p = pb_object_attributes b
         ∧ auth_policy p = pb_auth_policy b;
  persistent_tpm_handle_new_ok z :
    0x81000000 ≤ z ≤ 0x81FFFFFF → persistent_tpm_handle_new z = Ok z
}.

(** * The [Context] methods *)
Class TssOps `{D : TssData} := {
  (** the TPM of one host and the ESAPI contexts open on it *)
  World : Type;
  AuthSession : Type;
  PolicySession : Type;
  (** [SessionHandle::from(session).into()] *)
  session_handle : AuthSession → ObjectHandle;
  policy_session_handle : PolicySession → ObjectHandle;
  policy_session_try_from : AuthSession → outcome TssError PolicySession;
  context_new : TctiNameConf → M World TssError Ctx;
  (** [Drop for Context]: its errors are only logged *)
  context_drop : Ctx → World → World;
  (** [E: From<Error>] is the first argument *)
  execute_with_nullauth_session {E A} : (TssError → E) → Ctx → M World E A → M World E A;
  execute_with_session {A} : Ctx → option AuthSession → M World TssError A → M World TssError A;
  execute_without_session {A} : Ctx → M World TssError A → M World TssError A;
  (** auth value, sensitive data, outside info and PCR selection are [None] *)
  create_primary : Ctx → Hierarchy → Public → M World TssError KeyHandle;
  (** public area, name, qualified name *)
  read_public : Ctx → KeyHandle → M World TssError (Public * list byte * list byte);
  create : Ctx → KeyHandle → Public → option SensitiveData →
           M World TssError (Private * Public);
  load : Ctx → KeyHandle → Private → Public → M World TssError KeyHandle;
  tpm_unseal : Ctx → ObjectHandle → M World TssError SensitiveData;
  flush_context : Ctx → ObjectHandle → M World TssError unit;
  start_auth_session : Ctx → SessionType → SymmetricDefinitionObject → HashingAlgorithm →
                       M World TssError (option AuthSession);
  (** attributes to set and the mask of the bits that change *)
  tr_sess_set_attributes : Ctx → AuthSession → SessionAttributes → SessionAttributes →
                           M World TssError unit;
  policy_command_code : Ctx → PolicySession → CommandCode → M World TssError unit;
  policy_get_digest : Ctx → PolicySession → M World TssError Digest;
  load_external_public : Ctx → Public → Hierarchy → M World TssError KeyHandle;
  duplicate : Ctx → ObjectHandle → ObjectHandle → option Data → SymmetricDefinitionObject →
              M World TssError (Data * Private * EncryptedSecret);
  import : Ctx → ObjectHandle → option Data → Public → Private → EncryptedSecret →
           SymmetricDefinitionObject → M World TssError Private;
  evict_control : Ctx → Provision → ObjectHandle → PersistentTpmHandle →
                  M World TssError ObjectHandle;
  tr_from_tpm_public : Ctx → PersistentTpmHandle → M World TssError ObjectHandle
}.

(** * The view of the TPM the laws speak about *)
Record Session (Digest : Type) := mkSession {
  sess_type : SessionType;
  sess_digest : Digest;
  sess_attributes : SessionAttributes
}.
Arguments mkSession {Digest}.
Arguments sess_type {Digest}.
Arguments sess_digest {Digest}.
Arguments sess_attributes {Digest}.

(** What an ESAPI handle denotes: a transient key, a key at a persistent slot,
    a loaded sealed-data object, a public area loaded externally, a session. *)
Inductive Obj (Public Digest Key : Type) :=
| OKey (k : Key)
| OPersistent (slot : PersistentTpmHandle) (k : Key)
| OSealed (d : list byte)
| OExternal (p : Public)
| OSession (s : Session Digest).
Arguments OKey {Public Digest Key} k.
Arguments OPersistent {Public Digest Key} slot k.
Arguments OSealed {Public Digest Key} d.
Arguments OExternal {Public Digest Key} p.
Arguments OSession {Public Digest Key} s.

Record TpmView (Public Digest Key Seed : Type) := mkView {
  v_seed : Seed;
  v_persistent : gmap PersistentTpmHandle Key;
  v_objs : gmap (Ctx * ESYS_TR) (Obj Public Digest Key);
  (** the open contexts, each with its ambient session *)
  v_ambient : gmap Ctx (option ESYS_TR)
}.
Arguments mkView {Public Digest Key Seed}.
Arguments v_seed {Public Digest Key Seed}.
Arguments v_persistent {Public Digest Key Seed}.
Arguments v_objs {Public Digest Key Seed}.
Arguments v_ambient {Public Digest Key Seed}.

Section View.
Context {Public Digest Key Seed : Type}.
Implicit Types v : TpmView Public Digest Key Seed.

Definition with_objs (f : gmap (Ctx * ESYS_TR) (Obj Public Digest Key) →
                          gmap (Ctx * ESYS_TR) (Obj Public Digest Key)) v :=
  mkView (v_seed v) (v_persistent v) (f (v_objs v)) (v_ambient v).
Definition with_persistent (f : gmap PersistentTpmHandle Key → gmap PersistentTpmHandle Key) v :=
  mkView (v_seed v) (f (v_persistent v)) (v_objs v) (v_ambient v).
Definition with_ambient (c : Ctx) (s : option (option ESYS_TR)) v :=
  mkView (v_seed v) (v_persistent v) (v_objs v) (partial_alter (λ _, s) c (v_ambient v)).
(** [Context::new] opens a context without an ambient session. *)
Definition open_context (c : Ctx) v := with_ambient c (Some None) v.
(** Dropping a [Context] flushes or closes every handle it holds. *)
Definition close_context (c : Ctx) v :=
  with_objs (filter (λ e, e.1.1 ≠ c)) (with_ambient c None v).

Definition add_obj (c : Ctx) (h : ESYS_TR) (o : Obj Public Digest Key) v :=
  with_objs (insert (c, h) o) v.
Definition del_obj (c : Ctx) (h : ESYS_TR) v := with_objs (delete (c, h)) v.
Definition obj_at v (c : Ctx) (h : ESYS_TR) := v_objs v !! (c, h).
(** A context that is not open and holds no handle. *)
Definition fresh_context v (c : Ctx) : Prop :=
  v_ambient v !! c = None ∧ ∀ h, obj_at v c h = None.

(** The key a handle stands for: transient, or at a slot that still holds it. *)
Definition key_at v (c : Ctx) (h : ESYS_TR) (k : Key) : Prop :=
  obj_at v c h = Some (OKey k) ∨
  ∃ slot, obj_at v c h = Some (OPersistent slot k) ∧ v_persistent v !! slot = Some k.

(** A command may rely on the ambient session of [c] for USER-role
    authorization, and the session outlives the command. *)
Definition user_session v (c : Ctx) : Prop :=
  ∃ h s, v_ambient v !! c = Some (Some h) ∧ obj_at v c h = Some (OSession s) ∧
         sess_type s = SessionType_Hmac ∧ continue_session (sess_attributes s) = true.

(** The ambient session of [c] is a policy session over digest [d]. *)
Definition policy_session_for v (c : Ctx) (h : ESYS_TR) (d : Digest) : Prop :=
  ∃ s, v_ambient v !! c = Some (Some h) ∧ obj_at v c h = Some (OSession s) ∧
       sess_type s = SessionType_Policy ∧ sess_digest s = d ∧
       continue_session (sess_attributes s) = true.
End View.

Definition masked (new mask old : bool) : bool := if mask then new else old.
(** [Esys_TRSess_SetAttributes]: bits outside the mask keep their value. *)
Definition set_masked (new mask old : SessionAttributes) : SessionAttributes :=
  mkSessionAttributes
    (masked (continue_session new) (continue_session mask) (continue_session old))
    (masked (sess_decrypt new) (sess_decrypt mask) (sess_decrypt old))
    (masked (sess_encrypt new) (sess_encrypt mask) (sess_encrypt old)).

(** Opening and closing the session of [execute_with_nullauth_session]. *)
Definition open_session {P G K S} (c : Ctx) (h : ESYS_TR) (s : Session G)
  (v : TpmView P G K S) : TpmView P G K S :=
  with_ambient c (Some (Some h)) (add_obj c h (OSession s) v).
Definition close_session {P G K S} (c : Ctx) (h : ESYS_TR) (a : option (option ESYS_TR))
  (v : TpmView P G K S) : TpmView P G K S :=
  with_ambient c a (del_obj c h v).

(** The attributes of a storage parent that holds generated key material. *)
Definition storage_attributes (a : ObjectAttributes) : Prop :=
  sensitive_data_origin a = true ∧ user_with_auth a = true ∧
  attr_decrypt a = true ∧ restricted a = true.

(** * What the code relies on of the TPM

    [TpmModel] is the view of a world.  [Key] identifies key material (a private
    key with its public area),
    [seals k priv pub d] says that the blob pair is sealed data [d] protected
    by storage key [k], [wraps_key t priv pub k] that it is key [k] protected
    by [t], and [duplicates p enc dup sec k] that the triple is a duplicate of
    [k] for the new parent whose public area is [p].  [loadable p] says that the
    TPM accepts [p] in TPM2_LoadExternal (a supported, consistent public area) and
    [storage_parent p] that it is the public area of a storage key, which
    TPM2_Duplicate requires of a new parent.  [ready] holds of a TPM that answers
    commands (and on which a context can be opened); [capacity] bounds the handles
    open at once. *)
Class TpmModel `{O : TssOps} := {
  Key : Type;
  Seed : Type;
  view : World → TpmView Public Digest Key Seed
}.

Class TpmSpec `{TM : TpmModel} := {
  public_of : Key → Public;
  name_of : Public → list byte;
  primary_key : Seed → Public → Key;
  policy_zero : Digest;
  policy_extend : Digest → CommandCode → Digest;
  seals : Key → Private → Public → list byte → Prop;
  wraps_key : Key → Private → Public → Key → Prop;
  duplicates : Public → Data → Private → EncryptedSecret → Key → Prop;
  loadable : Public → bool;
  storage_parent : Public → bool;
  capacity : nat;
  ready : World → Prop;
  room (n : nat) (w : World) : Prop := (size (v_objs (view w)) + n ≤ capacity)%nat;

  (** a primary key carries its template's attributes and policy *)
  primary_key_attributes sd p :
    object_attributes (public_of (primary_key sd p)) = object_attributes p ∧
    auth_policy (public_of (primary_key sd p)) = auth_policy p;
  (** and one with the attributes of a storage key can be a new parent *)
  primary_key_storage sd p :
    storage_attributes (object_attributes p) →
    loadable (public_of (primary_key sd p)) = true ∧
    storage_parent (public_of (primary_key sd p)) = true;

  context_new_spec t w :
    ready w →
    run (context_new t) w (λ c w', ready w' ∧ fresh_context (view w) c ∧
      view w' = open_context c (view w));
  context_drop_spec c w :
    ready w → ready (context_drop c w) ∧ view (context_drop c w) = close_context c (view w);
  nullauth_spec {E A} (conv : TssError → E) c (f : M World E A) w :
    ready w → room 1 w →
    ∃ h s w1, ready w1 ∧ obj_at (view w) c h = None ∧ sess_type s = SessionType_Hmac ∧
      continue_session (sess_attributes s) = true ∧ view w1 = open_session c h s (view w) ∧
      ∀ r w2, f w1 = (r, w2) → r ≠ Panic → ready w2 → is_Some (obj_at (view w2) c h) →
        ∃ w3, execute_with_nullauth_session conv c f w = (r, w3) ∧ ready w3 ∧
              view w3 = close_session c h (v_ambient (view w) !! c) (view w2);
  with_session_spec {A} c s (f : M World TssError A) w :
    ready w →
    ∃ w1, ready w1 ∧ view w1 = with_ambient c (Some (Some (session_handle s))) (view w) ∧
      ∀ r w2, f w1 = (r, w2) → r ≠ Panic → ready w2 →
        ∃ w3, execute_with_session c (Some s) f w = (r, w3) ∧ ready w3 ∧
              view w3 = with_ambient c (v_ambient (view w) !! c) (view w2);
  without_session_spec {A} c (f : M World TssError A) w :
    ready w →
    ∃ w1, ready w1 ∧ view w1 = with_ambient c (Some None) (view w) ∧
      ∀ r w2, f w1 = (r, w2) → r ≠ Panic → ready w2 →
        ∃ w3, execute_without_session c f w = (r, w3) ∧ ready w3 ∧
              view w3 = with_ambient c (v_ambient (view w) !! c) (view w2);

  (** TPM2_CreatePrimary derives the key from the hierarchy seed and the template *)
  create_primary_spec c p w :
    ready w → room 1 w → user_session (view w) c → storage_attributes (object_attributes p) →
    run (create_primary c Hierarchy_Owner p) w (λ h w', ready w' ∧ obj_at (view w) c h = None ∧
      view w' = add_obj c h (OKey (primary_key (v_seed (view w)) p)) (view w));
  read_public_spec c h k w :
    ready w → key_at (view w) c h k →
    run (read_public c h) w (λ r w', ready w' ∧ view w' = view w ∧
      r.1 = (public_of k, name_of (public_of k)));
  (** TPM2_Create of sealed data: a fixedTPM child needs a fixedTPM parent *)
  create_spec c h k p sd w :
    ready w → user_session (view w) c → key_at (view w) c h k →
    sensitive_data_origin (object_attributes p) = false →
    (fixed_tpm (object_attributes p) = true →
     fixed_tpm (object_attributes (public_of k)) = true) →
    run (create c h p (Some sd)) w (λ r w', ready w' ∧ view w' = view w ∧
      seals k r.1 r.2 (value sd));
  create_inconsistent c h k p sd w :
    ready w → key_at (view w) c h k → fixed_tpm (object_attributes p) = true →
    fixed_tpm (object_attributes (public_of k)) = false →
    fails (create c h p sd) w (λ _ w', ready w' ∧ view w' = view w);
  load_sealed_spec c h k priv pub d w :
    ready w → room 1 w → user_session (view w) c → key_at (view w) c h k → seals k priv pub d →
    run (load c h priv pub) w (λ o w', ready w' ∧ obj_at (view w) c o = None ∧
      view w' = add_obj c o (OSealed d) (view w));
  load_key_spec c h t priv pub k w :
    ready w → room 1 w → user_session (view w) c → key_at (view w) c h t →
    wraps_key t priv pub k →
    run (load c h priv pub) w (λ o w', ready w' ∧ obj_at (view w) c o = None ∧
      view w' = add_obj c o (OKey k) (view w));
  unseal_spec c h d w :
    ready w → user_session (view w) c → obj_at (view w) c h = Some (OSealed d) →
    run (tpm_unseal c h) w (λ sd w', ready w' ∧ view w' = view w ∧ value sd = d);
  unseal_key_fails c h k w :
    ready w → obj_at (view w) c h = Some (OKey k) →
    fails (tpm_unseal c h) w (λ _ w', ready w' ∧ view w' = view w);
  flush_spec c h o w :
    ready w → obj_at (view w) c h = Some o → (∀ sl k, o ≠ OPersistent sl k) →
    run (flush_context c h) w (λ _ w', ready w' ∧ view w' = del_obj c h (view w));
  flush_persistent_fails c h sl k w :
    ready w → obj_at (view w) c h = Some (OPersistent sl k) →
    fails (flush_context c h) w (λ _ w', ready w' ∧ view w' = view w);

  start_auth_session_spec c ty w :
    ready w → room 1 w →
    run (start_auth_session c ty AES_128_CFB HashingAlgorithm_Sha256) w (λ r w',
      ∃ s a, r = Some s ∧ ready w' ∧ obj_at (view w) c (session_handle s) = None ∧
        view w' = add_obj c (session_handle s) (OSession (mkSession ty policy_zero a)) (view w) ∧
        (ty ≠ SessionType_Hmac → ∃ ps, policy_session_try_from s = Ok ps ∧
                                      policy_session_handle ps = session_handle s));
  tr_sess_set_attributes_spec c s ses a m w :
    ready w → obj_at (view w) c (session_handle s) = Some (OSession ses) →
    run (tr_sess_set_attributes c s a m) w (λ _ w', ready w' ∧
      view w' = add_obj c (session_handle s)
        (OSession (mkSession (sess_type ses) (sess_digest ses)
                             (set_masked a m (sess_attributes ses)))) (view w));
  policy_command_code_spec c ps ses cc w :
    ready w → obj_at (view w) c (policy_session_handle ps) = Some (OSession ses) →
    sess_type ses ≠ SessionType_Hmac →
    run (policy_command_code c ps cc) w (λ _ w', ready w' ∧
      view w' = add_obj c (policy_session_handle ps)
        (OSession (mkSession (sess_type ses) (policy_extend (sess_digest ses) cc)
                             (sess_attributes ses))) (view w));
  policy_get_digest_spec c ps ses w :
    ready w → obj_at (view w) c (policy_session_handle ps) = Some (OSession ses) →
    sess_type ses ≠ SessionType_Hmac →
    run (policy_get_digest c ps) w (λ d w', ready w' ∧ view w' = view w ∧ d = sess_digest ses);

  (** TPM2_LoadExternal checks the public area it is given *)
  load_external_public_spec c p w :
    ready w → room 1 w → v_ambient (view w) !! c = Some None → loadable p = true →
    run (load_external_public c p Hierarchy_Owner) w (λ h w', ready w' ∧
      obj_at (view w) c h = None ∧ view w' = add_obj c h (OExternal p) (view w));
  load_external_public_refused c p w :
    ready w → v_ambient (view w) !! c = Some None → loadable p = false →
    fails (load_external_public c p Hierarchy_Owner) w (λ _ w', ready w' ∧ view w' = view w);
  (** TPM2_Duplicate: ADMIN role, so a policy session over the object's own
      authPolicy; the object must be neither fixedTPM nor fixedParent; a new
      parent that is no storage key is TPM_RC_TYPE.  The policy session is reset
      by its use. *)
  duplicate_spec c h k e p sh d w :
    ready w → key_at (view w) c h k → obj_at (view w) c e = Some (OExternal p) →
    policy_session_for (view w) c sh d → auth_policy (public_of k) = Some d →
    fixed_tpm (object_attributes (public_of k)) = false →
    fixed_parent (object_attributes (public_of k)) = false →
    storage_parent p = true →
    run (duplicate c h e None AES_128_CFB) w (λ r w', ready w' ∧
      duplicates p r.1.1 r.1.2 r.2 k ∧
      ∃ s', view w' = add_obj c sh (OSession s') (view w));
  duplicate_refused c h k e p sh d w :
    ready w → key_at (view w) c h k → obj_at (view w) c e = Some (OExternal p) →
    policy_session_for (view w) c sh d → storage_parent p = false →
    fails (duplicate c h e None AES_128_CFB) w (λ _ w', ready w' ∧
      ∃ s', view w' = add_obj c sh (OSession s') (view w));
  import_spec c h t enc dup sec k w :
    ready w → user_session (view w) c → key_at (view w) c h t →
    duplicates (public_of t) enc dup sec k →
    run (import c h (Some enc) (public_of k) dup sec AES_128_CFB) w (λ priv w', ready w' ∧
      view w' = view w ∧ wraps_key t priv (public_of k) k);

  (** TPM2_EvictControl: a transient key goes to an empty slot, a persistent
      one is removed, an occupied slot is refused *)
  evict_control_persist c h k sl w :
    ready w → room 1 w → user_session (view w) c → obj_at (view w) c h = Some (OKey k) →
    v_persistent (view w) !! sl = None →
    run (evict_control c Provision_Owner h sl) w (λ h' w', ready w' ∧
      obj_at (view w) c h' = None ∧
      view w' = add_obj c h' (OPersistent sl k) (with_persistent (insert sl k) (view w)));
  evict_control_remove c h k sl w :
    ready w → user_session (view w) c → obj_at (view w) c h = Some (OPersistent sl k) →
    v_persistent (view w) !! sl = Some k →
    run (evict_control c Provision_Owner h sl) w (λ _ w', ready w' ∧
      view w' = del_obj c h (with_persistent (delete sl) (view w)));
  evict_control_occupied c h k k' sl w :
    ready w → obj_at (view w) c h = Some (OKey k) → v_persistent (view w) !! sl = Some k' →
    fails (evict_control c Provision_Owner h sl) w (λ _ w', ready w' ∧ view w' = view w);
  tr_from_tpm_public_spec c sl k w :
    ready w → room 1 w → v_persistent (view w) !! sl = Some k →
    run (tr_from_tpm_public c sl) w (λ h w', ready w' ∧ obj_at (view w) c h = None ∧
      view w' = add_obj c h (OPersistent sl k) (view w));
  tr_from_tpm_public_empty c sl w :
    ready w → v_persistent (view w) !! sl = None →
    fails (tr_from_tpm_public c sl) w (λ _ w', ready w' ∧ view w' = view w)
}.

Arguments room {D O TM TpmSpec} n w : rename.

(** * Reasoning about views *)
Section ViewLemmas.
Context {P G K S : Type}.
Implicit Types (v : TpmView P G K S) (o : Obj P G K).

Lemma view_ext v v' :
  v_seed v = v_seed v' → v_persistent v = v_persistent v' → v_objs v = v_objs v' →
  v_ambient v = v_ambient v' → v = v'.
Proof. destruct v, v'; simpl; congruence. Qed.

Lemma obj_at_add_eq c h o v : obj_at (add_obj c h o v) c h = Some o.
Proof. apply lookup_insert_eq. Qed.
Lemma obj_at_add_ne c h c' h' o v :
  (c, h) ≠ (c', h') → obj_at (add_obj c h o v) c' h' = obj_at v c' h'.
Proof. apply lookup_insert_ne. Qed.
Lemma obj_at_del_eq c h v : obj_at (del_obj c h v) c h = None.
Proof. apply lookup_delete_eq. Qed.
Lemma obj_at_del_ne c h c' h' v :
  (c, h) ≠ (c', h') → obj_at (del_obj c h v) c' h' = obj_at v c' h'.
Proof. apply lookup_delete_ne. Qed.
Lemma obj_at_with_ambient c a v c' h' : obj_at (with_ambient c a v) c' h' = obj_at v c' h'.
Proof. done. Qed.
Lemma obj_at_with_persistent f v c' h' : obj_at (with_persistent f v) c' h' = obj_at v c' h'.
Proof. done. Qed.
Lemma obj_at_open_eq c h s v : obj_at (open_session c h s v) c h = Some (OSession s).
Proof. apply lookup_insert_eq. Qed.
Lemma obj_at_open_ne c h s v c' h' :
  (c, h) ≠ (c', h') → obj_at (open_session c h s v) c' h' = obj_at v c' h'.
Proof. apply lookup_insert_ne. Qed.
Lemma fresh_ne c h c' h' o v :
  obj_at v c h = None → obj_at v c' h' = Some o → (c, h) ≠ (c', h').
Proof. intros H1 H2 [= -> ->]. congruence. Qed.
Lemma open_fresh c h s v h' :
  obj_at (open_session c h s v) c h' = None → (c, h) ≠ (c, h') ∧ obj_at v c h' = None.
Proof.
  intros H. assert ((c, h) ≠ (c, h')) as Hne.
  { intros [= ->]. by rewrite obj_at_open_eq in H. }
  split; [done|]. by rewrite obj_at_open_ne in H.
Qed.

Lemma user_session_open c h s v :
  sess_type s = SessionType_Hmac → continue_session (sess_attributes s) = true →
  user_session (open_session c h s v) c.
Proof.
  intros. exists h, s. split; [|by rewrite obj_at_open_eq].
  unfold open_session, with_ambient; simpl. by rewrite lookup_partial_alter_eq.
Qed.

Lemma key_at_open c h s v c' h' k :
  obj_at v c h = None → key_at v c' h' k → key_at (open_session c h s v) c' h' k.
Proof.
  intros Hf [Hk|(sl & Hk & Hp)]; [left|right; exists sl]; rewrite obj_at_open_ne; eauto using fresh_ne.
Qed.
Lemma key_at_add c h o v c' h' k :
  obj_at v c h = None → key_at v c' h' k → key_at (add_obj c h o v) c' h' k.
Proof.
  intros Hf [Hk|(sl & Hk & Hp)]; [left|right; exists sl]; rewrite obj_at_add_ne; eauto using fresh_ne.
Qed.
Lemma user_session_add c h o v c' :
  obj_at v c h = None → user_session v c' → user_session (add_obj c h o v) c'.
Proof.
  intros Hf (h' & s & ? & Hs & ?). exists h', s. rewrite obj_at_add_ne; eauto using fresh_ne.
Qed.

Lemma close_context_open c v : close_context c (open_context c v) = close_context c v.
Proof.
  apply view_ext; try done; simpl. apply map_eq. intros i.
  rewrite !lookup_partial_alter. by repeat case_decide.
Qed.
Lemma close_context_add c h o v : close_context c (add_obj c h o v) = close_context c v.
Proof. apply view_ext; try done; simpl. apply map_filter_insert_not. naive_solver. Qed.
Lemma close_context_del c h v : close_context c (del_obj c h v) = close_context c v.
Proof. apply view_ext; try done; simpl. apply map_filter_delete_not. naive_solver. Qed.
Lemma close_context_persistent c f v :
  close_context c (with_persistent f v) = with_persistent f (close_context c v).
Proof. done. Qed.
Lemma close_context_add_ne c c' h o v :
  c ≠ c' → close_context c (add_obj c' h o v) = add_obj c' h o (close_context c v).
Proof. intros. apply view_ext; try done; simpl. by apply map_filter_insert_True. Qed.
Lemma close_context_open_ne c c' v :
  c ≠ c' → close_context c (open_context c' v) = open_context c' (close_context c v).
Proof.
  intros. apply view_ext; try done; simpl. apply map_eq. intros i.
  rewrite !lookup_partial_alter. repeat case_decide; congruence.
Qed.
Lemma close_context_fresh c v : fresh_context v c → close_context c v = v.
Proof.
  intros [Ha Ho]. apply view_ext; try done; simpl.
  - apply map_filter_id. intros [c' h] o Hl Hc. simpl in Hc. subst. specialize (Ho h).
    unfold obj_at in Ho. congruence.
  - apply map_eq. intros i. rewrite lookup_partial_alter. case_decide; naive_solver.
Qed.
Lemma obj_at_close_context_ne c c' h v :
  c ≠ c' → obj_at (close_context c v) c' h = obj_at v c' h.
Proof.
  intros Hne. unfold obj_at, close_context. simpl. rewrite map_lookup_filter.
  destruct (v_objs v !! (c', h)); simpl; [|done]. by case_guard.
Qed.
Lemma size_close_context c v : (size (v_objs (close_context c v)) ≤ size (v_objs v))%nat.
Proof. apply map_subseteq_size, map_filter_subseteq. Qed.
Lemma fresh_context_ne v c c' : is_Some (v_ambient v !! c') → fresh_context v c → c ≠ c'.
Proof. intros [? ?] [? _] ->. congruence. Qed.

Lemma close_open c h s v :
  obj_at v c h = None → close_session c h (v_ambient v !! c) (open_session c h s v) = v.
Proof.
  intros Hf. apply view_ext; try done; simpl.
  - by rewrite delete_insert_id.
  - apply map_eq. intros i. rewrite !lookup_partial_alter. repeat case_decide; naive_solver.
Qed.
Lemma close_add c h a c' h' o v :
  (c, h) ≠ (c', h') →
  close_session c h a (add_obj c' h' o v) = add_obj c' h' o (close_session c h a v).
Proof. intros. apply view_ext; try done; simpl. by rewrite delete_insert_ne. Qed.
Lemma close_del c h a c' h' v :
  close_session c h a (del_obj c' h' v) = del_obj c' h' (close_session c h a v).
Proof. apply view_ext; try done; simpl. by rewrite delete_delete. Qed.
Lemma close_persistent c h a f v :
  close_session c h a (with_persistent f v) = with_persistent f (close_session c h a v).
Proof. done. Qed.
Lemma ambient_add c a c' h' o v :
  with_ambient c a (add_obj c' h' o v) = add_obj c' h' o (with_ambient c a v).
Proof. done. Qed.
Lemma ambient_del c a c' h' v :
  with_ambient c a (del_obj c' h' v) = del_obj c' h' (with_ambient c a v).
Proof. done. Qed.
Lemma ambient_restore c a v : with_ambient c (v_ambient v !! c) (with_ambient c a v) = v.
Proof.
  apply view_ext; try done; simpl. apply map_eq. intros i.
  rewrite !lookup_partial_alter. repeat case_decide; naive_solver.
Qed.
Lemma del_add c h o v : obj_at v c h = None → del_obj c h (add_obj c h o v) = v.
Proof. intros. apply view_ext; try done; simpl. by rewrite delete_insert_id. Qed.
Lemma add_persistent c h o f v :
  with_persistent f (add_obj c h o v) = add_obj c h o (with_persistent f v).
Proof. done. Qed.
Lemma with_persistent_delete_id sl v :
  v_persistent v !! sl = None → with_persistent (delete sl) v = v.
Proof. intros. apply view_ext; try done; simpl. by rewrite delete_id. Qed.
Lemma with_persistent_insert_id sl k v :
  v_persistent v !! sl = Some k → with_persistent (insert sl k) v = v.
Proof. intros. apply view_ext; try done; simpl. by rewrite insert_id. Qed.
Lemma with_persistent_insert_delete sl k v :
  with_persistent (insert sl k) (with_persistent (delete sl) v) = with_persistent (insert sl k) v.
Proof. apply view_ext; try done; simpl. by rewrite insert_delete_eq. Qed.
Lemma add_add c h o o' v : add_obj c h o (add_obj c h o' v) = add_obj c h o v.
Proof. apply view_ext; try done; simpl. by rewrite insert_insert_eq. Qed.
Lemma add_comm c h o c' h' o' v :
  (c, h) ≠ (c', h') →
  add_obj c h o (add_obj c' h' o' v) = add_obj c' h' o' (add_obj c h o v).
Proof. intros. apply view_ext; try done; simpl. by rewrite insert_insert_ne. Qed.

Lemma size_add_fresh c h o v :
  obj_at v c h = None → size (v_objs (add_obj c h o v)) = Datatypes.S (size (v_objs v)).
Proof. intros. by apply map_size_insert_None. Qed.
Lemma size_open c h s v :
  obj_at v c h = None → size (v_objs (open_session c h s v)) = Datatypes.S (size (v_objs v)).
Proof. intros. by apply map_size_insert_None. Qed.
End ViewLemmas.

(** * Derived rules for the session wrappers *)
Section Rules.
Context `{TS : TpmSpec}.

(** Inside [execute_with_nullauth_session]: the body runs in the view with a
    fresh HMAC session [h] open and ambient. *)
Definition in_nullauth (c : Ctx) (w : World) (h : ESYS_TR) (w1 : World) : Prop :=
  ready w1 ∧ obj_at (view w) c h = None ∧
  ∃ s, sess_type s = SessionType_Hmac ∧ continue_session (sess_attributes s) = true ∧
       view w1 = open_session c h s (view w).

Lemma run_nullauth {E A} (conv : TssError → E) c (f : M World E A) w (Q : A → World → Prop) :
  ready w → room 1 w →
  (∀ h w1, in_nullauth c w h w1 →
     run f w1 (λ a w2, ready w2 ∧ is_Some (obj_at (view w2) c h) ∧
       ∀ w3, ready w3 → view w3 = close_session c h (v_ambient (view w) !! c) (view w2) → Q a w3)) →
  run (execute_with_nullauth_session conv c f) w Q.
Proof.
  intros Hr Hroom Hf.
  destruct (nullauth_spec conv c f w Hr Hroom) as (h & s & w1 & H1 & H2 & H3 & H4 & H5 & Hfin).
  destruct (Hf h w1) as (a & w2 & Ha & Hr2 & Hs & HQ); [split_and!; eauto|].
  destruct (Hfin _ _ Ha) as (w3 & ? & ? & ?); [done..|]. exists a, w3. auto.
Qed.

Lemma fails_nullauth {E A} (conv : TssError → E) c (f : M World E A) w (Q : E → World → Prop) :
  ready w → room 1 w →
  (∀ h w1, in_nullauth c w h w1 →
     fails f w1 (λ a w2, ready w2 ∧ is_Some (obj_at (view w2) c h) ∧
       ∀ w3, ready w3 → view w3 = close_session c h (v_ambient (view w) !! c) (view w2) → Q a w3)) →
  fails (execute_with_nullauth_session conv c f) w Q.
Proof.
  intros Hr Hroom Hf.
  destruct (nullauth_spec conv c f w Hr Hroom) as (h & s & w1 & H1 & H2 & H3 & H4 & H5 & Hfin).
  destruct (Hf h w1) as (a & w2 & Ha & Hr2 & Hs & HQ); [split_and!; eauto|].
  destruct (Hfin _ _ Ha) as (w3 & ? & ? & ?); [done..|]. exists a, w3. auto.
Qed.

Lemma run_with_session {A} c s (f : M World TssError A) w (Q : A → World → Prop) :
  ready w →
  (∀ w1, ready w1 → view w1 = with_ambient c (Some (Some (session_handle s))) (view w) →
     run f w1 (λ a w2, ready w2 ∧
       ∀ w3, ready w3 → view w3 = with_ambient c (v_ambient (view w) !! c) (view w2) → Q a w3)) →
  run (execute_with_session c (Some s) f) w Q.
Proof.
  intros Hr Hf. destruct (with_session_spec c s f w Hr) as (w1 & H1 & H2 & Hfin).
  destruct (Hf w1 H1 H2) as (a & w2 & Ha & Hr2 & HQ).
  destruct (Hfin _ _ Ha) as (w3 & ? & ? & ?); [done..|]. exists a, w3. auto.
Qed.

Lemma fails_with_session {A} c s (f : M World TssError A) w (Q : TssError → World → Prop) :
  ready w →
  (∀ w1, ready w1 → view w1 = with_ambient c (Some (Some (session_handle s))) (view w) →
     fails f w1 (λ e w2, ready w2 ∧
       ∀ w3, ready w3 → view w3 = with_ambient c (v_ambient (view w) !! c) (view w2) → Q e w3)) →
  fails (execute_with_session c (Some s) f) w Q.
Proof.
  intros Hr Hf. destruct (with_session_spec c s f w Hr) as (w1 & H1 & H2 & Hfin).
  destruct (Hf w1 H1 H2) as (a & w2 & Ha & Hr2 & HQ).
  destruct (Hfin _ _ Ha) as (w3 & ? & ? & ?); [done..|]. exists a, w3. auto.
Qed.

Lemma run_without_session {A} c (f : M World TssError A) w (Q : A → World → Prop) :
  ready w →
  (∀ w1, ready w1 → view w1 = with_ambient c (Some None) (view w) →
     run f w1 (λ a w2, ready w2 ∧
       ∀ w3, ready w3 → view w3 = with_ambient c (v_ambient (view w) !! c) (view w2) → Q a w3)) →
  run (execute_without_session c f) w Q.
Proof.
  intros Hr Hf. destruct (without_session_spec c f w Hr) as (w1 & H1 & H2 & Hfin).
  destruct (Hf w1 H1 H2) as (a & w2 & Ha & Hr2 & HQ).
  destruct (Hfin _ _ Ha) as (w3 & ? & ? & ?); [done..|]. exists a, w3. auto.
Qed.

Lemma fails_without_session {A} c (f : M World TssError A) w (Q : TssError → World → Prop) :
  ready w →
  (∀ w1, ready w1 → view w1 = with_ambient c (Some None) (view w) →
     fails f w1 (λ e w2, ready w2 ∧
       ∀ w3, ready w3 → view w3 = with_ambient c (v_ambient (view w) !! c) (view w2) → Q e w3)) →
  fails (execute_without_session c f) w Q.
Proof.
  intros Hr Hf. destruct (without_session_spec c f w Hr) as (w1 & H1 & H2 & Hfin).
  destruct (Hf w1 H1 H2) as (a & w2 & Ha & Hr2 & HQ).
  destruct (Hfin _ _ Ha) as (w3 & ? & ? & ?); [done..|]. exists a, w3. auto.
Qed.

Lemma in_nullauth_room n c w h w1 : in_nullauth c w h w1 → room (S n) w → room n w1.
Proof.
  intros (_ & Hf & s & _ & _ & Hv). unfold room. rewrite Hv, size_open by done. lia.
Qed.
Lemma in_nullauth_user c w h w1 : in_nullauth c w h w1 → user_session (view w1) c.
Proof. intros (_ & _ & s & ? & ? & ->). by apply user_session_open. Qed.
Lemma in_nullauth_key c w h w1 c' h' k :
  in_nullauth c w h w1 → key_at (view w) c' h' k → key_at (view w1) c' h' k.
Proof. intros (_ & ? & s & ? & ? & ->). by apply key_at_open. Qed.
Lemma in_nullauth_session c w h w1 : in_nullauth c w h w1 → is_Some (obj_at (view w1) c h).
Proof. intros (_ & ? & s & ? & ? & ->). rewrite obj_at_open_eq. eauto. Qed.
Lemma in_nullauth_fresh c w h w1 h' :
  in_nullauth c w h w1 → obj_at (view w1) c h' = None →
  (c, h) ≠ (c, h') ∧ obj_at (view w) c h' = None.
Proof. intros (_ & ? & s & ? & ? & ->). apply open_fresh. Qed.
Lemma in_nullauth_obj c w h w1 c' h' o :
  in_nullauth c w h w1 → obj_at (view w) c' h' = Some o →
  (c, h) ≠ (c', h') ∧ obj_at (view w1) c' h' = Some o.
Proof.
  intros (_ & ? & s & ? & ? & ->) Ho. pose proof (fresh_ne _ _ _ _ _ _ H Ho).
  by rewrite obj_at_open_ne.
Qed.
Lemma in_nullauth_close c w h w1 :
  in_nullauth c w h w1 →
  close_session c h (v_ambient (view w) !! c) (view w1) = view w.
Proof. intros (_ & ? & s & ? & ? & ->). by apply close_open. Qed.
Lemma in_nullauth_seed c w h w1 : in_nullauth c w h w1 → v_seed (view w1) = v_seed (view w).
Proof. by intros (_ & ? & s & ? & ? & ->). Qed.
Lemma in_nullauth_persistent c w h w1 :
  in_nullauth c w h w1 → v_persistent (view w1) = v_persistent (view w).
Proof. by intros (_ & ? & s & ? & ? & ->). Qed.
Lemma in_nullauth_ready c w h w1 : in_nullauth c w h w1 → ready w1.
Proof. by intros []. Qed.

Lemma room_le n m w : (m ≤ n)%nat → room n w → room m w.
Proof. unfold room. lia. Qed.
Lemma room_view n w w' : view w' = view w → room n w → room n w'.
Proof. unfold room. by intros ->. Qed.
Lemma room_add n c h o w w' :
  obj_at (view w) c h = None → view w' = add_obj c h o (view w) → room (S n) w → room n w'.
Proof. unfold room. intros Hf ->. rewrite size_add_fresh by done. lia. Qed.
Lemma room_open_add n c h o w w' :
  fresh_context (view w) c → view w' = add_obj c h o (open_context c (view w)) →
  room (S n) w → room n w'.
Proof. unfold room. intros [_ Hf] ->. rewrite size_add_fresh by apply Hf. cbn. lia. Qed.
Lemma room_open n c w w' : view w' = open_context c (view w) → room n w → room n w'.
Proof. unfold room. by intros ->. Qed.

(** A command whose effect on the view is to add one object, wrapped in a
    null-authorization session, still adds just that object. *)
Lemma run_nullauth_add {E A} (conv : TssError → E) c (f : M World E A) w
    (hd : A → ESYS_TR) (ob : Obj Public Digest Key) (R : A → Prop) :
  ready w → room 1 w →
  (∀ h w1, in_nullauth c w h w1 →
     run f w1 (λ a w2, ready w2 ∧ obj_at (view w1) c (hd a) = None ∧ R a ∧
                       view w2 = add_obj c (hd a) ob (view w1))) →
  run (execute_with_nullauth_session conv c f) w (λ a w', ready w' ∧
    obj_at (view w) c (hd a) = None ∧ R a ∧ view w' = add_obj c (hd a) ob (view w)).
Proof.
  intros Hr Hroom Hf. apply run_nullauth; [done..|]. intros h w1 Hin.
  eapply run_mono; [by eapply Hf|]. cbv beta. intros a w2 (? & Hfr & ? & Hv).
  destruct (in_nullauth_fresh _ _ _ _ _ Hin Hfr) as [Hne ?].
  split_and!; [done| |].
  - rewrite Hv, obj_at_add_ne by congruence. by eapply in_nullauth_session.
  - intros w3 ? Hv3. split_and!; [done..|].
    by rewrite Hv3, Hv, close_add, (in_nullauth_close _ _ _ _ Hin) by done.
Qed.

(** A command that leaves the view unchanged. *)
Lemma run_nullauth_same {E A} (conv : TssError → E) c (f : M World E A) w (R : A → Prop) :
  ready w → room 1 w →
  (∀ h w1, in_nullauth c w h w1 →
     run f w1 (λ a w2, ready w2 ∧ view w2 = view w1 ∧ R a)) →
  run (execute_with_nullauth_session conv c f) w (λ a w', ready w' ∧ view w' = view w ∧ R a).
Proof.
  intros Hr Hroom Hf. apply run_nullauth; [done..|]. intros h w1 Hin.
  eapply run_mono; [by eapply Hf|]. cbv beta. intros a w2 (? & Hv & ?).
  split_and!; [done| |].
  - rewrite Hv. by eapply in_nullauth_session.
  - intros w3 ? Hv3. split_and!; [done| |done].
    by rewrite Hv3, Hv, (in_nullauth_close _ _ _ _ Hin).
Qed.

Lemma fails_nullauth_same {E A} (conv : TssError → E) c (f : M World E A) w (R : E → Prop) :
  ready w → room 1 w →
  (∀ h w1, in_nullauth c w h w1 →
     fails f w1 (λ e w2, ready w2 ∧ view w2 = view w1 ∧ R e)) →
  fails (execute_with_nullauth_session conv c f) w (λ e w', ready w' ∧ view w' = view w ∧ R e).
Proof.
  intros Hr Hroom Hf. apply fails_nullauth; [done..|]. intros h w1 Hin.
  eapply fails_mono; [by eapply Hf|]. cbv beta. intros a w2 (? & Hv & ?).
  split_and!; [done| |].
  - rewrite Hv. by eapply in_nullauth_session.
  - intros w3 ? Hv3. split_and!; [done| |done].
    by rewrite Hv3, Hv, (in_nullauth_close _ _ _ _ Hin).
Qed.
End Rules.

#[export] Hint Resolve in_nullauth_ready in_nullauth_user in_nullauth_key
  in_nullauth_session in_nullauth_room : sceau.

(** What a context leaves behind when it is closed. *)
Create Rewrite HintDb ctx.
#[export] Hint Rewrite @close_context_open @close_context_add @close_context_del
  @close_context_persistent : ctx.
