(* ===== verification/FaultSpec.v ===== *)
(** A TPM that may fail at any command.

    The laws of [TpmSpec] speak about a TPM that answers.  Here nothing is
    assumed about when a command succeeds: [FaultSpec] says that a command that
    returns an error has had no effect or, when only its response was lost, its
    whole effect, and that one that succeeds has had its documented effect.  What
    follows from these laws holds whatever goes wrong, a lost connection, a full
    TPM or a lockout, and at whatever command; since a process that is killed acts
    on the TPM like one whose remaining commands all fail, it also holds for
    crashes.

    [keeps R m] is the judgement the file builds up: whatever happens, [m]
    relates the persistent slots before and after by [R].  It has one rule per
    construct of the monad and per TPM command, collected in the database [nv]. *)
From S2P Require Import Prelude Grpc Tss.

(** A command is all or nothing: a success has effect [Q], an error has effect
    [Q] or none, a panic does not occur. *)
Definition atomic `{TM : TpmModel} {A} (m : M World TssError A) (w : World)
  (Q : A → World → Prop) : Prop :=
  match m w with
  | (Ok a, w') => Q a w'
  | (Err _, w') => view w' = view w ∨ ∃ a, Q a w'
  | (Panic, _) => False
  end.

(** The non-volatile part of two views is the same. *)
Definition same_nv {P G K S} (v v' : TpmView P G K S) : Prop :=
  v_seed v' = v_seed v ∧ v_persistent v' = v_persistent v.

Class FaultSpec `{TM : TpmModel} : Prop := {
  fault_context_new t w :
    atomic (context_new t) w (λ c w', fresh_context (view w) c ∧ view w' = open_context c (view w));
  (** the flushes of [Drop for Context] may fail *)
  fault_context_drop c w : same_nv (view w) (view (context_drop c w));
  (** the session may not start, and after the body its flush may fail; the
      flush's error is then the result *)
  fault_nullauth {E A} (conv : TssError → E) c (f : M World E A) w :
    (∃ e w', execute_with_nullauth_session conv c f w = (Err (conv e), w') ∧
       (view w' = view w ∨
        ∃ h s, obj_at (view w) c h = None ∧ view w' = add_obj c h (OSession s) (view w))) ∨
    ∃ h s w1 r w2 r' w', obj_at (view w) c h = None ∧ view w1 = open_session c h s (view w) ∧
      f w1 = (r, w2) ∧ execute_with_nullauth_session conv c f w = (r', w') ∧
      same_nv (view w2) (view w') ∧ (r = Panic → r' = Panic) ∧
      (r ≠ Panic →
         r' = r ∧ view w' = close_session c h (v_ambient (view w) !! c) (view w2) ∨
         (∃ e, r' = Err (conv e)) ∧
           (view w' = with_ambient c (v_ambient (view w) !! c) (view w2) ∨
            view w' = close_session c h (v_ambient (view w) !! c) (view w2)));
  (** setting the ambient session involves no command *)
  fault_with_session {A} c s (f : M World TssError A) w :
    ∃ w1 r w2 w', view w1 = with_ambient c (Some (Some (session_handle s))) (view w) ∧
      f w1 = (r, w2) ∧ execute_with_session c (Some s) f w = (r, w') ∧
      same_nv (view w2) (view w') ∧
      (r ≠ Panic → view w' = with_ambient c (v_ambient (view w) !! c) (view w2));
  fault_without_session {A} c (f : M World TssError A) w :
    ∃ w1 r w2 w', view w1 = with_ambient c (Some None) (view w) ∧
      f w1 = (r, w2) ∧ execute_without_session c f w = (r, w') ∧
      same_nv (view w2) (view w') ∧
      (r ≠ Panic → view w' = with_ambient c (v_ambient (view w) !! c) (view w2));

  fault_create_primary c hy p w :
    atomic (create_primary c hy p) w (λ h w', obj_at (view w) c h = None ∧
      ∃ k, view w' = add_obj c h (OKey k) (view w));
  fault_read_public c h w : atomic (read_public c h) w (λ _ w', view w' = view w);
  fault_create c h p sd w : atomic (create c h p sd) w (λ _ w', view w' = view w);
  fault_load c h priv pub w :
    atomic (load c h priv pub) w (λ o w', obj_at (view w) c o = None ∧
      ∃ ob, (∀ sl k, ob ≠ OPersistent sl k) ∧ view w' = add_obj c o ob (view w));
  fault_unseal c h w : atomic (tpm_unseal c h) w (λ _ w', view w' = view w);
  fault_flush c h w : atomic (flush_context c h) w (λ _ w', view w' = del_obj c h (view w));
  fault_start_auth_session c ty sym alg w :
    atomic (start_auth_session c ty sym alg) w (λ r w',
      match r with
      | Some s => obj_at (view w) c (session_handle s) = None ∧
                  ∃ ses, view w' = add_obj c (session_handle s) (OSession ses) (view w)
      | None => view w' = view w
      end);
  fault_sess_set_attributes c s a m w :
    atomic (tr_sess_set_attributes c s a m) w (λ _ w', ∃ ses ses',
      obj_at (view w) c (session_handle s) = Some (OSession ses) ∧
      view w' = add_obj c (session_handle s) (OSession ses') (view w));
  fault_policy_command_code c ps cc w :
    atomic (policy_command_code c ps cc) w (λ _ w', ∃ ses ses',
      obj_at (view w) c (policy_session_handle ps) = Some (OSession ses) ∧
      view w' = add_obj c (policy_session_handle ps) (OSession ses') (view w));
  fault_policy_get_digest c ps w : atomic (policy_get_digest c ps) w (λ _ w', view w' = view w);
  fault_load_external c p hy w :
    atomic (load_external_public c p hy) w (λ h w', obj_at (view w) c h = None ∧
      view w' = add_obj c h (OExternal p) (view w));
  (** a policy session that authorized the command is reset *)
  fault_duplicate c h e d sym w :
    atomic (duplicate c h e d sym) w (λ _ w', view w' = view w ∨ ∃ hs ses ses',
      obj_at (view w) c hs = Some (OSession ses) ∧
      view w' = add_obj c hs (OSession ses') (view w));
  fault_import c h d p dup sec sym w :
    atomic (import c h d p dup sec sym) w (λ _ w', view w' = view w);
  (** persists a transient key at an empty slot, or removes the key of a slot *)
  fault_evict_control c pr h sl w :
    atomic (evict_control c pr h sl) w (λ h' w',
      (∃ k, obj_at (view w) c h = Some (OKey k) ∧ v_persistent (view w) !! sl = None ∧
            obj_at (view w) c h' = None ∧
            view w' = add_obj c h' (OPersistent sl k) (with_persistent (insert sl k) (view w))) ∨
      (∃ k, obj_at (view w) c h = Some (OPersistent sl k) ∧
            view w' = del_obj c h (with_persistent (delete sl) (view w))));
  fault_tr_from_tpm_public c sl w :
    atomic (tr_from_tpm_public c sl) w (λ h w', obj_at (view w) c h = None ∧
      ∃ k, v_persistent (view w) !! sl = Some k ∧
           view w' = add_obj c h (OPersistent sl k) (view w))
}.

Create HintDb nv.

(** Worlds that contain a TPM, and its persistent slots. *)
Class HasNv `{TM : TpmModel} (W : Type) := nv : W → gmap PersistentTpmHandle Key.
#[export] Instance world_nv `{TM : TpmModel} : HasNv World := λ w, v_persistent (view w).

Definition keeps `{TM : TpmModel} {W : Type} `{!HasNv W} {E A}
  (R : relation (gmap PersistentTpmHandle Key)) (m : M W E A) : Prop :=
  ∀ w, R (nv w) (nv (m w).2).
(** The same for what a scope does when it is left. *)
Definition keeps_world `{TM : TpmModel} {W : Type} `{!HasNv W}
  (R : relation (gmap PersistentTpmHandle Key)) (g : W → W) : Prop := ∀ w, R (nv w) (nv (g w)).

(** * Rules for the constructs of the monad *)
Section Rules.
Context `{TM : TpmModel} {W : Type} {HN : HasNv W} {E : Type}
  (R : relation (gmap PersistentTpmHandle Key)) `{!PreOrder R}.

Lemma keeps_lift {A} (x : outcome E A) : keeps R (lift x : M W E A).
Proof. intros w. reflexivity. Qed.
Lemma keeps_ret {A} (a : A) : keeps R (mret a : M W E A).
Proof. intros w. reflexivity. Qed.
Lemma keeps_throw {A} (e : E) : keeps R (throw e : M W E A).
Proof. intros w. reflexivity. Qed.
Lemma keeps_bind {A B} (m : M W E A) (f : A → M W E B) :
  keeps R m → (∀ a, keeps R (f a)) → keeps R (m ≫= f).
Proof.
  intros Hm Hf w. specialize (Hm w). unfold mbind, M_bind.
  destruct (m w) as [[a|e|] w1]; cbn in *; [|done..]. etrans; [exact Hm|apply Hf].
Qed.
Lemma keeps_bind_lift {A B} (x : outcome E A) (f : A → M W E B) a :
  x = Ok a → keeps R (f a) → keeps R (lift x ≫= f).
Proof. by intros -> Hf. Qed.
Lemma keeps_map_errM {E' A} (g : E → E') (m : M W E A) : keeps R m → keeps R (map_errM g m).
Proof. intros Hm w. specialize (Hm w). unfold map_errM. by destruct (m w). Qed.
Lemma keeps_attempt {E' A} (m : M W E A) : keeps R m → keeps R (attempt (E':=E') m).
Proof. intros Hm w. specialize (Hm w). unfold attempt. by destruct (m w) as [[]]. Qed.
Lemma keeps_of_sum {A} (r : A + E) : keeps R (of_sum r : M W E A).
Proof. destruct r; [apply keeps_ret|apply keeps_throw]. Qed.
Lemma keeps_finally {A} g (m : M W E A) :
  keeps_world R g → keeps R m → keeps R (finally g m).
Proof.
  intros Hg Hm w. specialize (Hm w). unfold finally. destruct (m w) as [r w1]. cbn in *.
  etrans; [exact Hm|apply Hg].
Qed.
Lemma keeps_on_failure {A} g (m : M W E A) :
  keeps_world R g → keeps R m → keeps R (on_failure g m).
Proof.
  intros Hg Hm w. specialize (Hm w). unfold on_failure. destruct (m w) as [[] w1]; cbn in *;
    [done|etrans; [exact Hm|apply Hg]..].
Qed.
Lemma keeps_respond {A} (m : M W Status A) : keeps R m → keeps R (respond (E:=E) m).
Proof. intros Hm w. specialize (Hm w). unfold respond. by destruct (m w) as [[]]. Qed.
End Rules.

#[export] Hint Resolve keeps_lift keeps_ret keeps_throw keeps_of_sum : nv.

(** * Rules for the commands *)
Section Commands.
Context `{FS : FaultSpec} (R : relation (gmap PersistentTpmHandle Key)) `{!PreOrder R}.

Lemma keeps_same_nv w w' : same_nv (view w) (view w') → R (nv w) (nv w').
Proof. unfold nv, world_nv. by intros [_ ->]. Qed.
Lemma keeps_eq (v : TpmView Public Digest Key Seed) w w' :
  view w' = v → v_persistent v = v_persistent (view w) → R (nv w) (nv w').
Proof. unfold nv, world_nv. by intros -> ->. Qed.

(** A command whose effect does not reach the slots. *)
Lemma keeps_atomic {A} (m : M World TssError A) Q :
  (∀ w, atomic m w (Q w)) →
  (∀ w a w', Q w a w' → v_persistent (view w') = v_persistent (view w)) → keeps R m.
Proof.
  intros Hm HQ w. specialize (Hm w). unfold atomic in Hm. unfold nv, world_nv.
  destruct (m w) as [[a|e|] w']; cbn; [by rewrite (HQ _ _ _ Hm)| |done].
  destruct Hm as [->|[a Hm]]; [done|by rewrite (HQ _ _ _ Hm)].
Qed.

Lemma keeps_context_new t : keeps R (context_new t).
Proof. eapply keeps_atomic; [apply fault_context_new|]. by intros w c w' [_ ->]. Qed.
Lemma keeps_context_drop c : keeps_world R (context_drop c).
Proof. intros w. apply keeps_same_nv, fault_context_drop. Qed.
Lemma keeps_create_primary c hy p : keeps R (create_primary c hy p).
Proof. eapply keeps_atomic; [apply fault_create_primary|]. by intros w h w' (_ & k & ->). Qed.
Lemma keeps_read_public c h : keeps R (read_public c h).
Proof. eapply keeps_atomic; [apply fault_read_public|]. by intros w a w' ->. Qed.
Lemma keeps_create c h p sd : keeps R (create c h p sd).
Proof. eapply keeps_atomic; [apply fault_create|]. by intros w a w' ->. Qed.
Lemma keeps_load c h priv pub : keeps R (load c h priv pub).
Proof. eapply keeps_atomic; [apply fault_load|]. by intros w a w' (_ & ob & _ & ->). Qed.
Lemma keeps_tpm_unseal c h : keeps R (tpm_unseal c h).
Proof. eapply keeps_atomic; [apply fault_unseal|]. by intros w a w' ->. Qed.
Lemma keeps_flush c h : keeps R (flush_context c h).
Proof. eapply keeps_atomic; [apply fault_flush|]. by intros w a w' ->. Qed.
Lemma keeps_start_auth_session c ty sym alg : keeps R (start_auth_session c ty sym alg).
Proof.
  eapply keeps_atomic; [apply fault_start_auth_session|].
  intros w [s|] w'; [by intros (_ & ses & ->)|by intros ->].
Qed.
Lemma keeps_sess_set_attributes c s a m : keeps R (tr_sess_set_attributes c s a m).
Proof. eapply keeps_atomic; [apply fault_sess_set_attributes|]. by intros w x w' (? & ? & _ & ->). Qed.
Lemma keeps_policy_command_code c ps cc : keeps R (policy_command_code c ps cc).
Proof. eapply keeps_atomic; [apply fault_policy_command_code|]. by intros w x w' (? & ? & _ & ->). Qed.
Lemma keeps_policy_get_digest c ps : keeps R (policy_get_digest c ps).
Proof. eapply keeps_atomic; [apply fault_policy_get_digest|]. by intros w x w' ->. Qed.
Lemma keeps_load_external c p hy : keeps R (load_external_public c p hy).
Proof. eapply keeps_atomic; [apply fault_load_external|]. by intros w x w' (_ & ->). Qed.
Lemma keeps_duplicate c h e d sym : keeps R (duplicate c h e d sym).
Proof.
  eapply keeps_atomic; [apply fault_duplicate|]. by intros w x w' [->|(? & ? & ? & _ & ->)].
Qed.
Lemma keeps_import c h d p dup sec sym : keeps R (import c h d p dup sec sym).
Proof. eapply keeps_atomic; [apply fault_import|]. by intros w x w' ->. Qed.
Lemma keeps_tr_from_tpm_public c sl : keeps R (tr_from_tpm_public c sl).
Proof. eapply keeps_atomic; [apply fault_tr_from_tpm_public|]. by intros w x w' (_ & k & _ & ->). Qed.

Lemma keeps_nullauth {E A} (conv : TssError → E) c (f : M World E A) :
  keeps R f → keeps R (execute_with_nullauth_session conv c f).
Proof.
  intros Hf w. destruct (fault_nullauth conv c f w) as
    [(e & w' & -> & Hv)|(h & s & w1 & r & w2 & r' & w' & _ & Hv1 & Hr & -> & Hs & _)]; cbn.
  - destruct Hv as [Hv|(h & s & _ & Hv)]; by eapply keeps_eq.
  - etrans; [by eapply keeps_eq|]. specialize (Hf w1). rewrite Hr in Hf.
    etrans; [exact Hf|]. by apply keeps_same_nv.
Qed.
Lemma keeps_with_session {A} c s (f : M World TssError A) :
  keeps R f → keeps R (execute_with_session c (Some s) f).
Proof.
  intros Hf w. destruct (fault_with_session c s f w) as (w1 & r & w2 & w' & Hv1 & Hr & -> & Hs & _).
  cbn. etrans; [by eapply keeps_eq|]. specialize (Hf w1). rewrite Hr in Hf.
  etrans; [exact Hf|]. by apply keeps_same_nv.
Qed.
Lemma keeps_without_session {A} c (f : M World TssError A) :
  keeps R f → keeps R (execute_without_session c f).
Proof.
  intros Hf w. destruct (fault_without_session c f w) as (w1 & r & w2 & w' & Hv1 & Hr & -> & Hs & _).
  cbn. etrans; [by eapply keeps_eq|]. specialize (Hf w1). rewrite Hr in Hf.
  etrans; [exact Hf|]. by apply keeps_same_nv.
Qed.
End Commands.

#[export] Hint Resolve keeps_context_new keeps_context_drop keeps_create_primary keeps_read_public
  keeps_create keeps_load keeps_tpm_unseal keeps_flush keeps_start_auth_session
  keeps_sess_set_attributes keeps_policy_command_code keeps_policy_get_digest keeps_load_external
  keeps_duplicate keeps_import keeps_tr_from_tpm_public : nv.

(** The slots of two TPMs agree except perhaps at [sl]. *)
Definition agree_off {K : Type} (sl : PersistentTpmHandle)
  (m m' : gmap PersistentTpmHandle K) : Prop := ∀ sl', sl' ≠ sl → m' !! sl' = m !! sl'.
#[export] Instance agree_off_preorder {K} sl : PreOrder (@agree_off K sl).
Proof. split; [by intros m sl' _|]. intros m1 m2 m3 H1 H2 sl' Hne. by rewrite H2, H1. Qed.

Lemma keeps_evict_control `{FS : FaultSpec} c pr h sl : keeps (agree_off sl) (evict_control c pr h sl).
Proof.
  intros w sl' Hne. pose proof (fault_evict_control c pr h sl w) as Hm. unfold atomic in Hm.
  unfold nv, world_nv. destruct (evict_control c pr h sl w) as [[h'|e|] w']; cbn in *;
    [|destruct Hm as [->|[h' Hm]]; [done|]|done];
    (destruct Hm as [(k & _ & _ & _ & ->)|(k & _ & ->)]; cbn;
     [by rewrite lookup_insert_ne|by rewrite lookup_delete_ne]).
Qed.
#[export] Hint Resolve keeps_evict_control : nv.

(** Decompose a program into its commands. *)
Ltac nv_step :=
  match goal with
  | |- keeps _ (_ ≫= _) => apply keeps_bind
  | |- keeps _ (map_errM _ _) => apply keeps_map_errM
  | |- keeps _ (attempt _) => apply keeps_attempt
  | |- keeps _ (finally _ _) => apply keeps_finally
  | |- keeps _ (on_failure _ _) => apply keeps_on_failure
  | |- keeps _ (respond _) => apply keeps_respond
  | |- keeps _ (execute_with_nullauth_session _ _ _) => apply keeps_nullauth
  | |- keeps _ (execute_with_session _ _ _) => apply keeps_with_session
  | |- keeps _ (execute_without_session _ _) => apply keeps_without_session
  | |- keeps _ (let _ := _ in _) => cbv zeta
  | |- keeps _ (match ?x with _ => _ end) => destruct x
  | |- _ => solve [eauto 2 with nv typeclass_instances]
  end.
Ltac nv_solve := intros; repeat (nv_step; intros).
