(* ===== verification/SimTpm.v ===== *)
(** A software TPM: a concrete [World] for which every law of [TssDataLaws] and
    [TpmSpec] holds.  It is the instance the examples evaluate on; no theorem
    about the program depends on it.

    Key material is the hierarchy seed and the public area it was derived for;
    protected blobs are written in the clear with the parent's key in front, so
    that a blob loads under that parent only.  Handles are numbered by a
    counter, and at most [sim_capacity] of them are open at once. *)
From S2P Require Import Prelude Tss.

Record SimPublic := mkSimPublic {
  sp_attributes : ObjectAttributes;
  sp_policy : option byte;
  sp_unique : byte
}.
Record SimKey := mkSimKey { sk_seed : byte; sk_public : SimPublic }.

#[export] Instance ObjectAttributes_eq_dec : EqDecision ObjectAttributes.
Proof. solve_decision. Defined.
#[export] Instance SimPublic_eq_dec : EqDecision SimPublic.
Proof. solve_decision. Defined.
#[export] Instance SimKey_eq_dec : EqDecision SimKey.
Proof. solve_decision. Defined.

Definition bool_byte (b : bool) : byte := if b then x01 else x00.
Definition byte_bool (b : byte) : bool := bool_decide (b ≠ x00).

Definition sim_public_bytes (p : SimPublic) : list byte :=
  let a := sp_attributes p in
  [bool_byte (fixed_tpm a); bool_byte (fixed_parent a); bool_byte (sensitive_data_origin a);
   bool_byte (user_with_auth a); bool_byte (attr_decrypt a); bool_byte (restricted a);
   bool_byte (bool_decide (is_Some (sp_policy p))); default x00 (sp_policy p); sp_unique p].
Definition sim_public_parse (bs : list byte) : option SimPublic :=
  match bs with
  | [b1; b2; b3; b4; b5; b6; b7; b8; b9] =>
      Some (mkSimPublic
        (mkObjectAttributes (byte_bool b1) (byte_bool b2) (byte_bool b3)
                            (byte_bool b4) (byte_bool b5) (byte_bool b6))
        (if byte_bool b7 then Some b8 else None) b9)
  | _ => None
  end.
Definition sim_key_bytes (k : SimKey) : list byte :=
  sk_seed k :: sim_public_bytes (sk_public k).
Definition sim_key_parse (bs : list byte) : option SimKey :=
  match bs with
  | s :: r => p ← sim_public_parse r; Some (mkSimKey s p)
  | [] => None
  end.

Lemma sim_public_parse_bytes p : sim_public_parse (sim_public_bytes p) = Some p.
Proof.
  destruct p as [[[] [] [] [] [] []] [b|] u]; reflexivity.
Qed.
Lemma sim_key_parse_bytes k : sim_key_parse (sim_key_bytes k) = Some k.
Proof. destruct k as [s p]. unfold sim_key_parse, sim_key_bytes. simpl sk_public.
  cbn [sk_seed]. by rewrite sim_public_parse_bytes.
Qed.

(** A TPM2B buffer whose contents are any bytes. *)
Definition sim_2b : Tpm2b N (list byte) := {| try_from := Ok; value := λ bs, bs |}.

(** Response codes of the simulator. *)
Definition RC_FAILURE : N := 1.

Definition sim_persistent_new (z : Z) : outcome N PersistentTpmHandle :=
  if bool_decide (0x81000000 ≤ z ≤ 0x81FFFFFF) then Ok z else Err RC_FAILURE.

Definition sim_build_public (b : PublicBuilder byte unit) : outcome N SimPublic :=
  match pb_public_algorithm b, pb_parameters b, pb_unique_identifier b with
  | PublicAlgorithm_Rsa, RsaParameters _, PublicKeyRsa_default
  | PublicAlgorithm_KeyedHash, KeyedHashParameters _, Digest_default =>
      Ok (mkSimPublic (pb_object_attributes b) (pb_auth_policy b) x00)
  | _, _, _ => Err RC_FAILURE
  end.

#[export] Instance sim_data : TssData | 100 := {|
  TssError := N;
  Public := SimPublic;
  Private := list byte;
  EncryptedSecret := list byte;
  Data := list byte;
  SensitiveData := list byte;
  Digest := byte;
  PublicRsaParameters := unit;
  TctiNameConf := string;
  private_2b := sim_2b;
  encrypted_secret_2b := sim_2b;
  data_2b := sim_2b;
  sensitive_2b := sim_2b;
  marshall := λ p, Ok (sim_public_bytes p);
  unmarshall := λ bs, ok_or RC_FAILURE (sim_public_parse bs);
  object_attributes := sp_attributes;
  auth_policy := sp_policy;
  build_attributes := Ok;
  build_restricted_decryption_key := λ _ _ _, Ok tt;
  build_public := sim_build_public;
  persistent_tpm_handle_new := sim_persistent_new;
  tcti_from_str := λ s, if str_is_empty s then Err RC_FAILURE else Ok s
|}.

#[export] Instance sim_data_laws : TssDataLaws (D:=sim_data) | 100.
Proof.
  split; try (split; simpl; congruence).
  - intros bs _. by exists bs.
  - intros p. exists (sim_public_bytes p). split_and!; [done|done|].
    change (ok_or RC_FAILURE (sim_public_parse (sim_public_bytes p)) = Ok p).
    by rewrite sim_public_parse_bytes.
  - intros bs. simpl. by destruct (sim_public_parse bs).
  - intros. by exists tt.
  - intros [[] [] a p [] []] Hc; simpl in *; try done; by eexists.
  - intros z ?. simpl. unfold sim_persistent_new. by rewrite bool_decide_true.
Qed.

(** * Commands *)
Abbreviation SimView := (TpmView SimPublic byte SimKey byte).
Record SimWorld := mkSimWorld { sw_view : SimView; sw_next : N }.

Definition sim_capacity : nat := 16.
Definition SimM := M SimWorld N.

Definition sim_get : SimM SimView := λ w, (Ok (sw_view w), w).
Definition sim_upd (f : SimView → SimView) : SimM unit := λ w,
  (Ok tt, mkSimWorld (f (sw_view w)) (sw_next w)).
Definition sim_fail {A} : SimM A := throw RC_FAILURE.
Definition sim_assert (b : bool) : SimM unit := if b then mret tt else sim_fail.
Definition sim_alloc (c : Ctx) (o : Obj SimPublic byte SimKey) : SimM ESYS_TR := λ w,
  if bool_decide (size (v_objs (sw_view w)) < sim_capacity)%nat
     && bool_decide (obj_at (sw_view w) c (sw_next w) = None) then
    (Ok (sw_next w), mkSimWorld (add_obj c (sw_next w) o (sw_view w)) (N.succ (sw_next w)))
  else (Err RC_FAILURE, w).

Definition sim_key_at (v : SimView) (c : Ctx) (h : ESYS_TR) : option SimKey :=
  match obj_at v c h with
  | Some (OKey k) => Some k
  | Some (OPersistent sl k) =>
      if decide (v_persistent v !! sl = Some k) then Some k else None
  | _ => None
  end.
Definition sim_ambient (v : SimView) (c : Ctx) : option (ESYS_TR * Session byte) :=
  h ← mjoin (v_ambient v !! c);
  match obj_at v c h with Some (OSession s) => Some (h, s) | _ => None end.
Definition sim_user_session (v : SimView) (c : Ctx) : bool :=
  match sim_ambient v c with
  | Some (_, s) => bool_decide (sess_type s = SessionType_Hmac)
                   && continue_session (sess_attributes s)
  | None => false
  end.

(** A context number above the counter, every open context and every context
    that holds a handle. *)
Definition sim_contexts (v : SimView) : list Ctx :=
  (map_to_list (v_ambient v)).*1 ++ (map_to_list (v_objs v)).*1.*1.
Definition sim_fresh_ctx (w : SimWorld) : Ctx :=
  foldr (λ c m, N.max (N.succ c) m) (sw_next w) (sim_contexts (sw_view w)).
Definition sim_context_new (t : string) : SimM Ctx := λ w,
  (Ok (sim_fresh_ctx w),
   mkSimWorld (open_context (sim_fresh_ctx w) (sw_view w)) (N.succ (sim_fresh_ctx w))).
Definition sim_context_drop (c : Ctx) (w : SimWorld) : SimWorld :=
  mkSimWorld (close_context c (sw_view w)) (sw_next w).

Definition sim_ambient_set (c : Ctx) (a : option (option ESYS_TR)) : SimWorld → SimWorld := λ w,
  mkSimWorld (with_ambient c a (sw_view w)) (sw_next w).
Definition sim_in_ambient {E A} (c : Ctx) (a : option (option ESYS_TR)) (f : M SimWorld E A) :
  M SimWorld E A := λ w,
  let (r, w') := f (sim_ambient_set c a w) in
  (r, sim_ambient_set c (v_ambient (sw_view w) !! c) w').
(** [execute_with_nullauth_session]: a session is opened and made the context's only
    one, and afterwards the sessions before are restored and it is flushed. *)
Definition sim_nullauth_enter (c : Ctx) : SimM (ESYS_TR * option (option ESYS_TR)) := λ w,
  match sim_alloc c (OSession (mkSession SessionType_Hmac x00 (mkSessionAttributes true true true))) w with
  | (Ok h, w') => (Ok (h, v_ambient (sw_view w) !! c), sim_ambient_set c (Some (Some h)) w')
  | (Err e, w') => (Err e, w')
  | (Panic, w') => (Panic, w')
  end.
Definition sim_nullauth_leave (c : Ctx) (s : ESYS_TR * option (option ESYS_TR)) : SimM unit :=
  sim_upd (close_session c s.1 s.2).
Definition sim_nullauth {E A} (conv : N → E) (c : Ctx) (f : M SimWorld E A) :
  M SimWorld E A :=
  s ← map_errM conv (sim_nullauth_enter c);
  r ← attempt f;
  _ ← map_errM conv (sim_nullauth_leave c s);
  of_sum r.

Definition sim_create_primary (c : Ctx) (_ : Hierarchy) (p : SimPublic) : SimM ESYS_TR :=
  v ← sim_get;
  _ ← sim_assert (sim_user_session v c);
  let a := sp_attributes p in
  _ ← sim_assert (sensitive_data_origin a && user_with_auth a && attr_decrypt a && restricted a);
  sim_alloc c (OKey (mkSimKey (v_seed v) (mkSimPublic a (sp_policy p) (v_seed v)))).

Definition sim_read_public (c : Ctx) (h : ESYS_TR) : SimM (SimPublic * list byte * list byte) :=
  v ← sim_get;
  k ← lift (ok_or RC_FAILURE (sim_key_at v c h));
  mret (sk_public k, sim_public_bytes (sk_public k), []).

Definition sim_create (c : Ctx) (h : ESYS_TR) (p : SimPublic) (sd : option (list byte)) :
  SimM (list byte * SimPublic) :=
  v ← sim_get;
  _ ← sim_assert (sim_user_session v c);
  k ← lift (ok_or RC_FAILURE (sim_key_at v c h));
  _ ← sim_assert (negb (sensitive_data_origin (sp_attributes p)));
  _ ← sim_assert (implb (fixed_tpm (sp_attributes p)) (fixed_tpm (sp_attributes (sk_public k))));
  d ← lift (ok_or RC_FAILURE sd);
  mret (x01 :: sim_key_bytes k ++ d, p).

(** The length of a key's encoding. *)
Definition sim_key_len : nat := 10.
Definition sim_load (c : Ctx) (h : ESYS_TR) (priv : list byte) (p : SimPublic) : SimM ESYS_TR :=
  v ← sim_get;
  _ ← sim_assert (sim_user_session v c);
  k ← lift (ok_or RC_FAILURE (sim_key_at v c h));
  match priv with
  | tag :: rest =>
      _ ← sim_assert (bool_decide (take sim_key_len rest = sim_key_bytes k));
      let content := drop sim_key_len rest in
      if decide (tag = x01) then sim_alloc c (OSealed content)
      else if decide (tag = x02) then
        k' ← lift (ok_or RC_FAILURE (sim_key_parse content));
        _ ← sim_assert (bool_decide (p = sk_public k'));
        sim_alloc c (OKey k')
      else sim_fail
  | [] => sim_fail
  end.

Definition sim_unseal (c : Ctx) (h : ESYS_TR) : SimM (list byte) :=
  v ← sim_get;
  match obj_at v c h with
  | Some (OSealed d) => _ ← sim_assert (sim_user_session v c); mret d
  | _ => sim_fail
  end.

Definition sim_flush (c : Ctx) (h : ESYS_TR) : SimM unit :=
  v ← sim_get;
  match obj_at v c h with
  | None | Some (OPersistent _ _) => sim_fail
  | Some _ => sim_upd (del_obj c h)
  end.

(** An authorization session is its type and handle. *)
Definition SimAuthSession : Type := SessionType * ESYS_TR.
Definition sim_start_auth_session (c : Ctx) (ty : SessionType) (_ : SymmetricDefinitionObject)
  (_ : HashingAlgorithm) : SimM (option SimAuthSession) :=
  h ← sim_alloc c (OSession (mkSession ty x00 (mkSessionAttributes false false false)));
  mret (Some (ty, h)).
Definition sim_policy_try_from (s : SimAuthSession) : outcome N ESYS_TR :=
  if decide (s.1 = SessionType_Hmac) then Err RC_FAILURE else Ok s.2.

Definition sim_session (c : Ctx) (h : ESYS_TR) : SimM (Session byte) :=
  v ← sim_get;
  match obj_at v c h with Some (OSession s) => mret s | _ => sim_fail end.
Definition sim_set_attributes (c : Ctx) (s : SimAuthSession) (a m : SessionAttributes) :
  SimM unit :=
  ses ← sim_session c s.2;
  sim_upd (add_obj c s.2 (OSession (mkSession (sess_type ses) (sess_digest ses)
                                             (set_masked a m (sess_attributes ses))))).
Definition sim_policy_extend (d : byte) (_ : CommandCode) : byte := u8_of_Z (Z_of_u8 d + 1).
Definition sim_policy_command_code (c : Ctx) (ps : ESYS_TR) (cc : CommandCode) : SimM unit :=
  ses ← sim_session c ps;
  _ ← sim_assert (bool_decide (sess_type ses ≠ SessionType_Hmac));
  sim_upd (add_obj c ps (OSession (mkSession (sess_type ses)
                                     (sim_policy_extend (sess_digest ses) cc)
                                     (sess_attributes ses)))).
Definition sim_policy_get_digest (c : Ctx) (ps : ESYS_TR) : SimM byte :=
  ses ← sim_session c ps;
  _ ← sim_assert (bool_decide (sess_type ses ≠ SessionType_Hmac));
  mret (sess_digest ses).

(** A restricted key of the simulator is a decryption key. *)
Definition sim_loadable (p : SimPublic) : bool :=
  implb (restricted (sp_attributes p)) (attr_decrypt (sp_attributes p)).
Definition sim_storage_parent (p : SimPublic) : bool :=
  restricted (sp_attributes p) && attr_decrypt (sp_attributes p).
Definition sim_load_external (c : Ctx) (p : SimPublic) (_ : Hierarchy) : SimM ESYS_TR :=
  _ ← sim_assert (sim_loadable p);
  sim_alloc c (OExternal p).

Definition sim_duplicate (c : Ctx) (h e : ESYS_TR) (_ : option (list byte))
  (_ : SymmetricDefinitionObject) : SimM (list byte * list byte * list byte) :=
  v ← sim_get;
  k ← lift (ok_or RC_FAILURE (sim_key_at v c h));
  hs ← lift (ok_or RC_FAILURE (sim_ambient v c));
  let s := hs.2 in
  _ ← sim_assert (bool_decide (sess_type s = SessionType_Policy)
                  && bool_decide (sp_policy (sk_public k) = Some (sess_digest s))
                  && negb (fixed_tpm (sp_attributes (sk_public k)))
                  && negb (fixed_parent (sp_attributes (sk_public k))));
  match obj_at v c e with
  | Some (OExternal p) =>
      _ ← sim_assert (sim_storage_parent p);
      _ ← sim_upd (add_obj c hs.1 (OSession (mkSession (sess_type s) x00 (sess_attributes s))));
      mret ([], sim_public_bytes p ++ sim_key_bytes k, [])
  | _ => sim_fail
  end.

(** The length of a public area's encoding. *)
Definition sim_public_len : nat := 9.
Definition sim_import (c : Ctx) (h : ESYS_TR) (_ : option (list byte)) (p : SimPublic)
  (dup : list byte) (_ : list byte) (_ : SymmetricDefinitionObject) : SimM (list byte) :=
  v ← sim_get;
  _ ← sim_assert (sim_user_session v c);
  t ← lift (ok_or RC_FAILURE (sim_key_at v c h));
  _ ← sim_assert (bool_decide (take sim_public_len dup = sim_public_bytes (sk_public t)));
  let content := drop sim_public_len dup in
  k ← lift (ok_or RC_FAILURE (sim_key_parse content));
  _ ← sim_assert (bool_decide (p = sk_public k));
  mret (x02 :: sim_key_bytes t ++ content).

Definition sim_evict_control (c : Ctx) (_ : Provision) (h : ESYS_TR) (sl : PersistentTpmHandle) :
  SimM ESYS_TR :=
  v ← sim_get;
  match obj_at v c h with
  | Some (OKey k) =>
      match v_persistent v !! sl with
      | Some _ => sim_fail
      | None =>
          _ ← sim_assert (sim_user_session v c);
          h' ← sim_alloc c (OPersistent sl k);
          _ ← sim_upd (with_persistent (insert sl k));
          mret h'
      end
  | Some (OPersistent sl' k) =>
      _ ← sim_assert (sim_user_session v c && bool_decide (sl' = sl)
                      && bool_decide (v_persistent v !! sl = Some k));
      _ ← sim_upd (λ v, del_obj c h (with_persistent (delete sl) v));
      mret 0%N
  | _ => sim_fail
  end.

Definition sim_tr_from_tpm_public (c : Ctx) (sl : PersistentTpmHandle) : SimM ESYS_TR :=
  v ← sim_get;
  match v_persistent v !! sl with
  | Some k => sim_alloc c (OPersistent sl k)
  | None => sim_fail
  end.

#[export] Instance sim_ops : TssOps (D:=sim_data) | 100 := {|
  World := SimWorld;
  AuthSession := SimAuthSession;
  PolicySession := ESYS_TR;
  session_handle := snd;
  policy_session_handle := λ h, h;
  policy_session_try_from := sim_policy_try_from;
  context_new := sim_context_new;
  context_drop := sim_context_drop;
  execute_with_nullauth_session := @sim_nullauth;
  execute_with_session A c s f := sim_in_ambient c (Some (snd <$> s)) f;
  execute_without_session A c f := sim_in_ambient c (Some None) f;
  create_primary := sim_create_primary;
  read_public := sim_read_public;
  create := sim_create;
  load := sim_load;
  tpm_unseal := sim_unseal;
  flush_context := sim_flush;
  start_auth_session := sim_start_auth_session;
  tr_sess_set_attributes := sim_set_attributes;
  policy_command_code := sim_policy_command_code;
  policy_get_digest := sim_policy_get_digest;
  load_external_public := sim_load_external;
  duplicate := sim_duplicate;
  import := sim_import;
  evict_control := sim_evict_control;
  tr_from_tpm_public := sim_tr_from_tpm_public
|}.

(** * The laws *)
(** Handles in use are below the counter. *)
Definition sim_ready (w : SimWorld) : Prop :=
  ∀ c h, is_Some (obj_at (sw_view w) c h) → (h < sw_next w)%N.

Lemma sim_fresh w c : sim_ready w → obj_at (sw_view w) c (sw_next w) = None.
Proof.
  intros H. destruct (obj_at _ _ _) eqn:Ho; [|done].
  specialize (H c (sw_next w)). rewrite Ho in H. specialize (H ltac:(eauto)). lia.
Qed.

Lemma sim_fresh_ctx_spec w :
  (sw_next w ≤ sim_fresh_ctx w)%N ∧ fresh_context (sw_view w) (sim_fresh_ctx w).
Proof.
  unfold sim_fresh_ctx. set (l := sim_contexts _).
  assert (∀ m, (m ≤ foldr (λ c m, N.max (N.succ c) m) m l)%N ∧
    ∀ c, c ∈ l → (c < foldr (λ c m, N.max (N.succ c) m) m l)%N) as Hl.
  { intros m. induction l as [|e l [IH1 IH2]]; simpl.
    - split; [lia|]. intros e He. by apply not_elem_of_nil in He.
    - split; [lia|]. intros e' [->|He]%elem_of_cons; [lia|]. specialize (IH2 _ He). lia. }
  destruct (Hl (sw_next w)) as [H1 H2]. split; [done|].
  assert (∀ c, c ∈ l → c ≠ foldr (λ c m, N.max (N.succ c) m) (sw_next w) l) as Hne.
  { intros c Hc ->. specialize (H2 _ Hc). lia. }
  set (c := foldr _ _ _) in *. split.
  - destruct (v_ambient (sw_view w) !! c) as [h|] eqn:Hh; [|done]. destruct (Hne c); [|done].
    apply elem_of_app. left. apply list_elem_of_fmap. exists (c, h). by rewrite elem_of_map_to_list.
  - intros h. destruct (obj_at _ _ _) as [o|] eqn:Ho; [|done]. destruct (Hne c); [|done].
    apply elem_of_app. right. apply list_elem_of_fmap. exists (c, h). split; [done|].
    apply list_elem_of_fmap. exists (c, h, o). by rewrite elem_of_map_to_list.
Qed.

Lemma sim_ready_upd w f n :
  sim_ready w → (sw_next w ≤ n)%N →
  (∀ c h, is_Some (obj_at (f (sw_view w)) c h) → is_Some (obj_at (sw_view w) c h) ∨ (h < n)%N) →
  sim_ready (mkSimWorld (f (sw_view w)) n).
Proof. intros H1 Hn H3 c h; simpl. intros [?%H1|]%H3; lia. Qed.

Lemma sim_ready_add w c h o n :
  sim_ready w → (sw_next w ≤ n)%N → (h < n)%N →
  sim_ready (mkSimWorld (add_obj c h o (sw_view w)) n).
Proof.
  intros. apply (sim_ready_upd w (add_obj c h o)); [done..|].
  intros c' h' [x Hx]. destruct (decide ((c, h) = (c', h'))) as [[= <- <-]|]; [by right|].
  left. rewrite obj_at_add_ne in Hx by done. by exists x.
Qed.
Lemma sim_ready_del w c h n :
  sim_ready w → (sw_next w ≤ n)%N → sim_ready (mkSimWorld (del_obj c h (sw_view w)) n).
Proof.
  intros. apply (sim_ready_upd w (del_obj c h)); [done..|].
  intros c' h' [x Hx]. left. unfold obj_at in Hx. simpl in Hx.
  apply lookup_delete_Some in Hx as [_ ?]. by exists x.
Qed.
Lemma sim_ready_same w v n :
  sim_ready w → (sw_next w ≤ n)%N → v_objs v = v_objs (sw_view w) → sim_ready (mkSimWorld v n).
Proof.
  intros. apply (sim_ready_upd w (λ _, v)); [done..|]. unfold obj_at. rewrite H1. by left.
Qed.

Lemma sim_key_at_spec v c h k : key_at v c h k → sim_key_at v c h = Some k.
Proof.
  unfold sim_key_at. intros [->|(sl & -> & Hp)]; [done|]. by rewrite decide_True.
Qed.
Lemma sim_user_session_spec v c : user_session v c → sim_user_session v c = true.
Proof.
  intros (h & s & Ha & Ho & Ht & Hc). unfold sim_user_session, sim_ambient.
  by rewrite Ha; simpl; rewrite Ho, Hc, bool_decide_true.
Qed.
Lemma sim_take_key k d : take sim_key_len (sim_key_bytes k ++ d) = sim_key_bytes k.
Proof. done. Qed.
Lemma sim_drop_key k d : drop sim_key_len (sim_key_bytes k ++ d) = d.
Proof. done. Qed.

Lemma sim_alloc_spec c o w :
  sim_ready w → (size (v_objs (sw_view w)) + 1 ≤ sim_capacity)%nat →
  run (sim_alloc c o) w (λ h w', sim_ready w' ∧ obj_at (sw_view w) c h = None ∧
    h = sw_next w ∧ sw_view w' = add_obj c h o (sw_view w)).
Proof.
  intros Hr Hroom. unfold run, sim_alloc.
  rewrite bool_decide_true by lia. rewrite bool_decide_true by (by apply sim_fresh).
  eexists _, _. split; [done|]. split_and!; [|by apply sim_fresh|done|done].
  apply sim_ready_add; [done|lia|lia].
Qed.

(** Evaluate a command of the simulator up to its first allocation. *)
Ltac sim_unfold :=
  repeat first
    [ rewrite (sim_key_at_spec _ _ _ _ ltac:(eassumption))
    | rewrite (sim_user_session_spec _ _ ltac:(eassumption)) ].
Ltac sim_run :=
  cbv beta iota delta [mbind M_bind sim_get sim_assert lift mret M_ret ok_or negb andb implb].

#[local] Arguments sim_public_bytes : simpl never.
#[local] Arguments sim_key_bytes : simpl never.
#[local] Arguments sim_key_parse : simpl never.
#[local] Arguments sim_public_parse : simpl never.
#[local] Arguments sim_key_len : simpl never.
#[local] Arguments sim_public_len : simpl never.

(** Protection relations of the simulator's blobs. *)
Definition sim_seals (k : SimKey) (priv : list byte) (pub : SimPublic) (d : list byte) : Prop :=
  priv = x01 :: sim_key_bytes k ++ d.
Definition sim_wraps_key (t : SimKey) (priv : list byte) (pub : SimPublic) (k : SimKey) : Prop :=
  priv = x02 :: sim_key_bytes t ++ sim_key_bytes k ∧ pub = sk_public k.
Definition sim_duplicates (p : SimPublic) (enc dup sec : list byte) (k : SimKey) : Prop :=
  dup = sim_public_bytes p ++ sim_key_bytes k.
Definition sim_primary_key (sd : byte) (p : SimPublic) : SimKey :=
  mkSimKey sd (mkSimPublic (sp_attributes p) (sp_policy p) sd).

Section SimLaws.
Implicit Types (w : SimWorld) (c : Ctx).
Let room (n : nat) w : Prop := (size (v_objs (sw_view w)) + n ≤ sim_capacity)%nat.

Lemma sim_in_ambient_law {E A} c a (f : M SimWorld E A) w :
  sim_ready w →
  ∃ w1, sim_ready w1 ∧ sw_view w1 = with_ambient c a (sw_view w) ∧
    ∀ r w2, f w1 = (r, w2) → r ≠ Panic → sim_ready w2 →
      ∃ w3, sim_in_ambient c a f w = (r, w3) ∧ sim_ready w3 ∧
            sw_view w3 = with_ambient c (v_ambient (sw_view w) !! c) (sw_view w2).
Proof.
  intros Hr. exists (sim_ambient_set c a w). split; [by apply (sim_ready_same w)|].
  split; [done|]. intros r w2 Hf _ Hr2. unfold sim_in_ambient. rewrite Hf.
  eexists. split; [done|]. split; [by apply (sim_ready_same w2)|done].
Qed.

Lemma sim_nullauth_enter_law c w :
  sim_ready w → room 1 w →
  run (sim_nullauth_enter c) w (λ s w', sim_ready w' ∧ obj_at (sw_view w) c s.1 = None ∧
    s.2 = v_ambient (sw_view w) !! c ∧ ∃ ses, sess_type ses = SessionType_Hmac ∧
    continue_session (sess_attributes ses) = true ∧ sw_view w' = open_session c s.1 ses (sw_view w)).
Proof.
  intros Hr Hroom. unfold sim_nullauth_enter, run. set (s := mkSession _ _ _).
  destruct (sim_alloc_spec c (OSession s) w Hr Hroom) as (h & w0 & -> & Hr0 & Hf0 & _ & Hv0).
  eexists _, _. split; [reflexivity|]. split_and!; [by apply (sim_ready_same w0)|done|done|].
  exists s. split_and!; [done..|]. cbn. by rewrite Hv0.
Qed.
Lemma sim_nullauth_leave_law c s w :
  sim_ready w → is_Some (obj_at (sw_view w) c s.1) →
  run (sim_nullauth_leave c s) w (λ _ w', sim_ready w' ∧ sw_view w' = close_session c s.1 s.2 (sw_view w)).
Proof.
  intros Hr _. eexists tt, _. split; [reflexivity|]. split; [|done].
  apply (sim_ready_same (mkSimWorld (del_obj c s.1 (sw_view w)) (sw_next w))); [by apply sim_ready_del|done..].
Qed.
Lemma sim_nullauth_law {E A} (conv : N → E) c (f : M SimWorld E A) w :
  sim_ready w → room 1 w →
  ∃ h s w1, sim_ready w1 ∧ obj_at (sw_view w) c h = None ∧ sess_type s = SessionType_Hmac ∧
    continue_session (sess_attributes s) = true ∧ sw_view w1 = open_session c h s (sw_view w) ∧
    ∀ r w2, f w1 = (r, w2) → r ≠ Panic → sim_ready w2 → is_Some (obj_at (sw_view w2) c h) →
      ∃ w3, sim_nullauth conv c f w = (r, w3) ∧ sim_ready w3 ∧
            sw_view w3 = close_session c h (v_ambient (sw_view w) !! c) (sw_view w2).
Proof.
  intros Hr Hroom.
  destruct (sim_nullauth_enter_law c w Hr Hroom) as ([h a] & w1 & He & Hr1 & Hf & Ha & s & Ht & Hc & Hv).
  exists h, s, w1. split_and!; [done..|]. intros r w2 Hr2 Hp Hrd2 Ho. cbn in Ha. subst a.
  destruct (sim_nullauth_leave_law c (h, v_ambient (sw_view w) !! c) w2 Hrd2 Ho) as ([] & w3 & Hl & ? & ?).
  exists w3. split; [|done]. unfold sim_nullauth. rewrite (bind_ok _ _ _ _ _ (map_errM_ok conv _ _ _ _ He)).
  unfold mbind, M_bind, attempt. rewrite Hr2. destruct r as [x|e|]; [..|done];
    rewrite (map_errM_ok conv _ _ _ _ Hl); done.
Qed.

Lemma sim_create_primary_law c p w :
  sim_ready w → room 1 w → user_session (sw_view w) c →
  storage_attributes (sp_attributes p) →
  run (sim_create_primary c Hierarchy_Owner p) w (λ h w', sim_ready w' ∧
    obj_at (sw_view w) c h = None ∧
    sw_view w' = add_obj c h (OKey (sim_primary_key (v_seed (sw_view w)) p)) (sw_view w)).
Proof.
  intros Hr Hroom Hu (H1 & H2 & H3 & H4).
  destruct (sim_alloc_spec c (OKey (sim_primary_key (v_seed (sw_view w)) p)) w Hr Hroom)
    as (h & w' & Ha & ? & ? & _ & ?).
  exists h, w'. split; [|done]. unfold sim_create_primary. sim_run.
  rewrite (sim_user_session_spec _ _ Hu). sim_run. rewrite H1, H2, H3, H4. by sim_run.
Qed.

Lemma sim_read_public_law c h k w :
  sim_ready w → key_at (sw_view w) c h k →
  run (sim_read_public c h) w (λ r w', sim_ready w' ∧ sw_view w' = sw_view w ∧
    r.1 = (sk_public k, sim_public_bytes (sk_public k))).
Proof.
  intros Hr Hk. exists (sk_public k, sim_public_bytes (sk_public k), []), w.
  split; [|done]. unfold sim_read_public. sim_run.
  rewrite (sim_key_at_spec _ _ _ _ Hk). by sim_run.
Qed.

Lemma sim_create_law c h k p (sd : list byte) w :
  sim_ready w → user_session (sw_view w) c → key_at (sw_view w) c h k →
  sensitive_data_origin (sp_attributes p) = false →
  (fixed_tpm (sp_attributes p) = true → fixed_tpm (sp_attributes (sk_public k)) = true) →
  run (sim_create c h p (Some sd)) w (λ r w', sim_ready w' ∧ sw_view w' = sw_view w ∧
    sim_seals k r.1 r.2 sd).
Proof.
  intros Hr Hu Hk Ho Hfx. exists (x01 :: sim_key_bytes k ++ sd, p), w.
  split; [|done]. unfold sim_create. sim_run.
  rewrite (sim_user_session_spec _ _ Hu). sim_run.
  rewrite (sim_key_at_spec _ _ _ _ Hk). sim_run. rewrite Ho. sim_run.
  destruct (fixed_tpm (sp_attributes p)); [rewrite Hfx by done|]; by sim_run.
Qed.

Lemma sim_create_inconsistent_law c h k p sd w :
  sim_ready w → key_at (sw_view w) c h k → fixed_tpm (sp_attributes p) = true →
  fixed_tpm (sp_attributes (sk_public k)) = false →
  fails (sim_create c h p sd) w (λ _ w', sim_ready w' ∧ sw_view w' = sw_view w).
Proof.
  intros Hr Hk H1 H2. exists RC_FAILURE, w. split; [|done]. unfold sim_create. sim_run.
  destruct (sim_user_session _ _); [|by sim_run]. sim_run.
  rewrite (sim_key_at_spec _ _ _ _ Hk). sim_run.
  destruct (sensitive_data_origin _); [by sim_run|]. sim_run. rewrite H1, H2. by sim_run.
Qed.

Lemma sim_load_sealed_law c h k priv pub d w :
  sim_ready w → room 1 w → user_session (sw_view w) c → key_at (sw_view w) c h k →
  sim_seals k priv pub d →
  run (sim_load c h priv pub) w (λ o w', sim_ready w' ∧ obj_at (sw_view w) c o = None ∧
    sw_view w' = add_obj c o (OSealed d) (sw_view w)).
Proof.
  intros Hr Hroom Hu Hk ->.
  destruct (sim_alloc_spec c (OSealed d) w Hr Hroom) as (o & w' & Ha & ? & ? & _ & ?).
  exists o, w'. split; [|done]. unfold sim_load. sim_run.
  rewrite (sim_user_session_spec _ _ Hu). sim_run. rewrite (sim_key_at_spec _ _ _ _ Hk). sim_run.
  rewrite bool_decide_true by apply sim_take_key. sim_run. by rewrite decide_True, sim_drop_key.
Qed.

Lemma sim_load_key_law c h t priv pub k w :
  sim_ready w → room 1 w → user_session (sw_view w) c → key_at (sw_view w) c h t →
  sim_wraps_key t priv pub k →
  run (sim_load c h priv pub) w (λ o w', sim_ready w' ∧ obj_at (sw_view w) c o = None ∧
    sw_view w' = add_obj c o (OKey k) (sw_view w)).
Proof.
  intros Hr Hroom Hu Hk [-> ->].
  destruct (sim_alloc_spec c (OKey k) w Hr Hroom) as (o & w' & Ha & ? & ? & _ & ?).
  exists o, w'. split; [|done]. unfold sim_load. sim_run.
  rewrite (sim_user_session_spec _ _ Hu). sim_run. rewrite (sim_key_at_spec _ _ _ _ Hk). sim_run.
  rewrite bool_decide_true by apply sim_take_key. sim_run.
  rewrite decide_False, decide_True by done. sim_run.
  rewrite sim_drop_key, sim_key_parse_bytes. sim_run. by rewrite bool_decide_true.
Qed.
End SimLaws.

Section SimLaws2.
Implicit Types (w : SimWorld) (c : Ctx).
Let room (n : nat) w : Prop := (size (v_objs (sw_view w)) + n ≤ sim_capacity)%nat.

Lemma sim_unseal_law c h d w :
  sim_ready w → user_session (sw_view w) c → obj_at (sw_view w) c h = Some (OSealed d) →
  run (sim_unseal c h) w (λ sd w', sim_ready w' ∧ sw_view w' = sw_view w ∧ sd = d).
Proof.
  intros Hr Hu Ho. exists d, w. split; [|done]. unfold sim_unseal. sim_run. rewrite Ho.
  rewrite (sim_user_session_spec _ _ Hu). by sim_run.
Qed.
Lemma sim_unseal_key_law c h k w :
  sim_ready w → obj_at (sw_view w) c h = Some (OKey k) →
  fails (sim_unseal c h) w (λ _ w', sim_ready w' ∧ sw_view w' = sw_view w).
Proof.
  intros Hr Ho. exists RC_FAILURE, w. split; [|done]. unfold sim_unseal. sim_run. by rewrite Ho.
Qed.
Lemma sim_flush_law c h o w :
  sim_ready w → obj_at (sw_view w) c h = Some o → (∀ sl k, o ≠ OPersistent sl k) →
  run (sim_flush c h) w (λ _ w', sim_ready w' ∧ sw_view w' = del_obj c h (sw_view w)).
Proof.
  intros Hr Ho Hp. exists tt, (mkSimWorld (del_obj c h (sw_view w)) (sw_next w)).
  split; [|split; [by apply sim_ready_del|done]]. unfold sim_flush. sim_run. rewrite Ho.
  by destruct o; [..|]; try (by edestruct Hp).
Qed.
Lemma sim_flush_persistent_law c h sl k w :
  sim_ready w → obj_at (sw_view w) c h = Some (OPersistent sl k) →
  fails (sim_flush c h) w (λ _ w', sim_ready w' ∧ sw_view w' = sw_view w).
Proof.
  intros Hr Ho. exists RC_FAILURE, w. split; [|done]. unfold sim_flush. sim_run. by rewrite Ho.
Qed.

Lemma sim_start_auth_session_law c ty w :
  sim_ready w → room 1 w →
  run (sim_start_auth_session c ty AES_128_CFB HashingAlgorithm_Sha256) w (λ r w',
    ∃ s a, r = Some s ∧ sim_ready w' ∧ obj_at (sw_view w) c s.2 = None ∧
      sw_view w' = add_obj c s.2 (OSession (mkSession ty x00 a)) (sw_view w) ∧
      (ty ≠ SessionType_Hmac → ∃ ps, sim_policy_try_from s = Ok ps ∧ ps = s.2)).
Proof.
  intros Hr Hroom. unfold sim_start_auth_session.
  eapply run_bind; [by apply sim_alloc_spec|]. cbv beta. intros h w' (? & ? & _ & ?).
  apply run_ret. exists (ty, h), (mkSessionAttributes false false false).
  split_and!; [done..|]. intros. exists h. split; [|done].
  unfold sim_policy_try_from. by rewrite decide_False.
Qed.

Lemma sim_session_law c h ses w :
  obj_at (sw_view w) c h = Some (OSession ses) → sim_session c h w = (Ok ses, w).
Proof. intros Ho. unfold sim_session. sim_run. by rewrite Ho. Qed.

Lemma sim_set_attributes_law c s ses a m w :
  sim_ready w → obj_at (sw_view w) c s.2 = Some (OSession ses) →
  run (sim_set_attributes c s a m) w (λ _ w', sim_ready w' ∧
    sw_view w' = add_obj c s.2 (OSession (mkSession (sess_type ses) (sess_digest ses)
                                 (set_masked a m (sess_attributes ses)))) (sw_view w)).
Proof.
  intros Hr Ho. unfold sim_set_attributes.
  eexists tt, _. rewrite (bind_ok _ _ _ _ _ (sim_session_law _ _ _ _ Ho)).
  split; [done|]. split; [|done]. apply sim_ready_add; [done..|]. apply (Hr c). eauto.
Qed.
Lemma sim_policy_command_code_law c ps ses cc w :
  sim_ready w → obj_at (sw_view w) c ps = Some (OSession ses) →
  sess_type ses ≠ SessionType_Hmac →
  run (sim_policy_command_code c ps cc) w (λ _ w', sim_ready w' ∧
    sw_view w' = add_obj c ps (OSession (mkSession (sess_type ses)
      (sim_policy_extend (sess_digest ses) cc) (sess_attributes ses))) (sw_view w)).
Proof.
  intros Hr Ho Ht. unfold sim_policy_command_code.
  eexists tt, _. rewrite (bind_ok _ _ _ _ _ (sim_session_law _ _ _ _ Ho)).
  rewrite bool_decide_true by done. split; [done|]. split; [|done].
  apply sim_ready_add; [done..|]. apply (Hr c). eauto.
Qed.
Lemma sim_policy_get_digest_law c ps ses w :
  sim_ready w → obj_at (sw_view w) c ps = Some (OSession ses) →
  sess_type ses ≠ SessionType_Hmac →
  run (sim_policy_get_digest c ps) w (λ d w', sim_ready w' ∧ sw_view w' = sw_view w ∧
    d = sess_digest ses).
Proof.
  intros Hr Ho Ht. unfold sim_policy_get_digest.
  exists (sess_digest ses), w. rewrite (bind_ok _ _ _ _ _ (sim_session_law _ _ _ _ Ho)).
  by rewrite bool_decide_true.
Qed.

Lemma sim_duplicate_law c h k e p sh d w :
  sim_ready w → key_at (sw_view w) c h k → obj_at (sw_view w) c e = Some (OExternal p) →
  policy_session_for (sw_view w) c sh d → sp_policy (sk_public k) = Some d →
  fixed_tpm (sp_attributes (sk_public k)) = false →
  fixed_parent (sp_attributes (sk_public k)) = false → sim_storage_parent p = true →
  run (sim_duplicate c h e None AES_128_CFB) w (λ r w', sim_ready w' ∧
    sim_duplicates p r.1.1 r.1.2 r.2 k ∧
    ∃ s', sw_view w' = add_obj c sh (OSession s') (sw_view w)).
Proof.
  intros Hr Hk He (s & Ha & Hs & Ht & Hd & _) Hpol H1 H2 H3.
  eexists ([], sim_public_bytes p ++ sim_key_bytes k, []), (mkSimWorld _ _).
  split; [|split; [|split; [done|by eexists]]].
  - unfold sim_duplicate. sim_run. rewrite (sim_key_at_spec _ _ _ _ Hk). sim_run.
    assert (sim_ambient (sw_view w) c = Some (sh, s)) as ->.
    { unfold sim_ambient. rewrite Ha. simpl. by rewrite Hs. }
    sim_run. cbn [snd fst]. rewrite H1, H2, Ht, Hpol, Hd, !bool_decide_true by done. sim_run.
    rewrite He, H3. by sim_run.
  - apply sim_ready_add; [done..|]. apply (Hr c). eauto.
Qed.
Lemma sim_duplicate_refused_law c h k e p sh d w :
  sim_ready w → key_at (sw_view w) c h k → obj_at (sw_view w) c e = Some (OExternal p) →
  policy_session_for (sw_view w) c sh d → sim_storage_parent p = false →
  fails (sim_duplicate c h e None AES_128_CFB) w (λ _ w', sim_ready w' ∧
    ∃ s', sw_view w' = add_obj c sh (OSession s') (sw_view w)).
Proof.
  intros Hr Hk He (s & Ha & Hs & Ht & Hd & _) H3. exists RC_FAILURE, w. split; [|split; [done|]].
  - unfold sim_duplicate. sim_run. rewrite (sim_key_at_spec _ _ _ _ Hk). sim_run.
    assert (sim_ambient (sw_view w) c = Some (sh, s)) as ->.
    { unfold sim_ambient. rewrite Ha. simpl. by rewrite Hs. }
    sim_run. cbn [snd fst]. match goal with |- context [if ?b then _ else _] => destruct b end; [|done].
    rewrite He, H3. by sim_run.
  - exists s. symmetry. apply view_ext; try done. by apply insert_id.
Qed.
Lemma sim_load_external_law c p w :
  sim_ready w → room 1 w → v_ambient (sw_view w) !! c = Some None → sim_loadable p = true →
  run (sim_load_external c p Hierarchy_Owner) w (λ h w', sim_ready w' ∧
    obj_at (sw_view w) c h = None ∧ sw_view w' = add_obj c h (OExternal p) (sw_view w)).
Proof.
  intros Hr Hroom _ Hl. destruct (sim_alloc_spec c (OExternal p) w Hr Hroom) as (h & w' & Ha & ? & ? & _ & ?).
  exists h, w'. split; [|done]. unfold sim_load_external. rewrite Hl. by sim_run.
Qed.
Lemma sim_load_external_refused_law c p w :
  sim_ready w → v_ambient (sw_view w) !! c = Some None → sim_loadable p = false →
  fails (sim_load_external c p Hierarchy_Owner) w (λ _ w', sim_ready w' ∧ sw_view w' = sw_view w).
Proof. intros Hr _ Hl. exists RC_FAILURE, w. split; [|done]. unfold sim_load_external. rewrite Hl. by sim_run. Qed.

Lemma sim_import_law c h t (enc dup sec : list byte) k w :
  sim_ready w → user_session (sw_view w) c → key_at (sw_view w) c h t →
  sim_duplicates (sk_public t) enc dup sec k →
  run (sim_import c h (Some enc) (sk_public k) dup sec AES_128_CFB) w (λ priv w',
    sim_ready w' ∧ sw_view w' = sw_view w ∧ sim_wraps_key t priv (sk_public k) k).
Proof.
  intros Hr Hu Hk ->. exists (x02 :: sim_key_bytes t ++ sim_key_bytes k), w.
  split; [|done]. unfold sim_import. sim_run. rewrite (sim_user_session_spec _ _ Hu). sim_run.
  rewrite (sim_key_at_spec _ _ _ _ Hk). sim_run. rewrite bool_decide_true by done. sim_run.
  assert (drop sim_public_len (sim_public_bytes (sk_public t) ++ sim_key_bytes k) =
          sim_key_bytes k) as -> by done.
  rewrite sim_key_parse_bytes. sim_run. by rewrite bool_decide_true.
Qed.

Lemma sim_evict_persist_law c h k sl w :
  sim_ready w → room 1 w → user_session (sw_view w) c → obj_at (sw_view w) c h = Some (OKey k) →
  v_persistent (sw_view w) !! sl = None →
  run (sim_evict_control c Provision_Owner h sl) w (λ h' w', sim_ready w' ∧
    obj_at (sw_view w) c h' = None ∧
    sw_view w' = add_obj c h' (OPersistent sl k) (with_persistent (insert sl k) (sw_view w))).
Proof.
  intros Hr Hroom Hu Ho Hp.
  destruct (sim_alloc_spec c (OPersistent sl k) w) as (h' & w' & Ha & ? & ? & _ & Hv); [done..|].
  exists h', (mkSimWorld (with_persistent (insert sl k) (sw_view w')) (sw_next w')).
  split; [|split_and!; [by apply (sim_ready_same w')|done|by simpl; rewrite Hv]].
  unfold sim_evict_control. sim_run. rewrite Ho, Hp, (sim_user_session_spec _ _ Hu). sim_run.
  rewrite Ha. done.
Qed.
Lemma sim_evict_remove_law c h k sl w :
  sim_ready w → user_session (sw_view w) c → obj_at (sw_view w) c h = Some (OPersistent sl k) →
  v_persistent (sw_view w) !! sl = Some k →
  run (sim_evict_control c Provision_Owner h sl) w (λ _ w', sim_ready w' ∧
    sw_view w' = del_obj c h (with_persistent (delete sl) (sw_view w))).
Proof.
  intros Hr Hu Ho Hp.
  exists 0%N, (mkSimWorld (del_obj c h (with_persistent (delete sl) (sw_view w))) (sw_next w)).
  split; [|split; [|done]].
  - unfold sim_evict_control. sim_run. rewrite Ho.
    rewrite (sim_user_session_spec _ _ Hu), !bool_decide_true by done. by sim_run.
  - apply (sim_ready_del (mkSimWorld (with_persistent (delete sl) (sw_view w)) (sw_next w)));
      [by apply (sim_ready_same w)|done].
Qed.
Lemma sim_evict_occupied_law c h k k' sl w :
  sim_ready w → obj_at (sw_view w) c h = Some (OKey k) → v_persistent (sw_view w) !! sl = Some k' →
  fails (sim_evict_control c Provision_Owner h sl) w (λ _ w', sim_ready w' ∧
    sw_view w' = sw_view w).
Proof.
  intros Hr Ho Hp. exists RC_FAILURE, w. split; [|done]. unfold sim_evict_control. sim_run.
  by rewrite Ho, Hp.
Qed.
Lemma sim_tr_from_tpm_public_law c sl k w :
  sim_ready w → room 1 w → v_persistent (sw_view w) !! sl = Some k →
  run (sim_tr_from_tpm_public c sl) w (λ h w', sim_ready w' ∧ obj_at (sw_view w) c h = None ∧
    sw_view w' = add_obj c h (OPersistent sl k) (sw_view w)).
Proof.
  intros Hr Hroom Hp.
  destruct (sim_alloc_spec c (OPersistent sl k) w Hr Hroom) as (h & w' & Ha & ? & ? & _ & ?).
  exists h, w'. split; [|done]. unfold sim_tr_from_tpm_public. sim_run. by rewrite Hp.
Qed.
Lemma sim_tr_from_tpm_public_empty_law c sl w :
  sim_ready w → v_persistent (sw_view w) !! sl = None →
  fails (sim_tr_from_tpm_public c sl) w (λ _ w', sim_ready w' ∧ sw_view w' = sw_view w).
Proof.
  intros Hr Hp. exists RC_FAILURE, w. split; [|done]. unfold sim_tr_from_tpm_public. sim_run.
  by rewrite Hp.
Qed.
End SimLaws2.

Lemma sim_context_new_law t w :
  sim_ready w →
  run (sim_context_new t) w (λ c w', sim_ready w' ∧ fresh_context (sw_view w) c ∧
    sw_view w' = open_context c (sw_view w)).
Proof.
  intros Hr. destruct (sim_fresh_ctx_spec w). eexists _, _. split; [done|].
  split_and!; [|done|done]. apply (sim_ready_same w); [done| |done]. lia.
Qed.
Lemma sim_context_drop_law c w :
  sim_ready w → sim_ready (sim_context_drop c w) ∧
                sw_view (sim_context_drop c w) = close_context c (sw_view w).
Proof.
  intros Hr. split; [|done]. apply (sim_ready_upd w (close_context c)); [done..|].
  intros c' h [o Ho]. left. unfold obj_at in Ho. simpl in Ho.
  apply map_lookup_filter_Some in Ho as [Ho _]. by exists o.
Qed.

#[export] Instance sim_model : TpmModel (O:=sim_ops) | 100 := {|
  Key := SimKey; Seed := byte; view := sw_view
|}.
#[export] Instance sim_spec : TpmSpec (TM:=sim_model) | 100.
Proof.
  refine (Build_TpmSpec sim_data sim_ops sim_model sk_public sim_public_bytes sim_primary_key
    x00 sim_policy_extend sim_seals sim_wraps_key sim_duplicates sim_loadable sim_storage_parent sim_capacity
    sim_ready _ _ _ _ _ _ _ _ _ _ _ _ _ _ _ _ _ _ _ _ _ _ _ _ _ _ _ _ _ _ _).
  - done.
  - intros sd p (_ & _ & Hd & Hx). cbn in *. unfold sim_loadable, sim_storage_parent. cbn. by rewrite Hd, Hx.
  - exact sim_context_new_law.
  - exact sim_context_drop_law.
  - exact (@sim_nullauth_law).
  - intros A c s f w. exact (sim_in_ambient_law c (Some (Some s.2)) f w).
  - intros A c f w. exact (sim_in_ambient_law c (Some None) f w).
  - exact sim_create_primary_law.
  - exact sim_read_public_law.
  - exact sim_create_law.
  - exact sim_create_inconsistent_law.
  - exact sim_load_sealed_law.
  - exact sim_load_key_law.
  - exact sim_unseal_law.
  - exact sim_unseal_key_law.
  - exact sim_flush_law.
  - exact sim_flush_persistent_law.
  - exact sim_start_auth_session_law.
  - exact sim_set_attributes_law.
  - exact sim_policy_command_code_law.
  - exact sim_policy_get_digest_law.
  - exact sim_load_external_law.
  - exact sim_load_external_refused_law.
  - exact sim_duplicate_law.
  - exact sim_duplicate_refused_law.
  - exact sim_import_law.
  - exact sim_evict_persist_law.
  - exact sim_evict_remove_law.
  - exact sim_evict_occupied_law.
  - exact sim_tr_from_tpm_public_law.
  - exact sim_tr_from_tpm_public_empty_law.
Defined.

(** A TPM with seed [sd] and nothing loaded. *)
Definition sim_init (sd : byte) : SimWorld := mkSimWorld (mkView sd ∅ ∅ ∅) 1.

Lemma sim_init_ready sd : ready (TpmSpec:=sim_spec) (sim_init sd).
Proof. intros c h [x Hx]. unfold obj_at in Hx. simpl in Hx. by rewrite lookup_empty in Hx. Qed.

(** Readiness of a concrete world, decided. *)
Definition sim_readyb (w : SimWorld) : bool :=
  bool_decide (map_Forall (λ ch _, (ch.2 < sw_next w)%N) (v_objs (sw_view w))).
Lemma sim_readyb_ready w : sim_readyb w = true → ready (TpmSpec:=sim_spec) w.
Proof.
  unfold sim_readyb. rewrite bool_decide_eq_true. intros H c h [o Ho]. exact (H (c, h) o Ho).
Qed.

(** The value and final world of a run that is known to succeed. *)
Definition sim_result {E A} (d : A) (r : outcome E A * SimWorld) : A * SimWorld :=
  match r with (Ok a, w) => (a, w) | (_, w) => (d, w) end.
