(* ===== verification/FaultSim.v ===== *)
(** A simulated TPM that fails on demand: a concrete [World] for which the laws
    of [FaultSpec] hold.

    Beside the simulated TPM the world carries a schedule with the fate of each
    command to come. *)
From S2P Require Import Prelude Tss FaultSpec SimTpm.

(** A command is executed and answered, lost before it reaches the TPM, or
    executed while its response is lost. *)
Inductive Fate := Executed | NotSent | NoAnswer.
Record FaultWorld := mkFaultWorld { fw_tpm : SimWorld; fw_schedule : list Fate }.
Definition FaultM := M FaultWorld N.

(** One command. *)
Definition faulty {A} (m : SimM A) : FaultM A := λ w,
  match fw_schedule w with
  | NotSent :: rest => (Err RC_FAILURE, mkFaultWorld (fw_tpm w) rest)
  | NoAnswer :: rest =>
      let (r, s) := m (fw_tpm w) in
      (match r with Panic => Panic | _ => Err RC_FAILURE end, mkFaultWorld s rest)
  | sch => let (r, s) := m (fw_tpm w) in (r, mkFaultWorld s (tail sch))
  end.

Definition faulty_ambient_set (c : Ctx) (a : option (option ESYS_TR)) (w : FaultWorld) : FaultWorld :=
  mkFaultWorld (sim_ambient_set c a (fw_tpm w)) (fw_schedule w).
Definition faulty_in_ambient {E A} (c : Ctx) (a : option (option ESYS_TR)) (f : M FaultWorld E A) :
  M FaultWorld E A := λ w,
  let (r, w') := f (faulty_ambient_set c a w) in
  (r, faulty_ambient_set c (v_ambient (sw_view (fw_tpm w)) !! c) w').
(** The session's start and its flush are commands of their own. *)
Definition faulty_flush_after {E A} (conv : N → E) (c : Ctx) (h : ESYS_TR) (f : M FaultWorld E A) :
  M FaultWorld E A := λ w,
  match f w with
  | (Panic, w') => (Panic, w')
  | (r, w') =>
      let (o, w'') := faulty (sim_upd (del_obj c h)) w' in
      (match o with Err e => Err (conv e) | _ => r end, w'')
  end.
Definition faulty_nullauth {E A} (conv : N → E) (c : Ctx) (f : M FaultWorld E A) : M FaultWorld E A :=
  h ← map_errM conv (faulty (sim_alloc c (OSession
        (mkSession SessionType_Hmac x00 (mkSessionAttributes true true true)))));
  faulty_flush_after conv c h (faulty_in_ambient c (Some (Some h)) f).

#[export] Instance faulty_ops : TssOps (D:=sim_data) | 200 := {|
  World := FaultWorld;
  AuthSession := SimAuthSession;
  PolicySession := ESYS_TR;
  session_handle := snd;
  policy_session_handle := λ h, h;
  policy_session_try_from := sim_policy_try_from;
  context_new t := faulty (sim_context_new t);
  context_drop c w := mkFaultWorld (sim_context_drop c (fw_tpm w)) (fw_schedule w);
  execute_with_nullauth_session := @faulty_nullauth;
  execute_with_session A c s f := faulty_in_ambient c (Some (snd <$> s)) f;
  execute_without_session A c f := faulty_in_ambient c (Some None) f;
  create_primary c hy p := faulty (sim_create_primary c hy p);
  read_public c h := faulty (sim_read_public c h);
  create c h p sd := faulty (sim_create c h p sd);
  load c h priv pub := faulty (sim_load c h priv pub);
  tpm_unseal c h := faulty (sim_unseal c h);
  flush_context c h := faulty (sim_flush c h);
  start_auth_session c ty sym alg := faulty (sim_start_auth_session c ty sym alg);
  tr_sess_set_attributes c s a m := faulty (sim_set_attributes c s a m);
  policy_command_code c ps cc := faulty (sim_policy_command_code c ps cc);
  policy_get_digest c ps := faulty (sim_policy_get_digest c ps);
  load_external_public c p hy := faulty (sim_load_external c p hy);
  duplicate c h e d sym := faulty (sim_duplicate c h e d sym);
  import c h d p dup sec sym := faulty (sim_import c h d p dup sec sym);
  evict_control c pr h sl := faulty (sim_evict_control c pr h sl);
  tr_from_tpm_public c sl := faulty (sim_tr_from_tpm_public c sl)
|}.
#[export] Instance faulty_model : TpmModel (O:=faulty_ops) | 200 :=
  Build_TpmModel sim_data faulty_ops SimKey byte (λ w, sw_view (fw_tpm w)).

(** * The laws *)
(** What [atomic] says, of the simulator's command alone. *)
Definition sim_atomic {A} (m : SimM A) (w : SimWorld) (Q : A → SimView → Prop) : Prop :=
  match m w with
  | (Ok a, w') => Q a (sw_view w')
  | (Err _, w') => sw_view w' = sw_view w
  | (Panic, _) => False
  end.

Lemma faulty_atomic {A} (m : SimM A) w Q :
  sim_atomic m (fw_tpm w) Q →
  atomic (TM:=faulty_model) (faulty m) w (λ a w', Q a (sw_view (fw_tpm w'))).
Proof.
  unfold sim_atomic, atomic, faulty. intros Hm.
  destruct (fw_schedule w) as [|[] rest]; [..|by left|]; destruct (m (fw_tpm w)) as [[]]; eauto.
Qed.

Lemma sim_alloc_atomic c o w (Q : ESYS_TR → SimView → Prop) :
  (∀ h, obj_at (sw_view w) c h = None → Q h (add_obj c h o (sw_view w))) →
  sim_atomic (sim_alloc c o) w Q.
Proof.
  intros HQ. unfold sim_atomic, sim_alloc. destruct (bool_decide _); [|done]. cbn.
  destruct (bool_decide_reflect (obj_at (sw_view w) c (sw_next w) = None)); [by apply HQ|done].
Qed.
Lemma sim_get_atomic {A} (f : SimView → SimM A) w Q :
  sim_atomic (f (sw_view w)) w Q → sim_atomic (sim_get ≫= f) w Q.
Proof. done. Qed.
Lemma sim_lift_atomic {A B} (x : outcome N A) (f : A → SimM B) w Q :
  (∀ a, x = Ok a → sim_atomic (f a) w Q) → x ≠ Panic → sim_atomic (lift x ≫= f) w Q.
Proof. intros Hf Hp. unfold sim_atomic, mbind, M_bind, lift. destruct x; [by apply Hf|done..]. Qed.
Lemma sim_assert_atomic {A} b (f : unit → SimM A) w Q :
  (b = true → sim_atomic (f tt) w Q) → sim_atomic (sim_assert b ≫= f) w Q.
Proof. destruct b; [|done]. intros H. by apply H. Qed.
Lemma sim_session_atomic {A} c h (f : Session byte → SimM A) w Q :
  (∀ s, obj_at (sw_view w) c h = Some (OSession s) → sim_atomic (f s) w Q) →
  sim_atomic (sim_session c h ≫= f) w Q.
Proof.
  unfold sim_atomic, sim_session, mbind, M_bind, sim_get, sim_fail.
  destruct (obj_at _ c h) as [[]|] eqn:H; cbn; try done. intros Hf. by apply Hf.
Qed.
Lemma ok_or_not_panic {A} (e : N) (o : option A) : ok_or e o ≠ Panic.
Proof. by destruct o. Qed.

Ltac at_step :=
  match goal with
  | |- sim_atomic (sim_get ≫= _) _ _ => apply sim_get_atomic
  | |- sim_atomic (lift _ ≫= _) _ _ => apply sim_lift_atomic; [intros ? ?|apply ok_or_not_panic]
  | |- sim_atomic (sim_assert _ ≫= _) _ _ => apply sim_assert_atomic; intros ?
  | |- sim_atomic (sim_session _ _ ≫= _) _ _ => apply sim_session_atomic; intros ? ?
  | |- sim_atomic (sim_alloc _ _) _ _ => apply sim_alloc_atomic; intros ? ?
  | |- sim_atomic (match ?x with _ => _ end) _ _ => destruct x eqn:?
  | |- sim_atomic sim_fail _ _ => reflexivity
  end.
Ltac at_solve := repeat (cbv zeta; at_step).

Lemma sim_evict_atomic c pr h sl w :
  sim_atomic (sim_evict_control c pr h sl) w (λ h' v',
    (∃ k, obj_at (sw_view w) c h = Some (OKey k) ∧ v_persistent (sw_view w) !! sl = None ∧
          obj_at (sw_view w) c h' = None ∧
          v' = add_obj c h' (OPersistent sl k) (with_persistent (insert sl k) (sw_view w))) ∨
    (∃ k, obj_at (sw_view w) c h = Some (OPersistent sl k) ∧
          v' = del_obj c h (with_persistent (delete sl) (sw_view w)))).
Proof.
  unfold sim_evict_control. at_solve.
  - pose proof (sim_alloc_atomic c (OPersistent sl k) w (λ h' v', obj_at (sw_view w) c h' = None ∧
      v' = add_obj c h' (OPersistent sl k) (sw_view w)) ltac:(done)) as Ha.
    unfold sim_atomic, mbind, M_bind in *. destruct (sim_alloc _ _ w) as [[h'|e|] w']; cbn; [|done..].
    destruct Ha as [Hf Hv]. left. exists k. rewrite Hv. by split_and!.
  - unfold sim_atomic. cbn. right. exists k.
    match goal with H : (_ && _) = true |- _ => apply andb_prop in H as [[_ Hs%bool_decide_eq_true_1]%andb_prop _] end.
    by subst.
Qed.
Lemma sim_duplicate_atomic c h e d sym w :
  sim_atomic (sim_duplicate c h e d sym) w (λ _ v', v' = sw_view w ∨ ∃ hs ses ses',
    obj_at (sw_view w) c hs = Some (OSession ses) ∧ v' = add_obj c hs (OSession ses') (sw_view w)).
Proof.
  unfold sim_duplicate. at_solve. destruct a0 as [hs ses]. unfold sim_atomic. cbn. right.
  eexists hs, ses, _. split; [|done].
  match goal with H : ok_or _ (sim_ambient _ _) = Ok _ |- _ => revert H end.
  unfold sim_ambient. destruct (mjoin _) as [h0|]; cbn; [|done].
  by destruct (obj_at _ c h0) as [[]|] eqn:Ho; cbn; try done; intros [= -> ->].
Qed.

Lemma faulty_alloc c o w :
  atomic (TM:=faulty_model) (faulty (sim_alloc c o)) w (λ h w', obj_at (sw_view (fw_tpm w)) c h = None ∧
    sw_view (fw_tpm w') = add_obj c h o (sw_view (fw_tpm w))).
Proof.
  apply (faulty_atomic _ _ (λ h v', obj_at (sw_view (fw_tpm w)) c h = None ∧
    v' = add_obj c h o (sw_view (fw_tpm w)))). by apply sim_alloc_atomic.
Qed.

Lemma faulty_nullauth_law {E A} (conv : N → E) c (f : M FaultWorld E A) w (v := λ w, sw_view (fw_tpm w)) :
  (∃ e w', faulty_nullauth conv c f w = (Err (conv e), w') ∧
     (v w' = v w ∨ ∃ h s, obj_at (v w) c h = None ∧ v w' = add_obj c h (OSession s) (v w))) ∨
  ∃ h s w1 r w2 r' w', obj_at (v w) c h = None ∧ v w1 = open_session c h s (v w) ∧
    f w1 = (r, w2) ∧ faulty_nullauth conv c f w = (r', w') ∧
    same_nv (v w2) (v w') ∧ (r = Panic → r' = Panic) ∧
    (r ≠ Panic →
       r' = r ∧ v w' = close_session c h (v_ambient (v w) !! c) (v w2) ∨
       (∃ e, r' = Err (conv e)) ∧ (v w' = with_ambient c (v_ambient (v w) !! c) (v w2) ∨
                                   v w' = close_session c h (v_ambient (v w) !! c) (v w2))).
Proof.
  unfold faulty_nullauth, mbind, M_bind, map_errM.
  set (s := mkSession _ _ _). pose proof (faulty_alloc c (OSession s) w) as Ha. unfold atomic in Ha.
  destruct (faulty _ w) as [[h|e|] w0]; [|left; exists e, w0; split; [done|]|done].
  2: { destruct Ha as [?|(h & Hf & Hv)]; [by left|right; by exists h, s]. }
  destruct Ha as [Hf Hv0]. right.
  set (w1 := faulty_ambient_set c (Some (Some h)) w0). destruct (f w1) as [r w2] eqn:Hr.
  assert (v w1 = open_session c h s (v w)) as Hv1 by (unfold v; cbn; by rewrite Hv0).
  enough (∃ r' w', faulty_flush_after conv c h (faulty_in_ambient c (Some (Some h)) f) w0 = (r', w') ∧
    same_nv (v w2) (v w') ∧ (r = Panic → r' = Panic) ∧
    (r ≠ Panic →
       r' = r ∧ v w' = close_session c h (v_ambient (v w) !! c) (v w2) ∨
       (∃ e, r' = Err (conv e)) ∧ (v w' = with_ambient c (v_ambient (v w) !! c) (v w2) ∨
                                   v w' = close_session c h (v_ambient (v w) !! c) (v w2))))
    as (r' & w' & ?) by (by exists h, s, w1, r, w2, r', w').
  unfold faulty_flush_after, faulty_in_ambient. fold w1. rewrite Hr.
  replace (v_ambient (sw_view (fw_tpm w0)) !! c) with (v_ambient (v w) !! c) by (by rewrite Hv0).
  destruct r as [a|e|]; [| |by do 2 eexists].
  all: unfold faulty; cbn; destruct (fw_schedule w2) as [|[] rest]; cbn;
    do 2 eexists; split_and!; try done; intros _;
    [by left|by left|right; split; [by eexists|by left]|right; split; [by eexists|by right]].
Qed.
Lemma faulty_in_ambient_law {E A} c a (f : M FaultWorld E A) w (v := λ w, sw_view (fw_tpm w)) :
  ∃ w1 r w2 w', v w1 = with_ambient c a (v w) ∧
    f w1 = (r, w2) ∧ faulty_in_ambient c a f w = (r, w') ∧ same_nv (v w2) (v w') ∧
    (r ≠ Panic → v w' = with_ambient c (v_ambient (v w) !! c) (v w2)).
Proof.
  unfold faulty_in_ambient. destruct (f (faulty_ambient_set c a w)) as [r w2] eqn:Hr.
  eexists (faulty_ambient_set c a w), r, w2, _. by rewrite Hr.
Qed.

#[export] Instance faulty_spec : FaultSpec (TM:=faulty_model) | 200.
Proof.
  split.
  - intros t w. apply (faulty_atomic _ _ (λ c v', fresh_context _ c ∧ v' = open_context c _)).
    split; [apply sim_fresh_ctx_spec|done].
  - done.
  - intros E A. apply (faulty_nullauth_law (E:=E) (A:=A)).
  - intros A c s. apply faulty_in_ambient_law.
  - intros A c. apply faulty_in_ambient_law.
  - intros c hy p w.
    apply (faulty_atomic _ _ (λ h v', obj_at _ c h = None ∧ ∃ k, v' = add_obj c h (OKey k) _)).
    unfold sim_create_primary. at_solve. eauto.
  - intros c h w. apply (faulty_atomic _ _ (λ _ v', v' = _)). unfold sim_read_public. by at_solve.
  - intros c h p sd w. apply (faulty_atomic _ _ (λ _ v', v' = _)). unfold sim_create. by at_solve.
  - intros c h priv pub w. apply (faulty_atomic _ _ (λ o v', obj_at _ c o = None ∧
      ∃ ob, (∀ sl k, ob ≠ OPersistent sl k) ∧ v' = add_obj c o ob _)).
    unfold sim_load. at_solve; (split; [done|eexists; split; [|reflexivity]; done]).
  - intros c h w. apply (faulty_atomic _ _ (λ _ v', v' = _)). unfold sim_unseal. by at_solve.
  - intros c h w. apply (faulty_atomic _ _ (λ _ v', v' = del_obj c h _)). unfold sim_flush. by at_solve.
  - intros c ty sym alg w. apply (faulty_atomic _ _ (λ r v', match r with
      | Some s => obj_at _ c s.2 = None ∧ ∃ ses, v' = add_obj c s.2 (OSession ses) _
      | None => v' = _ end)).
    unfold sim_start_auth_session. set (s := mkSession _ _ _).
    pose proof (sim_alloc_atomic c (OSession s) (fw_tpm w) (λ h v', obj_at (sw_view (fw_tpm w)) c h = None ∧
      v' = add_obj c h (OSession s) (sw_view (fw_tpm w))) ltac:(done)) as Ha.
    unfold sim_atomic, mbind, M_bind in *. destruct (sim_alloc _ _ _) as [[h'|e|] w']; cbn; [|done..].
    destruct Ha as [Hf ->]. eauto.
  - intros c s a m w. apply (faulty_atomic _ _ (λ _ v', ∃ ses ses', obj_at _ c s.2 = Some (OSession ses) ∧
      v' = add_obj c s.2 (OSession ses') _)).
    unfold sim_set_attributes. at_solve. unfold sim_atomic. cbn. eauto.
  - intros c ps cc w. apply (faulty_atomic _ _ (λ _ v', ∃ ses ses', obj_at _ c ps = Some (OSession ses) ∧
      v' = add_obj c ps (OSession ses') _)).
    unfold sim_policy_command_code. at_solve. unfold sim_atomic. cbn. eauto.
  - intros c ps w. apply (faulty_atomic _ _ (λ _ v', v' = _)). unfold sim_policy_get_digest. by at_solve.
  - intros c p hy w. apply (faulty_atomic _ _ (λ h v', obj_at _ c h = None ∧ v' = add_obj c h (OExternal p) _)).
    unfold sim_load_external. by at_solve.
  - intros c h e d sym w. apply (faulty_atomic _ _ (λ _ v', v' = _ ∨ ∃ hs ses ses',
      obj_at _ c hs = Some (OSession ses) ∧ v' = add_obj c hs (OSession ses') _)), sim_duplicate_atomic.
  - intros c h d p dup sec sym w. apply (faulty_atomic _ _ (λ _ v', v' = _)). unfold sim_import. by at_solve.
  - intros c pr h sl w. apply (faulty_atomic _ _ (λ h' v',
      (∃ k, obj_at _ c h = Some (OKey k) ∧ v_persistent _ !! sl = None ∧ obj_at _ c h' = None ∧
            v' = add_obj c h' (OPersistent sl k) (with_persistent (insert sl k) _)) ∨
      (∃ k, obj_at _ c h = Some (OPersistent sl k) ∧
            v' = del_obj c h (with_persistent (delete sl) _)))), sim_evict_atomic.
  - intros c sl w. apply (faulty_atomic _ _ (λ h v', obj_at _ c h = None ∧
      ∃ k, v_persistent _ !! sl = Some k ∧ v' = add_obj c h (OPersistent sl k) _)).
    unfold sim_tr_from_tpm_public. at_solve. eauto.
Qed.
