(* ===== verification/Steps.v ===== *)
(** Code that can be interrupted between two TPM commands.

    A function of [Sealer.v] is one step of its host's [World].  Where two threads
    use the TPM at the same time, through contexts of their own, that is too
    coarse: the commands of one come between the commands of the other.  [Prog] is
    the same code as a tree of atomic actions with what remains after each
    ([exec] runs it without interruption), [NullauthSteps] splits
    [execute_with_nullauth_session] into its two ends, and [wp] says what a program
    of one context does whatever the other contexts do meanwhile: it assumes of the
    world only its own part ([own]) and leaves the rest of it ([others]) alone. *)
From S2P Require Import Prelude Tss SimTpm.

(** * Programs of atomic actions *)
Inductive Prog (W E A : Type) : Type :=
| Ret (r : outcome E A)
| Do {X : Type} (m : W → X * W) (k : X → Prog W E A).
Arguments Ret {W E A} r.
Arguments Do {W E A X} m k.

#[export] Instance Prog_ret W E : MRet (Prog W E) := λ A a, Ret (Ok a).
#[export] Instance Prog_bind W E : MBind (Prog W E) := λ A B f,
  fix go p := match p with
  | Ret (Ok a) => f a
  | Ret (Err e) => Ret (Err e)
  | Ret Panic => Ret Panic
  | Do m k => Do m (λ x, go (k x))
  end.
(** Each returns where it would in [M]. *)
Definition cmd {W E A} (m : M W E A) : Prog W E A := Do m Ret.
Fixpoint map_result {W E E' A B} (g : outcome E A → outcome E' B) (p : Prog W E A) : Prog W E' B :=
  match p with
  | Ret r => Ret (g r)
  | Do m k => Do m (λ x, map_result g (k x))
  end.
Definition p_map_err {W E E' A} (g : E → E') : Prog W E A → Prog W E' A := map_result (map_err g).
Definition caught {E E' A} (r : outcome E A) : outcome E' (A + E) :=
  match r with Ok a => Ok (inl a) | Err e => Ok (inr e) | Panic => Panic end.
Definition p_attempt {W E E' A} : Prog W E A → Prog W E' (A + E) := map_result caught.
Definition uncaught {E A} (r : A + E) : outcome E A :=
  match r with inl a => Ok a | inr e => Err e end.

(** Without interruption. *)
Fixpoint exec {W E A} (p : Prog W E A) : M W E A := λ w,
  match p with
  | Ret r => (r, w)
  | Do m k => let (x, w') := m w in exec (k x) w'
  end.

Section Exec.
Context {W E : Type}.
Implicit Types w : W.
Lemma exec_bind {A B} (p : Prog W E A) (f : A → Prog W E B) w :
  exec (p ≫= f) w = (exec p ≫= λ a, exec (f a)) w.
Proof.
  unfold mbind at 2, M_bind. revert w. induction p as [[a|e|]|X m k IH]; intros w; cbn; try done.
  destruct (m w) as [x w']. apply IH.
Qed.
Lemma exec_map_result {E' A B} (g : outcome E A → outcome E' B) (p : Prog W E A) w :
  exec (map_result g p) w = (g (exec p w).1, (exec p w).2).
Proof. revert w. induction p as [r|X m k IH]; intros w; cbn; [done|]. destruct (m w). apply IH. Qed.
Lemma exec_map_err {E' A} (g : E → E') (p : Prog W E A) w : exec (p_map_err g p) w = map_errM g (exec p) w.
Proof. unfold p_map_err, map_errM. rewrite exec_map_result. by destruct (exec p w). Qed.
Lemma exec_attempt {E' A} (p : Prog W E A) w : exec (p_attempt (E':=E') p) w = attempt (exec p) w.
Proof. unfold p_attempt, attempt. rewrite exec_map_result. by destruct (exec p w) as [[]]. Qed.
Lemma exec_cmd {A} (m : M W E A) w : exec (cmd m) w = m w.
Proof. cbn. by destruct (m w). Qed.
End Exec.

(** ** How many actions *)
(** [p] takes at most [n] actions, of which [leaf r] come after its result [r]. *)
Fixpoint takes {W E A} (leaf : outcome E A → nat) (p : Prog W E A) (n : nat) : Prop :=
  match p with
  | Ret r => (leaf r ≤ n)%nat
  | Do m k => ∃ n', (S n' ≤ n)%nat ∧ ∀ x, takes leaf (k x) n'
  end.

Section Takes.
Context {W E : Type}.
Lemma takes_le {A} leaf (p : Prog W E A) n n' : (n ≤ n')%nat → takes leaf p n → takes leaf p n'.
Proof. destruct p; cbn; [lia|]. intros ? (m' & ? & ?). exists m'. split; [lia|done]. Qed.
(** [g] bounds what comes after the first of two programs. *)
Lemma takes_then {A B} leaf (g : outcome E A → nat) (p : Prog W E A) (f : A → Prog W E B) n :
  takes g p n → (∀ a, takes leaf (f a) (g (Ok a))) → (∀ e, leaf (Err e) ≤ g (Err e))%nat → (leaf Panic ≤ g Panic)%nat →
  takes leaf (p ≫= f) n.
Proof.
  intros Hp Hf He Hc. revert n Hp. induction p as [[a|e|]|X m k IH]; intros n Hp; cbn in *.
  - by eapply takes_le.
  - specialize (He e). lia.
  - lia.
  - destruct Hp as (n' & ? & Hk). exists n'. split; [done|]. intros x. by apply IH.
Qed.
Lemma takes_bind {A B} leaf (p : Prog W E A) (f : A → Prog W E B) b n :
  takes (λ _, b) p n → (∀ a, takes leaf (f a) b) → (∀ e, leaf (Err e) ≤ b)%nat → (leaf Panic ≤ b)%nat →
  takes leaf (p ≫= f) n.
Proof. apply (takes_then leaf (λ _, b)). Qed.
Lemma takes_map_result {E' A B} leaf (g : outcome E A → outcome E' B) (p : Prog W E A) n :
  takes (leaf ∘ g) p n → takes leaf (map_result g p) n.
Proof.
  revert n. induction p as [r|X m k IH]; intros n; cbn; [done|].
  intros (n' & ? & Hk). exists n'. split; [done|]. intros x. by apply IH.
Qed.
Lemma takes_cmd {A} (leaf : outcome E A → nat) (m : M W E A) b :
  (∀ r, leaf r ≤ b)%nat → takes leaf (cmd m) (S b).
Proof. intros Hl. exists b. split; [done|]. intros r. apply Hl. Qed.
End Takes.

(** * The ends of [execute_with_nullauth_session]

    What the crate documents of it: it starts an HMAC session, runs the closure
    with that session set and the ones before restored after it, and flushes the
    session; the closure's result is the result unless the flush fails.  Each end
    is one TPM command (StartAuthSession, FlushContext).  If the closure panics
    the second does not come to be. *)
Definition NullauthToken : Type := ESYS_TR * option (option ESYS_TR).
Class NullauthSteps `{O : TssOps} := {
  nullauth_enter : Ctx → M World TssError NullauthToken;
  nullauth_leave : Ctx → NullauthToken → M World TssError unit
}.
Class NullauthSplit `{O : TssOps} {NS : NullauthSteps} : Prop := {
  nullauth_split {E A} (conv : TssError → E) c (f : M World E A) w :
    execute_with_nullauth_session conv c f w =
      (s ← map_errM conv (nullauth_enter c);
       r ← attempt f;
       _ ← map_errM conv (nullauth_leave c s);
       of_sum r) w
}.
Class NullauthSpec `{TS : TpmSpec} {NS : NullauthSteps} : Prop := {
  nullauth_enter_spec c w :
    ready w → room 1 w →
    run (nullauth_enter c) w (λ s w', ready w' ∧ obj_at (view w) c s.1 = None ∧
      s.2 = v_ambient (view w) !! c ∧ ∃ ses, sess_type ses = SessionType_Hmac ∧
      continue_session (sess_attributes ses) = true ∧ view w' = open_session c s.1 ses (view w));
  nullauth_leave_spec c s w :
    ready w → is_Some (obj_at (view w) c s.1) →
    run (nullauth_leave c s) w (λ _ w', ready w' ∧ view w' = close_session c s.1 s.2 (view w))
}.

#[export] Instance sim_nullauth_steps : NullauthSteps (O:=sim_ops) | 100 := {|
  nullauth_enter := sim_nullauth_enter; nullauth_leave := sim_nullauth_leave
|}.
#[export] Instance sim_nullauth_split : NullauthSplit (O:=sim_ops) (NS:=sim_nullauth_steps) | 100.
Proof. done. Qed.
#[export] Instance sim_nullauth_spec : NullauthSpec (TS:=sim_spec) (NS:=sim_nullauth_steps) | 100.
Proof. split; [exact sim_nullauth_enter_law|exact sim_nullauth_leave_law]. Qed.

Section NullauthProg.
Context `{O : TssOps} {NS : NullauthSteps}.
Definition nullauth_prog {E A} (conv : TssError → E) (c : Ctx) (f : Prog World E A) : Prog World E A :=
  s ← p_map_err conv (cmd (nullauth_enter c));
  r ← p_attempt f;
  _ ← p_map_err conv (cmd (nullauth_leave c s));
  Ret (uncaught r).
End NullauthProg.

(** * The part of the TPM that belongs to one context *)
Section Own.
Context {P G K S : Type}.
Implicit Types (v : TpmView P G K S) (o : Obj P G K).

Definition own (c : Ctx) v : TpmView P G K S :=
  mkView (v_seed v) (v_persistent v) (filter (λ e, e.1.1 = c) (v_objs v)) (filter (λ e, e.1 = c) (v_ambient v)).
Definition others (c : Ctx) v : TpmView P G K S :=
  mkView (v_seed v) (v_persistent v) (filter (λ e, e.1.1 ≠ c) (v_objs v)) (filter (λ e, e.1 ≠ c) (v_ambient v)).

Lemma own_others_ext c v v' : own c v = own c v' → others c v = others c v' → v = v'.
Proof.
  destruct v as [s p ob am], v' as [s' p' ob' am']. unfold own, others. cbn.
  intros [= -> -> Ho Ha] [= Ho' Ha']. f_equal.
  - rewrite <- (map_filter_union_complement (λ e, e.1.1 = c) ob), <- (map_filter_union_complement (λ e, e.1.1 = c) ob').
    by rewrite Ho, Ho'.
  - rewrite <- (map_filter_union_complement (λ e, e.1 = c) am), <- (map_filter_union_complement (λ e, e.1 = c) am').
    by rewrite Ha, Ha'.
Qed.
Lemma size_own_others c v : size (v_objs v) = (size (v_objs (own c v)) + size (v_objs (others c v)))%nat.
Proof.
  cbn. rewrite <- (map_filter_union_complement (λ e, e.1.1 = c) (v_objs v)) at 1.
  apply map_size_disj_union, map_disjoint_filter_complement.
Qed.
(** Another context's part is among the others. *)
Lemma own_of_others c c' v v' : c ≠ c' → others c v = others c v' → own c' v = own c' v'.
Proof.
  intros Hne [= Hs Hp Ho Ha]. unfold own. f_equal; [done..| |].
  - apply map_eq. intros [x h]. apply (f_equal (.!! (x, h))) in Ho. rewrite !map_lookup_filter in *.
    destruct (v_objs v !! (x, h)), (v_objs v' !! (x, h)); cbn in *; repeat case_guard; cbn in *; naive_solver.
  - apply map_eq. intros x. apply (f_equal (.!! x)) in Ha. rewrite !map_lookup_filter in *.
    destruct (v_ambient v !! x), (v_ambient v' !! x); cbn in *; repeat case_guard; cbn in *; naive_solver.
Qed.
Lemma others_comm c c' v : others c (others c' v) = others c' (others c v).
Proof.
  unfold others. cbn. f_equal; apply map_eq; intros i; rewrite !map_lookup_filter;
    [destruct (v_objs v !! i)|destruct (v_ambient v !! i)]; cbn; repeat case_guard; cbn; done.
Qed.

Lemma obj_at_own c h v : obj_at (own c v) c h = obj_at v c h.
Proof.
  unfold obj_at, own. cbn. rewrite map_lookup_filter. destruct (v_objs v !! (c, h)); cbn; [|done]. by case_guard.
Qed.
Lemma ambient_own c v : v_ambient (own c v) !! c = v_ambient v !! c.
Proof. unfold own. cbn. rewrite map_lookup_filter. destruct (v_ambient v !! c); cbn; [|done]. by case_guard. Qed.
Lemma key_at_own c h k v : key_at (own c v) c h k ↔ key_at v c h k.
Proof. unfold key_at. by rewrite obj_at_own. Qed.
Lemma user_session_own c v : user_session (own c v) c ↔ user_session v c.
Proof. unfold user_session. rewrite ambient_own. by setoid_rewrite obj_at_own. Qed.

Lemma own_add c h o v : own c (add_obj c h o v) = add_obj c h o (own c v).
Proof. apply view_ext; try done; cbn. by apply map_filter_insert_True. Qed.
Lemma others_add c h o v : others c (add_obj c h o v) = others c v.
Proof. apply view_ext; try done; cbn. apply map_filter_insert_not. naive_solver. Qed.
Lemma own_del c h v : own c (del_obj c h v) = del_obj c h (own c v).
Proof. apply view_ext; try done; cbn. apply map_filter_delete. Qed.
Lemma others_del c h v : others c (del_obj c h v) = others c v.
Proof. apply view_ext; try done; cbn. apply map_filter_delete_not. naive_solver. Qed.
Lemma own_ambient c a v : own c (with_ambient c a v) = with_ambient c a (own c v).
Proof.
  apply view_ext; try done; cbn. apply map_eq. intros i. rewrite map_lookup_filter, !lookup_partial_alter.
  destruct (decide (c = i)) as [<-|]; [destruct a; cbn; [by case_guard|done]|by rewrite map_lookup_filter].
Qed.
Lemma others_ambient c a v : others c (with_ambient c a v) = others c v.
Proof.
  apply view_ext; try done; cbn. apply map_eq. intros i. rewrite !map_lookup_filter, lookup_partial_alter.
  destruct (decide (c = i)) as [<-|]; [|done]. destruct a, (v_ambient v !! c); cbn; repeat case_guard; done.
Qed.
Lemma own_open c h s v : own c (open_session c h s v) = open_session c h s (own c v).
Proof. unfold open_session. by rewrite own_ambient, own_add. Qed.
Lemma others_open c h s v : others c (open_session c h s v) = others c v.
Proof. unfold open_session. by rewrite others_ambient, others_add. Qed.
Lemma own_close c h a v : own c (close_session c h a v) = close_session c h a (own c v).
Proof. unfold close_session. by rewrite own_ambient, own_del. Qed.
Lemma others_close c h a v : others c (close_session c h a v) = others c v.
Proof. unfold close_session. by rewrite others_ambient, others_del. Qed.
End Own.

Create Rewrite HintDb own.
#[export] Hint Rewrite @own_add @own_del @own_ambient @own_open @own_close @others_add @others_del
  @others_ambient @others_open @others_close : own.

(** * What a program of one context does under interference *)
Section Wp.
Context `{TS : TpmSpec} (c : Ctx) (b : nat).
Abbreviation V := (TpmView Public Digest Key Seed).

(** Whatever the others hold, they leave this context room for [b] handles. *)
Definition fits (lv : V) (w : World) : Prop := (size (v_objs (view w)) + b ≤ capacity + size (v_objs lv))%nat.
(** Started with [lv] as its part of the TPM, the program returns with a result
    and a part that satisfy [Q]; before each of its actions the others may have
    acted, and each leaves them alone and holds at most [b] handles. *)
Fixpoint wp {E A} (p : Prog World E A) (Q : outcome E A → V → Prop) (lv : V) : Prop :=
  match p with
  | Ret r => Q r lv
  | Do m k => ∀ w, ready w → own c (view w) = lv → fits lv w →
      let (x, w') := m w in
      ready w' ∧ others c (view w') = others c (view w) ∧ (size (v_objs (own c (view w'))) ≤ b)%nat ∧
      wp (k x) Q (own c (view w'))
  end.

Lemma fits_room n lv w : (size (v_objs lv) + n ≤ b)%nat → fits lv w → room n w.
Proof. unfold fits, room. lia. Qed.

Lemma wp_mono {E A} (p : Prog World E A) (Q Q' : outcome E A → V → Prop) lv :
  (∀ r lv', Q r lv' → Q' r lv') → wp p Q lv → wp p Q' lv.
Proof.
  intros HQ. revert lv. induction p as [r|X m k IH]; intros lv; cbn; [apply HQ|].
  intros H w Hr Ho Hf. specialize (H w Hr Ho Hf). destruct (m w) as [x w'].
  destruct H as (? & ? & ? & ?). split_and!; try done. by apply IH.
Qed.
Lemma wp_bind {E A B} (p : Prog World E A) (f : A → Prog World E B) (Q : outcome E B → V → Prop) lv :
  wp p (λ r lv', match r with Ok a => wp (f a) Q lv' | Err e => Q (Err e) lv' | Panic => Q Panic lv' end) lv →
  wp (p ≫= f) Q lv.
Proof.
  revert lv. induction p as [[a|e|]|X m k IH]; intros lv; cbn; try done.
  intros H w Hr Ho Hf. specialize (H w Hr Ho Hf). destruct (m w) as [x w'].
  destruct H as (? & ? & ? & ?). split_and!; try done. by apply IH.
Qed.
Lemma wp_map_result {E E' A B} (g : outcome E A → outcome E' B) (p : Prog World E A) Q lv :
  wp p (λ r, Q (g r)) lv → wp (map_result g p) Q lv.
Proof.
  revert lv. induction p as [r|X m k IH]; intros lv; cbn; [done|].
  intros H w Hr Ho Hf. specialize (H w Hr Ho Hf). destruct (m w) as [x w'].
  destruct H as (? & ? & ? & ?). split_and!; try done. by apply IH.
Qed.
(** A command that succeeds. *)
Lemma wp_run {E A} (m : M World E A) (Q : outcome E A → V → Prop) lv :
  (∀ w, ready w → own c (view w) = lv → fits lv w →
     run m w (λ a w', ready w' ∧ others c (view w') = others c (view w) ∧
       (size (v_objs (own c (view w'))) ≤ b)%nat ∧ Q (Ok a) (own c (view w')))) →
  wp (cmd m) Q lv.
Proof. intros H w Hr Ho Hf. destruct (H w Hr Ho Hf) as (a & w' & -> & ?). done. Qed.
End Wp.

Section WpNullauth.
Context `{NSP : NullauthSpec} (c : Ctx) (b : nat).
Abbreviation V := (TpmView Public Digest Key Seed).

Lemma wp_enter lv (Q : outcome TssError NullauthToken → V → Prop) :
  (size (v_objs lv) + 1 ≤ b)%nat →
  (∀ h s, obj_at lv c h = None → sess_type s = SessionType_Hmac → continue_session (sess_attributes s) = true →
     Q (Ok (h, v_ambient lv !! c)) (open_session c h s lv)) →
  wp c b (cmd (nullauth_enter c)) Q lv.
Proof.
  intros Hb HQ. apply wp_run. intros w Hr Ho Hf.
  eapply run_mono; [apply nullauth_enter_spec; [done|by eapply fits_room]|]. cbv beta.
  intros [h a] w1 (Hr1 & Hf1 & Ha & s & Ht & Hc & Hv1). cbn [fst snd] in *. subst a.
  rewrite <- ambient_own, Hv1, own_open, others_open, Ho. rewrite <- obj_at_own, Ho in Hf1.
  split_and!; [done..|rewrite size_open by done; lia|]. by apply HQ.
Qed.
Lemma wp_leave lv h s (Q : outcome TssError unit → V → Prop) :
  (size (v_objs lv) ≤ b)%nat → obj_at lv c h = None → Q (Ok tt) lv →
  wp c b (cmd (nullauth_leave c (h, v_ambient lv !! c))) Q (open_session c h s lv).
Proof.
  intros Hb Hh HQ. apply wp_run. intros w Hr Ho Hf.
  eapply run_mono; [apply nullauth_leave_spec; [done|]|].
  { cbn. rewrite <- obj_at_own, Ho, obj_at_open_eq. eauto. }
  cbv beta. intros [] w' (Hr' & Hv'). cbn [fst snd] in Hv'.
  rewrite Hv', own_close, others_close, Ho, close_open by done. done.
Qed.

(** A closure under [execute_with_nullauth_session] that ends as it began. *)
Lemma wp_nullauth {E A} (conv : TssError → E) (p : Prog World E A) (Q : outcome E A → V → Prop) lv :
  (size (v_objs lv) + 1 ≤ b)%nat →
  (∀ h s, obj_at lv c h = None → sess_type s = SessionType_Hmac → continue_session (sess_attributes s) = true →
     wp c b p (λ r lv', lv' = open_session c h s lv ∧ r ≠ Panic ∧ Q r lv) (open_session c h s lv)) →
  wp c b (nullauth_prog conv c p) Q lv.
Proof.
  intros Hb Hp. unfold nullauth_prog. apply wp_bind, wp_map_result, wp_enter; [done|]. intros h s Hh Ht Hc.
  cbn [map_err]. apply wp_bind, wp_map_result. eapply wp_mono; [|by apply Hp]. cbv beta.
  intros [a|e|] lv' (-> & Hnp & HQ); [..|done]; cbn [caught]; apply wp_bind, wp_map_result, wp_leave; try done; lia.
Qed.
End WpNullauth.
