(* ===== verification/Envelope.v ===== *)
(** The ciphertext envelope of [src/src/tpm.rs]:
    [version(1) || public_len(u16 BE) || public || private]. *)
From S2P Require Import Prelude Tss SimTpm.

(** [TpmError]. *)
Inductive TpmError (TssError : Type) :=
| TpmError_Tss (e : TssError)
| PlaintextTooLarge (n : nat)
| MalformedEnvelope.
Arguments TpmError_Tss {TssError} e.
Arguments PlaintextTooLarge {TssError} n.
Arguments MalformedEnvelope {TssError}.

Definition ENVELOPE_VERSION : byte := x01.

Section Envelope.
Context `{D : TssData}.
Abbreviation TpmError := (TpmError TssError).

(** [envelope_encode]: a public area that does not marshal is a panic (the
    [expect]); the length is written [as u16]. *)
Definition envelope_encode (public : Public) (private : Private) : outcome TpmError (list byte) :=
  public_bytes ← expect (marshall public);
  Ok ([ENVELOPE_VERSION]
        ++ u16_to_be_bytes (as_u16 (Z.of_nat (length public_bytes)))
        ++ public_bytes
        ++ value private).

(** [envelope_decode]: indexing and slicing panic out of range. *)
Definition envelope_decode (ciphertext : list byte) : outcome TpmError (Public * Private) :=
  bad ← (if bool_decide (length ciphertext < 3)%nat then Ok true
         else b ← index 0 ciphertext; Ok (bool_decide (b ≠ ENVELOPE_VERSION)));
  if (bad : bool) then Err MalformedEnvelope else
  b1 ← index 1 ciphertext;
  b2 ← index 2 ciphertext;
  let public_len := Z.to_nat (u16_from_be_bytes b1 b2) in
  if bool_decide (length ciphertext < 3 + public_len)%nat then Err MalformedEnvelope else
  public_bytes ← slice 3 (3 + public_len) ciphertext;
  public ← map_err (λ _, MalformedEnvelope) (unmarshall public_bytes);
  private_bytes ← slice_from (3 + public_len) ciphertext;
  private ← map_err (λ _, MalformedEnvelope) (try_from private_bytes);
  Ok (public, private).

(** The fuzz target [envelope_decode]: the result is ignored, a panic is a
    crash. *)
Definition fuzz_envelope_decode (data : list byte) : outcome TpmError unit :=
  match envelope_decode data with Panic => Panic | _ => Ok tt end.

(** What [envelope_decode] does on a ciphertext with a header. *)
Lemma envelope_decode_header ver hi lo body :
  envelope_decode (ver :: hi :: lo :: body) =
    if bool_decide (ver ≠ ENVELOPE_VERSION) then Err MalformedEnvelope else
    let n := Z.to_nat (u16_from_be_bytes hi lo) in
    if bool_decide (length body < n)%nat then Err MalformedEnvelope else
    public ← map_err (λ _, MalformedEnvelope) (unmarshall (take n body));
    private ← map_err (λ _, MalformedEnvelope) (try_from (drop n body));
    Ok (public, private).
Proof.
  unfold envelope_decode. rewrite bool_decide_false by (simpl; lia).
  cbn [index lookup list_lookup mbind outcome_bind].
  destruct (bool_decide (ver ≠ ENVELOPE_VERSION)); [done|]. cbv zeta.
  set (n := Z.to_nat _).
  destruct (decide (length body < n)%nat).
  { by rewrite !bool_decide_true by (simpl; lia). }
  rewrite !bool_decide_false by (simpl; lia).
  rewrite slice_ok by (simpl; lia). rewrite slice_from_ok by (simpl; lia).
  replace (3 + n - 3)%nat with n by lia. done.
Qed.

Lemma envelope_decode_short ct :
  (length ct < 3)%nat → envelope_decode ct = Err MalformedEnvelope.
Proof. intros. unfold envelope_decode. by rewrite bool_decide_true. Qed.

(** C28. [envelope_decode] accepts exactly the byte strings that are a version
    byte, a big-endian length, that many bytes that unmarshal to a public
    area, and a rest that is a valid private blob; it returns these two. *)
Theorem envelope_decode_accepts ct p q :
  envelope_decode ct = Ok (p, q) ↔
  ∃ hi lo pb qb, ct = ENVELOPE_VERSION :: hi :: lo :: pb ++ qb ∧
    Z.of_nat (length pb) = u16_from_be_bytes hi lo ∧
    unmarshall pb = Ok p ∧ try_from qb = Ok q.
Proof.
  split.
  - destruct (decide (length ct < 3)%nat); [by rewrite envelope_decode_short|].
    destruct ct as [|ver [|hi [|lo body]]]; [simpl in *; lia..|].
    rewrite envelope_decode_header. case_bool_decide as Hv; [done|].
    cbv zeta. set (m := Z.to_nat _). case_bool_decide as Hn; [done|].
    destruct (unmarshall _) as [p'| |] eqn:Hp; simpl; [|done..].
    destruct (try_from _) as [q'| |] eqn:Hq; simpl; [|done..]. intros [= -> ->].
    exists hi, lo, (take m body), (drop m body).
    pose proof (u16_from_be_bytes_range hi lo).
    rewrite take_drop, length_take. split_and!; [|lia|done..].
    f_equal. destruct (decide (ver = ENVELOPE_VERSION)); [done|tauto].
  - intros (hi & lo & pb & qb & -> & Hl & Hp & Hq).
    rewrite envelope_decode_header, bool_decide_false by tauto. cbv zeta.
    rewrite <- Hl, Nat2Z.id. rewrite bool_decide_false by (rewrite length_app; lia).
    by rewrite take_app_length, drop_app_length, Hp; simpl; rewrite Hq.
Qed.

Section Laws.
Context {L : TssDataLaws}.

(** The wire form of an envelope. *)
Lemma envelope_encode_wire p q pb :
  marshall p = Ok pb → Z.of_nat (length pb) < 2 ^ 16 →
  envelope_encode p q =
    Ok (ENVELOPE_VERSION :: u16_to_be_bytes (Z.of_nat (length pb)) ++ pb ++ value q).
Proof.
  intros Hp Hl. unfold envelope_encode. rewrite Hp. simpl. by rewrite as_u16_small by lia.
Qed.

Lemma envelope_decode_encode p q :
  ∃ ct, envelope_encode p q = Ok ct ∧ envelope_decode ct = Ok (p, q).
Proof.
  destruct (marshall_total p) as (pb & Hp & Hl & Hu).
  eexists. split; [by apply envelope_encode_wire|].
  unfold u16_to_be_bytes. cbn [app].
  rewrite envelope_decode_header, bool_decide_false by tauto.
  rewrite u16_be_round_trip by lia. cbv zeta. rewrite Nat2Z.id.
  rewrite bool_decide_false by (rewrite length_app; lia).
  rewrite take_app_length, drop_app_length, Hu. simpl. by rewrite try_from_value.
Qed.

(** C27. Every public area and private blob encode to an envelope, and
    decoding it gives them back. *)
Theorem envelope_round_trip p q :
  ∃ ct, envelope_encode p q = Ok ct ∧ envelope_decode ct = Ok (p, q).
Proof. apply envelope_decode_encode. Qed.

(** C29. On arbitrary bytes [envelope_decode] neither panics nor fails with
    anything but [MalformedEnvelope], so its fuzz target runs to the end on every
    input. *)
Theorem envelope_decode_total ct :
  ((∃ r, envelope_decode ct = Ok r) ∨ envelope_decode ct = Err MalformedEnvelope) ∧
  fuzz_envelope_decode ct = Ok tt.
Proof.
  unfold fuzz_envelope_decode.
  enough ((∃ r, envelope_decode ct = Ok r) ∨ envelope_decode ct = Err MalformedEnvelope) as H.
  { split; [done|]. by destruct H as [[r ->]| ->]. }
  destruct (decide (length ct < 3)%nat); [right; by apply envelope_decode_short|].
  destruct ct as [|ver [|hi [|lo body]]]; [simpl in *; lia..|].
  rewrite envelope_decode_header. case_bool_decide; [by right|]. cbv zeta.
  case_bool_decide; [by right|].
  pose proof (unmarshall_no_panic (take (Z.to_nat (u16_from_be_bytes hi lo)) body)).
  destruct (unmarshall _) as [p| |]; simpl; [|by right|done].
  pose proof (try_from_no_panic (T:=Private) (drop (Z.to_nat (u16_from_be_bytes hi lo)) body)).
  destruct (try_from _) as [q| |]; simpl; [|by right|done]. eauto.
Qed.

(** An envelope cut anywhere inside its header or its public area is
    rejected as malformed, whatever the bytes are. *)
Theorem envelope_truncated p q pb ct n :
  marshall p = Ok pb → envelope_encode p q = Ok ct → (n < 3 + length pb)%nat →
  envelope_decode (take n ct) = Err MalformedEnvelope.
Proof.
  intros Hp He Hn. destruct (marshall_total p) as (pb' & Hp' & Hl & _).
  assert (pb' = pb) as -> by congruence.
  rewrite (envelope_encode_wire p q pb) in He by done. injection He as <-.
  unfold u16_to_be_bytes. cbn [app].
  destruct n as [|[|[|n]]]; [apply envelope_decode_short; simpl; lia..|].
  cbn [take firstn]. rewrite envelope_decode_header, bool_decide_false by tauto.
  rewrite u16_be_round_trip by lia. cbv zeta. rewrite Nat2Z.id.
  rewrite bool_decide_true; [done|]. rewrite length_take, length_app. lia.
Qed.
End Laws.
End Envelope.

(** * Examples *)
Definition sample_public : SimPublic :=
  mkSimPublic (mkObjectAttributes true true false true false false) None x00.

(** The hypotheses of [envelope_truncated] at a nine-byte public area cut in
    its middle. *)
Lemma envelope_truncated_witness :
  envelope_decode (take 7 (ENVELOPE_VERSION :: x00 :: x09 :: sim_public_bytes sample_public
                             ++ [x01; x02])) = Err MalformedEnvelope.
Proof.
  apply (envelope_truncated (D:=sim_data) sample_public [x01; x02]
           (sim_public_bytes sample_public)); [reflexivity|vm_compute; reflexivity|vm_compute; lia].
Defined.

Lemma envelope_round_trip_witness :
  ∃ ct, envelope_encode (D:=sim_data) sample_public [x01; x02] = Ok ct ∧
        envelope_decode (D:=sim_data) ct = Ok (sample_public, [x01; x02]).
Proof. apply (envelope_round_trip (D:=sim_data) (L:=sim_data_laws)). Defined.

Lemma envelope_decode_total_witness :
  ((∃ r, envelope_decode (D:=sim_data) [x01; xff; xff] = Ok r) ∨
   envelope_decode (D:=sim_data) [x01; xff; xff] = Err MalformedEnvelope) ∧
  fuzz_envelope_decode (D:=sim_data) [x01; xff; xff] = Ok tt.
Proof. apply (envelope_decode_total (D:=sim_data) (L:=sim_data_laws)). Defined.
