(* ===== verification/Sealer.v ===== *)
(** [TpmSealer] of [src/src/tpm.rs]: seal and unseal data encryption keys under
    a storage primary (the per-node SRK or the fleet key).

    SHA-256 and hexadecimal encoding come from the crates [sha2] and [hex];
    they are the fields of [KeyIdDeps], with the documented lengths and alphabet
    as laws. *)
From S2P Require Import Prelude Tss SimTpm Envelope.

Class KeyIdDeps := {
  sha256 : list byte → list byte;
  hex_encode : list byte → string
}.
Definition hex_digits : list Ascii.ascii := String.list_ascii_of_string "0123456789abcdef".
Class KeyIdLaws `{K : KeyIdDeps} : Prop := {
  sha256_length bs : length (sha256 bs) = 32%nat;
  hex_encode_length bs : String.length (hex_encode bs) = (2 * length bs)%nat;
  hex_encode_digits bs : Forall (.∈ hex_digits) (String.list_ascii_of_string (hex_encode bs))
}.

(** [&s[..n]] on an ASCII string. *)
Definition str_slice_to {E} (n : nat) (s : string) : outcome E string :=
  if bool_decide (n ≤ String.length s)%nat then Ok (String.substring 0 n s) else Panic.

Definition MAX_SEAL_DATA : nat := 128.

Record TpmSealer := mkTpmSealer {
  context : Ctx;
  primary : KeyHandle;
  key_id : string;
  child_fixed : bool;
  owns_transient_primary : bool
}.

Section Sealer.
Context `{D : TssData} {O : TssOps} {K : KeyIdDeps}.
Abbreviation TpmError := (TpmError TssError).

(** [derive_key_id]: ["sceau-"] and the first 16 hex digits of SHA-256(name). *)
Definition derive_key_id (name_bytes : list byte) : outcome TpmError string :=
  id ← str_slice_to 16 (hex_encode (sha256 name_bytes));
  Ok ("sceau-" +:+ id)%string.

(** [srk_public] *)
Definition srk_public : outcome TpmError Public :=
  attributes ← map_err TpmError_Tss (build_attributes {|
    fixed_tpm := true; fixed_parent := true; sensitive_data_origin := true;
    user_with_auth := true; attr_decrypt := true; restricted := true |});
  rsa ← map_err TpmError_Tss
          (build_restricted_decryption_key AES_128_CFB RsaKeyBits_Rsa2048 RsaExponent_default);
  map_err TpmError_Tss (build_public {|
    pb_public_algorithm := PublicAlgorithm_Rsa;
    pb_name_hashing_algorithm := HashingAlgorithm_Sha256;
    pb_object_attributes := attributes;
    pb_auth_policy := None;
    pb_parameters := RsaParameters rsa;
    pb_unique_identifier := PublicKeyRsa_default |}).

(** [sealed_public] *)
Definition sealed_public (fixed : bool) : outcome TpmError Public :=
  attributes ← map_err TpmError_Tss (build_attributes {|
    fixed_tpm := fixed; fixed_parent := fixed; sensitive_data_origin := false;
    user_with_auth := true; attr_decrypt := false; restricted := false |});
  map_err TpmError_Tss (build_public {|
    pb_public_algorithm := PublicAlgorithm_KeyedHash;
    pb_name_hashing_algorithm := HashingAlgorithm_Sha256;
    pb_object_attributes := attributes;
    pb_auth_policy := None;
    pb_parameters := KeyedHashParameters KeyedHashScheme_Null;
    pb_unique_identifier := Digest_default |}).

(** [TpmSealer::new] *)
Definition sealer_new (tcti : TctiNameConf) : M World TpmError TpmSealer :=
  context ← map_errM TpmError_Tss (context_new tcti);
  on_failure (context_drop context) (
    r ← execute_with_nullauth_session TpmError_Tss context (
      public ← lift srk_public;
      primary ← map_errM TpmError_Tss (create_primary context Hierarchy_Owner public);
      pn ← map_errM TpmError_Tss (read_public context primary);
      id ← lift (derive_key_id pn.1.2);
      mret (primary, id, fixed_tpm (object_attributes pn.1.1)));
    mret {| context := context; primary := r.1.1; key_id := r.1.2; child_fixed := r.2;
            owns_transient_primary := true |}).

(** [TpmSealer::from_primary], which takes the context over. *)
Definition from_primary (context : Ctx) (primary : KeyHandle) : M World TpmError TpmSealer :=
  on_failure (context_drop context) (
    pn ← map_errM TpmError_Tss
           (execute_with_nullauth_session id context (read_public context primary));
    key_id ← lift (derive_key_id pn.1.2);
    mret {| context := context; primary := primary; key_id := key_id;
            child_fixed := fixed_tpm (object_attributes pn.1.1);
            owns_transient_primary := false |}).

(** [TpmSealer::seal] *)
Definition seal (s : TpmSealer) (plaintext : list byte) : M World TpmError (list byte) :=
  if bool_decide (MAX_SEAL_DATA < length plaintext)%nat
  then throw (PlaintextTooLarge (length plaintext)) else
  sensitive ← lift (map_err TpmError_Tss (try_from plaintext));
  created ← execute_with_nullauth_session TpmError_Tss (context s) (
    public ← lift (sealed_public (child_fixed s));
    map_errM TpmError_Tss (create (context s) (primary s) public (Some sensitive)));
  lift (envelope_encode created.2 created.1).

(** [TpmSealer::unseal] *)
Definition unseal (s : TpmSealer) (ciphertext : list byte) : M World TpmError (list byte) :=
  pp ← lift (envelope_decode ciphertext);
  data ← execute_with_nullauth_session TpmError_Tss (context s) (
    handle ← map_errM TpmError_Tss (load (context s) (primary s) pp.2 pp.1);
    data ← map_errM TpmError_Tss (tpm_unseal (context s) handle);
    _ ← map_errM TpmError_Tss (flush_context (context s) handle);
    mret data);
  mret (value data).

(** [Drop for TpmSealer]: the result of the flush is ignored.  The context is
    dropped after it, with the other fields. *)
Definition sealer_drop (s : TpmSealer) : M World TpmError unit :=
  finally (context_drop (context s)) (
    if negb (owns_transient_primary s) then mret tt else
    _ ← attempt (execute_with_nullauth_session id (context s)
                   (flush_context (context s) (primary s)));
    mret tt).
(** The effect of that drop. *)
Definition sealer_dropped (s : TpmSealer) (w : World) : World := (sealer_drop s w).2.
End Sealer.

(** * Key identifiers *)
Section KeyId.
Context `{D : TssData} {K : KeyIdDeps} {KL : KeyIdLaws}.


Lemma substring_split n s :
  (n ≤ String.length s)%nat → ∃ t, s = (String.substring 0 n s +:+ t)%string ∧
    String.length (String.substring 0 n s) = n.
Proof.
  revert s. induction n as [|n IH]; intros s Hn.
  { exists s. by destruct s. }
  destruct s as [|a s]; simpl in Hn; [lia|].
  destruct (IH s) as (t & Ht & Hl); [lia|]. exists t. simpl.
  rewrite append_cons, Hl, <- Ht. done.
Qed.

Lemma list_ascii_app s t :
  String.list_ascii_of_string (s +:+ t)%string =
  String.list_ascii_of_string s ++ String.list_ascii_of_string t.
Proof. induction s as [|a s IH]; [done|]. rewrite append_cons. simpl. by rewrite IH. Qed.

Lemma derive_key_id_ok name :
  ∃ id, derive_key_id name = Ok ("sceau-" +:+ id)%string ∧ String.length id = 16%nat ∧
        Forall (.∈ hex_digits) (String.list_ascii_of_string id).
Proof.
  unfold derive_key_id, str_slice_to.
  assert (16 ≤ String.length (hex_encode (sha256 name)))%nat as Hl.
  { rewrite hex_encode_length, sha256_length. lia. }
  rewrite bool_decide_true by done. eexists. split; [done|].
  destruct (substring_split _ _ Hl) as (t & Ht & Hn). split; [done|].
  pose proof (hex_encode_digits (sha256 name)) as Hd. rewrite Ht, list_ascii_app in Hd.
  by apply Forall_app in Hd as [? _].
Qed.
End KeyId.

(** * Specification *)
Section SealerSpec.
Context `{D : TssData} {L : TssDataLaws} {O : TssOps} {TM : TpmModel} {TS : TpmSpec} {K : KeyIdDeps} {KL : KeyIdLaws}.

(** [sealer_for w s k]: in world [w] the sealer's handle stands for key [k], and
    what it cached of the public area is [k]'s. *)
Definition sealer_for (w : World) (s : TpmSealer) (k : Key) : Prop :=
  key_at (view w) (context s) (primary s) k ∧
  derive_key_id (name_of (public_of k)) = Ok (key_id s) ∧
  child_fixed s = fixed_tpm (object_attributes (public_of k)).

(** The envelope [ct] holds [pt] sealed under [k]. *)
Definition envelope_seals (k : Key) (ct pt : list byte) : Prop :=
  ∃ pub priv, envelope_decode ct = Ok (pub, priv) ∧ seals k priv pub pt.

Lemma srk_public_spec :
  ∃ p, srk_public = Ok p ∧ storage_attributes (object_attributes p) ∧
       fixed_tpm (object_attributes p) = true ∧ auth_policy p = None.
Proof.
  unfold srk_public. rewrite build_attributes_ok by done. simpl.
  destruct (build_restricted_decryption_key_ok AES_128_CFB RsaKeyBits_Rsa2048 RsaExponent_default)
    as [r ->]. simpl.
  match goal with |- context [build_public ?b] =>
    destruct (build_public_ok b) as (p & -> & Ha & Hp); [done|] end.
  exists p. by rewrite Ha, Hp.
Qed.

Lemma sealed_public_spec fixed :
  ∃ p, sealed_public fixed = Ok p ∧ sensitive_data_origin (object_attributes p) = false ∧
       fixed_tpm (object_attributes p) = fixed ∧ fixed_parent (object_attributes p) = fixed.
Proof.
  unfold sealed_public. rewrite build_attributes_ok by done. simpl.
  match goal with |- context [build_public ?b] =>
    destruct (build_public_ok b) as (p & -> & Ha & Hp); [done|] end.
  exists p. by rewrite Ha.
Qed.

(** The SRK of the TPM with seed [sd]. *)
Definition is_srk (sd : Seed) (k : Key) : Prop := ∃ p, srk_public = Ok p ∧ k = primary_key sd p.

Lemma is_srk_unique sd k k' : is_srk sd k → is_srk sd k' → k = k'.
Proof. intros (p & Hp & ->) (p' & Hp' & ->). congruence. Qed.

Lemma sealer_new_spec tcti w :
  ready w → room 2 w →
  run (sealer_new tcti) w (λ s w', ready w' ∧ ∃ k, is_srk (v_seed (view w)) k ∧
    sealer_for w' s k ∧ owns_transient_primary s = true ∧
    fresh_context (view w) (context s) ∧
    view w' = add_obj (context s) (primary s) (OKey k) (open_context (context s) (view w))).
Proof.
  intros Hr Hroom. unfold sealer_new.
  destruct srk_public_spec as (p & Hp & Hst & _).
  set (k := primary_key (v_seed (view w)) p).
  step by (apply run_map_errM, context_new_spec; done) as (Hr1 & Hfr & Hv1).
  rename a into c. destruct (derive_key_id_ok (name_of (public_of k))) as (id & Hid & _).
  assert (room 2 w') as Hroom1 by (by eapply room_open). apply run_on_failure.
  step by (apply (run_nullauth_add _ c _ _ (λ r, r.1.1) (OKey k)
      (λ r, r.1.2 = ("sceau-" +:+ id)%string ∧ r.2 = fixed_tpm (object_attributes (public_of k))));
      [done|by eapply room_le, Hroom1; lia|]) as (Hr2 & Hf & [Hi Hx] & Hv2).
  - intros h w1 Hin. eapply run_bind_lift; [exact Hp|].
    step by (apply run_map_errM, create_primary_spec; eauto with sceau) as (Hr3 & Hf3 & Hv3).
    rewrite (in_nullauth_seed _ _ _ _ Hin), Hv1 in Hv3. fold k in Hv3.
    step by (apply run_map_errM, (read_public_spec _ _ k); [done|left; by rewrite Hv3, obj_at_add_eq])
      as (Hr4 & Hv4 & Hpn).
    rewrite Hpn. cbn [fst snd].
    eapply run_bind_lift; [exact Hid|].
    apply run_ret. cbn [fst snd]. by rewrite Hv4.
  - apply run_ret. split; [done|]. exists k. cbn [context primary]. rewrite Hv1 in *.
    split_and!; [by exists p| |done..]. split_and!; cbn.
    + left. by rewrite Hv2, obj_at_add_eq.
    + by rewrite Hi.
    + done.
Qed.

Lemma from_primary_spec c h k w :
  ready w → room 1 w → key_at (view w) c h k →
  run (from_primary c h) w (λ s w', ready w' ∧ view w' = view w ∧ sealer_for w' s k ∧
    context s = c ∧ primary s = h ∧ owns_transient_primary s = false).
Proof.
  intros Hr Hroom Hk. unfold from_primary. apply run_on_failure.
  step by (apply run_map_errM, (run_nullauth_same _ _ _ _
      (λ r, r.1 = (public_of k, name_of (public_of k)))); [done..|];
      intros h1 w1 Hin; apply read_public_spec; by eauto with sceau) as (Hr1 & Hv1 & Ha).
  destruct (derive_key_id_ok (name_of (public_of k))) as (i & Hid & _).
  rewrite Ha. cbn [fst snd]. eapply run_bind_lift; [exact Hid|]. apply run_ret.
  split_and!; try done. split_and!; cbn; [by rewrite Hv1|done|done].
Qed.

Lemma seal_spec s k pt w :
  ready w → room 1 w → sealer_for w s k → (length pt ≤ MAX_SEAL_DATA)%nat →
  run (seal s pt) w (λ ct w', ready w' ∧ view w' = view w ∧ envelope_seals k ct pt).
Proof.
  intros Hr Hroom (Hk & _ & Hfx) Hl. unfold seal. rewrite bool_decide_false by lia.
  destruct (sensitive_fits pt Hl) as [sd Hsd]. pose proof (value_try_from _ _ Hsd) as Hval.
  eapply run_bind_lift; [by rewrite Hsd|].
  destruct (sealed_public_spec (child_fixed s)) as (p & Hp & Hso & Hpf & _).
  step by (apply (run_nullauth_same _ _ _ _ (λ r, seals k r.1 r.2 pt)); [done..|];
      intros h w1 Hin; eapply run_bind_lift; [exact Hp|];
      apply run_map_errM; rewrite <- Hval; eapply create_spec; eauto with sceau; by rewrite Hpf, Hfx)
    as (Hr1 & Hv1 & Hs).
  destruct (envelope_decode_encode a.2 a.1) as (ct & He & Hd).
  eapply run_lift; [exact He|]. split_and!; [done..|]. by exists a.2, a.1.
Qed.

Lemma unseal_seal_spec s k ct pt w :
  ready w → room 2 w → sealer_for w s k → envelope_seals k ct pt →
  run (unseal s ct) w (λ d w', d = pt ∧ ready w' ∧ view w' = view w).
Proof.
  intros Hr Hroom (Hk & _) (pub & priv & Hd & Hs). unfold unseal.
  eapply run_bind_lift; [exact Hd|].
  step by (apply (run_nullauth_same _ _ _ _ (λ sd, value sd = pt)); [done|by eapply room_le, Hroom; lia|];
      intros h w1 Hin) as (Hr1 & Hv1 & <-); [|by apply run_ret].
  step by (eapply run_map_errM, load_sealed_spec; eauto with sceau) as (Hr2 & Hf2 & Hv2).
  step by (apply run_map_errM, (unseal_spec _ _ pt); [done| |by rewrite Hv2, obj_at_add_eq];
      rewrite Hv2; apply user_session_add; eauto with sceau) as (Hr3 & Hv3 & Hval).
  step by (apply run_map_errM, (flush_spec _ _ (OSealed pt)); [done|by rewrite Hv3, Hv2, obj_at_add_eq|done])
    as (Hr4 & Hv4).
  apply run_ret. split_and!; [done| |done]. by rewrite Hv4, Hv3, Hv2, del_add.
Qed.

(** An envelope whose blob is a key, not sealed data: the TPM loads it, refuses
    to unseal it, and the loaded handle stays open. *)
Lemma unseal_key_blob_spec s k k' pub priv ct w :
  ready w → room 2 w → sealer_for w s k →
  envelope_decode ct = Ok (pub, priv) → wraps_key k priv pub k' →
  fails (unseal s ct) w (λ _ w', ready w' ∧ ∃ h, obj_at (view w) (context s) h = None ∧
    view w' = add_obj (context s) h (OKey k') (view w)).
Proof.
  intros Hr Hroom (Hk & _) Hd Hs. unfold unseal.
  eapply fails_bind_lift; [exact Hd|]. apply fails_bind_l.
  apply fails_nullauth; [done|by eapply room_le, Hroom; lia|]. intros h w1 Hin.
  eapply fails_bind_r; [eapply run_map_errM, load_key_spec; eauto with sceau|].
  cbv beta. intros o w2 (Hr2 & Hf2 & Hv2).
  destruct (in_nullauth_fresh _ _ _ _ _ Hin Hf2) as [Hne Hf].
  apply fails_bind_l, fails_map_errM.
  eapply fails_mono; [apply (unseal_key_fails _ _ k'); [done|by rewrite Hv2, obj_at_add_eq]|].
  cbv beta. intros e w3 (Hr3 & Hv3). split_and!; [done| |].
  - rewrite Hv3, Hv2, obj_at_add_ne by congruence. by eapply in_nullauth_session.
  - intros w4 Hr4 Hv4. split; [done|]. exists o. split; [done|].
    by rewrite Hv4, Hv3, Hv2, close_add, (in_nullauth_close _ _ _ _ Hin) by done.
Qed.

(** Dropping a sealer closes its context and all that is open in it. *)
Lemma sealer_drop_spec s w :
  ready w → room 1 w →
  (owns_transient_primary s = true → ∃ k, obj_at (view w) (context s) (primary s) = Some (OKey k)) →
  run (sealer_drop s) w (λ _ w', ready w' ∧ view w' = close_context (context s) (view w)).
Proof.
  intros Hr Hroom Ho. unfold sealer_drop. apply run_finally.
  destruct (owns_transient_primary s); cbn [negb].
  2: { apply run_ret. by apply context_drop_spec. }
  destruct Ho as [k Hk]; [done|].
  eapply run_bind; [apply run_attempt, (run_nullauth _ _ _ _ (λ _ w', ready w' ∧
    view w' = del_obj (context s) (primary s) (view w))); [done..|]|].
  - intros h w1 Hin. destruct (in_nullauth_obj _ _ _ _ _ _ _ Hin Hk) as [Hne Hk1].
    eapply run_mono; [apply (flush_spec _ _ (OKey k)); eauto with sceau|].
    cbv beta. intros _ w2 (Hr2 & Hv2). split_and!; [done| |].
    + rewrite Hv2, obj_at_del_ne by congruence. by eapply in_nullauth_session.
    + intros w3 Hr3 Hv3. split; [done|].
      by rewrite Hv3, Hv2, close_del, (in_nullauth_close _ _ _ _ Hin).
  - cbv beta. intros r w1 ([] & -> & Hr1 & Hv1). apply run_ret.
    destruct (context_drop_spec (context s) w1 Hr1) as [? ->]. split; [done|].
    by rewrite Hv1, close_context_del.
Qed.
End SealerSpec.

(** * Theorems *)
Section SealerTheorems.
Context `{D : TssData} {L : TssDataLaws} {O : TssOps} {TM : TpmModel} {TS : TpmSpec} {K : KeyIdDeps} {KL : KeyIdLaws}.

(** A key identifier is ["sceau-"] followed by 16 lower-case hexadecimal
    digits, for every object name; computing it never panics. *)
Theorem derive_key_id_format name :
  ∃ id, derive_key_id name = Ok ("sceau-" +:+ id)%string ∧ String.length id = 16%nat ∧
        Forall (.∈ hex_digits) (String.list_ascii_of_string id).
Proof. apply derive_key_id_ok. Qed.

(** C5. What a sealer seals (at most 128 bytes), every sealer for the same key
    unseals, on this host or on another: sealing succeeds, leaves the TPM's
    objects as they were, and unsealing the ciphertext returns the plaintext and
    closes the handle it loaded. *)
Theorem seal_unseal_round_trip s s2 k pt w w2 :
  ready w → room 1 w → sealer_for w s k → (length pt ≤ MAX_SEAL_DATA)%nat →
  ready w2 → room 2 w2 → sealer_for w2 s2 k →
  run (seal s pt) w (λ ct w', ready w' ∧ view w' = view w ∧
    run (unseal s2 ct) w2 (λ d w2', d = pt ∧ ready w2' ∧ view w2' = view w2)).
Proof.
  intros. eapply run_mono; [by apply seal_spec|]. cbv beta. intros ct w' (? & ? & ?).
  split_and!; [done..|]. by eapply unseal_seal_spec.
Qed.

(** A plaintext of more than 128 bytes is refused before the TPM is
    touched, with its length in the error. *)
Theorem seal_too_large s pt w :
  (MAX_SEAL_DATA < length pt)%nat →
  seal s pt w = (Err (PlaintextTooLarge (length pt)), w).
Proof. intros. unfold seal. by rewrite bool_decide_true. Qed.

(** Restart: a sealer created anew on a TPM with the same owner seed has
    the same key identifier and unseals what an earlier one sealed. *)
Theorem ciphertext_survives_restart tcti tcti2 pt w w2 :
  ready w → room 2 w → (length pt ≤ MAX_SEAL_DATA)%nat →
  ready w2 → room 3 w2 → v_seed (view w2) = v_seed (view w) →
  run (s ← sealer_new tcti; ct ← seal s pt; mret (s, ct)) w (λ r _,
    run (s2 ← sealer_new tcti2; d ← unseal s2 r.2; mret (s2, d)) w2 (λ r2 _,
      key_id r2.1 = key_id r.1 ∧ r2.2 = pt)).
Proof.
  intros Hr Hroom Hl Hr2 Hroom2 Hseed.
  step by (by apply sealer_new_spec) as (Hr1 & k & Hk & Hs & _ & Hf & Hv).
  step by (apply seal_spec; [done|by eapply room_open_add|done|done]) as (_ & _ & Hct). apply run_ret.
  step by (apply sealer_new_spec; [done|by eapply room_le, Hroom2; lia])
    as (Hr3 & k2 & Hk2 & Hs2 & _ & Hf2 & Hv2).
  rewrite Hseed in Hk2. rewrite (is_srk_unique _ _ _ Hk2 Hk) in *.
  step by (eapply unseal_seal_spec; [done|by eapply room_open_add|done|done]) as (Hd & _).
  apply run_ret. split; [|done]. destruct Hs as (_ & Hi & _), Hs2 as (_ & Hi2 & _). cbn. congruence.
Qed.

(** C30. When the envelope's blob is a wrapped key rather than sealed data, the
    TPM refuses to unseal it, [unseal] returns an error, and the handle it had
    loaded is not flushed: the TPM has one object more than before. *)
Theorem unseal_failure_leaks_handle s k k' pub priv ct w :
  ready w → room 2 w → sealer_for w s k →
  envelope_decode ct = Ok (pub, priv) → wraps_key k priv pub k' →
  fails (unseal s ct) w (λ _ w', size (v_objs (view w')) = Datatypes.S (size (v_objs (view w)))).
Proof.
  intros. eapply fails_mono; [by eapply unseal_key_blob_spec|]. cbv beta.
  intros e w' (_ & h & Hf & ->). by apply size_add_fresh.
Qed.

(** A sealer's life leaves no trace: after [TpmSealer::new] and the drop, the
    TPM's objects, slots and contexts are those from before. *)
Theorem sealer_new_drop_restores tcti w :
  ready w → room 2 w →
  run (s ← sealer_new tcti; sealer_drop s) w (λ _ w', ready w' ∧ view w' = view w).
Proof.
  intros Hr Hroom. step by (by apply sealer_new_spec) as (Hr1 & k & _ & _ & _ & Hfr & Hv).
  eapply run_mono; [apply sealer_drop_spec; [done| |by rewrite Hv, obj_at_add_eq; eauto]|].
  - by eapply room_open_add.
  - cbv beta. intros _ w2 [? ->]. split; [done|]. rewrite Hv. autorewrite with ctx.
    by apply close_context_fresh.
Qed.
End SealerTheorems.

(** * Examples *)
(** A stand-in digest (the first bytes of the message, padded to 32) and the
    usual hexadecimal encoding. *)
Definition hex_digit (n : N) : Ascii.ascii := default Ascii.zero (hex_digits !! N.to_nat n).
Definition hex_encode_bytes (bs : list byte) : string :=
  String.string_of_list_ascii
    (flat_map (λ b, [hex_digit (Byte.to_N b / 16)%N; hex_digit (Byte.to_N b `mod` 16)%N]) bs).
#[export] Instance sim_key_id : KeyIdDeps | 100 := {|
  sha256 := λ bs, take 32 (bs ++ replicate 32 x00);
  hex_encode := hex_encode_bytes
|}.

Lemma hex_digit_elem n : (n < 16)%N → hex_digit n ∈ hex_digits.
Proof.
  intros Hn. unfold hex_digit.
  destruct (hex_digits !! N.to_nat n) as [c|] eqn:Hc; [by eapply list_elem_of_lookup_2|].
  apply lookup_ge_None in Hc. vm_compute (length hex_digits) in Hc. lia.
Qed.

#[export] Instance sim_key_id_laws : KeyIdLaws (K:=sim_key_id) | 100.
Proof.
  split; cbn [sha256 hex_encode sim_key_id].
  - intros bs. rewrite length_take, length_app, length_replicate. lia.
  - intros bs. unfold hex_encode_bytes. induction bs as [|b bs IH]; [done|]. simpl in *. lia.
  - intros bs. unfold hex_encode_bytes. rewrite String.list_ascii_of_string_of_list_ascii.
    induction bs as [|b bs IH]; [by constructor|]. simpl.
    pose proof (Byte.to_N_bounded b).
    apply Forall_cons_2, Forall_cons_2; [apply hex_digit_elem..|done].
    + apply N.Div0.div_lt_upper_bound. lia.
    + by apply N.mod_lt.
Qed.

(** A host that has just started with the per-node SRK of seed [sd]. *)
Definition sealer_dflt : TpmSealer := mkTpmSealer 0%N 0%N "" false false.
Definition demo_host (sd : byte) : TpmSealer * SimWorld :=
  sim_result sealer_dflt (sealer_new (O:=sim_ops) "device:/dev/tpmrm0"%string (sim_init sd)).
Definition demo_sealer (sd : byte) : TpmSealer := (demo_host sd).1.
Definition demo_world (sd : byte) : SimWorld := (demo_host sd).2.
Definition demo_srk (sd : byte) : SimKey :=
  mkSimKey sd (mkSimPublic (mkObjectAttributes true true true true true true) None sd).

Lemma demo_sealer_for : sealer_for (TS:=sim_spec) (demo_world x07) (demo_sealer x07) (demo_srk x07).
Proof. split_and!; [left|..]; vm_compute; reflexivity. Qed.
Lemma demo_ready : ready (TpmSpec:=sim_spec) (demo_world x07).
Proof. apply sim_readyb_ready. vm_compute. reflexivity. Qed.
Lemma demo_room n : (n ≤ 8)%nat → room (TpmSpec:=sim_spec) n (demo_world x07).
Proof.
  intros. unfold room.
  change (size _) with (size (v_objs (sw_view (demo_world x07)))).
  change (capacity) with 16%nat. vm_compute (size _). lia.
Qed.

Lemma derive_key_id_format_witness :
  ∃ id, derive_key_id (D:=sim_data) [x01] = Ok ("sceau-" +:+ id)%string ∧
        String.length id = 16%nat ∧ Forall (.∈ hex_digits) (String.list_ascii_of_string id).
Proof. apply (derive_key_id_format (D:=sim_data) (KL:=sim_key_id_laws) [x01]). Defined.

Lemma seal_unseal_round_trip_witness :
  run (seal (demo_sealer x07) [xaa; xbb]) (demo_world x07) (λ ct w',
    ready (TpmSpec:=sim_spec) w' ∧ view (TpmModel:=sim_model) w' = sw_view (demo_world x07) ∧
    run (unseal (demo_sealer x07) ct) (demo_world x07) (λ d w2', d = [xaa; xbb] ∧
      ready (TpmSpec:=sim_spec) w2' ∧
      view (TpmModel:=sim_model) w2' = sw_view (demo_world x07))).
Proof.
  apply (seal_unseal_round_trip (TS:=sim_spec) (L:=sim_data_laws) _ _ (demo_srk x07));
    [apply demo_ready|apply demo_room; lia|apply demo_sealer_for|vm_compute; lia
    |apply demo_ready|apply demo_room; lia|apply demo_sealer_for].
Defined.

Lemma seal_too_large_witness :
  seal (O:=sim_ops) (demo_sealer x07) (replicate 129 x00) (demo_world x07) =
  (Err (PlaintextTooLarge 129), demo_world x07).
Proof.
  apply (seal_too_large (O:=sim_ops) (demo_sealer x07) (replicate 129 x00)). vm_compute. lia.
Defined.

Lemma ciphertext_survives_restart_witness :
  run (s ← sealer_new (O:=sim_ops) "a"%string; ct ← seal s [xaa]; mret (s, ct)) (sim_init x07)
    (λ r _, run (s2 ← sealer_new (O:=sim_ops) "b"%string; d ← unseal s2 r.2; mret (s2, d))
              (demo_world x07) (λ r2 _, key_id r2.1 = key_id r.1 ∧ r2.2 = [xaa])).
Proof.
  apply (ciphertext_survives_restart (TS:=sim_spec) (L:=sim_data_laws) (KL:=sim_key_id_laws));
    [apply sim_init_ready|vm_compute; lia|vm_compute; lia|apply demo_ready
    |apply demo_room; lia|vm_compute; reflexivity].
Defined.

(** An envelope that carries another SRK wrapped under the demo SRK. *)
Definition key_blob : list byte := x02 :: sim_key_bytes (demo_srk x07) ++ sim_key_bytes (demo_srk x09).
Definition key_envelope : list byte :=
  ENVELOPE_VERSION :: x00 :: x09 :: sim_public_bytes (sk_public (demo_srk x09)) ++ key_blob.

Lemma unseal_failure_leaks_handle_witness :
  fails (unseal (O:=sim_ops) (demo_sealer x07) key_envelope) (demo_world x07) (λ _ w',
    size (v_objs (sw_view w')) = Datatypes.S (size (v_objs (sw_view (demo_world x07))))).
Proof.
  apply (unseal_failure_leaks_handle (TS:=sim_spec) _
           (demo_srk x07) (demo_srk x09) (sk_public (demo_srk x09)) key_blob);
    [apply demo_ready|apply demo_room; lia|apply demo_sealer_for|vm_compute; reflexivity
    |split; vm_compute; reflexivity].
Defined.

Lemma sealer_new_drop_restores_witness :
  run (s ← sealer_new (O:=sim_ops) "device:/dev/tpmrm0"%string; sealer_drop s) (demo_world x07)
    (λ _ w', ready (TpmSpec:=sim_spec) w' ∧ sw_view w' = sw_view (demo_world x07)).
Proof.
  apply (sealer_new_drop_restores (TS:=sim_spec) (L:=sim_data_laws) (KL:=sim_key_id_laws));
    [apply demo_ready|apply demo_room; lia].
Defined.
