(* ===== verification/SealerSteps.v ===== *)
(** [TpmSealer::seal] and [TpmSealer::unseal] ([src/src/tpm.rs]), one TPM command at
    a time: the programs of [Steps.v] that run to what [Sealer.v] says ([exec_seal],
    [exec_unseal]), and what they do while another sealer uses the same TPM. *)
From S2P Require Import Prelude Tss SimTpm Steps Envelope Sealer.

Section Programs.
Context `{D : TssData} {O : TssOps} {NS : NullauthSteps}.
Abbreviation TpmError := (TpmError TssError).
Abbreviation tss := (p_map_err TpmError_Tss).

Definition seal_prog (s : TpmSealer) (plaintext : list byte) : Prog World TpmError (list byte) :=
  if bool_decide (MAX_SEAL_DATA < length plaintext)%nat
  then Ret (Err (PlaintextTooLarge (length plaintext))) else
  sensitive ← Ret (map_err TpmError_Tss (try_from plaintext));
  created ← nullauth_prog TpmError_Tss (context s) (
    public ← Ret (sealed_public (child_fixed s));
    tss (cmd (create (context s) (primary s) public (Some sensitive))));
  Ret (envelope_encode created.2 created.1).

Definition unseal_prog (s : TpmSealer) (ciphertext : list byte) : Prog World TpmError (list byte) :=
  pp ← Ret (envelope_decode ciphertext);
  data ← nullauth_prog TpmError_Tss (context s) (
    handle ← tss (cmd (load (context s) (primary s) pp.2 pp.1));
    data ← tss (cmd (tpm_unseal (context s) handle));
    _ ← tss (cmd (flush_context (context s) handle));
    mret data);
  mret (value data).

(** A section is at most the two ends of a session and three commands. *)
Lemma takes_ret {E A} (leaf : outcome E A → nat) r n : (leaf r ≤ n)%nat → takes (W:=World) leaf (Ret r) n.
Proof. done. Qed.
Lemma takes_nullauth {E A} (conv : TssError → E) c (p : Prog World E A) n :
  takes (λ _, 1%nat) p n → takes (λ _, 0%nat) (nullauth_prog conv c p) (S n).
Proof.
  intros Hp. unfold nullauth_prog. eapply (takes_bind _ _ _ n); [|intros s|lia|lia].
  { apply takes_map_result, takes_cmd. cbn. lia. }
  eapply (takes_bind _ _ _ 1); [|intros r|lia|lia].
  { by apply takes_map_result. }
  eapply (takes_bind _ _ _ 0); [|intros u; cbn; lia|lia|lia].
  apply takes_map_result, takes_cmd. cbn. lia.
Qed.
Lemma takes_tss {A} (m : M World TssError A) n : takes (λ _, n) (tss (cmd m)) (S n).
Proof. apply takes_map_result, takes_cmd. cbn. lia. Qed.

Lemma takes_shift {W E A} (leaf : nat) (p : Prog W E A) n d :
  takes (λ _, leaf) p n → takes (λ _, (leaf + d)%nat) p (n + d).
Proof.
  revert n. induction p as [r|X m k IH]; intros n; cbn; [lia|].
  intros (n' & ? & Hk). exists (n' + d)%nat. split; [lia|]. intros x. by apply IH.
Qed.
Lemma seal_takes s pt : takes (λ _, 0%nat) (seal_prog s pt) 5.
Proof.
  unfold seal_prog. case_bool_decide; [apply takes_ret; lia|].
  eapply (takes_bind _ _ _ 5); [apply takes_ret; lia|intros sd|lia|lia].
  eapply (takes_bind _ _ _ 0); [|intros c; apply takes_ret; lia|lia|lia].
  apply takes_le with 3%nat; [lia|]. apply takes_nullauth.
  eapply (takes_bind _ _ _ 2); [apply takes_ret; lia|intros p|lia|lia]. apply takes_tss.
Qed.
Lemma unseal_takes s ct : takes (λ _, 0%nat) (unseal_prog s ct) 5.
Proof.
  unfold unseal_prog. eapply (takes_bind _ _ _ 5); [apply takes_ret; lia|intros pp|lia|lia].
  eapply (takes_bind _ _ _ 0); [|intros d; apply takes_ret; lia|lia|lia]. apply takes_nullauth.
  eapply (takes_bind _ _ _ 3); [apply takes_tss|intros h|lia|lia].
  eapply (takes_bind _ _ _ 2); [apply takes_tss|intros d|lia|lia].
  eapply (takes_bind _ _ _ 1); [apply takes_tss|intros u; apply takes_ret; lia|lia|lia].
Qed.
End Programs.

(** * Without interruption *)
Section Sequential.
Context `{NSL : NullauthSplit}.

(** One after another. *)
Lemma exec_then {E A B} (p : Prog World E A) (m : M World E A) (f : A → Prog World E B) (g : A → M World E B) w :
  exec p w = m w → (∀ a w', exec (f a) w' = g a w') → exec (p ≫= f) w = (m ≫= g) w.
Proof.
  intros Hp Hf. rewrite exec_bind. unfold mbind, M_bind. rewrite Hp. by destruct (m w) as [[]].
Qed.
Lemma exec_conv {E A} (conv : TssError → E) (m : M World TssError A) w :
  exec (p_map_err conv (cmd m)) w = map_errM conv m w.
Proof. rewrite exec_map_err. unfold map_errM. by rewrite exec_cmd. Qed.
Lemma exec_nullauth {E A} (conv : TssError → E) c (p : Prog World E A) (f : M World E A) w :
  (∀ w', exec p w' = f w') → exec (nullauth_prog conv c p) w = execute_with_nullauth_session conv c f w.
Proof.
  intros Hf. rewrite nullauth_split. unfold nullauth_prog. apply exec_then; [apply exec_conv|]. intros s w1.
  apply exec_then; [rewrite exec_attempt; unfold attempt; by rewrite Hf|]. intros r w2.
  apply exec_then; [apply exec_conv|]. intros u w3. by destruct r.
Qed.
Lemma exec_seal s pt w : exec (seal_prog s pt) w = seal s pt w.
Proof.
  unfold seal_prog, seal. case_bool_decide; [done|]. apply exec_then; [done|]. intros sd w1.
  apply exec_then; [|done]. apply exec_nullauth. intros w2. apply exec_then; [done|]. intros p w3. apply exec_conv.
Qed.
Lemma exec_unseal s ct w : exec (unseal_prog s ct) w = unseal s ct w.
Proof.
  unfold unseal_prog, unseal. apply exec_then; [done|]. intros pp w1. apply exec_then; [|done].
  apply exec_nullauth. intros w2. apply exec_then; [apply exec_conv|]. intros h w3.
  apply exec_then; [apply exec_conv|]. intros d w4. apply exec_then; [apply exec_conv|]. done.
Qed.
End Sequential.

(** * Under interference *)
Section Concurrent.
Context `{NSP : NullauthSpec} {L : TssDataLaws} {K : KeyIdDeps} {KL : KeyIdLaws}.
Abbreviation V := (TpmView Public Digest Key Seed).

(** What a sealer needs of its own part of the TPM. *)
Definition sealer_has (lv : V) (s : TpmSealer) (k : Key) : Prop :=
  key_at lv (context s) (primary s) k ∧ child_fixed s = fixed_tpm (object_attributes (public_of k)).
Lemma sealer_for_has w s k : sealer_for w s k → sealer_has (own (context s) (view w)) s k.
Proof. intros (Hk & _ & Hf). split; [by apply key_at_own|done]. Qed.

Lemma user_session_in c h s (lv : V) :
  sess_type s = SessionType_Hmac → continue_session (sess_attributes s) = true →
  ∀ w, own c (view w) = open_session c h s lv → user_session (view w) c.
Proof. intros Ht Hc w Ho. apply user_session_own. rewrite Ho. by apply user_session_open. Qed.
Lemma key_in c h s (lv : V) h' k :
  obj_at lv c h = None → key_at lv c h' k →
  ∀ w, own c (view w) = open_session c h s lv → key_at (view w) c h' k.
Proof. intros Hf Hk w Ho. apply key_at_own. rewrite Ho. by apply key_at_open. Qed.

Lemma seal_wp s k pt b lv :
  sealer_has lv s k → (length pt ≤ MAX_SEAL_DATA)%nat → (size (v_objs lv) + 1 ≤ b)%nat →
  wp (context s) b (seal_prog s pt) (λ r lv', lv' = lv ∧ ∃ ct, r = Ok ct ∧ envelope_seals k ct pt) lv.
Proof.
  intros [Hk Hfx] Hl Hb. unfold seal_prog. rewrite bool_decide_false by lia.
  destruct (sensitive_fits pt Hl) as [sd Hsd]. pose proof (value_try_from _ _ Hsd) as Hval.
  destruct (sealed_public_spec (child_fixed s)) as (p & Hp & Hso & Hpf & _).
  apply wp_bind. rewrite Hsd. cbn [map_err wp]. apply wp_bind, wp_nullauth; [done|].
  intros h ses Hh Ht Hc. rewrite Hp. apply wp_bind. cbn [wp].
  apply wp_map_result, wp_run. intros w Hr Ho Hf.
  eapply run_mono; [eapply (create_spec _ _ k)|]; try done.
  - by eapply user_session_in.
  - by eapply key_in.
  - by rewrite Hpf, Hfx.
  - cbv beta. intros [priv pub] w' (Hr' & Hv & Hs). cbn [fst snd] in *. rewrite Hv, Ho, Hval in *.
    split_and!; [done|done|rewrite size_open by done; lia|done|done|].
    cbn [map_err]. destruct (envelope_decode_encode pub priv) as (ct & He & Hd). cbn [snd fst wp]. rewrite He.
    split; [done|]. exists ct. split; [done|]. by exists pub, priv.
Qed.

Lemma unseal_wp s k ct pt b lv :
  sealer_has lv s k → envelope_seals k ct pt → (size (v_objs lv) + 2 ≤ b)%nat →
  wp (context s) b (unseal_prog s ct) (λ r lv', lv' = lv ∧ r = Ok pt) lv.
Proof.
  intros [Hk Hfx] (pub & priv & Hd & Hs) Hb. unfold unseal_prog. set (c := context s) in *.
  apply wp_bind. rewrite Hd. cbn [wp]. apply wp_bind, wp_nullauth; [lia|].
  intros h ses Hh Ht Hc. set (lv1 := open_session c h ses lv).
  assert (size (v_objs lv1) = S (size (v_objs lv))) as Hsz by (by apply size_open).
  apply wp_bind, wp_map_result, wp_run. intros w Hr Ho Hf. cbn [fst snd].
  eapply run_mono; [eapply (load_sealed_spec c _ k _ _ pt); [done|by eapply fits_room; [|done]; lia| | |done]|].
  { by eapply user_session_in. }
  { by eapply key_in. }
  cbv beta. intros o w1 (Hr1 & Hf1 & Hv1). rewrite <- obj_at_own, Ho in Hf1.
  rewrite Hv1, own_add, others_add, Ho. split_and!; [done..|rewrite size_add_fresh by done; lia|]. cbn [map_err].
  apply wp_bind, wp_map_result, wp_run. intros w2 Hr2 Ho2 Hf2.
  eapply run_mono; [apply (unseal_spec c o pt); [done| |]|].
  { apply user_session_own. rewrite Ho2. apply user_session_add; [done|]. by apply user_session_open. }
  { by rewrite <- obj_at_own, Ho2, obj_at_add_eq. }
  cbv beta. intros sd w3 (Hr3 & Hv3 & Hval). rewrite Hv3, Ho2.
  split_and!; [done..|rewrite size_add_fresh by done; lia|]. cbn [map_err].
  apply wp_bind, wp_map_result, wp_run. intros w4 Hr4 Ho4 Hf4.
  eapply run_mono; [apply (flush_spec c o (OSealed pt)); [done|by rewrite <- obj_at_own, Ho4, obj_at_add_eq|done]|].
  cbv beta. intros [] w5 (Hr5 & Hv5). rewrite Hv5, own_del, others_del, Ho4, del_add by done.
  split_and!; [done..|lia|]. cbn. split_and!; [done..|]. by rewrite Hval.
Qed.
End Concurrent.
