(* ===== verification/Kms.v ===== *)
(** The KMS v2 gRPC service of [src/src/kms.rs].

    A handler runs here from its request to its reply on [KmsState]: the service
    (two mutexes) and the [World] behind it.  It holds a mutex for the whole of
    its TPM work; a panic inside a critical section poisons the mutex, and a
    poisoned [lock()] is an error.  [KmsConc.v] interleaves the handlers. *)
From stdpp Require Import pretty.
From S2P Require Import Prelude Grpc Tss SimTpm Envelope Sealer.

Record EncryptRequest := mkEncryptRequest { enc_plaintext : list byte; enc_uid : string }.
Record EncryptResponse := mkEncryptResponse {
  enc_ciphertext : list byte; enc_key_id : string; enc_annotations : gmap string (list byte) }.
Record DecryptRequest := mkDecryptRequest {
  dec_ciphertext : list byte; dec_uid : string; dec_key_id : string;
  dec_annotations : gmap string (list byte) }.
Record DecryptResponse := mkDecryptResponse { dec_plaintext : list byte }.
Record StatusResponse := mkStatusResponse {
  st_version : string; st_healthz : string; st_key_id : string }.

Record KmsService := mkKmsService {
  sealer : Mutex TpmSealer;
  legacy_sealer : option (Mutex TpmSealer)
}.

(** [KmsService::new] and [KmsService::with_legacy_fallback]. *)
Definition kms_new (s : TpmSealer) : KmsService :=
  {| sealer := mkMutex false s; legacy_sealer := None |}.
Definition with_legacy_fallback (s legacy : TpmSealer) : KmsService :=
  {| sealer := mkMutex false s; legacy_sealer := Some (mkMutex false legacy) |}.

(** [internal] of [kms.rs]. *)
Definition internal (e : string) : Status := mkStatus Code_Internal ("sceau: " +:+ e)%string.

Section Kms.
Context `{D : TssData} {O : TssOps} {K : KeyIdDeps} (tss_display : TssError → string).

(** [Display] of [TpmError]. *)
Definition TpmError_display (e : TpmError TssError) : string :=
  match e with
  | TpmError_Tss e => "TPM error: " +:+ tss_display e
  | PlaintextTooLarge n => "plaintext too large to seal: " +:+ pretty n +:+ " bytes (max "
                             +:+ pretty MAX_SEAL_DATA +:+ ")"
  | MalformedEnvelope => "malformed ciphertext envelope"
  end%string.

Record KmsState := mkKmsState { svc : KmsService; tpm : World }.

(** Lock a mutex and run [body] on its contents until the guard is dropped.
    [poison] marks the mutex in the service when [body] panics. *)
Definition with_lock {A} (m : Mutex TpmSealer) (poison : KmsService → KmsService)
  (body : TpmSealer → M World Status A) : M KmsState Status A := λ st,
  if poisoned m then (Err (internal poison_message), st) else
  match body (inner m) (tpm st) with
  | (Panic, w) => (Panic, mkKmsState (poison (svc st)) w)
  | (r, w) => (r, mkKmsState (svc st) w)
  end.
Definition poison_sealer (k : KmsService) : KmsService :=
  {| sealer := mkMutex true (inner (sealer k)); legacy_sealer := legacy_sealer k |}.
Definition poison_legacy (k : KmsService) : KmsService :=
  {| sealer := sealer k;
     legacy_sealer := (λ m, mkMutex true (inner m)) <$> legacy_sealer k |}.

(** [KmsService::key_id]: the empty string when the lock is poisoned. *)
Definition kms_key_id (k : KmsService) : string :=
  if poisoned (sealer k) then "" else key_id (inner (sealer k)).

(** [KeyManagementService::status] *)
Definition status : M KmsState Status StatusResponse := λ st,
  (Ok (mkStatusResponse "v2" "ok" (kms_key_id (svc st))), st).

(** [KeyManagementService::encrypt] *)
Definition encrypt (req : EncryptRequest) : M KmsState Status EncryptResponse := λ st,
  with_lock (sealer (svc st)) poison_sealer (λ s,
    ciphertext ← map_errM (internal ∘ TpmError_display) (seal s (enc_plaintext req));
    mret (mkEncryptResponse ciphertext (key_id s) ∅)) st.

(** One arm of [decrypt]: unseal if the request names this sealer's key. *)
Definition try_sealer (req : DecryptRequest) (s : TpmSealer) :
  M World Status (option DecryptResponse) :=
  if bool_decide (dec_key_id req = key_id s) then
    plaintext ← map_errM (internal ∘ TpmError_display) (unseal s (dec_ciphertext req));
    mret (Some (mkDecryptResponse plaintext))
  else mret None.

(** The two critical sections of [decrypt]. *)
Definition try_primary (req : DecryptRequest) : M KmsState Status (option DecryptResponse) := λ st,
  with_lock (sealer (svc st)) poison_sealer (try_sealer req) st.
Definition try_legacy (req : DecryptRequest) : M KmsState Status (option DecryptResponse) := λ st,
  match legacy_sealer (svc st) with
  | Some legacy => with_lock legacy poison_legacy (try_sealer req) st
  | None => (Ok None, st)
  end.

(** [KeyManagementService::decrypt] *)
Definition decrypt (req : DecryptRequest) : M KmsState Status DecryptResponse :=
  r ← try_primary req;
  match r with
  | Some resp => mret resp
  | None =>
      r' ← try_legacy req;
      match r' with
      | Some resp => mret resp
      | None => throw (mkStatus Code_InvalidArgument
                         ("unknown key_id " +:+ dec_key_id req)%string)
      end
  end.
End Kms.

(** * Specification *)
Section KmsSpec.
Context `{D : TssData} {L : TssDataLaws} {O : TssOps} {TM : TpmModel} {TS : TpmSpec} {K : KeyIdDeps}
  {KL : KeyIdLaws} (tss_display : TssError → string).
Abbreviation encrypt := (encrypt tss_display).
Abbreviation decrypt := (decrypt tss_display).
Abbreviation try_sealer := (try_sealer tss_display).

(** The service has a primary sealer for [kp] and a legacy one for [kl], with
    distinct key identifiers, both mutexes healthy, and room for a request. *)
Record kms_ok (st : KmsState) (kp : Key) (kl : option Key) : Prop := {
  ok_ready : ready (tpm st);
  ok_room : room 2 (tpm st);
  ok_primary_lock : poisoned (sealer (svc st)) = false;
  ok_primary : sealer_for (tpm st) (inner (sealer (svc st))) kp;
  ok_legacy : match legacy_sealer (svc st), kl with
              | Some m, Some k => poisoned m = false ∧ sealer_for (tpm st) (inner m) k ∧
                                  key_id (inner m) ≠ key_id (inner (sealer (svc st)))
              | None, None => True
              | _, _ => False
              end
}.

Lemma sealer_for_view w w' s k : view w' = view w → sealer_for w s k → sealer_for w' s k.
Proof. unfold sealer_for. by intros ->. Qed.

(** [kms_ok] depends on the TPM only through its view. *)
Lemma kms_ok_view st st' kp kl :
  svc st' = svc st → ready (tpm st') → view (tpm st') = view (tpm st) →
  kms_ok st kp kl → kms_ok st' kp kl.
Proof.
  intros Hs Hr Hv []. split; rewrite ?Hs; eauto using room_view, sealer_for_view.
  destruct (legacy_sealer (svc st)), kl; try done.
  destruct ok_legacy0 as (? & ? & ?). eauto using sealer_for_view.
Qed.

Lemma with_lock_run {A} m p (body : TpmSealer → M World Status A) st Q :
  poisoned m = false → run (body (inner m)) (tpm st) Q →
  run (with_lock m p body) st (λ a st', svc st' = svc st ∧ Q a (tpm st')).
Proof.
  intros Hp (a & w & Hb & HQ). exists a, (mkKmsState (svc st) w). unfold with_lock.
  by rewrite Hp, Hb.
Qed.

Lemma encrypt_spec st kp kl pt uid :
  kms_ok st kp kl → (length pt ≤ MAX_SEAL_DATA)%nat →
  run (encrypt (mkEncryptRequest pt uid)) st (λ r st', kms_ok st' kp kl ∧ svc st' = svc st ∧
    view (tpm st') = view (tpm st) ∧
    envelope_seals kp (enc_ciphertext r) pt ∧ enc_annotations r = ∅ ∧
    enc_key_id r = key_id (inner (sealer (svc st)))).
Proof.
  intros Hok Hl. destruct (Hok) as [Hr Hroom Hp Hs _].
  eapply run_mono; [apply (with_lock_run _ _ _ _ (λ r w', ready w' ∧ view w' = view (tpm st) ∧
    envelope_seals kp (enc_ciphertext r) pt ∧ enc_annotations r = ∅ ∧
    enc_key_id r = key_id (inner (sealer (svc st))))); [done|]|].
  - step by (apply run_map_errM, seal_spec; [done|by eapply room_le, Hroom; lia|done|done]) as (? & ? & ?).
    by apply run_ret.
  - cbv beta. intros r st' (? & ? & ? & ? & ? & ?). split_and!; try done. by eapply kms_ok_view.
Qed.

(** The arm of [decrypt] for the sealer the request names. *)
Lemma try_sealer_hit req s k pt w :
  ready w → room 2 w → sealer_for w s k → dec_key_id req = key_id s →
  envelope_seals k (dec_ciphertext req) pt →
  run (try_sealer req s) w (λ r w', r = Some (mkDecryptResponse pt) ∧ ready w' ∧ view w' = view w).
Proof.
  intros Hr Hroom Hs Hk He. unfold Kms.try_sealer. rewrite bool_decide_true by done.
  step by (apply run_map_errM; by eapply unseal_seal_spec) as (-> & ? & ?). by apply run_ret.
Qed.

(** The key a request's identifier selects in a service state. *)
Definition selects (st : KmsState) (kp : Key) (kl : option Key) (kid : string) (k : Key) : Prop :=
  (kid = key_id (inner (sealer (svc st))) ∧ k = kp) ∨
  (∃ m, legacy_sealer (svc st) = Some m ∧ kid = key_id (inner m) ∧ kl = Some k).

Lemma try_primary_miss req st :
  poisoned (sealer (svc st)) = false → dec_key_id req ≠ key_id (inner (sealer (svc st))) →
  try_primary tss_display req st = (Ok None, st).
Proof.
  intros Hp Hne. unfold try_primary, with_lock. rewrite Hp. unfold Kms.try_sealer.
  rewrite bool_decide_false by done. by destruct st.
Qed.

Lemma decrypt_spec st kp kl req k pt :
  kms_ok st kp kl → selects st kp kl (dec_key_id req) k →
  envelope_seals k (dec_ciphertext req) pt →
  run (decrypt req) st (λ r st', kms_ok st' kp kl ∧ svc st' = svc st ∧
    view (tpm st') = view (tpm st) ∧ dec_plaintext r = pt).
Proof.
  intros Hok Hsel He. destruct (Hok) as [Hr Hroom Hp Hs Hleg]. unfold Kms.decrypt.
  destruct Hsel as [[Hid ->]|(m & Hm & Hid & ->)].
  - step by (eapply with_lock_run; [done|by eapply try_sealer_hit]) as (Hsv & -> & Hr' & Hv).
    apply run_ret. split_and!; try done. by eapply kms_ok_view.
  - rewrite Hm in Hleg. destruct Hleg as (Hp' & Hs' & Hne).
    eapply run_bind_eq; [apply try_primary_miss; [done|congruence]|].
    step by (unfold run, try_legacy; rewrite Hm;
      eapply with_lock_run; [done|by eapply try_sealer_hit]) as (Hsv & -> & Hr' & Hv).
    apply run_ret. split_and!; try done. by eapply kms_ok_view.
Qed.
End KmsSpec.

(** * The service as a vault

    The contract with kube-apiserver: a ledger of what [Encrypt] returned, from
    which [Decrypt] answers. *)
Inductive KmsRequest :=
| ReqStatus
| ReqEncrypt (r : EncryptRequest)
| ReqDecrypt (r : DecryptRequest).
Inductive KmsResponse :=
| RespStatus (r : StatusResponse)
| RespEncrypt (r : EncryptResponse)
| RespDecrypt (r : DecryptResponse).

(** (ciphertext, key_id, plaintext) *)
Definition Ledger : Type := list (list byte * string * list byte).

(** Requests the contract covers: DEKs of at most 128 bytes, and ciphertext
    with the key_id it was returned with. *)
Definition admissible (L : Ledger) (req : KmsRequest) : Prop :=
  match req with
  | ReqStatus => True
  | ReqEncrypt r => (length (enc_plaintext r) ≤ MAX_SEAL_DATA)%nat
  | ReqDecrypt r => ∃ pt, (dec_ciphertext r, dec_key_id r, pt) ∈ L
  end.

(** What the contract promises as the answer, under key identifier [kid]. *)
Definition vault_answers (kid : string) (L : Ledger) (req : KmsRequest) (resp : KmsResponse) : Prop :=
  match req, resp with
  | ReqStatus, RespStatus r => r = mkStatusResponse "v2" "ok" kid
  | ReqEncrypt _, RespEncrypt r => enc_key_id r = kid ∧ enc_annotations r = ∅
  | ReqDecrypt q, RespDecrypt r =>
      ∀ pt, (dec_ciphertext q, dec_key_id q, pt) ∈ L → dec_plaintext r = pt
  | _, _ => False
  end.

(** The ledger after an exchange. *)
Definition record (L : Ledger) (req : KmsRequest) (resp : KmsResponse) : Ledger :=
  match req, resp with
  | ReqEncrypt q, RespEncrypt r => (enc_ciphertext r, enc_key_id r, enc_plaintext q) :: L
  | _, _ => L
  end.

Lemma admissible_mono l l' r : l ⊆ l' → admissible l r → admissible l' r.
Proof. intros Hl. destruct r; cbn; try done. intros [pt ?]. eauto. Qed.
Lemma record_grows l r x : l ⊆ record l r x.
Proof. destruct r, x; cbn; try done. intros e He. by apply elem_of_cons; right. Qed.

Section Vault.
Context `{D : TssData} {L : TssDataLaws} {O : TssOps} {TM : TpmModel} {TS : TpmSpec} {K : KeyIdDeps}
  {KL : KeyIdLaws} (tss_display : TssError → string).

(** Dispatch of the generated gRPC server. *)
Definition kms_handle (req : KmsRequest) : M KmsState Status KmsResponse :=
  match req with
  | ReqStatus => r ← status; mret (RespStatus r)
  | ReqEncrypt q => r ← encrypt tss_display q; mret (RespEncrypt r)
  | ReqDecrypt q => r ← decrypt tss_display q; mret (RespDecrypt r)
  end.

Definition kms_step (c c' : KmsState * Ledger) : Prop :=
  ∃ req resp, admissible c.2 req ∧ kms_handle req c.1 = (Ok resp, c'.1) ∧
              c'.2 = record c.2 req resp.

(** Every ledger entry is sealed under the key its identifier selects. *)
Definition ledger_ok (st : KmsState) (kp : Key) (kl : option Key) (l : Ledger) : Prop :=
  ∀ ct kid pt, (ct, kid, pt) ∈ l →
    ∃ k, selects st kp kl kid k ∧ envelope_seals k ct pt.

Lemma ledger_ok_svc st st' kp kl l : svc st' = svc st → ledger_ok st kp kl l → ledger_ok st' kp kl l.
Proof. unfold ledger_ok, selects. by intros ->. Qed.

Lemma kms_handle_vault st kp kl l req :
  kms_ok st kp kl → ledger_ok st kp kl l → admissible l req →
  run (kms_handle req) st (λ resp st', svc st' = svc st ∧ view (tpm st') = view (tpm st) ∧
    kms_ok st' kp kl ∧ ledger_ok st' kp kl (record l req resp) ∧
    vault_answers (key_id (inner (sealer (svc st)))) l req resp).
Proof.
  intros Hok Hl Ha. destruct req as [|[pt uid]|req]; cbn [kms_handle].
  - exists (RespStatus (mkStatusResponse "v2" "ok" (kms_key_id (svc st)))), st.
    split; [done|]. split_and!; try done. cbn. unfold kms_key_id. by rewrite (ok_primary_lock _ _ _ Hok).
  - step by (by apply encrypt_spec) as (Hok' & Hsv & Hv & He & Hann & Hkid). apply run_ret.
    split_and!; try done. intros ct kid pt' [[= -> -> ->]|Hin]%elem_of_cons.
    + exists kp. split; [left|done]. by rewrite Hsv.
    + by eapply ledger_ok_svc.
  - destruct Ha as [pt Hin]. destruct (Hl _ _ _ Hin) as (k & Hsel & He).
    destruct (decrypt_spec tss_display _ _ _ _ _ _ Hok Hsel He) as (r & st' & Hr & Hok' & Hsv & Hv & Hpt).
    eapply run_bind_eq; [exact Hr|]. apply run_ret.
    split_and!; try done; [by eapply ledger_ok_svc|]. intros pt' Hin'.
    destruct (Hl _ _ _ Hin') as (k' & Hsel' & He').
    destruct (decrypt_spec tss_display _ _ _ _ _ _ Hok Hsel' He') as (r' & ? & Hr' & _ & _ & _ & Hpt').
    congruence.
Qed.

Lemma kms_reachable_ok st kp kl l0 c :
  kms_ok st kp kl → ledger_ok st kp kl l0 → rtc kms_step (st, l0) c →
  svc c.1 = svc st ∧ view (tpm c.1) = view (tpm st) ∧ kms_ok c.1 kp kl ∧ ledger_ok c.1 kp kl c.2.
Proof.
  intros Hok Hl0. apply (rtc_ind_r (λ c, svc c.1 = svc st ∧ view (tpm c.1) = view (tpm st) ∧
    kms_ok c.1 kp kl ∧ ledger_ok c.1 kp kl c.2)); [done|].
  intros c1 c2 _ (req & resp & Ha & Hh & Hl) (Hs & Hv & Hok1 & Hl1).
  destruct (kms_handle_vault _ _ _ _ _ Hok1 Hl1 Ha) as (resp' & st' & Hh' & Hs' & Hv' & Hok' & Hl' & _).
  rewrite Hh' in Hh. injection Hh as -> ->. rewrite Hl. split_and!; [congruence|congruence|done|done].
Qed.
End Vault.

(** * Theorems *)
Section KmsTheorems.
Context `{D : TssData} {L : TssDataLaws} {O : TssOps} {TM : TpmModel} {TS : TpmSpec} {K : KeyIdDeps}
  {KL : KeyIdLaws} (tss_display : TssError → string).

(** C3. Availability and correctness of the service over its whole life:
    started with a ledger of earlier ciphertext under its primary and its legacy
    key, after any sequence of admissible requests, every further admissible
    request is answered, and answered as the ledger says: [Decrypt] returns the
    plaintext of the [Encrypt] that produced the ciphertext, in this life of the
    service or an earlier one, and no request leaves anything behind in the
    TPM. *)
Theorem kms_refines_vault st kp kl l0 st' l req :
  kms_ok st kp kl → ledger_ok st kp kl l0 → rtc (kms_step tss_display) (st, l0) (st', l) →
  admissible l req →
  ∃ resp st'', kms_handle tss_display req st' = (Ok resp, st'') ∧
    vault_answers (key_id (inner (sealer (svc st)))) l req resp ∧
    view (tpm st'') = view (tpm st).
Proof.
  intros Hok Hl0 Hr Ha.
  destruct (kms_reachable_ok tss_display _ _ _ _ _ Hok Hl0 Hr) as (Hs & Hv & Hok' & Hl).
  destruct (kms_handle_vault tss_display _ _ _ _ _ Hok' Hl Ha)
    as (resp & st'' & Hh & Hs'' & Hv'' & _ & _ & Hans).
  exists resp, st''. cbn in *. rewrite Hs in *. split_and!; [done|done|congruence].
Qed.

(** Ciphertext written before a node joined the fleet: what a service with
    primary key [k] encrypts, a service whose legacy key is [k] decrypts, and so
    does every service whose primary key is [k]. *)
Theorem encrypt_decrypt_across_services st kp kl st2 kp2 kl2 pt uid uid2 ann :
  kms_ok st kp kl → (length pt ≤ MAX_SEAL_DATA)%nat →
  kms_ok st2 kp2 kl2 → kp2 = kp ∨ kl2 = Some kp →
  run (encrypt tss_display (mkEncryptRequest pt uid)) st (λ r _,
    run (decrypt tss_display (mkDecryptRequest (enc_ciphertext r) uid2 (enc_key_id r) ann)) st2
      (λ r2 st2', dec_plaintext r2 = pt ∧ view (tpm st2') = view (tpm st2))).
Proof.
  intros Hok Hl Hok2 Hk. eapply run_mono; [by eapply encrypt_spec|]. cbv beta.
  intros r st' (_ & _ & _ & He & _ & Hkid).
  eapply run_mono; [eapply (decrypt_spec tss_display _ _ _ _ kp); [exact Hok2| |exact He]|].
  - cbn. rewrite Hkid. destruct (ok_primary _ _ _ Hok) as (_ & Hi & _).
    destruct Hk as [->| ->].
    + left. destruct (ok_primary _ _ _ Hok2) as (_ & Hi2 & _). split; [congruence|done].
    + right. pose proof (ok_legacy _ _ _ Hok2) as Hleg.
      destruct (legacy_sealer (svc st2)) as [m|]; [|done].
      destruct Hleg as (_ & (_ & Hi2 & _) & _). exists m. split_and!; [done|congruence|done].
  - cbv beta. intros r2 st2' (_ & _ & ? & ?). done.
Qed.

(** A key_id that neither sealer has is refused with [InvalidArgument], and
    neither the service nor the TPM changes. *)
Theorem decrypt_unknown_key_id req st :
  poisoned (sealer (svc st)) = false → dec_key_id req ≠ key_id (inner (sealer (svc st))) →
  (∀ m, legacy_sealer (svc st) = Some m →
        poisoned m = false ∧ dec_key_id req ≠ key_id (inner m)) →
  decrypt tss_display req st =
    (Err (mkStatus Code_InvalidArgument ("unknown key_id " +:+ dec_key_id req)%string), st).
Proof.
  intros Hp Hne Hleg. unfold decrypt.
  rewrite (bind_ok _ _ _ _ _ (try_primary_miss _ _ _ Hp Hne)).
  rewrite (bind_ok _ _ _ None st); [done|]. unfold try_legacy.
  destruct (legacy_sealer (svc st)) as [m|]; [|done].
  destruct (Hleg m eq_refl) as [Hm Hne']. unfold with_lock. rewrite Hm.
  unfold try_sealer. rewrite bool_decide_false by done. by destruct st.
Qed.

(** A malformed envelope under a known key_id is answered with the code
    [Internal], before any TPM command. *)
Theorem decrypt_malformed_is_internal req st :
  poisoned (sealer (svc st)) = false → dec_key_id req = key_id (inner (sealer (svc st))) →
  envelope_decode (dec_ciphertext req) = Err MalformedEnvelope →
  decrypt tss_display req st =
    (Err (mkStatus Code_Internal "sceau: malformed ciphertext envelope"), st).
Proof.
  intros Hp Hk Hm. unfold decrypt. apply bind_err. unfold try_primary, with_lock.
  rewrite Hp. unfold try_sealer. rewrite bool_decide_true by done.
  unfold unseal, mbind, M_bind, map_errM, lift. rewrite Hm. by destruct st.
Qed.

(** C31. A panic while sealing poisons the primary mutex for good: from then on
    every [Encrypt] and every [Decrypt], legacy ciphertext included, fails with
    [Internal], while [Status] still reports healthz ["ok"], with an empty
    key_id. *)
Theorem panic_wedges_service req st st' :
  encrypt tss_display req st = (Panic, st') →
  (∀ q, encrypt tss_display q st' = (Err (internal poison_message), st')) ∧
  (∀ q, decrypt tss_display q st' = (Err (internal poison_message), st')) ∧
  status st' = (Ok (mkStatusResponse "v2" "ok" ""), st').
Proof.
  intros He. assert (poisoned (sealer (svc st')) = true) as Hp.
  { unfold encrypt, with_lock in He. destruct (poisoned (sealer (svc st))); [done|].
    repeat case_match; by simplify_eq/=. }
  split_and!; intros; unfold encrypt, decrypt, status, kms_key_id.
  - unfold with_lock. by rewrite Hp.
  - apply bind_err. unfold try_primary, with_lock. by rewrite Hp.
  - by rewrite Hp.
Qed.
End KmsTheorems.

(** * Examples *)
Definition sim_display (e : N) : string := ("rc " +:+ pretty e)%string.
Definition demo_kms : KmsState (O:=sim_ops) :=
  mkKmsState (O:=sim_ops) (kms_new (demo_sealer x07)) (demo_world x07).

Lemma demo_kms_ok : kms_ok (TS:=sim_spec) demo_kms (demo_srk x07) None.
Proof.
  split; [apply demo_ready|apply demo_room; lia|reflexivity|apply demo_sealer_for|exact I].
Qed.

Definition demo_request : EncryptRequest := mkEncryptRequest [xaa; xbb] "uid-1".

(** Ciphertext of the demo SRK. *)
Definition old_ciphertext : list byte :=
  match (seal (O:=sim_ops) (demo_sealer x07) [xaa] (demo_world x07)).1 with Ok ct => ct | _ => [] end.
Definition old_ledger : Ledger := [(old_ciphertext, key_id (demo_sealer x07), [xaa])].
Definition old_request : DecryptRequest :=
  mkDecryptRequest old_ciphertext "u" (key_id (demo_sealer x07)) ∅.
Lemma old_ciphertext_seals : envelope_seals (TS:=sim_spec) (demo_srk x07) old_ciphertext [xaa].
Proof. eexists _, _. split; [vm_compute; reflexivity|]. split; vm_compute; reflexivity. Qed.

Lemma kms_refines_vault_witness :
  ∃ resp st'', kms_handle (O:=sim_ops) sim_display (ReqDecrypt old_request) demo_kms = (Ok resp, st'') ∧
    vault_answers (key_id (demo_sealer x07)) old_ledger (ReqDecrypt old_request) resp ∧
    view (TpmModel:=sim_model) (tpm st'') = sw_view (demo_world x07).
Proof.
  apply (kms_refines_vault (TS:=sim_spec) (L:=sim_data_laws) sim_display demo_kms (demo_srk x07) None
           old_ledger); [apply demo_kms_ok| |apply rtc_refl|].
  - intros ct kid pt [= -> -> ->]%list_elem_of_singleton. exists (demo_srk x07).
    split; [by left|apply old_ciphertext_seals].
  - exists [xaa]. by apply list_elem_of_singleton.
Defined.

Lemma encrypt_decrypt_across_services_witness :
  run (encrypt (O:=sim_ops) sim_display demo_request) demo_kms (λ r _,
    run (decrypt (O:=sim_ops) sim_display
           (mkDecryptRequest (enc_ciphertext r) "uid-2" (enc_key_id r) ∅)) demo_kms
      (λ r2 st2', dec_plaintext r2 = [xaa; xbb] ∧
                  view (TpmModel:=sim_model) (tpm st2') = sw_view (demo_world x07))).
Proof.
  apply (encrypt_decrypt_across_services (TS:=sim_spec) (L:=sim_data_laws) sim_display demo_kms
           (demo_srk x07) None demo_kms (demo_srk x07) None);
    [apply demo_kms_ok|vm_compute; lia|apply demo_kms_ok|by left].
Defined.

Lemma decrypt_unknown_key_id_witness :
  decrypt (O:=sim_ops) sim_display (mkDecryptRequest [] "u" "sceau-0" ∅) demo_kms =
  (Err (mkStatus Code_InvalidArgument "unknown key_id sceau-0"), demo_kms).
Proof.
  apply (decrypt_unknown_key_id (O:=sim_ops) sim_display (mkDecryptRequest [] "u" "sceau-0" ∅) demo_kms);
    [reflexivity|vm_compute; discriminate|intros m [=]].
Defined.

Lemma decrypt_malformed_is_internal_witness :
  decrypt (O:=sim_ops) sim_display
    (mkDecryptRequest [x02] "u" (key_id (demo_sealer x07)) ∅) demo_kms =
  (Err (mkStatus Code_Internal "sceau: malformed ciphertext envelope"), demo_kms).
Proof.
  apply (decrypt_malformed_is_internal (O:=sim_ops) sim_display); vm_compute; reflexivity.
Defined.

(** A TPM stack whose [create] panics. *)
Definition panicking_ops : TssOps (D:=sim_data) := {|
  World := SimWorld; AuthSession := SimAuthSession; PolicySession := ESYS_TR;
  session_handle := snd; policy_session_handle := λ h, h;
  policy_session_try_from := sim_policy_try_from; context_new := sim_context_new;
  context_drop := sim_context_drop;
  execute_with_nullauth_session := @sim_nullauth;
  execute_with_session A c s f := sim_in_ambient c (Some (snd <$> s)) f;
  execute_without_session A c f := sim_in_ambient c (Some None) f;
  create_primary := sim_create_primary; read_public := sim_read_public;
  create := λ _ _ _ _ w, (Panic, w);
  load := sim_load; tpm_unseal := sim_unseal; flush_context := sim_flush;
  start_auth_session := sim_start_auth_session; tr_sess_set_attributes := sim_set_attributes;
  policy_command_code := sim_policy_command_code; policy_get_digest := sim_policy_get_digest;
  load_external_public := sim_load_external; duplicate := sim_duplicate; import := sim_import;
  evict_control := sim_evict_control; tr_from_tpm_public := sim_tr_from_tpm_public
|}.
Definition panicking_kms : KmsState (O:=panicking_ops) :=
  mkKmsState (O:=panicking_ops) (kms_new (demo_sealer x07)) (demo_world x07).
Definition wedged_kms : KmsState (O:=panicking_ops) :=
  (encrypt (O:=panicking_ops) sim_display demo_request panicking_kms).2.

Lemma panic_wedges_service_witness :
  (∀ q, encrypt (O:=panicking_ops) sim_display q wedged_kms
          = (Err (internal poison_message), wedged_kms)) ∧
  (∀ q, decrypt (O:=panicking_ops) sim_display q wedged_kms
          = (Err (internal poison_message), wedged_kms)) ∧
  status wedged_kms = (Ok (mkStatusResponse "v2" "ok" ""), wedged_kms).
Proof.
  apply (panic_wedges_service (O:=panicking_ops) sim_display demo_request panicking_kms).
  apply injective_projections; [vm_compute; reflexivity|reflexivity].
Defined.
