(* ===== verification/KmsConc.v ===== *)
(** The KMS service under concurrency.

    tonic runs the handlers of [src/src/kms.rs] concurrently, each on a thread of
    its own while it works; what they share is behind the two mutexes of
    [KmsService].  [Decrypt] gives up the first mutex before it takes the second.
    A request is a program counter here ([KmsPc], one constructor per place where
    it can be suspended, inside a critical section with what remains of it),
    [kms_advance] is its next action, and an execution is any interleaving of the
    requests' actions.

    Inside a critical section an action is one TPM command.  The two mutexes guard
    two TPM contexts, not the TPM: while one request unseals under the preferred
    key another may unseal under the legacy key, and their commands alternate.

    The log records every reply in the order of the actions that settled it. *)
From S2P Require Import Prelude Grpc Tss SimTpm Steps Envelope Sealer SealerSteps Kms.

Section System.
Context `{D : TssData} {O : TssOps} {NS : NullauthSteps} (tss_display : TssError → string).
Abbreviation to_status := (internal ∘ TpmError_display tss_display).

(** The body of a critical section, from the moment its mutex is locked. *)
Definition lock_prog {A} (m : Mutex TpmSealer) (body : TpmSealer → Prog World Status A) :
  Prog World Status A :=
  if poisoned m then Ret (Err (internal poison_message)) else body (inner m).
Definition try_sealer_prog (req : DecryptRequest) (s : TpmSealer) : Prog World Status (option DecryptResponse) :=
  if bool_decide (dec_key_id req = key_id s) then
    plaintext ← p_map_err to_status (unseal_prog s (dec_ciphertext req));
    mret (Some (mkDecryptResponse plaintext))
  else mret None.
Definition unknown_key_id (q : DecryptRequest) : Status :=
  mkStatus Code_InvalidArgument ("unknown key_id " +:+ dec_key_id q)%string.

(** The critical section of the primary mutex: an answer, or a [Decrypt] that
    names another key. *)
Definition primary_section (req : KmsRequest) (k : KmsService) :
  Prog World Status (KmsResponse + DecryptRequest) :=
  match req with
  | ReqStatus => mret (inl (RespStatus (mkStatusResponse "v2" "ok" (kms_key_id k))))
  | ReqEncrypt q => lock_prog (sealer k) (λ s,
      ciphertext ← p_map_err to_status (seal_prog s (enc_plaintext q));
      mret (inl (RespEncrypt (mkEncryptResponse ciphertext (key_id s) ∅))))
  | ReqDecrypt q => lock_prog (sealer k) (λ s,
      r ← try_sealer_prog q s;
      mret (match r with Some resp => inl (RespDecrypt resp) | None => inr q end))
  end.
(** That of the legacy mutex, and what [Decrypt] does after it. *)
Definition legacy_section (q : DecryptRequest) (m : Mutex TpmSealer) : Prog World Status KmsResponse :=
  lock_prog m (λ s,
    r ← try_sealer_prog q s;
    match r with Some resp => mret (RespDecrypt resp) | None => Ret (Err (unknown_key_id q)) end).

(** [Waiting]: before the primary mutex is locked.  [InPrimary]: holds it.
    [Missed]: released it, and the key was not the primary's.  [InLegacy]: holds
    the legacy mutex. *)
Inductive KmsPc :=
| Waiting (req : KmsRequest)
| InPrimary (req : KmsRequest) (p : Prog World Status (KmsResponse + DecryptRequest))
| Missed (q : DecryptRequest)
| InLegacy (q : DecryptRequest) (p : Prog World Status KmsResponse)
| Replied (req : KmsRequest) (r : outcome Status KmsResponse).

Definition KmsLog : Type := list (nat * KmsRequest * outcome Status KmsResponse).
Record KmsSystem := mkKmsSystem {
  ks_state : KmsState;
  primary_held : bool;
  legacy_held : bool;
  ks_tasks : list KmsPc;
  ks_log : KmsLog
}.

(** Request [t] is answered. *)
Definition reply (t : nat) (req : KmsRequest) (r : outcome Status KmsResponse) (st : KmsState)
  (ph lh : bool) (sys : KmsSystem) : KmsSystem :=
  mkKmsSystem st ph lh (<[t := Replied req r]> (ks_tasks sys)) (ks_log sys ++ [(t, req, r)]).
(** Request [t] goes on. *)
Definition move (t : nat) (pc : KmsPc) (st : KmsState) (ph lh : bool) (sys : KmsSystem) : KmsSystem :=
  mkKmsSystem st ph lh (<[t := pc]> (ks_tasks sys)) (ks_log sys).
(** A panic poisons the mutex as its guard is dropped. *)
Definition settle {A} (poison : KmsService → KmsService) (r : outcome Status A) (st : KmsState) : KmsState :=
  match r with Panic => mkKmsState (poison (svc st)) (tpm st) | _ => st end.

(** The next action of request [t]; [None] while it is blocked. *)
Definition kms_advance (t : nat) (pc : KmsPc) (sys : KmsSystem) : option KmsSystem :=
  let st := ks_state sys in
  let ph := primary_held sys in
  let lh := legacy_held sys in
  match pc with
  | Waiting req =>
      if ph then None else Some (move t (InPrimary req (primary_section req (svc st))) st true lh sys)
  | InPrimary req (Do m k) =>
      let (x, w) := m (tpm st) in Some (move t (InPrimary req (k x)) (mkKmsState (svc st) w) ph lh sys)
  | InPrimary req (Ret r) =>
      let st' := settle poison_sealer r st in
      match r with
      | Ok (inr q) => Some (move t (Missed q) st' false lh sys)
      | Ok (inl resp) => Some (reply t req (Ok resp) st' false lh sys)
      | Err e => Some (reply t req (Err e) st' false lh sys)
      | Panic => Some (reply t req Panic st' false lh sys)
      end
  | Missed q =>
      match legacy_sealer (svc st) with
      | Some m => if lh then None else Some (move t (InLegacy q (legacy_section q m)) st ph true sys)
      | None => Some (reply t (ReqDecrypt q) (Err (unknown_key_id q)) st ph lh sys)
      end
  | InLegacy q (Do m k) =>
      let (x, w) := m (tpm st) in Some (move t (InLegacy q (k x)) (mkKmsState (svc st) w) ph lh sys)
  | InLegacy q (Ret r) => Some (reply t (ReqDecrypt q) r (settle poison_legacy r st) ph false sys)
  | Replied _ _ => None
  end.

(** A request arrives, or request [t] takes its next action. *)
Inductive KmsEvent := KArrive (req : KmsRequest) | KAdvance (t : nat).
Definition kms_exec (e : KmsEvent) (sys : KmsSystem) : option KmsSystem :=
  match e with
  | KArrive req => Some (mkKmsSystem (ks_state sys) (primary_held sys) (legacy_held sys)
                           (ks_tasks sys ++ [Waiting req]) (ks_log sys))
  | KAdvance t => pc ← ks_tasks sys !! t; kms_advance t pc sys
  end.
Definition kms_system (st : KmsState) : KmsSystem := mkKmsSystem st false false [] [].

(** States reached from [st] when the arriving requests satisfy [guard]. *)
Inductive kms_reach (guard : KmsSystem → KmsRequest → Prop) (st : KmsState) : KmsSystem → Prop :=
| kms_reach_init : kms_reach guard st (kms_system st)
| kms_reach_step sys e sys' :
    kms_reach guard st sys → (∀ req, e = KArrive req → guard sys req) →
    kms_exec e sys = Some sys' → kms_reach guard st sys'.
Definition any_request (_ : KmsSystem) (_ : KmsRequest) : Prop := True.

(** The log, played back one request at a time. *)
Fixpoint replay (st : KmsState) (l : KmsLog) (st' : KmsState) : Prop :=
  match l with
  | [] => st = st'
  | (_, req, r) :: rest => ∃ st1, kms_handle tss_display req st = (r, st1) ∧ replay st1 rest st'
  end.
Lemma replay_snoc st l st1 t req r st2 :
  replay st l st1 → kms_handle tss_display req st1 = (r, st2) → replay st (l ++ [(t, req, r)]) st2.
Proof.
  revert st. induction l as [|[[t' q] x] l IH]; intros st; cbn.
  - intros ->. eauto.
  - intros (st' & Hh & Hr) H. exists st'. eauto.
Qed.

(** * The log *)
Definition pc_request (pc : KmsPc) : KmsRequest :=
  match pc with
  | Waiting req | InPrimary req _ | Replied req _ => req
  | Missed q | InLegacy q _ => ReqDecrypt q
  end.
Definition pending (pc : KmsPc) : Prop := ∀ req r, pc ≠ Replied req r.
(** A [Decrypt] that goes on has been asked for as such. *)
Fixpoint gives (req : KmsRequest) (p : Prog World Status (KmsResponse + DecryptRequest)) : Prop :=
  match p with
  | Ret (Ok (inr q)) => req = ReqDecrypt q
  | Ret _ => True
  | Do m k => ∀ x, gives req (k x)
  end.
Definition pc_gives (pc : KmsPc) : Prop := match pc with InPrimary req p => gives req p | _ => True end.

Lemma gives_bind {A} req (p : Prog World Status A) f :
  (∀ a, gives req (f a)) → gives req (p ≫= f).
Proof. intros Hf. induction p as [[a|e|]|X m k IH]; cbn; [apply Hf|done..|]. intros x. apply IH. Qed.
Lemma primary_section_gives req k : gives req (primary_section req k).
Proof.
  destruct req as [|q|q]; cbn; [done|..]; unfold lock_prog; destruct (poisoned _); try done.
  - by apply gives_bind.
  - apply gives_bind. by intros [r|].
Qed.

(** An action either moves a request on or settles it. *)
Variant kms_action (t : nat) (pc : KmsPc) (sys sys' : KmsSystem) : Prop :=
| act_move pc' :
    pending pc' → pc_request pc' = pc_request pc → pc_gives pc' →
    ks_tasks sys' = <[t := pc']> (ks_tasks sys) → ks_log sys' = ks_log sys → kms_action t pc sys sys'
| act_reply r :
    ks_tasks sys' = <[t := Replied (pc_request pc) r]> (ks_tasks sys) →
    ks_log sys' = ks_log sys ++ [(t, pc_request pc, r)] → kms_action t pc sys sys'.
Lemma kms_advance_action t pc sys sys' :
  pc_gives pc → kms_advance t pc sys = Some sys' → pending pc ∧ kms_action t pc sys sys'.
Proof.
  intros Hg. unfold kms_advance. destruct pc as [req|req [r|X m k]|q|q [r|X m k]|req r]; cbv zeta; [..|done].
  - destruct (primary_held sys); [done|]. intros [= <-]. split; [done|].
    by apply act_move with (InPrimary req (primary_section req (svc (ks_state sys)))); [..|apply primary_section_gives| |].
  - destruct r as [[resp|q]|e|]; intros [= <-]; (split; [done|]);
      [by eapply act_reply|by apply act_move with (Missed q)|by eapply act_reply|by eapply act_reply].
  - destruct (m _) as [x w]. intros [= <-]. split; [done|]. by apply act_move with (InPrimary req (k x)); [..|apply Hg| |].
  - destruct (legacy_sealer _) as [ml|]; [destruct (legacy_held sys); [done|]|]; intros [= <-]; (split; [done|]).
    + by apply act_move with (InLegacy q (legacy_section q ml)).
    + by eapply act_reply.
  - intros [= <-]. split; [done|]. by eapply act_reply.
  - destruct (m _) as [x w]. intros [= <-]. split; [done|]. by apply act_move with (InLegacy q (k x)).
Qed.

(** Who has a reply is in the log, once. *)
Record log_inv (sys : KmsSystem) : Prop := {
  li_gives : ∀ t pc, ks_tasks sys !! t = Some pc → pc_gives pc;
  li_replied : ∀ t req r, ks_tasks sys !! t = Some (Replied req r) ↔ (t, req, r) ∈ ks_log sys;
  li_once : NoDup (ks_log sys).*1.*1
}.
Lemma log_arrive sys req sys' : log_inv sys → kms_exec (KArrive req) sys = Some sys' → log_inv sys'.
Proof.
  intros [Hg Hdone Honce] [= <-]. split; cbn; [| |done].
  - intros t pc Hx. apply lookup_app_Some in Hx as [Hx|[_ Hx]]; [by eapply Hg|].
    by apply list_lookup_singleton_Some in Hx as [_ <-].
  - intros t q r. rewrite <- Hdone. split; [|by apply lookup_app_l_Some].
    intros Hx. apply lookup_app_Some in Hx as [Hx|[_ Hx]]; [done|].
    by apply list_lookup_singleton_Some in Hx as [_ ?].
Qed.
Lemma log_advance sys t sys' : log_inv sys → kms_exec (KAdvance t) sys = Some sys' → log_inv sys'.
Proof.
  intros [Hg Hdone Honce] (pc & Hpc & Ha)%bind_Some.
  apply (kms_advance_action _ _ _ _ (Hg _ _ Hpc)) in Ha as [Hpend Ha]. apply lookup_lt_Some in Hpc as Hlen.
  assert (t ∉ (ks_log sys).*1.*1) as Hnew.
  { intros ([t' q] & -> & ([[? ?] r] & [= -> ->] & Hin)%list_elem_of_fmap)%list_elem_of_fmap.
    apply Hdone in Hin. cbn in *. rewrite Hpc in Hin. injection Hin as ->. by eapply Hpend. }
  destruct Ha as [pc' Hp' _ Hg' Hta Hlo|r Hta Hlo]; split; rewrite ?Hta, ?Hlo.
  - intros t' x. rewrite list_lookup_insert_Some. intros [(_ & <- & _)|[_ ?]]; eauto.
  - intros t' q r. rewrite <- Hdone, list_lookup_insert_Some. split.
    + intros [(_ & -> & _)|[_ ?]]; [by edestruct Hp'|done].
    + intros H. right. split; [|done]. intros <-. rewrite Hpc in H. injection H as ->. by eapply Hpend.
  - done.
  - intros t' x. rewrite list_lookup_insert_Some. intros [(_ & <- & _)|[_ ?]]; [done|eauto].
  - intros t' q x. rewrite elem_of_app, list_elem_of_singleton, <- Hdone, list_lookup_insert_Some. split.
    + intros [(<- & [= <- <-] & _)|[_ ?]]; [by right|by left].
    + intros [H|[= -> -> ->]]; [|by left]. right. split; [|done].
      intros <-. rewrite Hpc in H. injection H as ->. by eapply Hpend.
  - rewrite !fmap_app. cbn. apply list.NoDup_app. split_and!; [done| |by apply NoDup_singleton].
    intros x Hx ->%list_elem_of_singleton. done.
Qed.
Lemma kms_reach_log guard st0 sys : kms_reach guard st0 sys → log_inv sys.
Proof.
  induction 1 as [|sys [req|t] sys' _ IH _ He]; [|by eapply log_arrive|by eapply log_advance].
  split; cbn; [done| |constructor]. intros t req r. split; [done|by intros ?%not_elem_of_nil].
Qed.
(** Once all requests have their replies, the log has each of them once. *)
Lemma log_permutation sys :
  log_inv sys → Forall (λ pc, ∃ req r, pc = Replied req r) (ks_tasks sys) →
  (λ e, e.1.2) <$> ks_log sys ≡ₚ pc_request <$> ks_tasks sys.
Proof.
  intros [_ Hdone Honce] Hall. set (pairs := imap (λ t pc, (t, pc_request pc)) (ks_tasks sys)).
  assert ((ks_log sys).*1 ≡ₚ pairs) as Hperm.
  { apply NoDup_Permutation; [by apply (NoDup_fmap_1 fst)|apply (NoDup_fmap_1 fst)|].
    - unfold pairs. rewrite fmap_imap.
      change (NoDup (imap (λ t _, id t) (ks_tasks sys))). rewrite imap_seq_0, list_fmap_id. apply NoDup_seq.
    - intros [t req]. unfold pairs. rewrite elem_of_lookup_imap, list_elem_of_fmap. split.
      + intros ([[t' q] r] & [= -> ->] & Hin%Hdone). by exists t', (Replied q r).
      + intros (i & pc & [= -> ->] & Hpc). destruct (Forall_lookup_1 _ _ _ _ Hall Hpc) as (req' & r & ->).
        exists (i, req', r). split; [done|by apply Hdone]. }
  apply (fmap_Permutation snd) in Hperm. unfold pairs in Hperm. rewrite <- list_fmap_compose, fmap_imap in Hperm.
  etrans; [exact Hperm|]. by rewrite <- (imap_const pc_request).
Qed.
End System.

(** * Locks and progress *)
Section Progress.
Context `{D : TssData} {O : TssOps} {NS : NullauthSteps} (tss_display : TssError → string).
Abbreviation kms_exec := (kms_exec tss_display).
Abbreviation kms_advance := (kms_advance tss_display).

Definition in_primary (pc : KmsPc) : Z := match pc with InPrimary _ _ => 1 | _ => 0 end.
Definition in_legacy (pc : KmsPc) : Z := match pc with InLegacy _ _ => 1 | _ => 0 end.
Lemma in_primary_nonneg pc : 0 ≤ in_primary pc.
Proof. by destruct pc. Qed.
Lemma in_legacy_nonneg pc : 0 ≤ in_legacy pc.
Proof. by destruct pc. Qed.

(** A mutex is held exactly if some request is inside. *)
Definition locks_ok (sys : KmsSystem) : Prop :=
  sum_with in_primary (ks_tasks sys) = Z.b2z (primary_held sys) ∧
  sum_with in_legacy (ks_tasks sys) = Z.b2z (legacy_held sys).

(** What an action does to the mutexes. *)
Lemma kms_advance_locks t pc sys sys' :
  ks_tasks sys !! t = Some pc → kms_advance t pc sys = Some sys' → locks_ok sys → locks_ok sys'.
Proof.
  intros Hpc Ha [H1 H2].
  assert (∃ pc', ks_tasks sys' = <[t := pc']> (ks_tasks sys) ∧
    (in_primary pc = Z.b2z (primary_held sys) - Z.b2z (primary_held sys') + in_primary pc' ∨
     primary_held sys' = false ∧ in_primary pc = 1 ∧ in_primary pc' = 0) ∧
    (in_legacy pc = Z.b2z (legacy_held sys) - Z.b2z (legacy_held sys') + in_legacy pc' ∨
     legacy_held sys' = false ∧ in_legacy pc = 1 ∧ in_legacy pc' = 0)) as (pc' & Ht & Hp & Hl).
  { revert Ha. unfold KmsConc.kms_advance, reply, move. destruct pc as [req|req [r|X m k]|q|q [r|X m k]|req r];
      cbv zeta; [..|done]; repeat case_match; try done; intros [= <-]; eexists; cbn; (split; [done|]); cbn;
      repeat match goal with H : primary_held sys = _ |- _ => rewrite H | H : legacy_held sys = _ |- _ => rewrite H end;
      cbn; lia. }
  assert (∀ f, sum_with f (ks_tasks sys') = sum_with f (ks_tasks sys) - f pc + f pc') as Hsum.
  { intros f. rewrite Ht. by apply sum_with_insert. }
  unfold locks_ok. rewrite !Hsum, H1, H2.
  pose proof (sum_with_lookup in_primary _ _ _ in_primary_nonneg Hpc).
  pose proof (sum_with_lookup in_legacy _ _ _ in_legacy_nonneg Hpc).
  destruct (primary_held sys), (primary_held sys'), (legacy_held sys), (legacy_held sys'); cbn in *; lia.
Qed.
Lemma kms_reach_locks guard st sys : kms_reach tss_display guard st sys → locks_ok sys.
Proof.
  induction 1 as [|sys [req|t] sys' _ IH _ He]; [done|..].
  - injection He as <-. unfold locks_ok in *. cbn. rewrite !sum_with_app. cbn. lia.
  - apply bind_Some in He as (pc & Hpc & Ha). by eapply kms_advance_locks.
Qed.
(** Two requests inside are the same. *)
Lemma one_in_primary sys t t' req p req' p' :
  locks_ok sys → ks_tasks sys !! t = Some (InPrimary req p) → ks_tasks sys !! t' = Some (InPrimary req' p') → t' = t.
Proof.
  intros [H _] H1 H2. apply (sum_with_one in_primary (ks_tasks sys) t' t _ _ in_primary_nonneg H2 H1); [done..|].
  rewrite H. by destruct (primary_held sys).
Qed.
Lemma one_in_legacy sys t t' q p q' p' :
  locks_ok sys → ks_tasks sys !! t = Some (InLegacy q p) → ks_tasks sys !! t' = Some (InLegacy q' p') → t' = t.
Proof.
  intros [_ H] H1 H2. apply (sum_with_one in_legacy (ks_tasks sys) t' t _ _ in_legacy_nonneg H2 H1); [done..|].
  rewrite H. by destruct (legacy_held sys).
Qed.
Lemma primary_is_held sys t req p :
  locks_ok sys → ks_tasks sys !! t = Some (InPrimary req p) → primary_held sys = true.
Proof.
  intros [H _] H1. pose proof (sum_with_lookup in_primary _ _ _ in_primary_nonneg H1) as Hs. cbn in Hs.
  by destruct (primary_held sys); [|cbn in H; lia].
Qed.
Lemma legacy_is_held sys t q p :
  locks_ok sys → ks_tasks sys !! t = Some (InLegacy q p) → legacy_held sys = true.
Proof.
  intros [_ H] H1. pose proof (sum_with_lookup in_legacy _ _ _ in_legacy_nonneg H1) as Hs. cbn in Hs.
  by destruct (legacy_held sys); [|cbn in H; lia].
Qed.

(** Whoever holds a mutex can act. *)
Lemma holder_acts sys t pc :
  ks_tasks sys !! t = Some pc → 0 < in_primary pc + in_legacy pc → is_Some (kms_exec (KAdvance t) sys).
Proof.
  intros Hpc Hh. cbn. rewrite Hpc. cbn. destruct pc as [req|req [r|X m k]|q|q [r|X m k]|req r]; cbn in Hh; try lia; cbn;
    repeat case_match; eauto.
Qed.
(** If a request is pending, some request can act. *)
Lemma kms_progress sys t pc :
  locks_ok sys → ks_tasks sys !! t = Some pc → pending pc → ∃ t', is_Some (kms_exec (KAdvance t') sys).
Proof.
  intros [Hp Hl] Hpc Hpend. destruct (primary_held sys) eqn:Ep.
  { destruct (sum_with_pos in_primary (ks_tasks sys)) as (t' & x & Hx & Hi); [cbn in Hp; lia|].
    exists t'. eapply holder_acts; [exact Hx|]. destruct x; cbn in *; lia. }
  destruct (legacy_held sys) eqn:El.
  { destruct (sum_with_pos in_legacy (ks_tasks sys)) as (t' & x & Hx & Hi); [cbn in Hl; lia|].
    exists t'. eapply holder_acts; [exact Hx|]. destruct x; cbn in *; lia. }
  exists t. cbn. rewrite Hpc. cbn. unfold KmsConc.kms_advance. rewrite Ep, El.
  destruct pc as [req|req [r|X m k]|q|q [r|X m k]|req r]; [..|by destruct (Hpend req r)];
    cbv zeta; repeat case_match; eauto.
Qed.

(** ** How many actions a request takes *)
(** After the section: the reply, or the way to the legacy one and through it. *)
Definition after_primary (r : outcome Status (KmsResponse + DecryptRequest)) : nat :=
  match r with Ok (inr _) => 8 | _ => 1 end.
Definition pc_takes (pc : KmsPc) (n : nat) : Prop :=
  match pc with
  | Waiting _ => 9 ≤ n
  | InPrimary _ p => takes after_primary p n
  | Missed _ => 7 ≤ n
  | InLegacy _ p => takes (λ _, 1) p n
  | Replied _ _ => True
  end%nat.
(** What comes after one of the two arms. *)
Definition after_arm (miss : nat) (r : outcome Status (option DecryptResponse)) : nat :=
  match r with Ok None => miss | _ => 1 end.
Lemma try_sealer_takes q s miss : takes (after_arm miss) (try_sealer_prog tss_display q s) (6 `max` miss).
Proof.
  unfold try_sealer_prog. case_bool_decide; [|cbn; lia].
  eapply (takes_bind _ _ _ 1); [|intros pt; cbn; lia|cbn; lia|cbn; lia]. apply takes_le with 6%nat; [lia|].
  apply takes_map_result. apply (takes_shift 0 _ 5 1), unseal_takes.
Qed.
Lemma primary_section_takes req k : takes after_primary (primary_section tss_display req k) 8.
Proof.
  destruct req as [|q|q]; cbn; [lia|..]; unfold lock_prog; destruct (poisoned _); try (cbn; lia).
  - eapply (takes_bind _ _ _ 1); [|intros ct; cbn; lia|cbn; lia|cbn; lia].
    apply takes_le with 6%nat; [lia|]. apply takes_map_result. apply (takes_shift 0 _ 5 1), seal_takes.
  - eapply (takes_then _ (after_arm 8)); [apply (try_sealer_takes q _ 8)|intros [resp|]; cbn; lia|cbn; lia|cbn; lia].
Qed.
Lemma legacy_section_takes q m : takes (λ _, 1%nat) (legacy_section tss_display q m) 6.
Proof.
  unfold legacy_section, lock_prog. destruct (poisoned m); [cbn; lia|].
  eapply (takes_then _ (after_arm 1)); [apply (try_sealer_takes q _ 1)|intros [resp|]; cbn; lia|cbn; lia|cbn; lia].
Qed.
Lemma pc_takes_le pc n n' : (n ≤ n')%nat → pc_takes pc n → pc_takes pc n'.
Proof. intros Hn. destruct pc; cbn; [lia|by apply takes_le|lia|by apply takes_le|done]. Qed.

Lemma kms_advance_takes t pc n sys sys' :
  pc_takes pc n → kms_advance t pc sys = Some sys' →
  ∃ pc' n', ks_tasks sys' = <[t := pc']> (ks_tasks sys) ∧ pc_takes pc' n' ∧ (n' < n)%nat.
Proof.
  intros Hn. unfold KmsConc.kms_advance. destruct pc as [req|req [r|X m k]|q|q [r|X m k]|req r]; cbv zeta; [..|done].
  - destruct (primary_held sys); [done|]. intros [= <-]. cbn in Hn.
    eexists _, 8%nat. split_and!; [done|apply primary_section_takes|lia].
  - destruct r as [[resp|q]|e|]; intros [= <-]; cbn in Hn; [eexists _, 0%nat|eexists _, 7%nat|eexists _, 0%nat..];
      (split_and!; [done|cbn; lia|lia]).
  - destruct (m _) as [x w]. intros [= <-]. destruct Hn as (n' & ? & Hk). eexists _, n'. split_and!; [done|apply Hk|lia].
  - destruct (legacy_sealer _); [destruct (legacy_held sys); [done|]|]; intros [= <-]; cbn in Hn.
    + eexists _, 6%nat. split_and!; [done|apply legacy_section_takes|lia].
    + eexists _, 0%nat. split_and!; [done|done|lia].
  - intros [= <-]. cbn in Hn. eexists _, 0%nat. split_and!; [done|done|lia].
  - destruct (m _) as [x w]. intros [= <-]. destruct Hn as (n' & ? & Hk). eexists _, n'. split_and!; [done|apply Hk|lia].
Qed.
Lemma kms_reach_takes guard st sys :
  kms_reach tss_display guard st sys → Forall (λ pc, pc_takes pc 9) (ks_tasks sys).
Proof.
  induction 1 as [|sys [req|t] sys' _ IH _ He]; [constructor|..].
  - injection He as <-. cbn. apply Forall_app. split; [done|]. apply Forall_singleton. cbn. lia.
  - apply bind_Some in He as (pc & Hpc & Ha). pose proof (Forall_lookup_1 _ _ _ _ IH Hpc) as Hn.
    destruct (kms_advance_takes _ _ _ _ _ Hn Ha) as (pc' & n' & -> & Hn' & ?).
    apply Forall_insert; [done|]. eapply pc_takes_le; [|exact Hn']. lia.
Qed.
(** Bounds on what the requests still have to do, and their sum. *)
Definition all_take (sys : KmsSystem) (ns : list nat) : Prop := Forall2 pc_takes (ks_tasks sys) ns.
Lemma kms_exec_takes t sys sys' ns :
  all_take sys ns → kms_exec (KAdvance t) sys = Some sys' →
  ∃ ns', all_take sys' ns' ∧ sum_with Z.of_nat ns' < sum_with Z.of_nat ns.
Proof.
  intros Hall (pc & Hpc & Ha)%bind_Some. destruct (Forall2_lookup_l _ _ _ _ _ Hall Hpc) as (n & Hn & Htk).
  destruct (kms_advance_takes _ _ _ _ _ Htk Ha) as (pc' & n' & Ht & Htk' & ?).
  exists (<[t := n']> ns). split.
  - unfold all_take. rewrite Ht. by apply Forall2_insert.
  - rewrite (sum_with_insert Z.of_nat _ _ n n' Hn). lia.
Qed.

(** C15. The two mutexes cannot deadlock and no request can go on for ever: in
    every reachable state, however the requests are scheduled from there, one TPM
    command at a time, [n] requests have taken all their actions after at most [9n]
    of them, and if none can act any more then each has its reply.  At most one
    request at a time is in the critical section of each sealer. *)
Theorem kms_requests_terminate guard st sys k sys' :
  kms_reach tss_display guard st sys →
  nsteps (λ s s', ∃ t, kms_exec (KAdvance t) s = Some s') k sys sys' →
  Z.of_nat k ≤ 9 * Z.of_nat (length (ks_tasks sys)) ∧
  ((∀ t, kms_exec (KAdvance t) sys' = None) →
     Forall (λ pc, ∃ req r, pc = Replied req r) (ks_tasks sys')) ∧
  sum_with in_primary (ks_tasks sys') ≤ 1 ∧ sum_with in_legacy (ks_tasks sys') ≤ 1.
Proof.
  intros Hr Hn. set (ns := replicate (length (ks_tasks sys)) 9%nat).
  assert (all_take sys ns) as Hns.
  { apply Forall2_replicate_r; [done|]. by eapply kms_reach_takes. }
  assert (sum_with Z.of_nat ns ≤ 9 * Z.of_nat (length ns)) as Hsum.
  { unfold ns. clear. induction (length (ks_tasks sys)); cbn -[Z.mul]; [done|]. lia. }
  unfold ns in Hsum. rewrite length_replicate in Hsum. fold ns in Hsum.
  assert (kms_reach tss_display guard st sys' ∧ Z.of_nat k ≤ sum_with Z.of_nat ns) as [Hr' Hk].
  { clear Hsum. revert Hns. generalize ns. clear ns. induction Hn as [sys|k sys s1 sys' [t He] _ IH]; intros ns Hns.
    - split; [done|]. cbn. apply sum_with_nonneg. lia.
    - destruct (kms_exec_takes _ _ _ _ Hns He) as (ns' & Hns' & ?).
      destruct IH with ns' as [? ?]; [by apply kms_reach_step with sys (KAdvance t)|done|]. split; [done|lia]. }
  destruct (kms_reach_locks _ _ _ Hr') as [H1 H2].
  split_and!; [lia| |rewrite H1; by destruct (primary_held sys')|rewrite H2; by destruct (legacy_held sys')].
  intros Hstuck. apply Forall_lookup. intros t pc Hpc. destruct pc as [| | | |req r]; [..|by eauto].
  all: destruct (kms_progress sys' t _ (conj H1 H2) Hpc) as (t' & x & Hx); [done|by rewrite Hstuck in Hx].
Qed.
End Progress.

(** * One sealer: nothing is interleaved

    A service without a legacy sealer has one mutex around its only context, so
    that its commands are those of one request after another. *)
Section Sequential.
Context `{D : TssData} {O : TssOps} {NS : NullauthSteps} {NSL : NullauthSplit} (tss_display : TssError → string).

Lemma exec_try_sealer q s w : exec (try_sealer_prog tss_display q s) w = try_sealer tss_display q s w.
Proof.
  unfold try_sealer_prog, try_sealer. case_bool_decide; [|done]. apply exec_then; [|done].
  rewrite exec_map_err. unfold map_errM. by rewrite exec_unseal.
Qed.
(** A critical section, run without interruption. *)
Lemma exec_lock {A} m poison (body : TpmSealer → Prog World Status A) (f : TpmSealer → M World Status A) st :
  (∀ s w, exec (body s) w = f s w) →
  with_lock m poison f st =
    let (r, w) := exec (lock_prog m body) (tpm st) in (r, settle poison r (mkKmsState (svc st) w)).
Proof.
  intros Hf. unfold with_lock, lock_prog. destruct (poisoned m); [by destruct st|]. rewrite Hf.
  by destruct (f _ _) as [[]].
Qed.
(** The handler from its primary section on. *)
Lemma kms_handle_section req st :
  kms_handle tss_display req st =
    let (r, w) := exec (primary_section tss_display req (svc st)) (tpm st) in
    let st' := settle poison_sealer r (mkKmsState (svc st) w) in
    match r with
    | Ok (inl resp) => (Ok resp, st')
    | Ok (inr q) =>
        (r ← try_legacy tss_display q;
         match r with Some resp => mret (RespDecrypt resp) | None => throw (unknown_key_id q) end) st'
    | Err e => (Err e, st')
    | Panic => (Panic, st')
    end.
Proof.
  destruct req as [|q|q]; cbn [kms_handle primary_section].
  - by destruct st.
  - unfold mbind at 1, M_bind at 1, encrypt.
    rewrite (exec_lock _ _ (λ s, ct ← p_map_err (internal ∘ TpmError_display tss_display) (seal_prog s (enc_plaintext q));
                                 mret (mkEncryptResponse ct (key_id s) ∅))).
    + unfold lock_prog. destruct (poisoned _); [done|]. rewrite !exec_bind. unfold mbind, M_bind.
      by destruct (exec (p_map_err _ _) _) as [[]].
    + intros s w. apply exec_then; [|done]. rewrite exec_map_err. unfold map_errM. by rewrite exec_seal.
  - unfold mbind at 1, M_bind at 1, decrypt, mbind at 1, M_bind at 1, try_primary.
    rewrite (exec_lock _ _ (try_sealer_prog tss_display q)) by apply exec_try_sealer.
    unfold lock_prog. destruct (poisoned _); [done|]. rewrite exec_bind. unfold mbind, M_bind.
    destruct (exec (try_sealer_prog _ _ _) _) as [[[r|]|e|] w]; cbn; [done| |done..]. by destruct (try_legacy _ _ _) as [[[]|e|] st1].
Qed.
(** A miss: no TPM command, and whenever the service is like this. *)
Lemma primary_section_missed req k q w w' :
  exec (primary_section tss_display req k) w = (Ok (inr q), w') →
  w' = w ∧ req = ReqDecrypt q ∧ poisoned (sealer k) = false ∧ dec_key_id q ≠ key_id (inner (sealer k)).
Proof.
  destruct req as [|e|d]; cbn; [done|..]; unfold lock_prog; destruct (poisoned _); try done; rewrite exec_bind;
    unfold mbind, M_bind.
  - by destruct (exec (p_map_err _ _) _) as [[]].
  - unfold try_sealer_prog. case_bool_decide.
    + rewrite exec_bind. unfold mbind, M_bind. by destruct (exec (p_map_err _ _) _) as [[]].
    + by intros [= <- <-].
Qed.

Definition none_panicked (l : KmsLog) : Prop := Forall (λ e, e.2 ≠ Panic) l.
(** The state in which the log leaves the service, and a section as far as it has
    got from there. *)
Definition seq_task (k : KmsService) (w0 w : World) (pc : KmsPc) : Prop :=
  match pc with
  | InPrimary req p => exec p w = exec (primary_section tss_display req k) w0
  | Missed q => poisoned (sealer k) = false ∧ dec_key_id q ≠ key_id (inner (sealer k))
  | InLegacy _ _ => False
  | _ => True
  end.
Definition seq_inv (st : KmsState) (sys : KmsSystem) : Prop :=
  none_panicked (ks_log sys) → svc (ks_state sys) = svc st ∧
    ∃ w0, replay tss_display st (ks_log sys) (mkKmsState (svc st) w0) ∧
      (primary_held sys = false → tpm (ks_state sys) = w0) ∧
      ∀ t pc, ks_tasks sys !! t = Some pc → seq_task (svc st) w0 (tpm (ks_state sys)) pc.

Lemma seq_arrive st sys req sys' :
  seq_inv st sys → kms_exec tss_display (KArrive req) sys = Some sys' → seq_inv st sys'.
Proof.
  intros Hi [= <-] Hp. destruct (Hi Hp) as (Hs & w0 & Hr & Hh & Ht). split; [done|]. exists w0.
  split_and!; [done..|]. intros t pc Hx. apply lookup_app_Some in Hx as [Hx|[_ Hx]]; [by eapply Ht|].
  by apply list_lookup_singleton_Some in Hx as [_ <-].
Qed.
(** The tasks after one of them went on, the others being as before. *)
Lemma tasks_after {P : nat → KmsPc → Prop} (l : list KmsPc) t pc' :
  P t pc' → (∀ t' pc, t' ≠ t → l !! t' = Some pc → P t' pc) →
  ∀ t' pc, <[t := pc']> l !! t' = Some pc → P t' pc.
Proof.
  intros Hnew Hold t' pc. rewrite list_lookup_insert_Some.
  intros [(<- & <- & _)|[Hne ?]]; [done|]. apply Hold; [congruence|done].
Qed.
(** No other request is inside, so a change of the TPM concerns none of them. *)
Lemma seq_others k w0 w w0' w' sys t req p :
  locks_ok sys → ks_tasks sys !! t = Some (InPrimary req p) →
  (∀ t pc, ks_tasks sys !! t = Some pc → seq_task k w0 w pc) →
  ∀ t' pc, t' ≠ t → ks_tasks sys !! t' = Some pc → seq_task k w0' w' pc.
Proof.
  intros Hl Ht Hall t' pc Hne Ht'. specialize (Hall _ _ Ht'). destruct pc; try done.
  by destruct (Hne (one_in_primary _ _ _ _ _ _ _ Hl Ht Ht')).
Qed.
(** The section ends with an answer: the log has it in its place. *)
Lemma seq_reply st sys t req r resp :
  locks_ok sys → seq_inv st sys → ks_tasks sys !! t = Some (InPrimary req (Ret r)) →
  none_panicked (ks_log sys) → (∃ e, r = Err e ∧ resp = Err e) ∨ (∃ x, r = Ok (inl x) ∧ resp = Ok x) →
  seq_inv st (reply t req resp (ks_state sys) false (legacy_held sys) sys).
Proof.
  intros Hl Hi Hpc Hn Hrr _. destruct (Hi Hn) as (Hs & w0 & Hr & Hw & Ht). pose proof (Ht _ _ Hpc) as Hx. cbn in Hx.
  split; [done|]. exists (tpm (ks_state sys)). split_and!; [|done|].
  - eapply replay_snoc; [exact Hr|]. rewrite kms_handle_section. cbn. rewrite <- Hx.
    by destruct Hrr as [(e & -> & ->)|(x & -> & ->)].
  - cbn. apply tasks_after; [done|]. by eapply seq_others.
Qed.
Lemma seq_advance st sys t sys' :
  legacy_sealer (svc st) = None → locks_ok sys →
  seq_inv st sys → kms_exec tss_display (KAdvance t) sys = Some sys' → seq_inv st sys'.
Proof.
  intros Hleg Hl Hi (pc & Hpc & Ha)%bind_Some Hp. revert Ha.
  unfold kms_advance. destruct pc as [req|req [r|X m k]|q|q [r|X m k]|req r]; cbv zeta; [..|done].
  - destruct (primary_held sys) eqn:Hh; [done|]. intros [= <-]. cbn in Hp.
    destruct (Hi Hp) as (Hs & w0 & Hr & Hw & Ht). split; [done|]. exists w0. split_and!; [done..|].
    apply tasks_after; [|intros t' pc' _; apply Ht]. cbn. by rewrite Hs, (Hw Hh).
  - assert (∀ r', none_panicked (ks_log sys ++ [(t, req, r')]) → none_panicked (ks_log sys) ∧ r' ≠ Panic) as Hnp.
    { intros r' [? Hx]%Forall_app. split; [done|]. by apply Forall_inv in Hx. }
    destruct r as [[resp|q]|e|]; intros [= <-]; cbn [ks_log reply move] in Hp.
    + destruct (Hnp _ Hp) as [Hn _]. by eapply seq_reply; eauto.
    + destruct (Hi Hp) as (Hs & w0 & Hr & Hw & Ht). pose proof (Ht _ _ Hpc) as Hx. cbn in Hx. symmetry in Hx.
      destruct (primary_section_missed _ _ _ _ _ Hx) as (<- & _ & ? & ?). split; [done|]. exists (tpm (ks_state sys)).
      split_and!; [done..|]. cbn. apply tasks_after; [done|]. by eapply seq_others.
    + destruct (Hnp _ Hp) as [Hn _]. by eapply seq_reply; eauto.
    + by destruct (Hnp _ Hp).
  - destruct (m (tpm (ks_state sys))) as [x w] eqn:Hm. intros [= <-]. cbn in Hp.
    destruct (Hi Hp) as (Hs & w0 & Hr & Hw & Ht). pose proof (Ht _ _ Hpc) as Hx. cbn in Hx. rewrite Hm in Hx.
    split; [done|]. exists w0. split_and!; [done| |].
    + cbn. by rewrite (primary_is_held _ _ _ _ Hl Hpc).
    + cbn. apply tasks_after; [done|]. by eapply seq_others.
  - destruct (legacy_sealer (svc (ks_state sys))) as [m|] eqn:Hlg; intros H.
    { assert (none_panicked (ks_log sys)) as Hn by (by destruct (legacy_held sys); simplify_eq).
      destruct (Hi Hn) as (Hs & _). congruence. }
    injection H as <-. cbn in Hp. apply Forall_app in Hp as [Hn _].
    destruct (Hi Hn) as (Hs & w0 & Hr & Hw & Ht). pose proof (Ht _ _ Hpc) as [Hps Hk].
    split; [done|]. exists w0. split_and!; [|done|].
    + eapply replay_snoc; [exact Hr|]. rewrite kms_handle_section. cbn. unfold lock_prog. rewrite Hps.
      unfold try_sealer_prog. rewrite bool_decide_false by done. cbn. unfold mbind, M_bind, try_legacy. cbn.
      by rewrite Hleg.
    + cbn. apply tasks_after; [done|]. intros t' pc' _. apply Ht.
  - intros [= <-]. cbn in Hp. apply Forall_app in Hp as [Hn _].
    destruct (Hi Hn) as (_ & w0 & _ & _ & Ht). by destruct (Ht _ _ Hpc).
  - destruct (m _) as [x w]. intros [= <-]. cbn in Hp.
    destruct (Hi Hp) as (_ & w0 & _ & _ & Ht). by destruct (Ht _ _ Hpc).
Qed.
Lemma kms_reach_seq guard st sys :
  legacy_sealer (svc st) = None → kms_reach tss_display guard st sys → seq_inv st sys.
Proof.
  intros Hleg. induction 1 as [|sys [req|t] sys' Hr IH _ He]; [|by eapply seq_arrive|].
  - intros _. split; [done|]. exists (tpm st). split_and!; [by destruct st|done|]. done.
  - eapply seq_advance; [done|by eapply kms_reach_locks|done..].
Qed.
End Sequential.

(** * Examples *)
Abbreviation SimSystem := (KmsSystem (O:=sim_ops)).
Fixpoint kms_schedule (ts : list nat) (sys : SimSystem) : option SimSystem :=
  match ts with
  | [] => Some sys
  | t :: rest => sys' ← kms_exec sim_display (KAdvance t) sys; kms_schedule rest sys'
  end.
Definition runs (ts : list nat) (sys : SimSystem) : bool :=
  match kms_schedule ts sys with Some _ => true | None => false end.
Definition after (ts : list nat) (sys : SimSystem) : SimSystem := default sys (kms_schedule ts sys).
Lemma runs_after ts sys : runs ts sys = true → kms_schedule ts sys = Some (after ts sys).
Proof. unfold runs, after. by destruct (kms_schedule ts sys). Qed.
Lemma kms_schedule_reach guard st ts sys :
  kms_reach sim_display guard st sys → runs ts sys = true →
  kms_reach sim_display guard st (after ts sys) ∧
  nsteps (λ s s', ∃ t, kms_exec sim_display (KAdvance t) s = Some s') (length ts) sys (after ts sys).
Proof.
  intros Hr H%runs_after. revert H. generalize (after ts sys). revert sys Hr.
  induction ts as [|t ts IH]; intros sys Hr sys' H.
  - injection H as <-. split; [done|constructor].
  - cbn [kms_schedule] in H. apply bind_Some in H as (s1 & He & H).
    destruct (IH s1) with sys' as [? ?]; [by apply kms_reach_step with sys (KAdvance t)|done|].
    split; [done|]. econstructor; eauto.
Qed.
Definition arrived (st : KmsState (O:=sim_ops)) (reqs : list KmsRequest) : SimSystem :=
  mkKmsSystem (O:=sim_ops) st false false (Waiting <$> reqs) [].
Lemma arrived_reach guard st reqs :
  (∀ sys, ks_log sys = [] → Forall (guard sys) reqs) → kms_reach sim_display guard st (arrived st reqs).
Proof.
  induction reqs as [|req reqs IH] using rev_ind; intros Hg; [apply kms_reach_init|].
  apply (kms_reach_step _ _ _ (arrived st reqs) (KArrive req)).
  - apply IH. intros sys Hsys. by destruct (proj1 (Forall_app _ _ _) (Hg sys Hsys)).
  - intros ? [= <-]. destruct (proj1 (Forall_app _ _ _) (Hg (arrived st reqs) eq_refl)) as [_ H].
    by apply Forall_inv in H.
  - cbn. unfold arrived. by rewrite fmap_app.
Qed.

(** An [Encrypt] and a [Decrypt] that arrive together: the second request gets
    the mutex first, and the first is blocked until it is free. *)
Definition demo_arrived : SimSystem := arrived demo_kms [ReqEncrypt demo_request; ReqDecrypt old_request].
Definition demo_order : list nat := replicate 7 1%nat ++ replicate 5 0%nat.
Definition demo_done : SimSystem := after demo_order demo_arrived.
Example demo_blocked : runs [1; 0]%nat demo_arrived = false.
Proof. vm_compute. reflexivity. Qed.
Lemma demo_runs : runs demo_order demo_arrived = true.
Proof. vm_compute. reflexivity. Qed.
Lemma demo_arrived_reach : kms_reach sim_display any_request demo_kms demo_arrived.
Proof. apply arrived_reach. intros sys _. by repeat constructor. Qed.

Lemma kms_requests_terminate_witness :
  12 ≤ 9 * Z.of_nat (length (ks_tasks demo_arrived)) ∧
  ((∀ t, kms_exec sim_display (KAdvance t) demo_done = None) →
     Forall (λ pc, ∃ req r, pc = Replied req r) (ks_tasks demo_done)) ∧
  sum_with in_primary (ks_tasks demo_done) ≤ 1 ∧ sum_with in_legacy (ks_tasks demo_done) ≤ 1.
Proof.
  apply (kms_requests_terminate (O:=sim_ops) sim_display any_request demo_kms demo_arrived 12 demo_done);
    [apply demo_arrived_reach|].
  apply (kms_schedule_reach _ _ demo_order _ demo_arrived_reach demo_runs).
Defined.
Lemma all_ok_no_panic (l : KmsLog) : forallb (λ e, is_ok e.2) l = true → none_panicked l.
Proof. induction l as [|[tq []] l IH]; cbn; try done; constructor; [done|by apply IH]. Qed.
