(* ===== verification/Fleet.v ===== *)
(** The fleet-key primitives of [src/src/fleet.rs]: create the duplicable
    sealing key, wrap it for a joining node, import and persist it. *)
From S2P Require Import Prelude Tss SimTpm Envelope Sealer.

(** [FleetError]. *)
Inductive FleetError (TssError : Type) :=
| FleetError_Tpm (e : TpmError TssError)
| FleetError_Tss (e : TssError)
| NoSessionHandle.
Arguments FleetError_Tpm {TssError} e.
Arguments FleetError_Tss {TssError} e.
Arguments NoSessionHandle {TssError}.

Definition FLEET_KEY_PERSISTENT_HANDLE : Z := 0x81020001.

Record DuplicationBlob `{D : TssData} := mkDuplicationBlob {
  fleet_key_public : Public;
  duplicate_private : Private;
  encrypted_secret : EncryptedSecret;
  encryption_key : option Data
}.

Section Fleet.
Context `{D : TssData} {O : TssOps}.
Abbreviation FleetError := (FleetError TssError).
Abbreviation F A := (M World FleetError A).
(** [?] on a [tss_esapi::Error]. *)
Abbreviation tss := (map_errM FleetError_Tss).

Definition duplication_symmetric_alg : SymmetricDefinitionObject := AES_128_CFB.

(** [start_session]: the builder returns the attributes and the mask of the
    bits it set. *)
Definition start_session (c : Ctx) (session_type : SessionType) : F AuthSession :=
  o ← tss (start_auth_session c session_type AES_128_CFB HashingAlgorithm_Sha256);
  session ← lift (ok_or NoSessionHandle o);
  let attributes := {| continue_session := true; sess_decrypt := true; sess_encrypt := true |} in
  let mask := {| continue_session := true; sess_decrypt := true; sess_encrypt := true |} in
  _ ← tss (tr_sess_set_attributes c session attributes mask);
  mret session.

Definition duplication_auth_policy_digest (c : Ctx) : F Digest :=
  trial_session ← start_session c SessionType_Trial;
  policy_session ← lift (map_err (λ _, NoSessionHandle) (policy_session_try_from trial_session));
  _ ← tss (policy_command_code c policy_session CommandCode_Duplicate);
  digest ← tss (policy_get_digest c policy_session);
  _ ← tss (flush_context c (session_handle trial_session));
  mret digest.

Definition duplication_auth_policy_session (c : Ctx) : F AuthSession :=
  session ← start_session c SessionType_Policy;
  policy_session ← lift (map_err (λ _, NoSessionHandle) (policy_session_try_from session));
  _ ← tss (policy_command_code c policy_session CommandCode_Duplicate);
  mret session.

Definition duplicable_storage_public (c : Ctx) : F Public :=
  auth_policy ← duplication_auth_policy_digest c;
  attributes ← lift (map_err FleetError_Tss (build_attributes {|
    fixed_tpm := false; fixed_parent := false; sensitive_data_origin := true;
    user_with_auth := true; attr_decrypt := true; restricted := true |}));
  rsa ← lift (map_err FleetError_Tss (build_restricted_decryption_key
           duplication_symmetric_alg RsaKeyBits_Rsa2048 RsaExponent_default));
  lift (map_err FleetError_Tss (build_public {|
    pb_public_algorithm := PublicAlgorithm_Rsa;
    pb_name_hashing_algorithm := HashingAlgorithm_Sha256;
    pb_object_attributes := attributes;
    pb_auth_policy := Some auth_policy;
    pb_parameters := RsaParameters rsa;
    pb_unique_identifier := PublicKeyRsa_default |})).

(** [KeyHandle::from(handle)] is infallible. *)
Definition key_handle_from (handle : ObjectHandle) : F KeyHandle := mret handle.

Definition load_fleet_key (c : Ctx) : F KeyHandle :=
  persistent_handle ← lift (map_err FleetError_Tss
                              (persistent_tpm_handle_new FLEET_KEY_PERSISTENT_HANDLE));
  object_handle ← tss (execute_with_nullauth_session id c (tr_from_tpm_public c persistent_handle));
  key_handle_from object_handle.

Definition persist (c : Ctx) (transient : KeyHandle) : F KeyHandle :=
  persistent_handle ← lift (map_err FleetError_Tss
                              (persistent_tpm_handle_new FLEET_KEY_PERSISTENT_HANDLE));
  handle ← tss (execute_with_nullauth_session id c
                  (evict_control c Provision_Owner transient persistent_handle));
  key_handle_from handle.

Definition delete_persisted_fleet_key (c : Ctx) : F unit :=
  r ← attempt (load_fleet_key c);
  match r with
  | inr _ => mret tt
  | inl existing =>
      persistent_handle ← lift (map_err FleetError_Tss
                                  (persistent_tpm_handle_new FLEET_KEY_PERSISTENT_HANDLE));
      _ ← tss (execute_with_nullauth_session id c
                 (evict_control c Provision_Owner existing persistent_handle));
      mret tt
  end.

(** The tail of [create_fleet_key], once no key is to be reused. *)
Definition create_and_persist (c : Ctx) : F KeyHandle :=
  public ← duplicable_storage_public c;
  created ← tss (execute_with_nullauth_session id c (create_primary c Hierarchy_Owner public));
  persist c created.

Definition create_fleet_key (c : Ctx) (force : bool) : F KeyHandle :=
  if force then
    _ ← delete_persisted_fleet_key c;
    create_and_persist c
  else
    r ← attempt (load_fleet_key c);
    match r with
    | inl existing => mret existing
    | inr _ => create_and_persist c
    end.

Definition create_transport_key (c : Ctx) : F (KeyHandle * Public) :=
  public ← duplicable_storage_public c;
  created ← tss (execute_with_nullauth_session id c (create_primary c Hierarchy_Owner public));
  r ← tss (execute_with_nullauth_session id c (read_public c created));
  mret (created, r.1.1).

(** [duplicate_for_joiner]: the policy session and the external object are
    flushed before the result of the duplication is looked at. *)
Definition duplicate_for_joiner (c : Ctx) (fleet_key_handle : KeyHandle)
  (joiner_transport_public : Public) : F DuplicationBlob :=
  r ← tss (execute_with_nullauth_session id c (read_public c fleet_key_handle));
  external ← tss (execute_without_session c
                    (load_external_public c joiner_transport_public Hierarchy_Owner));
  policy_session ← duplication_auth_policy_session c;
  result ← attempt (execute_with_session c (Some policy_session)
                      (duplicate c fleet_key_handle external None duplication_symmetric_alg));
  _ ← tss (flush_context c (session_handle policy_session));
  _ ← attempt (execute_without_session c (flush_context c external));
  t ← tss (of_sum result);
  mret {| fleet_key_public := r.1.1; duplicate_private := t.1.2; encrypted_secret := t.2;
          encryption_key := Some t.1.1 |}.

Definition import_and_persist (c : Ctx) (transport_key_handle : KeyHandle)
  (blob : DuplicationBlob) : F KeyHandle :=
  session ← start_session c SessionType_Hmac;
  result ← attempt (execute_with_session c (Some session) (
    imported_private ← import c transport_key_handle (encryption_key blob)
      (fleet_key_public blob) (duplicate_private blob) (encrypted_secret blob)
      duplication_symmetric_alg;
    load c transport_key_handle imported_private (fleet_key_public blob)));
  _ ← tss (flush_context c (session_handle session));
  fleet_key_handle ← tss (of_sum result);
  _ ← delete_persisted_fleet_key c;
  persisted ← persist c fleet_key_handle;
  _ ← tss (execute_with_nullauth_session id c (flush_context c transport_key_handle));
  mret persisted.
End Fleet.

(** * Specification *)
Section FleetSpec.
Context `{D : TssData} {L : TssDataLaws} {O : TssOps} {TM : TpmModel} {TS : TpmSpec}.
Abbreviation SLOT := FLEET_KEY_PERSISTENT_HANDLE.

(** [PolicyCommandCode(Duplicate)] on a fresh session. *)
Definition fleet_policy : Digest := policy_extend policy_zero CommandCode_Duplicate.

Definition duplicable_attributes : ObjectAttributes := {|
  fixed_tpm := false; fixed_parent := false; sensitive_data_origin := true;
  user_with_auth := true; attr_decrypt := true; restricted := true |}.

(** The template of the fleet key and of the transport keys. *)
Definition fleet_template (p : Public) : Prop :=
  ∃ rsa, build_restricted_decryption_key AES_128_CFB RsaKeyBits_Rsa2048 RsaExponent_default = Ok rsa ∧
    build_public {|
      pb_public_algorithm := PublicAlgorithm_Rsa;
      pb_name_hashing_algorithm := HashingAlgorithm_Sha256;
      pb_object_attributes := duplicable_attributes;
      pb_auth_policy := Some fleet_policy;
      pb_parameters := RsaParameters rsa;
      pb_unique_identifier := PublicKeyRsa_default |} = Ok p ∧
    object_attributes p = duplicable_attributes ∧ auth_policy p = Some fleet_policy.

Lemma fleet_template_unique p p' : fleet_template p → fleet_template p' → p = p'.
Proof. intros (r & Hr & Hp & _) (r' & Hr' & Hp' & _). congruence. Qed.

(** A key that [TPM2_Duplicate] can be authorized for with the fleet policy. *)
Definition duplicable_key (k : Key) : Prop :=
  auth_policy (public_of k) = Some fleet_policy ∧
  fixed_tpm (object_attributes (public_of k)) = false ∧
  fixed_parent (object_attributes (public_of k)) = false.

(** The key this TPM derives from the fleet template. *)
Definition local_fleet_key (sd : Seed) (k : Key) : Prop :=
  ∃ p, fleet_template p ∧ k = primary_key sd p.

Lemma local_fleet_key_unique sd k k' : local_fleet_key sd k → local_fleet_key sd k' → k = k'.
Proof. intros (p & Hp & ->) (p' & Hp' & ->). by rewrite (fleet_template_unique _ _ Hp Hp'). Qed.

Lemma local_fleet_key_duplicable sd k : local_fleet_key sd k → duplicable_key k.
Proof.
  intros (p & (_ & _ & _ & Ha & Hp) & ->). destruct (primary_key_attributes sd p) as [Ha' Hp'].
  split; [congruence|]. by rewrite Ha', Ha.
Qed.

(** A public area a fleet key can be wrapped for. *)
Definition wrappable (p : Public) : bool := loadable p && storage_parent p.
Lemma local_fleet_key_wrappable sd k : local_fleet_key sd k → wrappable (public_of k) = true.
Proof.
  intros (p & (_ & _ & _ & Ha & _) & ->). unfold wrappable.
  destruct (primary_key_storage sd p) as [-> ->]; [by rewrite Ha|done].
Qed.

Lemma slot_ok : persistent_tpm_handle_new SLOT = Ok SLOT.
Proof. apply persistent_tpm_handle_new_ok. unfold SLOT. lia. Qed.

Definition all_set : SessionAttributes :=
  {| continue_session := true; sess_decrypt := true; sess_encrypt := true |}.

Lemma start_session_spec c ty w :
  ready w → room 1 w →
  run (start_session c ty) w (λ s w', ready w' ∧ obj_at (view w) c (session_handle s) = None ∧
    view w' = add_obj c (session_handle s) (OSession (mkSession ty policy_zero all_set)) (view w) ∧
    (ty ≠ SessionType_Hmac → ∃ ps, policy_session_try_from s = Ok ps ∧
                                  policy_session_handle ps = session_handle s)).
Proof.
  intros Hr Hroom. unfold start_session.
  step by (by apply run_map_errM, start_auth_session_spec) as (s & a0 & -> & Hr1 & Hf & Hv1 & Hps).
  eapply run_bind_lift; [done|]. cbv zeta.
  step by (eapply run_map_errM, tr_sess_set_attributes_spec; [done|by rewrite Hv1, obj_at_add_eq])
    as (Hr2 & Hv2).
  apply run_ret. split_and!; [done..| |done]. by rewrite Hv2, Hv1, add_add.
Qed.

Lemma duplication_auth_policy_digest_spec c w :
  ready w → room 1 w →
  run (duplication_auth_policy_digest c) w (λ d w', ready w' ∧ view w' = view w ∧ d = fleet_policy).
Proof.
  intros Hr Hroom. unfold duplication_auth_policy_digest.
  step by (by apply start_session_spec) as (Hr1 & Hf & Hv1 & Hps).
  destruct Hps as (ps & Hps & Hh); [done|].
  eapply run_bind_lift; [by rewrite Hps|].
  step by (eapply run_map_errM, policy_command_code_spec; [done|by rewrite Hh, Hv1, obj_at_add_eq|done])
    as (Hr2 & Hv2). rewrite Hh, Hv1, add_add in Hv2.
  step by (eapply run_map_errM, policy_get_digest_spec; [done|by rewrite Hh, Hv2, obj_at_add_eq|done])
    as (Hr3 & Hv3 & ->). rewrite Hv2 in Hv3.
  step by (eapply run_map_errM, flush_spec; [done|by rewrite Hv3, obj_at_add_eq|done]) as (Hr4 & Hv4).
  apply run_ret. split_and!; [done| |done]. by rewrite Hv4, Hv3, del_add.
Qed.

Lemma duplication_auth_policy_session_spec c w :
  ready w → room 1 w →
  run (duplication_auth_policy_session c) w (λ s w', ready w' ∧
    obj_at (view w) c (session_handle s) = None ∧
    view w' = add_obj c (session_handle s)
      (OSession (mkSession SessionType_Policy fleet_policy all_set)) (view w)).
Proof.
  intros Hr Hroom. unfold duplication_auth_policy_session.
  step by (by apply start_session_spec) as (Hr1 & Hf & Hv1 & Hps).
  destruct Hps as (ps & Hps & Hh); [done|].
  eapply run_bind_lift; [by rewrite Hps|].
  step by (eapply run_map_errM, policy_command_code_spec; [done|by rewrite Hh, Hv1, obj_at_add_eq|done])
    as (Hr2 & Hv2). rewrite Hh, Hv1, add_add in Hv2. by apply run_ret.
Qed.

Lemma duplicable_storage_public_spec c w :
  ready w → room 1 w →
  run (duplicable_storage_public c) w (λ p w', ready w' ∧ view w' = view w ∧ fleet_template p).
Proof.
  intros Hr Hroom. unfold duplicable_storage_public.
  step by (by apply duplication_auth_policy_digest_spec) as (Hr1 & Hv1 & ->).
  eapply run_bind_lift; [by rewrite build_attributes_ok by done|].
  destruct (build_restricted_decryption_key_ok AES_128_CFB RsaKeyBits_Rsa2048 RsaExponent_default)
    as [rsa Hrsa].
  eapply run_bind_lift; [unfold duplication_symmetric_alg; by rewrite Hrsa|].
  match goal with |- context [build_public ?b] =>
    destruct (build_public_ok b) as (p & Hp & Ha & Hpol); [done|] end.
  eapply run_lift; [by rewrite Hp|]. split_and!; [done..|]. by exists rsa.
Qed.

(** [create_primary] of the fleet template, in a null-authorization session. *)
Lemma create_from_template c p w :
  ready w → room 2 w → fleet_template p →
  run (execute_with_nullauth_session id c (create_primary c Hierarchy_Owner p)) w (λ h w',
    ready w' ∧ obj_at (view w) c h = None ∧
    view w' = add_obj c h (OKey (primary_key (v_seed (view w)) p)) (view w)).
Proof.
  intros Hr Hroom (rsa & _ & _ & Ha & _).
  eapply run_mono; [apply (run_nullauth_add _ _ _ _ id
    (OKey (primary_key (v_seed (view w)) p)) (λ _, True)); [done|by eapply room_le, Hroom; lia|]|].
  - intros h w1 Hin. eapply run_mono; [apply create_primary_spec; eauto with sceau; by rewrite Ha|].
    cbv beta. rewrite (in_nullauth_seed _ _ _ _ Hin). intros h' w2 (? & ? & ?). done.
  - cbv beta. intros h w' (? & ? & _ & ?). done.
Qed.

Lemma load_fleet_key_spec c k w :
  ready w → room 2 w → v_persistent (view w) !! SLOT = Some k →
  run (load_fleet_key c) w (λ h w', ready w' ∧ obj_at (view w) c h = None ∧
    view w' = add_obj c h (OPersistent SLOT k) (view w)).
Proof.
  intros Hr Hroom Hk. unfold load_fleet_key. eapply run_bind_lift; [by rewrite slot_ok|].
  step by (apply run_map_errM, (run_nullauth_add _ _ _ _ id (OPersistent SLOT k) (λ _, True));
    [done|by eapply room_le, Hroom; lia|]; intros h w1 Hin; eapply run_mono;
    [apply tr_from_tpm_public_spec; eauto with sceau; by rewrite (in_nullauth_persistent _ _ _ _ Hin)
    |cbv beta; intros h' w2 (? & ? & ?); done]) as (? & ? & _ & ?).
  by apply run_ret.
Qed.

Lemma load_fleet_key_none c w :
  ready w → room 1 w → v_persistent (view w) !! SLOT = None →
  fails (load_fleet_key c) w (λ _ w', ready w' ∧ view w' = view w).
Proof.
  intros Hr Hroom Hk. unfold load_fleet_key. eapply fails_bind_lift; [by rewrite slot_ok|].
  apply fails_bind_l, fails_map_errM.
  eapply fails_mono; [apply (fails_nullauth_same _ _ _ _ (λ _, True)); [done..|]|cbv beta; tauto].
  intros h w1 Hin. eapply fails_mono; [apply tr_from_tpm_public_empty; eauto with sceau;
    by rewrite (in_nullauth_persistent _ _ _ _ Hin)|cbv beta; tauto].
Qed.

Lemma persist_spec c h k w :
  ready w → room 2 w → obj_at (view w) c h = Some (OKey k) →
  v_persistent (view w) !! SLOT = None →
  run (persist c h) w (λ h' w', ready w' ∧ obj_at (view w) c h' = None ∧
    view w' = add_obj c h' (OPersistent SLOT k) (with_persistent (insert SLOT k) (view w))).
Proof.
  intros Hr Hroom Hh Hk. unfold persist. eapply run_bind_lift; [by rewrite slot_ok|].
  step by (apply run_map_errM, run_nullauth; [done|by eapply room_le, Hroom; lia|];
    intros s w1 Hin; destruct (in_nullauth_obj _ _ _ _ _ _ _ Hin Hh) as [Hne Hh1];
    eapply run_mono; [eapply evict_control_persist; eauto with sceau;
      by rewrite (in_nullauth_persistent _ _ _ _ Hin)|];
    cbv beta; intros h' w2 (Hr2 & Hf2 & Hv2);
    destruct (in_nullauth_fresh _ _ _ _ _ Hin Hf2) as [Hne' Hf];
    split_and!; [done|rewrite Hv2, obj_at_add_ne by congruence; by eapply in_nullauth_session|];
    intros w3 Hr3 Hv3; rewrite Hv2, close_add, close_persistent, (in_nullauth_close _ _ _ _ Hin) in Hv3
      by done; exact (conj Hr3 (conj Hf Hv3))) as (? & ? & ?).
  by apply run_ret.
Qed.

Lemma delete_persisted_fleet_key_spec c w :
  ready w → room 2 w →
  run (delete_persisted_fleet_key c) w (λ _ w', ready w' ∧
    view w' = with_persistent (delete SLOT) (view w)).
Proof.
  intros Hr Hroom. unfold delete_persisted_fleet_key.
  destruct (v_persistent (view w) !! SLOT) as [k|] eqn:Hk.
  - step by (by apply run_attempt, (load_fleet_key_spec c k)) as (h & -> & Hr1 & Hf1 & Hv1).
    eapply run_bind_lift; [by rewrite slot_ok|].
    step by (apply run_map_errM, (run_nullauth _ _ _ _ (λ _ w', ready w' ∧
        view w' = with_persistent (delete SLOT) (view w)));
      [done|eapply room_add; [exact Hf1|done|done]|]) as (Hr2 & Hv2); [|by apply run_ret].
    assert (obj_at (view w') c h = Some (OPersistent SLOT k)) as Hh by by rewrite Hv1, obj_at_add_eq.
    intros s w1 Hin. destruct (in_nullauth_obj _ _ _ _ _ _ _ Hin Hh) as [Hne Hh1].
    eapply run_mono; [eapply evict_control_remove; eauto with sceau;
      by rewrite (in_nullauth_persistent _ _ _ _ Hin), Hv1|].
    cbv beta. intros _ w2 (Hr2 & Hv2). split_and!; [done| |].
    + rewrite Hv2, obj_at_del_ne by congruence. by eapply in_nullauth_session.
    + intros w3 Hr3 Hv3. split; [done|].
      by rewrite Hv3, Hv2, close_del, close_persistent, (in_nullauth_close _ _ _ _ Hin), Hv1,
        add_persistent, del_add.
  - step by (apply fails_attempt, load_fleet_key_none; [done|by eapply room_le, Hroom; lia|done])
      as (e & -> & Hr1 & Hv1).
    apply run_ret. split; [done|]. rewrite Hv1. symmetry. by apply with_persistent_delete_id.
Qed.

Lemma create_and_persist_spec c w :
  ready w → room 3 w → v_persistent (view w) !! SLOT = None →
  run (create_and_persist c) w (λ h w', ready w' ∧ ∃ k h0,
    local_fleet_key (v_seed (view w)) k ∧ obj_at (view w) c h0 = None ∧
    obj_at (add_obj c h0 (OKey k) (view w)) c h = None ∧
    view w' = add_obj c h (OPersistent SLOT k)
                (with_persistent (insert SLOT k) (add_obj c h0 (OKey k) (view w)))).
Proof.
  intros Hr Hroom Hs. unfold create_and_persist.
  step by (apply duplicable_storage_public_spec; [done|by eapply room_le, Hroom; lia])
    as (Hr1 & Hv1 & Hp). rename a into p.
  step by (apply run_map_errM, (create_from_template c p); [done|eapply room_view; [exact Hv1|];
    by eapply room_le, Hroom; lia|done]) as (Hr2 & Hf2 & Hv2). rewrite Hv1 in Hf2, Hv2.
  eapply run_mono; [apply persist_spec; [done|by eapply room_add
    |by rewrite Hv2, obj_at_add_eq|by rewrite Hv2]|].
  cbv beta. intros h w2 (Hr3 & Hf3 & Hv3). split; [done|]. eexists _, a.
  rewrite Hv2 in Hf3, Hv3. split_and!; [by exists p|done..].
Qed.

(** What [genesis] leaves behind: the slot holds [k] and the returned handle
    stands for it. *)
Definition fleet_key_ready (w : World) (c : Ctx) (h : KeyHandle) (k : Key) : Prop :=
  ready w ∧ key_at (view w) c h k ∧ v_persistent (view w) !! SLOT = Some k.

Lemma persisted_ready c h k v w :
  ready w → view w = add_obj c h (OPersistent SLOT k) (with_persistent (insert SLOT k) v) →
  fleet_key_ready w c h k.
Proof.
  intros Hr Hv. assert (v_persistent (view w) !! SLOT = Some k) as Hs.
  { rewrite Hv. apply lookup_insert_eq. }
  split_and!; [done| |done]. right. exists SLOT. by rewrite Hv, obj_at_add_eq, <- Hv.
Qed.

(** The key [genesis] ends with: the one in the slot, unless it is told to
    replace it or there is none; then the one this TPM derives. *)
Definition genesis_key (w : World) (force : bool) (k : Key) : Prop :=
  if force then local_fleet_key (v_seed (view w)) k
  else match v_persistent (view w) !! SLOT with
       | Some k0 => k = k0
       | None => local_fleet_key (v_seed (view w)) k
       end.

(** Besides the slot, [genesis] leaves handles of its own context only. *)
Definition genesis_done (w : World) (c : Ctx) (h : KeyHandle) (k : Key) (w' : World) : Prop :=
  fleet_key_ready w' c h k ∧
  close_context c (view w') = with_persistent (insert SLOT k) (close_context c (view w)).

Lemma create_and_persist_done c w :
  ready w → room 3 w → v_persistent (view w) !! SLOT = None →
  run (create_and_persist c) w (λ h w', ∃ k, local_fleet_key (v_seed (view w)) k ∧
    genesis_done w c h k w').
Proof.
  intros Hr Hroom Hs. eapply run_mono; [by apply create_and_persist_spec|].
  cbv beta. intros h w2 (Hr2 & k & h0 & Hk & _ & _ & Hv2). exists k. split; [done|].
  split; [by eapply persisted_ready|]. rewrite Hv2. by autorewrite with ctx.
Qed.

Lemma create_fleet_key_spec c force w :
  ready w → room 3 w →
  run (create_fleet_key c force) w (λ h w', ∃ k, genesis_key w force k ∧ genesis_done w c h k w').
Proof.
  intros Hr Hroom. unfold create_fleet_key, genesis_key. destruct force.
  - step by (apply delete_persisted_fleet_key_spec; [done|by eapply room_le, Hroom; lia]) as (Hr1 & Hv1).
    eapply run_mono; [apply create_and_persist_done; [done|unfold room in *; by rewrite Hv1|]|].
    + rewrite Hv1. apply lookup_delete_eq.
    + cbv beta. intros h w2 (k & Hk & Hd & Hc). exists k. rewrite Hv1 in Hk, Hc.
      split; [done|]. split; [done|]. by rewrite Hc, close_context_persistent, with_persistent_insert_delete.
  - destruct (v_persistent (view w) !! SLOT) as [k|] eqn:Hs.
    + step by (apply run_attempt, (load_fleet_key_spec c k); [done|by eapply room_le, Hroom; lia|done])
        as (h & -> & Hr1 & Hf & Hv).
      apply run_ret. exists k. split; [done|]. split.
      * split_and!; [done| |by rewrite Hv]. right. exists SLOT. by rewrite Hv, obj_at_add_eq.
      * rewrite Hv. autorewrite with ctx. by rewrite with_persistent_insert_id.
    + step by (apply fails_attempt, load_fleet_key_none; [done|by eapply room_le, Hroom; lia|done])
        as (e & -> & Hr1 & Hv1).
      eapply run_mono; [apply create_and_persist_done; [done|by eapply room_view|by rewrite Hv1]|].
      cbv beta. unfold genesis_done. by rewrite Hv1.
Qed.

Lemma create_transport_key_spec c w :
  ready w → room 2 w →
  run (create_transport_key c) w (λ r w', ready w' ∧ ∃ t, local_fleet_key (v_seed (view w)) t ∧
    r.2 = public_of t ∧ obj_at (view w) c r.1 = None ∧
    view w' = add_obj c r.1 (OKey t) (view w)).
Proof.
  intros Hr Hroom. unfold create_transport_key.
  step by (apply duplicable_storage_public_spec; [done|by eapply room_le, Hroom; lia])
    as (Hr1 & Hv1 & Hp). rename a into p.
  step by (apply run_map_errM, (create_from_template c p); [done|eapply room_view; [exact Hv1|];
    done|done]) as (Hr2 & Hf2 & Hv2). rewrite Hv1 in Hf2, Hv2. rename a into h.
  set (t := primary_key (v_seed (view w)) p) in *.
  step by (apply run_map_errM, (run_nullauth_same _ _ _ _
      (λ r, r.1 = (public_of t, name_of (public_of t)))); [done|by eapply room_add|];
      intros s w1 Hin; apply read_public_spec; [by eauto with sceau|];
      eapply in_nullauth_key; [done|]; left; by rewrite Hv2, obj_at_add_eq) as (Hr3 & Hv3 & Ha).
  apply run_ret. split; [done|]. exists t. cbn [fst snd]. rewrite Ha, Hv3.
  split_and!; [by exists p|done..].
Qed.

(** The blob is a duplicate of [k] for the parent with public area [jp]. *)
Definition blob_for (jp : Public) (blob : DuplicationBlob) (k : Key) : Prop :=
  fleet_key_public blob = public_of k ∧
  ∃ enc, encryption_key blob = Some enc ∧
         duplicates jp enc (duplicate_private blob) (encrypted_secret blob) k.

(** The policy session of [c] as [TPM2_Duplicate] finds it. *)
Lemma policy_ambient c s w w1 :
  obj_at (view w) c (session_handle s) =
    Some (OSession (mkSession SessionType_Policy fleet_policy all_set)) →
  view w1 = with_ambient c (Some (Some (session_handle s))) (view w) →
  policy_session_for (view w1) c (session_handle s) fleet_policy.
Proof.
  intros Hs Hv1. eexists. rewrite Hv1. split_and!; [|exact Hs|done..].
  unfold with_ambient; simpl. by rewrite lookup_partial_alter_eq.
Qed.
Lemma key_at_with_ambient c a (v : TpmView Public Digest Key Seed) c' h k : key_at v c' h k → key_at (with_ambient c a v) c' h k.
Proof. intros [Hk|(sl & Hk & Hp)]; [left|right; exists sl]; done. Qed.

(** [TPM2_Duplicate] under the policy session. *)
Lemma duplicate_in_session c h k e jp s w :
  ready w → key_at (view w) c h k → duplicable_key k → storage_parent jp = true →
  obj_at (view w) c e = Some (OExternal jp) →
  obj_at (view w) c (session_handle s) =
    Some (OSession (mkSession SessionType_Policy fleet_policy all_set)) →
  run (execute_with_session c (Some s) (duplicate c h e None duplication_symmetric_alg)) w
    (λ r w', ready w' ∧ duplicates jp r.1.1 r.1.2 r.2 k ∧
       ∃ s', view w' = add_obj c (session_handle s) (OSession s') (view w)).
Proof.
  intros Hr Hk (Hpol & Hft & Hfp) Hjp He Hs. apply run_with_session; [done|].
  intros w1 Hr1 Hv1. eapply run_mono; [eapply (duplicate_spec _ _ k _ jp (session_handle s)); try done|].
  - rewrite Hv1. by apply key_at_with_ambient.
  - by rewrite Hv1.
  - by eapply policy_ambient.
  - cbv beta. intros r w2 (Hr2 & Hd & s' & Hv2). split; [done|]. intros w3 Hr3 Hv3.
    split_and!; [done..|]. exists s'. by rewrite Hv3, Hv2, Hv1, ambient_add, ambient_restore.
Qed.
Lemma duplicate_in_session_refused c h k e jp s w :
  ready w → key_at (view w) c h k → storage_parent jp = false →
  obj_at (view w) c e = Some (OExternal jp) →
  obj_at (view w) c (session_handle s) =
    Some (OSession (mkSession SessionType_Policy fleet_policy all_set)) →
  fails (execute_with_session c (Some s) (duplicate c h e None duplication_symmetric_alg)) w
    (λ _ w', ready w' ∧ ∃ s', view w' = add_obj c (session_handle s) (OSession s') (view w)).
Proof.
  intros Hr Hk Hjp He Hs. apply fails_with_session; [done|].
  intros w1 Hr1 Hv1. eapply fails_mono; [eapply (duplicate_refused _ _ k _ jp (session_handle s)); try done|].
  - rewrite Hv1. by apply key_at_with_ambient.
  - by rewrite Hv1.
  - by eapply policy_ambient.
  - cbv beta. intros r w2 (Hr2 & s' & Hv2). split; [done|]. intros w3 Hr3 Hv3.
    split; [done|]. exists s'. by rewrite Hv3, Hv2, Hv1, ambient_add, ambient_restore.
Qed.

Lemma load_external_alone c jp w :
  ready w → room 1 w → loadable jp = true →
  run (execute_without_session c (load_external_public c jp Hierarchy_Owner)) w (λ e w',
    ready w' ∧ obj_at (view w) c e = None ∧ view w' = add_obj c e (OExternal jp) (view w)).
Proof.
  intros Hr Hroom Hl. apply run_without_session; [done|]. intros w1 Hr1 Hv1.
  eapply run_mono; [apply load_external_public_spec; [done| | |done]|].
  - unfold room in *. by rewrite Hv1.
  - rewrite Hv1. apply lookup_partial_alter_eq.
  - cbv beta. intros e w2 (Hr2 & Hf2 & Hv2). split; [done|]. intros w3 Hr3 Hv3.
    rewrite Hv1 in Hf2. split_and!; [done..|].
    by rewrite Hv3, Hv2, Hv1, ambient_add, ambient_restore.
Qed.
Lemma load_external_alone_refused c jp w :
  ready w → loadable jp = false →
  fails (execute_without_session c (load_external_public c jp Hierarchy_Owner)) w (λ _ w',
    ready w' ∧ view w' = view w).
Proof.
  intros Hr Hl. apply fails_without_session; [done|]. intros w1 Hr1 Hv1.
  eapply fails_mono; [apply load_external_public_refused; [done| |done]|].
  - rewrite Hv1. apply lookup_partial_alter_eq.
  - cbv beta. intros e w2 (Hr2 & Hv2). split; [done|]. intros w3 Hr3 Hv3. split; [done|].
    by rewrite Hv3, Hv2, Hv1, ambient_restore.
Qed.

Lemma flush_alone c e o w :
  ready w → obj_at (view w) c e = Some o → (∀ sl k, o ≠ OPersistent sl k) →
  run (execute_without_session c (flush_context c e)) w (λ _ w', ready w' ∧
    view w' = del_obj c e (view w)).
Proof.
  intros Hr He Ho. apply run_without_session; [done|]. intros w1 Hr1 Hv1.
  eapply run_mono; [apply (flush_spec c e o); [done|by rewrite Hv1|done]|].
  cbv beta. intros _ w2 (Hr2 & Hv2). split; [done|]. intros w3 Hr3 Hv3. split; [done|].
  by rewrite Hv3, Hv2, Hv1, ambient_del, ambient_restore.
Qed.

Lemma read_fleet_key c h k w :
  ready w → room 1 w → key_at (view w) c h k →
  run (map_errM FleetError_Tss (execute_with_nullauth_session id c (read_public c h))) w
    (λ r w', ready w' ∧ view w' = view w ∧ r.1 = (public_of k, name_of (public_of k))).
Proof.
  intros Hr Hroom Hk. apply run_map_errM, run_nullauth_same; [done..|].
  intros s w1 Hin. apply read_public_spec; by eauto with sceau.
Qed.

(** The two flushes of [duplicate_for_joiner], whatever came of the duplication
    under session [s] with the new parent loaded as [e]. *)
Lemma duplicate_cleanup {B} c e jp s s' (k : M World (FleetError TssError) B) v w :
  obj_at v c e = None → obj_at (add_obj c e (OExternal jp) v) c (session_handle s) = None →
  ready w → view w = add_obj c (session_handle s) (OSession s') (add_obj c e (OExternal jp) v) →
  ∃ w', ready w' ∧ view w' = v ∧
    (_ ← map_errM FleetError_Tss (flush_context c (session_handle s));
     _ ← attempt (execute_without_session c (flush_context c e)); k) w = k w'.
Proof.
  intros Hfe Hfs Hr Hv.
  destruct (flush_spec c (session_handle s) (OSession s') w) as ([] & w1 & H1 & Hr1 & Hv1);
    [done|by rewrite Hv, obj_at_add_eq|done|]. rewrite Hv, del_add in Hv1 by done.
  destruct (flush_alone c e (OExternal jp) w1) as ([] & w2 & H2 & Hr2 & Hv2);
    [done|by rewrite Hv1, obj_at_add_eq|done|]. rewrite Hv1, del_add in Hv2 by done.
  exists w2. split_and!; [done..|].
  rewrite (bind_ok _ _ _ _ _ (map_errM_ok FleetError_Tss _ _ _ _ H1)).
  apply (bind_ok _ (λ _, k) _ (inl ())). unfold attempt. by rewrite H2.
Qed.

Lemma duplicate_for_joiner_spec c h k jp w :
  ready w → room 2 w → key_at (view w) c h k → duplicable_key k → wrappable jp = true →
  run (duplicate_for_joiner c h jp) w (λ blob w', ready w' ∧ view w' = view w ∧ blob_for jp blob k).
Proof.
  intros Hr Hroom Hk Hdup [Hl Hsp]%andb_prop. unfold duplicate_for_joiner.
  step by (apply (read_fleet_key c h k); [done|by eapply room_le, Hroom; lia|done]) as (Hr1 & Hv1 & Hpub).
  step by (apply run_map_errM, load_external_alone; [done|eapply room_view; [exact Hv1|];
    by eapply room_le, Hroom; lia|done]) as (Hr2 & Hf2 & Hv2). rewrite Hv1 in Hf2, Hv2. rename a0 into e.
  step by (apply duplication_auth_policy_session_spec; [done|by eapply room_add])
    as (Hr3 & Hf3 & Hv3). rename a0 into s. rewrite Hv2 in Hf3, Hv3.
  assert ((c, session_handle s) ≠ (c, e)) as Hne.
  { eapply fresh_ne; [exact Hf3|]. by rewrite obj_at_add_eq. }
  step by (apply run_attempt, (duplicate_in_session c h k e jp s); [done| |done|done| |])
    as (r & -> & Hr4 & Hd & s' & Hv4).
  { rewrite Hv3. apply key_at_add; [done|]. by apply key_at_add. }
  { by rewrite Hv3, obj_at_add_ne, obj_at_add_eq. }
  { by rewrite Hv3, obj_at_add_eq. }
  rewrite Hv3, add_add in Hv4. unfold run.
  edestruct (duplicate_cleanup (B:=DuplicationBlob) c e jp s s') as (w5 & Hr5 & Hv5 & ->); [exact Hf2|exact Hf3|done|exact Hv4|].
  apply (run_bind_eq _ _ r _ w5); [done|]. apply run_ret.
  split_and!; [done..|]. split; cbn; [by rewrite Hpub|]. by exists r.1.1.
Qed.

(** A public area no key can be wrapped for, at [TPM2_LoadExternal] or at
    [TPM2_Duplicate]: an error, and everything is flushed again. *)
Lemma duplicate_for_joiner_refused c h k jp w :
  ready w → room 2 w → key_at (view w) c h k → wrappable jp = false →
  fails (duplicate_for_joiner c h jp) w (λ e w', ready w' ∧ view w' = view w ∧ ∃ te, e = FleetError_Tss te).
Proof.
  intros Hr Hroom Hk Hw. unfold duplicate_for_joiner.
  eapply fails_bind_r; [apply (read_fleet_key c h k); [done|by eapply room_le, Hroom; lia|done]|].
  cbv beta. intros r0 w1 (Hr1 & Hv1 & _). destruct (loadable jp) eqn:Hl.
  2: { apply fails_bind_l, fails_map_errM. eapply fails_mono; [by apply load_external_alone_refused|].
       cbv beta. intros e w2 [? ?]. split_and!; [done|congruence|by eexists]. }
  unfold wrappable in Hw. rewrite Hl in Hw. cbn in Hw.
  eapply fails_bind_r; [apply run_map_errM, load_external_alone; [done|eapply room_view; [exact Hv1|];
    by eapply room_le, Hroom; lia|done]|].
  cbv beta. intros e w2 (Hr2 & Hf2 & Hv2). rewrite Hv1 in Hf2, Hv2.
  eapply fails_bind_r; [apply duplication_auth_policy_session_spec; [done|by eapply room_add]|].
  cbv beta. intros s w3 (Hr3 & Hf3 & Hv3). rewrite Hv2 in Hf3, Hv3.
  assert ((c, session_handle s) ≠ (c, e)) as Hne.
  { eapply fresh_ne; [exact Hf3|]. by rewrite obj_at_add_eq. }
  eapply fails_bind_r; [apply fails_attempt, (duplicate_in_session_refused c h k e jp s); [done| |done| |]|].
  { rewrite Hv3. apply key_at_add; [done|]. by apply key_at_add. }
  { by rewrite Hv3, obj_at_add_ne, obj_at_add_eq. }
  { by rewrite Hv3, obj_at_add_eq. }
  cbv beta. intros x w4 (te & -> & Hr4 & s' & Hv4). rewrite Hv3, add_add in Hv4. unfold fails.
  edestruct (duplicate_cleanup (B:=DuplicationBlob) c e jp s s') as (w5 & Hr5 & Hv5 & ->); [exact Hf2|exact Hf3|done|exact Hv4|].
  apply fails_bind_l. exists (FleetError_Tss te), w5. eauto.
Qed.

(** [TPM2_Import] and [TPM2_Load] sharing one HMAC session. *)
Lemma import_load_in_session c t tk s blob k w :
  ready w → room 1 w → obj_at (view w) c t = Some (OKey tk) → blob_for (public_of tk) blob k →
  obj_at (view w) c (session_handle s) =
    Some (OSession (mkSession SessionType_Hmac policy_zero all_set)) →
  run (execute_with_session c (Some s) (
      imported_private ← import c t (encryption_key blob) (fleet_key_public blob)
        (duplicate_private blob) (encrypted_secret blob) duplication_symmetric_alg;
      load c t imported_private (fleet_key_public blob))) w
    (λ o w', ready w' ∧ obj_at (view w) c o = None ∧ view w' = add_obj c o (OKey k) (view w)).
Proof.
  intros Hr Hroom Ht (Hpub & enc & Henc & Hdup) Hs. apply run_with_session; [done|].
  intros w1 Hr1 Hv1. assert (user_session (view w1) c) as Hu.
  { eexists _, _. rewrite Hv1. split_and!; [|exact Hs|done..].
    unfold with_ambient; simpl. by rewrite lookup_partial_alter_eq. }
  assert (key_at (view w1) c t tk) as Hk by (left; by rewrite Hv1).
  rewrite Henc, Hpub.
  step by (by eapply (import_spec c t tk)) as (Hr2 & Hv2 & Hw). rewrite <- Hv2 in Hu, Hk.
  eapply run_mono; [eapply (load_key_spec c t tk); [done| |done..]|].
  - unfold room in *. by rewrite Hv2, Hv1.
  - cbv beta. intros o w3 (Hr3 & Hf3 & Hv3). split; [done|]. rewrite Hv2, Hv1 in Hf3, Hv3.
    intros w4 Hr4 Hv4. split_and!; [done..|]. by rewrite Hv4, Hv3, ambient_add, ambient_restore.
Qed.

Lemma flush_in_nullauth c t k w :
  ready w → room 1 w → obj_at (view w) c t = Some (OKey k) →
  run (execute_with_nullauth_session id c (flush_context c t)) w (λ _ w', ready w' ∧
    view w' = del_obj c t (view w)).
Proof.
  intros Hr Hroom Ht. apply run_nullauth; [done..|].
  intros s w1 Hin. destruct (in_nullauth_obj _ _ _ _ _ _ _ Hin Ht) as [Hne Ht1].
  eapply run_mono; [eapply (flush_spec _ _ (OKey k)); eauto with sceau|].
  cbv beta. intros _ w2 (Hr2 & Hv2). split_and!; [done| |].
  - rewrite Hv2, obj_at_del_ne by congruence. by eapply in_nullauth_session.
  - intros w3 Hr3 Hv3. split; [done|].
    by rewrite Hv3, Hv2, close_del, (in_nullauth_close _ _ _ _ Hin).
Qed.

Lemma import_and_persist_spec c t tk blob k w :
  ready w → room 3 w → obj_at (view w) c t = Some (OKey tk) → blob_for (public_of tk) blob k →
  run (import_and_persist c t blob) w (λ h w', fleet_key_ready w' c h k ∧
    obj_at (view w') c t = None ∧ v_seed (view w') = v_seed (view w) ∧
    ∃ o, view w' = del_obj c t (add_obj c h (OPersistent SLOT k)
           (with_persistent (insert SLOT k) (add_obj c o (OKey k) (view w))))).
Proof.
  intros Hr Hroom Ht Hblob. unfold import_and_persist.
  step by (apply start_session_spec; [done|by eapply room_le, Hroom; lia]) as (Hr1 & Hf1 & Hv1 & _).
  rename a into s. pose proof (fresh_ne _ _ _ _ _ _ Hf1 Ht) as Hst.
  step by (apply run_attempt, (import_load_in_session c t tk s blob k);
    [done|eapply room_add; [exact Hf1|exact Hv1|by eapply room_le, Hroom; lia]
    |by rewrite Hv1, obj_at_add_ne|done|by rewrite Hv1, obj_at_add_eq]) as (o & -> & Hr2 & Hf2 & Hv2).
  assert ((c, session_handle s) ≠ (c, o)) as Hso.
  { intros Heq. symmetry in Heq. revert Heq. eapply fresh_ne; [exact Hf2|]. by rewrite Hv1, obj_at_add_eq. }
  rewrite Hv1, obj_at_add_ne in Hf2 by done. pose proof (fresh_ne _ _ _ _ _ _ Hf2 Ht) as Hot.
  rewrite Hv1, add_comm in Hv2 by congruence.
  step by (eapply run_map_errM, flush_spec; [done|by rewrite Hv2, obj_at_add_eq|done]) as (Hr3 & Hv3).
  rewrite Hv2, del_add in Hv3 by (by rewrite obj_at_add_ne by congruence).
  assert (room 2 w'1) as Hroom3 by (by eapply room_add).
  apply (run_bind_eq _ _ o _ w'1); [done|].
  step by (by apply delete_persisted_fleet_key_spec) as (Hr4 & Hv4). rewrite Hv3 in Hv4.
  step by (apply (persist_spec c o k); [done|unfold room in *; rewrite Hv4; by rewrite Hv3 in Hroom3
    |by rewrite Hv4, obj_at_with_persistent, obj_at_add_eq|rewrite Hv4; apply lookup_delete_eq])
    as (Hr5 & Hf5 & Hv5). rename a0 into h.
  rewrite Hv4, obj_at_with_persistent in Hf5. rewrite Hv4, with_persistent_insert_delete in Hv5.
  assert (obj_at (add_obj c o (OKey k) (view w)) c t = Some (OKey tk)) as Ht' by by rewrite obj_at_add_ne.
  pose proof (fresh_ne _ _ _ _ _ _ Hf5 Ht') as Hht.
  step by (apply run_map_errM, (flush_in_nullauth c t tk); [done| |by rewrite Hv5, obj_at_add_ne])
    as (Hr6 & Hv6).
  { unfold room in *. rewrite Hv3 in Hroom3. rewrite Hv5, size_add_fresh by done. simpl in *. lia. }
  apply run_ret. rewrite Hv5 in Hv6. split_and!.
  - split; [done|]. rewrite Hv6. split; [right; exists SLOT|].
    + rewrite obj_at_del_ne, obj_at_add_eq by congruence. split; [done|]. apply lookup_insert_eq.
    + apply lookup_insert_eq.
  - by rewrite Hv6, obj_at_del_eq.
  - by rewrite Hv6.
  - by exists o.
Qed.
End FleetSpec.

(** * Theorems *)
Section FleetTheorems.
Context `{D : TssData} {L : TssDataLaws} {O : TssOps} {TM : TpmModel} {TS : TpmSpec}.
Abbreviation SLOT := FLEET_KEY_PERSISTENT_HANDLE.

(** Without [--force], [genesis] on a node that already holds a fleet key
    hands that key out and never replaces it: no persistent slot changes. *)
Theorem genesis_is_idempotent c k w :
  ready w → room 3 w → v_persistent (view w) !! SLOT = Some k →
  run (create_fleet_key c false) w (λ h w', fleet_key_ready w' c h k ∧
    v_persistent (view w') = v_persistent (view w)).
Proof.
  intros Hr Hroom Hk. eapply run_mono; [by apply create_fleet_key_spec|]. cbv beta.
  unfold genesis_key. rewrite Hk. intros h w' (_ & -> & Hready & Hc). split; [done|].
  apply (f_equal v_persistent) in Hc. cbn in Hc. by rewrite Hc, insert_id.
Qed.

(** [genesis --force] does not produce a fresh key: a primary key is a
    function of the hierarchy seed and the template, so forcing genesis on a
    node whose slot holds the key its own genesis made persists that same key
    again. *)
Theorem forced_genesis_restores_the_same_key c k w :
  ready w → room 3 w → local_fleet_key (v_seed (view w)) k → v_persistent (view w) !! SLOT = Some k →
  run (create_fleet_key c true) w (λ h w', fleet_key_ready w' c h k).
Proof.
  intros Hr Hroom Hk _. eapply run_mono; [by apply create_fleet_key_spec|].
  cbv beta. intros h w' (k' & Hk' & Hready & _). by rewrite (local_fleet_key_unique _ _ _ Hk Hk').
Qed.

(** The transport key of a joiner is not a one-time key: two joins of
    the same TPM, however far apart, present the same public area, which is
    also that of the fleet key the same TPM would make in [genesis]. *)
Theorem transport_key_is_reused c c' w w' :
  ready w → room 2 w → ready w' → room 2 w' → v_seed (view w') = v_seed (view w) →
  run (create_transport_key c) w (λ r _, run (create_transport_key c') w' (λ r' _,
    r'.2 = r.2 ∧ ∃ k, local_fleet_key (v_seed (view w)) k ∧ r.2 = public_of k)).
Proof.
  intros Hr Hroom Hr' Hroom' Hsd. eapply run_mono; [by apply create_transport_key_spec|].
  cbv beta. intros r w1 (_ & t & Ht & Hp & _).
  eapply run_mono; [by apply create_transport_key_spec|].
  cbv beta. intros r' w2 (_ & t' & Ht' & Hp' & _). rewrite Hsd in Ht'.
  rewrite (local_fleet_key_unique _ _ _ Ht' Ht) in Hp'. split; [congruence|eauto].
Qed.

(** C18. Duplication transfers the fleet key.  The joiner's TPM makes a
    transport key, the seed wraps the fleet key for its public area, and the
    joiner imports the blob: every step succeeds, the seed's TPM ends with the
    objects it had, and the joiner's slot then holds the seed's key, whatever it
    held before, with the transport key flushed. *)
Theorem duplication_transfers_fleet_key c h k c2 w w2 :
  ready w → room 2 w → key_at (view w) c h k → duplicable_key k → ready w2 → room 4 w2 →
  run (create_transport_key c2) w2 (λ tp w2',
    run (duplicate_for_joiner c h tp.2) w (λ blob w', view w' = view w ∧
      run (import_and_persist c2 tp.1 blob) w2' (λ h2 w2'', fleet_key_ready w2'' c2 h2 k ∧
        obj_at (view w2'') c2 tp.1 = None))).
Proof.
  intros Hr Hroom Hk Hdup Hr2 Hroom2.
  eapply run_mono; [apply create_transport_key_spec; [done|by eapply room_le, Hroom2; lia]|].
  cbv beta. intros [t jp] w2' (Hr2' & tk & Htk & Hp & Hf & Hv). simpl in *.
  eapply run_mono; [apply duplicate_for_joiner_spec; try done; rewrite Hp; by eapply local_fleet_key_wrappable|].
  cbv beta. intros blob w' (_ & Hvw & Hblob). split; [done|]. rewrite Hp in Hblob.
  eapply run_mono; [eapply (import_and_persist_spec c2 t tk); [done| | |exact Hblob]|].
  - by eapply room_add.
  - by rewrite Hv, obj_at_add_eq.
  - cbv beta. intros h2 w2'' (? & ? & _). done.
Qed.

(** A blob the TPM refuses to import costs a joiner nothing: the slot is
    evicted only after the import has succeeded, so a refused import is an error
    that leaves the TPM exactly as it was, its own session flushed and a fleet
    key that was there still there. *)
Theorem failed_import_keeps_fleet_key c t tk blob w :
  ready w → room 1 w → obj_at (view w) c t = Some (OKey tk) →
  (∀ w1, ready w1 → obj_at (view w1) c t = Some (OKey tk) →
     fails (import c t (encryption_key blob) (fleet_key_public blob) (duplicate_private blob)
              (encrypted_secret blob) duplication_symmetric_alg) w1
       (λ _ w2, ready w2 ∧ view w2 = view w1)) →
  fails (import_and_persist c t blob) w (λ _ w', ready w' ∧ view w' = view w).
Proof.
  intros Hr Hroom Ht Hrefuse. unfold import_and_persist.
  eapply fails_bind_r; [by apply start_session_spec|]. cbv beta.
  intros s w1 (Hr1 & Hf1 & Hv1 & _). pose proof (fresh_ne _ _ _ _ _ _ Hf1 Ht) as Hst.
  eapply fails_bind_r; [apply fails_attempt, (fails_with_session _ _ _ _
    (λ _ w2, ready w2 ∧ view w2 = view w1)); [done|]|].
  - intros w2 Hr2 Hv2. apply fails_bind_l.
    eapply fails_mono; [apply Hrefuse; [done|by rewrite Hv2, Hv1, obj_at_with_ambient, obj_at_add_ne]|].
    cbv beta. intros e w3 (Hr3 & Hv3). split; [done|]. intros w4 Hr4 Hv4. split; [done|].
    by rewrite Hv4, Hv3, Hv2, ambient_restore.
  - cbv beta. intros r w2 (e & -> & Hr2 & Hv2).
    eapply fails_bind_r; [eapply run_map_errM, flush_spec; [done|by rewrite Hv2, Hv1, obj_at_add_eq|done]|].
    cbv beta. intros _ w3 (Hr3 & Hv3). rewrite Hv2, Hv1, del_add in Hv3 by done.
    by eexists _, w3.
Qed.

(** [persist] never overwrites: on an occupied slot it fails and the TPM
    is as before. *)
Theorem persist_refuses_occupied_slot c h k k' w :
  ready w → room 1 w → obj_at (view w) c h = Some (OKey k) →
  v_persistent (view w) !! SLOT = Some k' →
  fails (persist c h) w (λ _ w', ready w' ∧ view w' = view w).
Proof.
  intros Hr Hroom Hh Hs. unfold persist. eapply fails_bind_lift; [by rewrite slot_ok|].
  apply fails_bind_l, fails_map_errM.
  eapply fails_mono; [apply (fails_nullauth_same _ _ _ _ (λ _, True)); [done..|]|cbv beta; tauto].
  intros s w1 Hin. destruct (in_nullauth_obj _ _ _ _ _ _ _ Hin Hh) as [_ Hh1].
  eapply fails_mono; [eapply (evict_control_occupied _ _ k k'); eauto with sceau;
    by rewrite (in_nullauth_persistent _ _ _ _ Hin)|cbv beta; tauto].
Qed.
End FleetTheorems.

(** * Examples *)
(** The fleet key of the simulated TPM with seed [sd], and a node after
    [genesis]. *)
Definition sim_fleet_key (sd : byte) : SimKey := sim_primary_key sd
  (mkSimPublic (mkObjectAttributes false false true true true true)
     (Some (sim_policy_extend x00 CommandCode_Duplicate)) x00).
Definition demo_genesis (sd : byte) : KeyHandle * SimWorld :=
  sim_result 0%N (create_fleet_key (O:=sim_ops) 1%N false (sim_init sd)).

Lemma sim_fleet_key_local sd : local_fleet_key (TS:=sim_spec) sd (sim_fleet_key sd).
Proof. eexists. split; [eexists; split; [done|split; [done|split; done]]|done]. Qed.
Lemma demo_genesis_ready : ready (TpmSpec:=sim_spec) (demo_genesis x07).2.
Proof. apply sim_readyb_ready. vm_compute. reflexivity. Qed.
Lemma demo_genesis_room n : (n ≤ 8)%nat → room (TpmSpec:=sim_spec) n (demo_genesis x07).2.
Proof.
  intros. unfold room. change (size _) with (size (v_objs (sw_view (demo_genesis x07).2))).
  change (capacity) with 16%nat. vm_compute (size _). lia.
Qed.
Lemma demo_genesis_slot :
  v_persistent (sw_view (demo_genesis x07).2) !! FLEET_KEY_PERSISTENT_HANDLE = Some (sim_fleet_key x07).
Proof. vm_compute. reflexivity. Qed.
Lemma demo_genesis_key :
  key_at (sw_view (demo_genesis x07).2) 1%N (demo_genesis x07).1 (sim_fleet_key x07).
Proof. right. exists FLEET_KEY_PERSISTENT_HANDLE. split; vm_compute; reflexivity. Qed.
Lemma sim_init_room sd n : (n ≤ 16)%nat → room (TpmSpec:=sim_spec) n (sim_init sd).
Proof. done. Qed.

Lemma genesis_is_idempotent_witness :
  run (create_fleet_key (O:=sim_ops) 1%N false) (demo_genesis x07).2 (λ h w',
    fleet_key_ready (TS:=sim_spec) w' 1%N h (sim_fleet_key x07) ∧
    v_persistent (sw_view w') = v_persistent (sw_view (demo_genesis x07).2)).
Proof.
  apply (genesis_is_idempotent (TS:=sim_spec) (L:=sim_data_laws));
    [apply demo_genesis_ready|apply demo_genesis_room; lia|apply demo_genesis_slot].
Defined.

Lemma forced_genesis_restores_the_same_key_witness :
  run (create_fleet_key (O:=sim_ops) 1%N true) (demo_genesis x07).2 (λ h w',
    fleet_key_ready (TS:=sim_spec) w' 1%N h (sim_fleet_key x07)).
Proof.
  apply (forced_genesis_restores_the_same_key (TS:=sim_spec) (L:=sim_data_laws));
    [apply demo_genesis_ready|apply demo_genesis_room; lia|apply sim_fleet_key_local
    |apply demo_genesis_slot].
Defined.

Lemma transport_key_is_reused_witness :
  run (create_transport_key (O:=sim_ops) 1%N) (sim_init x07) (λ r _,
    run (create_transport_key (O:=sim_ops) 2%N) (demo_genesis x07).2 (λ r' _,
      r'.2 = r.2 ∧ ∃ k, local_fleet_key (TS:=sim_spec) x07 k ∧ r.2 = sk_public k)).
Proof.
  apply (transport_key_is_reused (TS:=sim_spec) (L:=sim_data_laws));
    [apply sim_init_ready|apply sim_init_room; lia|apply demo_genesis_ready
    |apply demo_genesis_room; lia|vm_compute; reflexivity].
Defined.

Lemma duplication_transfers_fleet_key_witness :
  run (create_transport_key (O:=sim_ops) 1%N) (sim_init x09) (λ tp w2',
    run (duplicate_for_joiner (O:=sim_ops) 1%N (demo_genesis x07).1 tp.2) (demo_genesis x07).2
      (λ blob w', sw_view w' = sw_view (demo_genesis x07).2 ∧
      run (import_and_persist (O:=sim_ops) 1%N tp.1 blob) w2' (λ h2 w2'',
        fleet_key_ready (TS:=sim_spec) w2'' 1%N h2 (sim_fleet_key x07) ∧
        obj_at (sw_view w2'') 1%N tp.1 = None))).
Proof.
  apply (duplication_transfers_fleet_key (TS:=sim_spec) (L:=sim_data_laws));
    [apply demo_genesis_ready|apply demo_genesis_room; lia|apply demo_genesis_key
    |eapply (local_fleet_key_duplicable (TS:=sim_spec)), sim_fleet_key_local|apply sim_init_ready
    |apply sim_init_room; lia].
Defined.

(** The transient object that [genesis] leaves behind, handle 4. *)
Lemma persist_refuses_occupied_slot_witness :
  fails (persist (O:=sim_ops) 1%N 4%N) (demo_genesis x07).2 (λ _ w',
    ready (TpmSpec:=sim_spec) w' ∧ sw_view w' = sw_view (demo_genesis x07).2).
Proof.
  apply (persist_refuses_occupied_slot (TS:=sim_spec) (L:=sim_data_laws) _ _ (sim_fleet_key x07)
           (sim_fleet_key x07));
    [apply demo_genesis_ready|apply demo_genesis_room; lia|vm_compute; reflexivity|apply demo_genesis_slot].
Defined.

(** A blob without a duplicate in it. *)
Definition junk_blob : DuplicationBlob :=
  mkDuplicationBlob sim_data (sk_public (sim_fleet_key x07)) [] [] None.
Lemma sim_import_junk c t tk w :
  obj_at (sw_view w) c t = Some (OKey tk) →
  fails (sim_import c t None (sk_public (sim_fleet_key x07)) [] [] AES_128_CFB) w (λ _ w', w' = w).
Proof.
  intros Ht. exists RC_FAILURE, w. split; [|done]. unfold sim_import, sim_key_at. sim_run. rewrite Ht.
  by destruct (sim_user_session _ _).
Qed.
Lemma failed_import_keeps_fleet_key_witness :
  fails (import_and_persist (O:=sim_ops) 1%N 4%N junk_blob) (demo_genesis x07).2 (λ _ w',
    ready (TpmSpec:=sim_spec) w' ∧ sw_view w' = sw_view (demo_genesis x07).2).
Proof.
  apply (failed_import_keeps_fleet_key (TS:=sim_spec) 1%N 4%N (sim_fleet_key x07) junk_blob);
    [apply demo_genesis_ready|apply demo_genesis_room; lia|vm_compute; reflexivity|].
  intros w1 Hr1 Ho. destruct (sim_import_junk _ _ _ _ Ho) as (e & w2 & He & ->). by exists e, w1.
Defined.
