(* ===== verification/KmsVault.v ===== *)
(** The contract of the KMS service with kube-apiserver, under concurrency.

    Every interleaving of [KmsConc.v], down to single TPM commands, against the
    ledger of [Kms.v].  Each critical section works on the part of the TPM that
    belongs to its sealer's context ([Steps.v]); the invariant is that the parts
    stay apart, that each section is on its way to its result whatever the other
    one does, and that both together fit into the TPM. *)
From S2P Require Import Prelude Grpc Tss SimTpm Steps Envelope Sealer SealerSteps Kms KmsConc Fleet.

(** * The contract under concurrency *)
(** The ledger a log leaves. *)
Definition log_ledger (l0 : Ledger) (l : KmsLog) : Ledger :=
  foldl (λ L e, match e.2 with Ok resp => record L e.1.2 resp | _ => L end) l0 l.

Section Contract.
Context `{NSP : NullauthSpec} {L : TssDataLaws} {K : KeyIdDeps} {KL : KeyIdLaws} (tss_display : TssError → string).
Abbreviation V := (TpmView Public Digest Key Seed).

(** A service for concurrent requests: the sealers have contexts of their own, and
    the TPM has room for the section of each. *)
Record kms_conc_ok (st : KmsState) (kp : Key) (kl : option Key) : Prop := {
  co_ok : kms_ok st kp kl;
  co_legacy : ∀ m, legacy_sealer (svc st) = Some m →
    context (inner m) ≠ context (inner (sealer (svc st))) ∧ room 4 (tpm st)
}.

(** A ciphertext stands for one plaintext. *)
Lemma ledger_functional st kp kl l ct kid pt pt' :
  kms_ok st kp kl → ledger_ok st kp kl l → (ct, kid, pt) ∈ l → (ct, kid, pt') ∈ l → pt = pt'.
Proof.
  intros Hok Hl H1 H2. set (q := mkDecryptRequest ct "" kid ∅).
  destruct (Hl _ _ _ H1) as (k1 & Hs1 & He1), (Hl _ _ _ H2) as (k2 & Hs2 & He2).
  destruct (decrypt_spec tss_display _ _ _ q k1 pt Hok Hs1 He1) as (r1 & ? & Hr1 & _ & _ & _ & <-).
  destruct (decrypt_spec tss_display _ _ _ q k2 pt' Hok Hs2 He2) as (r2 & ? & Hr2 & _ & _ & _ & <-).
  congruence.
Qed.
Lemma vault_answers_record st kp kl l kid q resp req resp' :
  kms_ok st kp kl → ledger_ok st kp kl (record l req resp') →
  admissible l q → vault_answers kid l q resp → vault_answers kid (record l req resp') q resp.
Proof.
  intros Hok Hl Ha Hv. destruct q as [|e|d], resp; cbn in *; try done. destruct Ha as [pt Hpt].
  intros pt' Hpt'. rewrite (Hv _ Hpt). eapply ledger_functional; [done..| |exact Hpt'].
  by apply (record_grows l).
Qed.

(** Requests arrive that the contract covers at that time. *)
Definition admits (l0 : Ledger) (sys : KmsSystem) (req : KmsRequest) : Prop :=
  admissible (log_ledger l0 (ks_log sys)) req.

(** What a section has found out when it answers. *)
Definition reply_ok (st : KmsState) (kp : Key) (kl : option Key) (req : KmsRequest) (resp : KmsResponse) : Prop :=
  match req, resp with
  | ReqStatus, RespStatus r => r = mkStatusResponse "v2" "ok" (key_id (inner (sealer (svc st))))
  | ReqEncrypt q, RespEncrypt r => envelope_seals kp (enc_ciphertext r) (enc_plaintext q) ∧
      enc_key_id r = key_id (inner (sealer (svc st))) ∧ enc_annotations r = ∅
  | ReqDecrypt q, RespDecrypt r => ∃ k, selects st kp kl (dec_key_id q) k ∧
      envelope_seals k (dec_ciphertext q) (dec_plaintext r)
  | _, _ => False
  end.
Lemma reply_ok_vault st kp kl l req resp :
  kms_ok st kp kl → ledger_ok st kp kl l → reply_ok st kp kl req resp →
  ledger_ok st kp kl (record l req resp) ∧
  vault_answers (key_id (inner (sealer (svc st)))) l req resp.
Proof.
  intros Hok Hl Hr. destruct req as [|q|q], resp as [r|r|r]; cbn in *; try done.
  - destruct Hr as (He & Hkid & Hann). split; [|done].
    intros ct kid pt' [[= -> -> ->]|Hin]%elem_of_cons; [|by apply Hl]. exists kp. split; [by left|done].
  - split; [done|]. intros pt Hpt. set (e := (dec_ciphertext q, dec_key_id q, dec_plaintext r)).
    eapply (ledger_functional st kp kl (e :: l)); [done| |by apply list_elem_of_here|by apply list_elem_of_further].
    intros ct kid pt' [[= -> -> ->]|Hin]%elem_of_cons; [done|by apply Hl].
Qed.

Section Sections.
Context (st : KmsState) (kp : Key) (kl : option Key) (Hco : kms_conc_ok st kp kl).
Abbreviation v0 := (view (tpm st)).
Abbreviation cp := (context (inner (sealer (svc st)))).

(** What a context may hold, and what the sections leave. *)
Definition budget (c : Ctx) : nat := (size (v_objs (own c v0)) + 2)%nat.
Definition primary_post (req : KmsRequest) (r : outcome Status (KmsResponse + DecryptRequest)) (lv : V) : Prop :=
  lv = own cp v0 ∧ ∃ x, r = Ok x ∧
    match x with
    | inl resp => reply_ok st kp kl req resp
    | inr q => req = ReqDecrypt q ∧ dec_key_id q ≠ key_id (inner (sealer (svc st)))
    end.
Definition legacy_post (m : Mutex TpmSealer) (q : DecryptRequest) (r : outcome Status KmsResponse) (lv : V) : Prop :=
  lv = own (context (inner m)) v0 ∧ ∃ resp, r = Ok resp ∧ reply_ok st kp kl (ReqDecrypt q) resp.

Lemma primary_has : sealer_has (own cp v0) (inner (sealer (svc st))) kp.
Proof. apply sealer_for_has, Hco. Qed.
Lemma legacy_has m :
  legacy_sealer (svc st) = Some m → ∃ k, kl = Some k ∧ poisoned m = false ∧
    key_id (inner m) ≠ key_id (inner (sealer (svc st))) ∧ sealer_has (own (context (inner m)) v0) (inner m) k.
Proof.
  intros Hm. pose proof (ok_legacy _ _ _ (co_ok _ _ _ Hco)) as H. rewrite Hm in H. destruct kl as [k|]; [|done].
  destruct H as (? & ? & ?). exists k. split_and!; try done. by apply sealer_for_has.
Qed.

Lemma try_sealer_wp q s k pt (lv : V) Q :
  sealer_has lv s k → envelope_seals k (dec_ciphertext q) pt → dec_key_id q = key_id s →
  (size (v_objs lv) + 2 ≤ budget (context s))%nat → Q (Ok (Some (mkDecryptResponse pt))) lv →
  wp (context s) (budget (context s)) (try_sealer_prog tss_display q s) Q lv.
Proof.
  intros Hs He Hk Hb HQ. unfold try_sealer_prog. rewrite bool_decide_true by done.
  apply wp_bind, wp_map_result. eapply wp_mono; [|by eapply unseal_wp]. cbv beta. by intros r lv' [-> ->].
Qed.
Lemma primary_section_wp l req :
  ledger_ok st kp kl l → admissible l req →
  wp cp (budget cp) (primary_section tss_display req (svc st)) (primary_post req) (own cp v0).
Proof.
  intros Hl Ha. pose proof (ok_primary_lock _ _ _ (co_ok _ _ _ Hco)) as Hp.
  destruct req as [|q|q]; cbn [primary_section]; unfold lock_prog; rewrite ?Hp.
  - split; [done|]. eexists. split; [reflexivity|]. cbn. unfold kms_key_id. by rewrite Hp.
  - apply wp_bind, wp_map_result. eapply wp_mono; [|eapply seal_wp; [apply primary_has|done|unfold budget; lia]].
    cbv beta. intros r lv' (-> & ct & -> & He). split; [done|]. eexists. split; [reflexivity|]. done.
  - apply wp_bind. destruct (decide (dec_key_id q = key_id (inner (sealer (svc st))))) as [Hk|Hk].
    + destruct Ha as [pt Hin]. destruct (Hl _ _ _ Hin) as (k & Hsel & He).
      assert (k = kp) as ->.
      { destruct Hsel as [[_ ->]|(m & Hm & Hkid & _)]; [done|]. destruct (legacy_has m Hm) as (? & _ & _ & Hne & _).
        congruence. }
      eapply try_sealer_wp; [apply primary_has|exact He|done|unfold budget; lia|].
      split; [done|]. eexists. split; [reflexivity|]. by exists kp.
    + unfold try_sealer_prog. rewrite bool_decide_false by done. split; [done|]. eexists. split; [reflexivity|]. done.
Qed.
(** A request that missed is for the legacy key. *)
Lemma missed_legacy l q :
  ledger_ok st kp kl l → admissible l (ReqDecrypt q) → dec_key_id q ≠ key_id (inner (sealer (svc st))) →
  ∃ m, legacy_sealer (svc st) = Some m ∧
    wp (context (inner m)) (budget (context (inner m))) (legacy_section tss_display q m) (legacy_post m q)
      (own (context (inner m)) v0).
Proof.
  intros Hl [pt Hin] Hne. destruct (Hl _ _ _ Hin) as (k & Hsel & He).
  destruct Hsel as [[? _]|(m & Hm & Hkid & Hkl)]; [done|]. exists m. split; [done|].
  destruct (legacy_has m Hm) as (k' & Hkl' & Hp & _ & Hs). simplify_eq. unfold legacy_section, lock_prog. rewrite Hp.
  apply wp_bind. eapply try_sealer_wp; [done|exact He|done|unfold budget; lia|].
  split; [done|]. eexists. split; [reflexivity|]. eexists. split; [|exact He]. right. by exists m.
Qed.

(** The TPM without the contexts of the sealers. *)
Definition outside (v : V) : V :=
  match legacy_sealer (svc st) with
  | Some m => others (context (inner m)) (others cp v)
  | None => others cp v
  end.
(** The contexts hold at most what they may, and the rest is as it was. *)
Record shares (v : V) : Prop := {
  sh_outside : outside v = outside v0;
  sh_primary : (size (v_objs (own cp v)) ≤ budget cp)%nat;
  sh_legacy : ∀ m, legacy_sealer (svc st) = Some m →
    (size (v_objs (own (context (inner m)) v)) ≤ budget (context (inner m)))%nat
}.
Lemma shares_initial : shares v0.
Proof. split; [done|unfold budget; lia|]. intros m _. unfold budget. lia. Qed.

Lemma own_others_ne c c' (v : V) : c ≠ c' → own c' (others c v) = own c' v.
Proof.
  intros Hne. apply (own_of_others c); [done|]. unfold others. cbn.
  f_equal; apply map_eq; intros i; rewrite !map_lookup_filter;
    [destruct (v_objs v !! i)|destruct (v_ambient v !! i)]; cbn; repeat case_guard; cbn; done.
Qed.
Lemma shares_fit_primary w : shares (view w) → fits (budget cp) (own cp (view w)) w.
Proof.
  intros [Ho Hp Hl]. unfold fits, budget. pose proof (ok_room _ _ _ (co_ok _ _ _ Hco)) as Hroom. unfold room in Hroom.
  pose proof (size_own_others cp (view w)). pose proof (size_own_others cp v0). unfold outside in Ho.
  destruct (legacy_sealer (svc st)) as [m|] eqn:Hm; [|rewrite Ho in *; lia].
  destruct (co_legacy _ _ _ Hco m Hm) as [Hne Hroom4]. unfold room in Hroom4. specialize (Hl m eq_refl).
  pose proof (size_own_others (context (inner m)) (others cp (view w))).
  pose proof (size_own_others (context (inner m)) (others cp v0)).
  rewrite own_others_ne in * by congruence. rewrite Ho in *. unfold budget in Hl. lia.
Qed.
Lemma shares_fit_legacy m w :
  legacy_sealer (svc st) = Some m → shares (view w) →
  fits (budget (context (inner m))) (own (context (inner m)) (view w)) w.
Proof.
  intros Hm [Ho Hp Hl]. unfold fits. unfold budget in Hp.
  pose proof (size_own_others cp (view w)). pose proof (size_own_others cp v0). unfold outside in Ho.
  rewrite Hm in Ho. destruct (co_legacy _ _ _ Hco m Hm) as [Hne Hroom4]. unfold room in Hroom4.
  pose proof (size_own_others (context (inner m)) (others cp (view w))).
  pose proof (size_own_others (context (inner m)) (others cp v0)).
  rewrite own_others_ne in * by congruence. rewrite Ho in *. unfold budget. lia.
Qed.
Lemma shares_step_primary v v' :
  shares v → others cp v' = others cp v → (size (v_objs (own cp v')) ≤ budget cp)%nat → shares v'.
Proof.
  intros [Ho Hp Hl] Hot Hsz. split; [|done|].
  - unfold outside in *. by rewrite Hot.
  - intros m Hm. rewrite (own_of_others cp _ v' v); [by apply Hl|apply not_eq_sym, (co_legacy _ _ _ Hco m Hm)|done].
Qed.
Lemma shares_step_legacy m v v' :
  legacy_sealer (svc st) = Some m → shares v → others (context (inner m)) v' = others (context (inner m)) v →
  (size (v_objs (own (context (inner m)) v')) ≤ budget (context (inner m)))%nat → shares v'.
Proof.
  intros Hm [Ho Hp Hl] Hot Hsz. destruct (co_legacy _ _ _ Hco m Hm) as [Hne _]. split.
  - unfold outside in *. rewrite Hm in *. rewrite others_comm, Hot, others_comm. done.
  - by rewrite (own_of_others (context (inner m)) _ v' v).
  - intros m' Hm'. by simplify_eq.
Qed.
(** Both at rest: the TPM is as it was. *)
Lemma shares_rest v :
  shares v → own cp v = own cp v0 →
  (∀ m, legacy_sealer (svc st) = Some m → own (context (inner m)) v = own (context (inner m)) v0) → v = v0.
Proof.
  intros [Ho _ _] Hp Hl. apply (own_others_ext cp); [done|]. unfold outside in Ho.
  destruct (legacy_sealer (svc st)) as [m|] eqn:Hm; [|done].
  destruct (co_legacy _ _ _ Hco m Hm) as [Hne _].
  apply (own_others_ext (context (inner m))); [|done]. rewrite !own_others_ne by congruence. by apply Hl.
Qed.
End Sections.
End Contract.

(** * The contract in every reachable state *)
Section Theorem_.
Context `{NSP : NullauthSpec} {L : TssDataLaws} {K : KeyIdDeps} {KL : KeyIdLaws} (tss_display : TssError → string).
Context (st : KmsState) (kp : Key) (kl : option Key) (l0 : Ledger) (Hco : kms_conc_ok st kp kl).
Abbreviation V := (TpmView Public Digest Key Seed).
Abbreviation v0 := (view (tpm st)).
Abbreviation cp := (context (inner (sealer (svc st)))).
Abbreviation kid := (key_id (inner (sealer (svc st)))).

(** The ledger, the requests and the replies so far. *)
Record ledger_inv (sys : KmsSystem) : Prop := {
  gi_ledger : ledger_ok st kp kl (log_ledger l0 (ks_log sys));
  gi_tasks : ∀ t pc, ks_tasks sys !! t = Some pc → admissible (log_ledger l0 (ks_log sys)) (pc_request pc);
  gi_log : ∀ t req r, (t, req, r) ∈ ks_log sys → admissible (log_ledger l0 (ks_log sys)) req ∧
    ∃ resp, r = Ok resp ∧ vault_answers kid (log_ledger l0 (ks_log sys)) req resp
}.
Lemma ledger_move t pc pc' s ph lh sys :
  ledger_inv sys → ks_tasks sys !! t = Some pc → pc_request pc' = pc_request pc →
  ledger_inv (move t pc' s ph lh sys).
Proof.
  intros [Hl Ht Hlog] Hpc Hq. split; cbn; [done| |done]. apply tasks_after.
  - rewrite Hq. by eapply Ht.
  - intros t' x _. apply Ht.
Qed.
Lemma ledger_reply t pc resp s ph lh sys :
  ledger_inv sys → ks_tasks sys !! t = Some pc → reply_ok st kp kl (pc_request pc) resp →
  ledger_inv (reply t (pc_request pc) (Ok resp) s ph lh sys).
Proof.
  intros [Hl Ht Hlog] Hpc Hr. pose proof (co_ok _ _ _ Hco) as Hok.
  destruct (reply_ok_vault tss_display st kp kl _ _ _ Hok Hl Hr) as [Hl' Hv].
  assert (log_ledger l0 (ks_log sys ++ [(t, pc_request pc, Ok resp)]) =
    record (log_ledger l0 (ks_log sys)) (pc_request pc) resp) as Hld by (unfold log_ledger; by rewrite foldl_app).
  pose proof (record_grows (log_ledger l0 (ks_log sys)) (pc_request pc) resp) as Hg.
  split; cbn [ks_log ks_tasks reply]; rewrite Hld; [done|..].
  - apply (tasks_after (P:=λ _ x, admissible _ (pc_request x))); [cbn; by eapply admissible_mono, Ht|].
    intros t' x _ Hx. by eapply admissible_mono, Ht.
  - intros t' q r. rewrite elem_of_app, list_elem_of_singleton. intros [Hin|[= -> -> ->]].
    + destruct (Hlog _ _ _ Hin) as (Ha & resp' & -> & Hans). split; [by eapply admissible_mono|].
      exists resp'. split; [done|]. by eapply vault_answers_record.
    + split; [by eapply admissible_mono, Ht|]. exists resp. split; [done|].
      eapply vault_answers_record; [done..|by eapply Ht|done].
Qed.

(** The TPM and the sections in progress. *)
Definition task_ok (v : V) (pc : KmsPc) : Prop :=
  match pc with
  | InPrimary req p => wp cp (budget st cp) p (primary_post st kp kl req) (own cp v)
  | Missed q => dec_key_id q ≠ kid
  | InLegacy q p => ∃ m, legacy_sealer (svc st) = Some m ∧
      wp (context (inner m)) (budget st (context (inner m))) p (legacy_post st kp kl m q) (own (context (inner m)) v)
  | _ => True
  end.
Record tpm_inv (sys : KmsSystem) : Prop := {
  ti_svc : svc (ks_state sys) = svc st;
  ti_ready : ready (tpm (ks_state sys));
  ti_shares : shares st (view (tpm (ks_state sys)));
  ti_primary : primary_held sys = false → own cp (view (tpm (ks_state sys))) = own cp v0;
  ti_legacy : ∀ m, legacy_sealer (svc st) = Some m → legacy_held sys = false →
    own (context (inner m)) (view (tpm (ks_state sys))) = own (context (inner m)) v0;
  ti_tasks : ∀ t pc, ks_tasks sys !! t = Some pc → task_ok (view (tpm (ks_state sys))) pc
}.
(** One sealer's commands, as the other requests see them. *)
Lemma others_ok_primary sys t req p v' :
  tpm_inv sys → locks_ok sys → ks_tasks sys !! t = Some (InPrimary req p) →
  others cp v' = others cp (view (tpm (ks_state sys))) →
  ∀ t' pc, t' ≠ t → ks_tasks sys !! t' = Some pc → task_ok v' pc.
Proof.
  intros Hi Hl Ht Hot t' pc Hne Ht'. pose proof (ti_tasks _ Hi _ _ Ht') as H. destruct pc; try done.
  - by destruct (Hne (one_in_primary _ _ _ _ _ _ _ Hl Ht Ht')).
  - destruct H as (m & Hm & H). exists m. split; [done|]. destruct (co_legacy _ _ _ Hco m Hm) as [Hc _].
    by rewrite (own_of_others cp _ v' (view (tpm (ks_state sys)))) by done.
Qed.
Lemma others_ok_legacy sys t q p m v' :
  tpm_inv sys → locks_ok sys → ks_tasks sys !! t = Some (InLegacy q p) → legacy_sealer (svc st) = Some m →
  others (context (inner m)) v' = others (context (inner m)) (view (tpm (ks_state sys))) →
  ∀ t' pc, t' ≠ t → ks_tasks sys !! t' = Some pc → task_ok v' pc.
Proof.
  intros Hi Hl Ht Hm Hot t' pc Hne Ht'. pose proof (ti_tasks _ Hi _ _ Ht') as H. destruct pc; try done.
  - destruct (co_legacy _ _ _ Hco m Hm) as [Hc _]. cbn in *.
    by rewrite (own_of_others (context (inner m)) _ v' (view (tpm (ks_state sys)))) by done.
  - by destruct (Hne (one_in_legacy _ _ _ _ _ _ _ Hl Ht Ht')).
Qed.

Definition vault_inv (sys : KmsSystem) : Prop := tpm_inv sys ∧ ledger_inv sys.
Lemma vault_arrive sys req sys' :
  vault_inv sys → admits l0 sys req → kms_exec tss_display (KArrive req) sys = Some sys' → vault_inv sys'.
Proof.
  intros [[] []] Ha [= <-]. split; split; cbn; try done; intros t pc Hx;
    (apply lookup_app_Some in Hx as [Hx|[_ Hx]]; [eauto|by apply list_lookup_singleton_Some in Hx as [_ <-]]).
Qed.

(** A request locks the primary mutex. *)
Lemma vault_enter sys t req :
  vault_inv sys → ks_tasks sys !! t = Some (Waiting req) → primary_held sys = false →
  vault_inv (move t (InPrimary req (primary_section tss_display req (svc (ks_state sys)))) (ks_state sys) true
               (legacy_held sys) sys).
Proof.
  intros [[] Hg] Hpc Hh. split; [|by eapply ledger_move]. split; cbn; try done.
  apply tasks_after; [|intros t' x _; apply ti_tasks0]. cbn. rewrite (ti_primary0 Hh), ti_svc0.
  eapply primary_section_wp; [done|by apply Hg|by apply (gi_tasks _ Hg t _ Hpc)].
Qed.
(** The mutex is released with the section's result. *)
Lemma vault_primary_done sys t req r :
  vault_inv sys → locks_ok sys → ks_tasks sys !! t = Some (InPrimary req (Ret r)) →
  match r with
  | Ok (inl resp) => vault_inv (reply t req (Ok resp) (ks_state sys) false (legacy_held sys) sys)
  | Ok (inr q) => vault_inv (move t (Missed q) (ks_state sys) false (legacy_held sys) sys)
  | _ => False
  end.
Proof.
  intros [Hi Hg] Hl Hpc. pose proof (ti_tasks _ Hi _ _ Hpc) as (Hown & x & -> & Hx).
  pose proof (others_ok_primary sys t req _ _ Hi Hl Hpc eq_refl) as Hoth. destruct Hi.
  destruct x as [resp|q]; split; [split; cbn; try done; by apply tasks_after|by apply (ledger_reply t _ resp _ _ _ _ Hg Hpc)|..].
  - split; cbn; try done. apply tasks_after; [|done]. by destruct Hx.
  - destruct Hx as [-> _]. by eapply ledger_move.
Qed.
(** One command of the primary section. *)
Lemma vault_primary_step sys t req {X} (m : World → X * World) k x w :
  vault_inv sys → locks_ok sys → ks_tasks sys !! t = Some (InPrimary req (Do m k)) →
  m (tpm (ks_state sys)) = (x, w) →
  vault_inv (move t (InPrimary req (k x)) (mkKmsState (svc (ks_state sys)) w) (primary_held sys) (legacy_held sys) sys).
Proof.
  intros [Hi Hg] Hl Hpc Hm. split; [|by eapply ledger_move].
  pose proof (ti_tasks _ Hi _ _ Hpc) as Hwp. cbn in Hwp.
  specialize (Hwp _ (ti_ready _ Hi) eq_refl (shares_fit_primary _ _ _ Hco _ (ti_shares _ Hi))). rewrite Hm in Hwp.
  destruct Hwp as (Hr & Hot & Hsz & Hwp). pose proof (others_ok_primary sys t req _ (view w) Hi Hl Hpc Hot) as Hoth.
  pose proof (primary_is_held _ _ _ _ Hl Hpc) as Hh. destruct Hi. split; cbn; try done.
  - by eapply shares_step_primary.
  - by rewrite Hh.
  - intros m' Hm' Hlh. destruct (co_legacy _ _ _ Hco m' Hm') as [Hne _].
    rewrite (own_of_others cp _ _ _ ltac:(done) Hot). by apply ti_legacy0.
  - by apply tasks_after.
Qed.
(** The same for the legacy mutex. *)
Lemma vault_legacy_enter sys t q :
  vault_inv sys → ks_tasks sys !! t = Some (Missed q) →
  ∃ m, legacy_sealer (svc st) = Some m ∧ (legacy_held sys = false →
    vault_inv (move t (InLegacy q (legacy_section tss_display q m)) (ks_state sys) (primary_held sys) true sys)).
Proof.
  intros [[] Hg] Hpc. pose proof (ti_tasks0 _ _ Hpc) as Hne. cbn in Hne.
  destruct (missed_legacy tss_display st kp kl Hco _ q (gi_ledger _ Hg) (gi_tasks _ Hg t _ Hpc) Hne) as (m & Hm & Hwp).
  exists m. split; [done|]. intros Hh. split; [|by eapply ledger_move]. split; cbn; try done.
  apply tasks_after; [|intros t' x _; apply ti_tasks0]. cbn. exists m. split; [done|]. by rewrite (ti_legacy0 m Hm Hh).
Qed.
Lemma vault_legacy_done sys t q r :
  vault_inv sys → locks_ok sys → ks_tasks sys !! t = Some (InLegacy q (Ret r)) →
  r ≠ Panic ∧ vault_inv (reply t (ReqDecrypt q) r (ks_state sys) (primary_held sys) false sys).
Proof.
  intros [Hi Hg] Hl Hpc. pose proof (ti_tasks _ Hi _ _ Hpc) as (m & Hm & Hown & resp & -> & Hx). split; [done|].
  pose proof (others_ok_legacy sys t q _ m _ Hi Hl Hpc Hm eq_refl) as Hoth. destruct Hi.
  split; [split; cbn; try done; [|by apply tasks_after]|by apply (ledger_reply t _ resp _ _ _ _ Hg Hpc)].
  intros m' Hm' _. rewrite Hm in Hm'. by injection Hm' as <-.
Qed.
Lemma vault_legacy_step sys t q {X} (m : World → X * World) k x w :
  vault_inv sys → locks_ok sys → ks_tasks sys !! t = Some (InLegacy q (Do m k)) →
  m (tpm (ks_state sys)) = (x, w) →
  vault_inv (move t (InLegacy q (k x)) (mkKmsState (svc (ks_state sys)) w) (primary_held sys) (legacy_held sys) sys).
Proof.
  intros [Hi Hg] Hl Hpc Hm. split; [|by eapply ledger_move].
  pose proof (ti_tasks _ Hi _ _ Hpc) as (ml & Hml & Hwp). cbn in Hwp.
  specialize (Hwp _ (ti_ready _ Hi) eq_refl (shares_fit_legacy _ _ _ Hco _ _ Hml (ti_shares _ Hi))). rewrite Hm in Hwp.
  destruct Hwp as (Hr & Hot & Hsz & Hwp).
  pose proof (others_ok_legacy sys t q _ ml (view w) Hi Hl Hpc Hml Hot) as Hoth.
  pose proof (legacy_is_held _ _ _ _ Hl Hpc) as Hh. destruct (co_legacy _ _ _ Hco ml Hml) as [Hne _].
  destruct Hi. split; cbn; try done.
  - by eapply shares_step_legacy.
  - intros Hph. rewrite (own_of_others _ _ _ _ ltac:(done) Hot). by apply ti_primary0.
  - by rewrite Hh.
  - apply tasks_after; [|done]. by exists ml.
Qed.

Lemma vault_advance sys t sys' :
  vault_inv sys → locks_ok sys → kms_exec tss_display (KAdvance t) sys = Some sys' → vault_inv sys'.
Proof.
  intros Hi Hl (pc & Hpc & Ha)%bind_Some. revert Ha. unfold kms_advance.
  destruct pc as [req|req [r|X m k]|q|q [r|X m k]|req r]; cbv zeta; [..|done].
  - destruct (primary_held sys) eqn:Hh; [done|]. intros [= <-]. by apply vault_enter.
  - pose proof (vault_primary_done sys t req r Hi Hl Hpc). by destruct r as [[resp|q]|e|]; [intros [= <-]..| |].
  - destruct (m (tpm (ks_state sys))) as [x w] eqn:Hm. intros [= <-]. by eapply vault_primary_step.
  - destruct (vault_legacy_enter sys t q Hi Hpc) as (m & Hm & Hent). destruct Hi as [[Hs] _]. rewrite Hs, Hm.
    destruct (legacy_held sys); [done|]. intros [= <-]. by apply Hent.
  - destruct (vault_legacy_done sys t q r Hi Hl Hpc) as [Hp H]. intros [= <-]. by destruct r.
  - destruct (m (tpm (ks_state sys))) as [x w] eqn:Hm. intros [= <-]. by eapply vault_legacy_step.
Qed.
Lemma kms_reach_vault sys :
  ledger_ok st kp kl l0 → kms_reach tss_display (admits l0) st sys → vault_inv sys.
Proof.
  intros Hl. induction 1 as [|sys [req|t] sys' Hr IH Hg He]; [|eapply vault_arrive; eauto|].
  - split; split; cbn; try done; [apply Hco|apply shares_initial|]. intros t req r ?%not_elem_of_nil. done.
  - eapply vault_advance; [done|by eapply kms_reach_locks|done].
Qed.
(** At most four handles more than at rest. *)
Lemma shares_size v : shares st v → (size (v_objs v) ≤ size (v_objs v0) + 4)%nat.
Proof.
  intros [Ho Hp Hl]. unfold budget in *. pose proof (size_own_others cp v). pose proof (size_own_others cp v0).
  unfold outside in Ho. destruct (legacy_sealer (svc st)) as [m|] eqn:Hm; [|rewrite Ho in *; lia].
  destruct (co_legacy _ _ _ Hco m Hm) as [Hne _]. specialize (Hl m eq_refl).
  pose proof (size_own_others (context (inner m)) (others cp v)).
  pose proof (size_own_others (context (inner m)) (others cp v0)).
  rewrite own_others_ne in * by congruence. rewrite Ho in *. lia.
Qed.

(** C6. Every interleaving of the service's requests keeps its contract with
    kube-apiserver, one TPM command at a time and with the commands of the two
    sealers alternating in any way.  While the requests that arrive are those the
    contract covers (whatever ciphertexts the service has given out so far may be
    sent back to it), every answer is a positive one and the one the ledger asks
    for: [Status] and [Encrypt] name the preferred key, [Decrypt] returns the
    plaintext; every ciphertext given out is an envelope of its plaintext.  The
    service itself stays as it was, the sections have at most four objects in the
    TPM at any time, and whenever neither mutex is held the TPM is as it was
    before the first request.  The TPM must have room for those four: the mutexes
    do not keep the sections of the two sealers apart. *)
Theorem kms_concurrent_vault sys :
  ledger_ok st kp kl l0 → kms_reach tss_display (admits l0) st sys →
  ledger_ok st kp kl (log_ledger l0 (ks_log sys)) ∧
  (∀ t req r, ks_tasks sys !! t = Some (Replied req r) → ∃ resp, r = Ok resp ∧
     vault_answers kid (log_ledger l0 (ks_log sys)) req resp) ∧
  svc (ks_state sys) = svc st ∧
  (size (v_objs (view (tpm (ks_state sys)))) ≤ size (v_objs v0) + 4)%nat ∧
  (primary_held sys = false → legacy_held sys = false → view (tpm (ks_state sys)) = v0).
Proof.
  intros Hl Hr. destruct (kms_reach_vault sys Hl Hr) as [[] []]. split_and!; [done| |done|by apply shares_size|].
  - intros t req r Ht. apply (li_replied _ (kms_reach_log _ _ _ _ Hr)) in Ht. by apply (gi_log0 t).
  - intros Hp Hlh. eapply shares_rest; [done..|by apply ti_primary0|]. intros m Hm. by apply ti_legacy0.
Qed.
End Theorem_.

(** * Examples *)
(** A node of the fleet: the fleet key's sealer in one context, the SRK's in
    another, as [build_sealer] opens them. *)
Definition fleet_sealers : (TpmSealer * TpmSealer) * SimWorld :=
  sim_result (sealer_dflt, sealer_dflt) ((
    probe ← map_errM TpmError_Tss (context_new (TssOps:=sim_ops) "device:/dev/tpmrm0"%string);
    h ← map_errM TpmError_Tss (tr_from_tpm_public (TssOps:=sim_ops) probe FLEET_KEY_PERSISTENT_HANDLE);
    primary ← from_primary (O:=sim_ops) probe h;
    legacy ← sealer_new (O:=sim_ops) "device:/dev/tpmrm0"%string;
    mret (primary, legacy)) (demo_genesis x07).2).
Definition fleet_kms : KmsState (O:=sim_ops) :=
  mkKmsState (O:=sim_ops) (with_legacy_fallback fleet_sealers.1.1 fleet_sealers.1.2) fleet_sealers.2.
Lemma fleet_kms_room n : (n ≤ 8)%nat → room (TpmSpec:=sim_spec) n fleet_sealers.2.
Proof.
  intros. unfold room. change (size _) with (size (v_objs (sw_view fleet_sealers.2))).
  change (capacity) with 16%nat. vm_compute (size _). lia.
Qed.
Lemma fleet_kms_ok : kms_conc_ok (TS:=sim_spec) fleet_kms (sim_fleet_key x07) (Some (demo_srk x07)).
Proof.
  split.
  - split; [apply sim_readyb_ready; vm_compute; reflexivity|apply fleet_kms_room; lia|reflexivity| |].
    + split_and!; [right; exists FLEET_KEY_PERSISTENT_HANDLE; split|..]; vm_compute; reflexivity.
    + split_and!; [reflexivity|split_and!; [left|..]; vm_compute; reflexivity|vm_compute; discriminate].
  - intros m [= <-]. split; [vm_compute; discriminate|apply fleet_kms_room; lia].
Qed.

(** A [Decrypt] for the SRK of before the fleet and an [Encrypt] under the fleet
    key, whose commands alternate. *)
Definition fleet_arrived : SimSystem := arrived fleet_kms [ReqEncrypt demo_request; ReqDecrypt old_request].
Definition alternating : list nat := [1; 1; 1; 0; 1; 0; 1; 0; 1; 0; 1; 0; 1; 1]%nat.
Lemma alternating_runs : runs alternating fleet_arrived = true.
Proof. vm_compute. reflexivity. Qed.
Example alternating_overlaps :
  let sys := after (take 8 alternating) fleet_arrived in primary_held sys && legacy_held sys = true.
Proof. vm_compute. reflexivity. Qed.
Lemma fleet_arrived_reach : kms_reach sim_display (admits old_ledger) fleet_kms fleet_arrived.
Proof.
  apply arrived_reach. intros sys Hsys. unfold admits. rewrite Hsys. apply Forall_cons_2; [vm_compute; lia|].
  apply Forall_singleton. exists [xaa]. by apply list_elem_of_singleton.
Qed.

Definition fleet_done : SimSystem := after alternating fleet_arrived.
Lemma kms_concurrent_vault_witness :
  ledger_ok (TS:=sim_spec) fleet_kms (sim_fleet_key x07) (Some (demo_srk x07)) (log_ledger old_ledger (ks_log fleet_done)) ∧
  (∀ t req r, ks_tasks fleet_done !! t = Some (Replied req r) → ∃ resp, r = Ok resp ∧
     vault_answers (key_id fleet_sealers.1.1) (log_ledger old_ledger (ks_log fleet_done)) req resp) ∧
  svc (ks_state fleet_done) = svc fleet_kms ∧
  (size (v_objs (sw_view (tpm (ks_state fleet_done)))) ≤ size (v_objs (sw_view fleet_sealers.2)) + 4)%nat ∧
  (primary_held fleet_done = false → legacy_held fleet_done = false →
     sw_view (tpm (ks_state fleet_done)) = sw_view fleet_sealers.2).
Proof.
  apply (kms_concurrent_vault (TS:=sim_spec) (L:=sim_data_laws) sim_display fleet_kms (sim_fleet_key x07)
           (Some (demo_srk x07)) old_ledger fleet_kms_ok fleet_done).
  - intros ct kid pt [= -> -> ->]%list_elem_of_singleton. exists (demo_srk x07).
    split; [right|apply old_ciphertext_seals]. eexists. split_and!; [reflexivity|vm_compute; reflexivity|done].
  - apply (kms_schedule_reach _ _ alternating _ fleet_arrived_reach alternating_runs).
Defined.

(** The mutexes are not enough by themselves: on a TPM with two handles left each of
    the two requests is answered when it is alone, and the [Decrypt] fails when the
    [Encrypt] comes between its commands. *)
Definition crowded_kms : KmsState (O:=sim_ops) :=
  mkKmsState (O:=sim_ops) (svc fleet_kms)
    (Nat.iter 10 (λ w, (start_auth_session (TssOps:=sim_ops) 1%N SessionType_Hmac AES_128_CFB HashingAlgorithm_Sha256 w).2)
       fleet_sealers.2).
Definition answers (sys : SimSystem) : list bool := (λ e, is_ok e.2) <$> ks_log sys.
Example crowded_sections_collide :
  let sys := arrived crowded_kms [ReqEncrypt demo_request; ReqDecrypt old_request] in
  let apart := replicate 9 1%nat ++ replicate 5 0%nat in
  let mixed := take 12 alternating in
  runs apart sys = true ∧ answers (after apart sys) = [true; true] ∧
  runs mixed sys = true ∧ answers (after mixed sys) = [false; true].
Proof. vm_compute. done. Qed.
