(* ===== verification/Authz.v ===== *)
(** Enrollment authorization, [src/src/authz.rs]: from a certificate's common
    name to a node name, and from a node name to a current [Node] object.  The
    Kubernetes API ([kube::Api::get]) is a field of [KubeApi]: what the API
    server answers at the time of the request. *)
From S2P Require Import Prelude Grpc.

Definition NODE_IDENTITY_PREFIX : string := "system:node:".

Inductive AuthzError :=
| NotNodeIdentity (cn : string)
| UnknownNode (node_name : string).

(** [Display] of [AuthzError]. *)
Definition AuthzError_display (e : AuthzError) : string :=
  match e with
  | NotNodeIdentity cn => "client certificate CN " +:+ str_debug cn +:+
      " is not a k0s node identity (expected " +:+
      String DQUOTE ("system:node:<name>" +:+ String DQUOTE ")")
  | UnknownNode n => str_debug n +:+ " is not a current member of this cluster's Node objects"
  end%string.

Definition node_name_from_cn (cn : string) : outcome AuthzError string :=
  match strip_prefix NODE_IDENTITY_PREFIX cn with
  | None => Err (NotNodeIdentity cn)
  | Some name => if str_is_empty name then Err (NotNodeIdentity cn) else Ok name
  end.

Class KubeApi := {
  KubeClient : Type;
  KubeError : Type;
  Node : Type;
  (** [Api::<Node>::all(client).get(name)] *)
  api_node_get : KubeClient → string → outcome KubeError Node
}.

Definition authorize_node `{KubeApi} (client : KubeClient) (node_name : string) :
  outcome AuthzError unit :=
  _ ← map_err (λ _, UnknownNode node_name) (api_node_get client node_name);
  Ok tt.

Lemma node_name_from_cn_ok cn name :
  node_name_from_cn cn = Ok name ↔ cn = (NODE_IDENTITY_PREFIX +:+ name)%string ∧ name ≠ ""%string.
Proof.
  unfold node_name_from_cn. rewrite <- strip_prefix_Some.
  destruct (strip_prefix NODE_IDENTITY_PREFIX cn) as [n|]; [|split; [discriminate|by intros []]].
  destruct n as [|a n]; cbn [str_is_empty].
  - split; [discriminate|]. intros [[= <-] H]. by contradict H.
  - split; [by intros [= <-]|by intros [[= ->] _]].
Qed.

Lemma node_name_from_cn_cases cn :
  (∃ name, node_name_from_cn cn = Ok name) ∨ node_name_from_cn cn = Err (NotNodeIdentity cn).
Proof.
  unfold node_name_from_cn. destruct (strip_prefix _ _) as [[|]|]; cbn [str_is_empty]; eauto.
Qed.

Lemma authorize_node_ok `{KubeApi} client name :
  authorize_node client name = Ok tt ↔ ∃ n, api_node_get client name = Ok n.
Proof.
  unfold authorize_node. destruct (api_node_get client name) as [n|e|]; cbn; split;
    try (by intros [? [=]]); try done. by exists n.
Qed.

(** A common name is accepted exactly when it is [system:node:<name>] with
    a nonempty name, and yields that name; any other common name is refused as
    [NotNodeIdentity] with the name in the error. *)
Theorem node_name_from_cn_exact cn :
  (∀ name, node_name_from_cn cn = Ok name ↔
     cn = ("system:node:" +:+ name)%string ∧ name ≠ ""%string) ∧
  ((¬ ∃ name, cn = ("system:node:" +:+ name)%string ∧ name ≠ ""%string) →
   node_name_from_cn cn = Err (NotNodeIdentity cn)).
Proof.
  split; [apply node_name_from_cn_ok|]. intros Hno.
  destruct (node_name_from_cn_cases cn) as [[n Hn]|]; [|done].
  contradict Hno. exists n. by apply node_name_from_cn_ok.
Qed.

Lemma node_name_from_cn_exact_witness :
  node_name_from_cn "system:node:" = Err (NotNodeIdentity "system:node:").
Proof.
  apply (proj2 (node_name_from_cn_exact "system:node:")).
  intros (name & H & Hne). apply strip_prefix_Some in H. vm_compute in H. congruence.
Defined.
