(* ===== verification/Clap.v ===== *)
(** Declarative command lines, as the crate [clap] matches them.

    [src/src/cli.rs] and [src/crates/sceau-vex/src/bin/auto_vex_presence.rs] declare
    their arguments; from the structs and their attributes [clap] derives a
    description of the arguments and the conversion of what was matched into the
    struct.  Both are written out in [Cli.v] and [VexCli.v].  The matcher between them
    ([Command::try_get_matches_from]) is the class [Clap] here, and [ClapLaws] states
    what the crate documents about a successful match.  [sim_clap] is a small matcher
    that satisfies the laws. *)
From Stdlib Require Import Strings.Ascii.
From S2P Require Import Prelude Net.

(** * Arguments *)
(** [value_parser!(String)] and [PathBuf]; an integer in an inclusive range; [bool]. *)
Inductive ValueParser := ParseText | ParseRange (lo hi : Z) | ParseBool.
Inductive ArgValue := TextValue (s : string) | IntValue (n : Z) | BoolValue (b : bool).
Inductive ArgAction := ActSet | ActSetTrue | ActAppend.
Record Arg := mkArg {
  arg_long : string;
  arg_action : ArgAction;
  arg_parser : ValueParser;
  arg_required : bool;
  arg_default : option ArgValue
}.
(** [globals] are the arguments of the root that every subcommand takes too. *)
Record ClapCommand := mkClapCommand {
  globals : list Arg;
  args : list Arg;
  subcommands : list (string * list Arg)
}.
Record ArgMatches := mkArgMatches { subcommand_name : option string; get_many : string → list ArgValue }.

Definition value_fits (p : ValueParser) (v : ArgValue) : bool :=
  match p, v with
  | ParseText, TextValue _ | ParseBool, BoolValue _ => true
  | ParseRange lo hi, IntValue n => (lo <=? n) && (n <=? hi)
  | _, _ => false
  end.

Fixpoint subcommand_args (subs : list (string * list Arg)) (name : string) : list Arg :=
  match subs with
  | [] => []
  | (n, l) :: subs' => if bool_decide (n = name) then l else subcommand_args subs' name
  end.
(** The arguments that a match is about. *)
Definition in_scope (c : ClapCommand) (m : ArgMatches) : list Arg :=
  globals c ++ args c ++
  match subcommand_name m with
  | Some name => subcommand_args (subcommands c) name
  | None => []
  end.
(** How many values an argument has. *)
Definition values_complete (a : Arg) (vs : list ArgValue) : Prop :=
  match arg_action a with
  | ActSet => (length vs ≤ 1)%nat ∧ (arg_required a = true ∨ is_Some (arg_default a) → length vs = 1%nat)
  | ActSetTrue => length vs = 1%nat
  | ActAppend => arg_required a = true → vs ≠ []
  end.
(** The values of an argument that is not given. *)
Definition absent_values (a : Arg) : list ArgValue :=
  match arg_action a with
  | ActSetTrue => [BoolValue false]
  | _ => match arg_default a with Some v => [v] | None => [] end
  end.
(** A word of the command line is the option [--name], alone or with [=value]. *)
Definition mentions (name w : string) : bool :=
  bool_decide (w = "--" +:+ name)%string || starts_with ("--" +:+ name +:+ "=") w.

Class Clap := {
  ClapError : Type;
  (** the error of a derived conversion that misses an argument *)
  missing_argument : ClapError;
  (** [Error::exit]: 2 for a wrong command line, with a message on standard error;
      0 for [--help] and [--version], with the text on standard output *)
  clap_exit_code : ClapError → Z;
  clap_stdout : ClapError → string;
  clap_stderr : ClapError → string;
  try_get_matches_from : ClapCommand → list string → outcome ClapError ArgMatches
}.
Class ClapLaws `{C : Clap} := {
  clap_no_panic c argv : no_panic (try_get_matches_from c argv);
  clap_errors_on_stderr e : clap_exit_code e ≠ 0 → clap_stdout e = ""%string;
  (** a subcommand is required if there are any, and is given as a word *)
  clap_subcommand c argv m :
    try_get_matches_from c argv = Ok m → subcommands c ≠ [] →
    ∃ name, subcommand_name m = Some name ∧ name ∈ (subcommands c).*1 ∧ name ∈ argv;
  (** every value went through its parser, defaults too, and none is missing *)
  clap_values c argv m a :
    try_get_matches_from c argv = Ok m → NoDup (arg_long <$> in_scope c m) → a ∈ in_scope c m →
    values_complete a (get_many m (arg_long a)) ∧
    Forall (λ v, value_fits (arg_parser a) v = true) (get_many m (arg_long a));
  (** what is not given has its default *)
  clap_absent c argv m a :
    try_get_matches_from c argv = Ok m → NoDup (arg_long <$> in_scope c m) → a ∈ in_scope c m →
    Forall (λ w, mentions (arg_long a) w = false) argv → get_many m (arg_long a) = absent_values a
}.


(** * Derived conversions *)
Section Derived.
Context `{C : Clap}.
(** [ArgMatches::remove_one] for a field that is not an [Option]. *)
Definition one_text (m : ArgMatches) (name : string) : outcome ClapError string :=
  match get_many m name with [TextValue s] => Ok s | _ => Err missing_argument end.
Definition one_int (m : ArgMatches) (name : string) : outcome ClapError Z :=
  match get_many m name with [IntValue n] => Ok n | _ => Err missing_argument end.
Definition one_bool (m : ArgMatches) (name : string) : outcome ClapError bool :=
  match get_many m name with [BoolValue b] => Ok b | _ => Err missing_argument end.
(** The same for an [Option] and for a [Vec]. *)
Definition maybe_text (m : ArgMatches) (name : string) : option string :=
  match get_many m name with [TextValue s] => Some s | _ => None end.
Definition many_text (m : ArgMatches) (name : string) : list string :=
  omap (λ v, match v with TextValue s => Some s | _ => None end) (get_many m name).
End Derived.

(** The shapes of declaration that the two programs use. *)
Definition text_arg (long : string) (required : bool) (dflt : option string) : Arg :=
  mkArg long ActSet ParseText required (TextValue <$> dflt).
Definition int_arg (long : string) (lo hi dflt : Z) : Arg :=
  mkArg long ActSet (ParseRange lo hi) false (Some (IntValue dflt)).
Definition flag_arg (long : string) : Arg := mkArg long ActSetTrue ParseBool false None.
Definition list_arg (long : string) (required : bool) : Arg := mkArg long ActAppend ParseText required None.

Section Matched.
Context `{C : Clap} {CL : ClapLaws} (c : ClapCommand) (argv : list string) (m : ArgMatches).
Context (Hm : try_get_matches_from c argv = Ok m) (Hnd : NoDup (arg_long <$> in_scope c m)).

Lemma one_text_ok long required dflt :
  text_arg long required dflt ∈ in_scope c m → required = true ∨ is_Some dflt →
  ∃ s, one_text m long = Ok s ∧
    (Forall (λ w, mentions long w = false) argv → dflt = Some s).
Proof.
  intros Ha Hp. destruct (clap_values _ _ _ _ Hm Hnd Ha) as [[_ Hlen] Hfit]. cbn in *.
  pose proof (clap_absent _ _ _ _ Hm Hnd Ha) as Habs. cbn in Habs. unfold one_text.
  assert (length (get_many m long) = 1%nat) as Hone.
  { apply Hlen. destruct Hp as [?|[s ->]]; [by left|right; cbn; eauto]. }
  destruct (get_many m long) as [|v [|? ?]]; try done.
  apply Forall_inv in Hfit; cbn in Hfit. destruct v as [s| |]; [|done..]. exists s. split; [done|].
  intros Hno. specialize (Habs Hno). by destruct dflt; simplify_eq/=.
Qed.
Lemma one_int_ok long lo hi dflt :
  int_arg long lo hi dflt ∈ in_scope c m →
  ∃ n, one_int m long = Ok n ∧ lo ≤ n ≤ hi ∧ (Forall (λ w, mentions long w = false) argv → n = dflt).
Proof.
  intros Ha. destruct (clap_values _ _ _ _ Hm Hnd Ha) as [[_ Hlen] Hfit]. cbn in *.
  pose proof (clap_absent _ _ _ _ Hm Hnd Ha) as Habs. cbn in Habs. unfold one_int.
  assert (length (get_many m long) = 1%nat) as Hone by (apply Hlen; right; eauto).
  destruct (get_many m long) as [|v [|? ?]]; try done.
  apply Forall_inv in Hfit; cbn in Hfit. destruct v as [|n|]; try done. apply andb_true_iff in Hfit as [?%Z.leb_le ?%Z.leb_le].
  exists n. split_and!; try done. intros Hno. specialize (Habs Hno). by simplify_eq.
Qed.
Lemma one_bool_ok long :
  flag_arg long ∈ in_scope c m →
  ∃ b, one_bool m long = Ok b ∧ (Forall (λ w, mentions long w = false) argv → b = false).
Proof.
  intros Ha. destruct (clap_values _ _ _ _ Hm Hnd Ha) as [Hlen Hfit]. cbn in *.
  pose proof (clap_absent _ _ _ _ Hm Hnd Ha) as Habs. cbn in Habs. unfold one_bool.
  destruct (get_many m long) as [|v [|? ?]]; cbn in *; try done.
  apply Forall_inv in Hfit; cbn in Hfit. destruct v as [| |b]; try done. exists b. split; [done|].
  intros Hno. specialize (Habs Hno). by simplify_eq.
Qed.
Lemma many_text_ok long : list_arg long true ∈ in_scope c m → many_text m long ≠ [].
Proof.
  intros Ha. destruct (clap_values _ _ _ _ Hm Hnd Ha) as [Hlen Hfit]. cbn in *. unfold many_text.
  destruct (get_many m long) as [|v vs]; [by specialize (Hlen eq_refl)|].
  apply Forall_inv in Hfit; cbn in Hfit. by destruct v.
Qed.
End Matched.

(** * A matcher *)
(** [--name=value], [--name value], flags, and words for subcommands. *)
Fixpoint split_eq (s : string) : option (string * string) :=
  match s with
  | EmptyString => None
  | String c r =>
      if Ascii.eqb c "="%char then Some (EmptyString, r)
      else x ← split_eq r; Some (String c x.1, x.2)
  end.
Definition Occurrences : Type := list (string * option string).
Fixpoint sim_scan (flags : list string) (argv : list string) : option (list string * Occurrences) :=
  match argv with
  | [] => Some ([], [])
  | w :: rest =>
      match strip_prefix "--" w with
      | None => r ← sim_scan flags rest; Some (w :: r.1, r.2)
      | Some body =>
          match split_eq body with
          | Some (n, v) => r ← sim_scan flags rest; Some (r.1, (n, Some v) :: r.2)
          | None =>
              if bool_decide (body ∈ flags) then r ← sim_scan flags rest; Some (r.1, (body, None) :: r.2)
              else match rest with
                   | v :: rest' => r ← sim_scan flags rest'; Some (r.1, (body, Some v) :: r.2)
                   | [] => None
                   end
          end
      end
  end.
Definition sim_int (s : string) : option Z :=
  match read_digits 10 0 0 s with (n, S _, EmptyString) => Some n | _ => None end.
Definition sim_parse (p : ValueParser) (o : option string) : option ArgValue :=
  match p, o with
  | ParseText, Some s => Some (TextValue s)
  | ParseRange _ _, Some s => IntValue <$> sim_int s
  | ParseBool, None => Some (BoolValue true)
  | _, _ => None
  end.
Definition complete_b (a : Arg) (vs : list ArgValue) : bool :=
  match arg_action a with
  | ActSet => bool_decide (length vs ≤ 1)%nat &&
      (negb (arg_required a || bool_decide (is_Some (arg_default a))) || bool_decide (length vs = 1%nat))
  | ActSetTrue => bool_decide (length vs = 1%nat)
  | ActAppend => negb (arg_required a) || match vs with [] => false | _ => true end
  end.
Definition given (name : string) (occ : Occurrences) : list (option string) :=
  omap (λ o, if bool_decide (o.1 = name) then Some o.2 else None) occ.
Definition sim_values (a : Arg) (occ : Occurrences) : option (list ArgValue) :=
  vs ← match given (arg_long a) occ with [] => Some (absent_values a) | os => mapM (sim_parse (arg_parser a)) os end;
  if complete_b a vs && forallb (value_fits (arg_parser a)) vs then Some vs else None.
Fixpoint find_arg (name : string) (l : list Arg) : option Arg :=
  match l with [] => None | a :: l' => if bool_decide (arg_long a = name) then Some a else find_arg name l' end.
Definition sim_get (scope : list Arg) (occ : Occurrences) (name : string) : list ArgValue :=
  default [] (a ← find_arg name scope; sim_values a occ).
Definition sim_flags (c : ClapCommand) : list string :=
  arg_long <$> filter (λ a, value_fits (arg_parser a) (BoolValue true) = true)
    (globals c ++ args c ++ (s ← subcommands c; s.2)).
Definition sim_subcommand (c : ClapCommand) (words : list string) : option (option string) :=
  match subcommands c, words with
  | [], [] => Some None
  | _ :: _, [name] => if bool_decide (name ∈ (subcommands c).*1) then Some (Some name) else None
  | _, _ => None
  end.
Definition sim_matches (c : ClapCommand) (argv : list string) : option ArgMatches :=
  r ← sim_scan (sim_flags c) argv;
  sub ← sim_subcommand c r.1;
  let scope := in_scope c (mkArgMatches sub (λ _, [])) in
  if forallb (λ a, bool_decide (is_Some (sim_values a r.2))) scope
     && forallb (λ o, bool_decide (o.1 ∈ arg_long <$> scope)) r.2
  then Some (mkArgMatches sub (sim_get scope r.2)) else None.
#[export] Instance sim_clap : Clap | 100 := {|
  ClapError := unit; missing_argument := tt; clap_exit_code _ := 2; clap_stdout _ := ""%string;
  clap_stderr _ := "error: unexpected argument"%string;
  try_get_matches_from c argv := match sim_matches c argv with Some m => Ok m | None => Err tt end
|}.

Lemma complete_b_sound a vs : complete_b a vs = true → values_complete a vs.
Proof.
  unfold complete_b, values_complete. destruct (arg_action a).
  - intros [H1%bool_decide_eq_true H2]%andb_true_iff. split; [done|].
    intros Hp. apply orb_true_iff in H2 as [H2|H2%bool_decide_eq_true]; [|done].
    apply negb_true_iff, orb_false_iff in H2 as [H3 H4%bool_decide_eq_false]. destruct Hp; congruence || done.
  - by intros ?%bool_decide_eq_true.
  - intros H Hr ->. by rewrite Hr in H.
Qed.
Lemma find_arg_in a l : NoDup (arg_long <$> l) → a ∈ l → find_arg (arg_long a) l = Some a.
Proof.
  induction l as [|b l IH]; [by intros _ ?%elem_of_nil|]. cbn. intros [Hb Hl]%list.NoDup_cons [->|Ha]%elem_of_cons.
  - by rewrite bool_decide_true.
  - rewrite bool_decide_false; [by apply IH|]. intros Heq. apply Hb. rewrite Heq. by apply list_elem_of_fmap_2.
Qed.
Lemma split_eq_spec s n v : split_eq s = Some (n, v) → s = (n +:+ "=" +:+ v)%string.
Proof.
  revert n. induction s as [|c s IH]; intros n; [done|]. cbn. destruct (Ascii.eqb_spec c "="%char) as [->|].
  - by intros [= <- <-].
  - intros ([n' v'] & Hs & [= <- <-])%bind_Some. by rewrite (IH _ Hs).
Qed.
Lemma mentions_plain body w : strip_prefix "--" w = Some body → mentions body w = true.
Proof. intros ->%strip_prefix_Some. unfold mentions. by rewrite bool_decide_true. Qed.
Lemma mentions_eq body w n v :
  strip_prefix "--" w = Some body → split_eq body = Some (n, v) → mentions n w = true.
Proof.
  intros ->%strip_prefix_Some ->%split_eq_spec. unfold mentions. apply orb_true_iff. right.
  unfold starts_with. apply bool_decide_eq_true. exists v. apply strip_prefix_Some.
  by rewrite !append_assoc.
Qed.
(** What occurs was mentioned. *)
Lemma sim_scan_mentions flags k : ∀ argv words occ n o, (length argv ≤ k)%nat →
  sim_scan flags argv = Some (words, occ) → (n, o) ∈ occ → ∃ w, w ∈ argv ∧ mentions n w = true.
Proof.
  induction k as [|k IH]; intros [|w rest] words occ n o Hlen; cbn [length] in Hlen; try lia;
    cbn [sim_scan]; try (by intros [= <- <-] ?%elem_of_nil).
  assert (∀ words occ, sim_scan flags rest = Some (words, occ) → (n, o) ∈ occ →
    ∃ u, u ∈ w :: rest ∧ mentions n u = true) as Hrest.
  { intros ws oc Hs Hin. destruct (IH rest ws oc n o ltac:(lia) Hs Hin) as (u & ? & ?). exists u. split; [by right|done]. }
  destruct (strip_prefix "--" w) as [body|] eqn:Hw.
  2: { intros ([ws oc] & Hs & [= <- <-])%bind_Some. by apply (Hrest ws). }
  destruct (split_eq body) as [[n' v]|] eqn:He.
  { intros ([ws oc] & Hs & [= <- <-])%bind_Some [[= -> ->]|Hin]%elem_of_cons; [|by apply (Hrest ws oc)].
    exists w. split; [by left|by eapply mentions_eq]. }
  case_bool_decide.
  { intros ([ws oc] & Hs & [= <- <-])%bind_Some [[= -> ->]|Hin]%elem_of_cons; [|by apply (Hrest ws oc)].
    exists w. split; [by left|by apply mentions_plain]. }
  destruct rest as [|v rest]; [done|].
  intros ([ws oc] & Hs & [= <- <-])%bind_Some [[= -> ->]|Hin]%elem_of_cons.
  - exists w. split; [by left|by apply mentions_plain].
  - destruct (IH rest ws oc n o ltac:(cbn in Hlen; lia) Hs Hin) as (u & ? & ?). exists u. split; [|done]. by right; right.
Qed.
Lemma sim_scan_words flags k : ∀ argv words occ n, (length argv ≤ k)%nat →
  sim_scan flags argv = Some (words, occ) → n ∈ words → n ∈ argv.
Proof.
  induction k as [|k IH]; intros [|w rest] words occ n Hlen; cbn [length] in Hlen; try lia;
    cbn [sim_scan]; try (by intros [= <- <-]).
  assert (∀ words occ, sim_scan flags rest = Some (words, occ) → n ∈ words → n ∈ w :: rest) as Hrest.
  { intros ws oc Hs Hin. right. by apply (IH rest ws oc); [lia|..]. }
  repeat case_match; try done; intros ([ws oc] & Hs & [= <- <-])%bind_Some; cbn [fst] in *; try (by eapply Hrest).
  - intros Hin. right; right. by apply (IH _ ws oc); [cbn in Hlen; lia|..].
  - intros [->|Hin]%elem_of_cons; [by left|by eapply Hrest].
Qed.
Lemma given_absent name occ : (∀ o, (name, o) ∉ occ) → given name occ = [].
Proof.
  induction occ as [|[n o] occ IH]; [done|]. intros H. cbn. rewrite bool_decide_false.
  - apply IH. intros o' Ho'. apply (H o'). by right.
  - intros ->. apply (H o). by left.
Qed.

(** A match, taken apart. *)
Lemma sim_matches_inv c argv m :
  sim_matches c argv = Some m → ∃ words occ,
    sim_scan (sim_flags c) argv = Some (words, occ) ∧ sim_subcommand c words = Some (subcommand_name m) ∧
    (∀ a, a ∈ in_scope c m → is_Some (sim_values a occ)) ∧ get_many m = sim_get (in_scope c m) occ.
Proof.
  intros ([words occ] & Hs & H)%bind_Some. apply bind_Some in H as (sub & Hsub & H). cbv zeta in H. cbn [fst snd] in H.
  destruct (forallb _ _ && _) eqn:Hc; [|done]. injection H as <-. exists words, occ. split_and!; try done.
  intros a Ha. apply andb_true_iff in Hc as [Hc _].
  apply (bool_decide_unpack _), Is_true_true, (proj1 (forallb_forall _ _) Hc). by apply list_elem_of_In.
Qed.
Lemma sim_matches_values c argv m a :
  sim_matches c argv = Some m → NoDup (arg_long <$> in_scope c m) → a ∈ in_scope c m →
  ∃ words occ, sim_scan (sim_flags c) argv = Some (words, occ) ∧ sim_values a occ = Some (get_many m (arg_long a)).
Proof.
  intros (words & occ & Hs & _ & Hall & Hget)%sim_matches_inv Hnd Ha. exists words, occ. split; [done|].
  rewrite Hget. unfold sim_get. rewrite find_arg_in by done. cbn. by destruct (Hall a Ha) as [vs ->].
Qed.
Lemma sim_try c argv m : try_get_matches_from c argv = Ok m → sim_matches c argv = Some m.
Proof. cbn. by destruct (sim_matches c argv) as [m'|]; [intros [= ->]|]. Qed.
#[export] Instance sim_clap_laws : ClapLaws.
Proof.
  split.
  - intros c argv. cbn. by destruct (sim_matches c argv).
  - done.
  - intros c argv m (words & occ & Hs & Hsub & _)%sim_try%sim_matches_inv Hne. unfold sim_subcommand in Hsub.
    destruct (subcommands c) as [|s subs]; [done|]. destruct words as [|name [|? ?]]; [done| |done].
    case_bool_decide; [|done]. injection Hsub as <-. exists name. split_and!; try done.
    apply (sim_scan_words (sim_flags c) (length argv) argv [name] occ); [lia|done|by left].
  - intros c argv m a Hm%sim_try Hnd Ha. destruct (sim_matches_values c argv m a Hm Hnd Ha) as (words & occ & _ & Hv).
    apply bind_Some in Hv as (vs & _ & Hv). destruct (complete_b a vs) eqn:Hc; [|done].
    destruct (forallb _ _) eqn:Hf; [|done]. injection Hv as <-. split; [by apply complete_b_sound|].
    apply Forall_forall. intros v Hin. by apply (proj1 (forallb_forall _ _) Hf).
  - intros c argv m a Hm%sim_try Hnd Ha Habs.
    destruct (sim_matches_values c argv m a Hm Hnd Ha) as (words & occ & Hs & Hv).
    unfold sim_values in Hv. rewrite given_absent in Hv.
    + cbn in Hv. by destruct (_ && _); simplify_eq.
    + intros o Ho. destruct (sim_scan_mentions _ (length argv) argv words occ _ o ltac:(lia) Hs Ho) as (w & Hw & Hmen).
      rewrite Forall_forall in Habs. rewrite (Habs w) in Hmen; [done|]. by apply list_elem_of_In.
Qed.
