(* ===== verification/Cli.v ===== *)
(** The command line of [sceau], [src/src/cli.rs]: the description of the arguments
    ([sceau_command]) and the conversion into [Cli] that [clap] derives from the
    declarations there. *)
From S2P Require Import Prelude Certs Net Clap.

Definition DEFAULT_ENROLL_MAX : Z := 1.
Definition DEFAULT_ENROLL_TIMEOUT_SECS : Z := 300.
Definition DEFAULT_TCTI : string := "device:/dev/tpmrm0".
Definition DEFAULT_SOCKET : string := "/run/sceau/sceau.sock".

Inductive Command :=
| Serve (socket : string) (force_legacy : bool)
| Genesis (force : bool)
| Enroll_ (listen : string) (max timeout_secs : Z) (k0s_data_dir : string)
| Join_ (seed k0s_data_dir : string)
| Status_.
Record Cli := mkCli { cli_tcti : string; cli_command : Command }.

(** What the value parsers guarantee: [max] is a [u32] of at least 1,
    [timeout_secs] a [u64]. *)
Definition parsable (c : Command) : bool :=
  match c with
  | Enroll_ _ max secs _ => (1 <=? max) && (max <? 2 ^ 32) && (0 <=? secs) && (secs <? 2 ^ 64)
  | _ => true
  end.

Definition U64_MAX : Z := 2 ^ 64 - 1.

(** [#[derive(Parser)]]: the root takes [--tcti], which is global, and a
    subcommand. *)
Definition sceau_command : ClapCommand := {|
  globals := [text_arg "tcti" false (Some DEFAULT_TCTI)];
  args := [];
  subcommands := [
    ("serve", [text_arg "socket" false (Some DEFAULT_SOCKET); flag_arg "force-legacy"]);
    ("genesis", [flag_arg "force"]);
    ("enroll", [text_arg "listen" true None;
                int_arg "max" 1 U32_MAX DEFAULT_ENROLL_MAX;
                int_arg "timeout-secs" 0 U64_MAX DEFAULT_ENROLL_TIMEOUT_SECS;
                text_arg "k0s-data-dir" false (Some K0S_DEFAULT_DATA_DIR)]);
    ("join", [text_arg "seed" true None; text_arg "k0s-data-dir" false (Some K0S_DEFAULT_DATA_DIR)]);
    ("status", [])]%string
|}.

Section Parse.
Context `{C : Clap}.
(** [Command::from_arg_matches]. *)
Definition Command_from_arg_matches (m : ArgMatches) : outcome ClapError Command :=
  match subcommand_name m with
  | Some "serve"%string =>
      socket ← one_text m "socket"; force_legacy ← one_bool m "force-legacy"; Ok (Serve socket force_legacy)
  | Some "genesis"%string => force ← one_bool m "force"; Ok (Genesis force)
  | Some "enroll"%string =>
      listen ← one_text m "listen"; max ← one_int m "max"; timeout_secs ← one_int m "timeout-secs";
      k0s_data_dir ← one_text m "k0s-data-dir"; Ok (Enroll_ listen max timeout_secs k0s_data_dir)
  | Some "join"%string =>
      seed ← one_text m "seed"; k0s_data_dir ← one_text m "k0s-data-dir"; Ok (Join_ seed k0s_data_dir)
  | Some "status"%string => Ok Status_
  | _ => Err missing_argument
  end.
Definition Cli_from_arg_matches (m : ArgMatches) : outcome ClapError Cli :=
  tcti ← one_text m "tcti"; command ← Command_from_arg_matches m; Ok (mkCli tcti command).
(** [Cli::try_parse_from], without the program's name. *)
Definition Cli_try_parse_from (argv : list string) : outcome ClapError Cli :=
  m ← try_get_matches_from sceau_command argv; Cli_from_arg_matches m.
End Parse.

(** * What an accepted command line means *)
Section Accepted.
Context `{C : Clap} {CL : ClapLaws} (argv : list string).
(** No word is the option [--name]. *)
Definition absent (name : string) : Prop := Forall (λ w, mentions name w = false) argv.

(** The subcommand's word. *)
Definition command_word (c : Command) : string :=
  match c with
  | Serve _ _ => "serve" | Genesis _ => "genesis" | Enroll_ _ _ _ _ => "enroll" | Join_ _ _ => "join"
  | Status_ => "status"
  end.
(** Numbers are in range, what is not given has its default, and the command was
    named. *)
Definition well_parsed (cli : Cli) : Prop :=
  parsable (cli_command cli) = true ∧
  (absent "tcti" → cli_tcti cli = DEFAULT_TCTI) ∧
  match cli_command cli with
  | Serve socket force_legacy =>
      (absent "socket" → socket = DEFAULT_SOCKET) ∧ (absent "force-legacy" → force_legacy = false)
  | Genesis force => absent "force" → force = false
  | Enroll_ _ max timeout_secs k0s_data_dir =>
      (absent "max" → max = DEFAULT_ENROLL_MAX) ∧
      (absent "timeout-secs" → timeout_secs = DEFAULT_ENROLL_TIMEOUT_SECS) ∧
      (absent "k0s-data-dir" → k0s_data_dir = K0S_DEFAULT_DATA_DIR)
  | Join_ _ k0s_data_dir => absent "k0s-data-dir" → k0s_data_dir = K0S_DEFAULT_DATA_DIR
  | Status_ => True
  end ∧ command_word (cli_command cli) ∈ argv.

(** The five scopes have no name twice. *)
Lemma sceau_scope m name :
  subcommand_name m = Some name → name ∈ (subcommands sceau_command).*1 →
  NoDup (arg_long <$> in_scope sceau_command m) ∧
  name ∈ ["serve"; "genesis"; "enroll"; "join"; "status"]%string.
Proof.
  intros Hn Hin. split; [|exact Hin]. unfold in_scope. rewrite Hn.
  repeat (apply elem_of_cons in Hin as [->|Hin]; [apply (bool_decide_unpack _); vm_compute; exact I|]).
  by apply elem_of_nil in Hin.
Qed.

Ltac in_args := unfold in_scope; match goal with H : subcommand_name _ = _ |- _ => rewrite H end;
  cbn; repeat (apply elem_of_cons; first [left; reflexivity|right]).

Lemma from_arg_matches_ok m :
  try_get_matches_from sceau_command argv = Ok m →
  ∃ cli, Cli_from_arg_matches m = Ok cli ∧ well_parsed cli.
Proof.
  intros Hm. destruct (clap_subcommand _ _ _ Hm) as (name & Hn & Hin & Hargv); [done|].
  destruct (sceau_scope m name Hn Hin) as [Hnd Hcases]. clear Hin.
  destruct (one_text_ok _ _ _ Hm Hnd "tcti" false (Some DEFAULT_TCTI)) as (tcti & Ht & Htd); [in_args|right; eauto|].
  unfold Cli_from_arg_matches, Command_from_arg_matches, well_parsed. rewrite Ht, Hn. cbn [mbind outcome_bind].
  assert (absent "tcti" → tcti = DEFAULT_TCTI) as Htd' by (intros H; apply Htd in H; congruence).
  repeat (apply elem_of_cons in Hcases as [->|Hcases]); [| | | | |by apply elem_of_nil in Hcases]; cbn [mbind outcome_bind].
  - destruct (one_text_ok _ _ _ Hm Hnd "socket" false (Some DEFAULT_SOCKET)) as (s & -> & Hs); [in_args|right; eauto|].
    destruct (one_bool_ok _ _ _ Hm Hnd "force-legacy") as (b & -> & Hb); [in_args|].
    eexists. split; [reflexivity|]. cbn. split_and!; try done. intros H. apply Hs in H. congruence.
  - destruct (one_bool_ok _ _ _ Hm Hnd "force") as (b & -> & Hb); [in_args|].
    eexists. split; [reflexivity|]. by cbn.
  - destruct (one_text_ok _ _ _ Hm Hnd "listen" true None) as (l & -> & _); [in_args|by left|].
    destruct (one_int_ok _ _ _ Hm Hnd "max" 1 U32_MAX DEFAULT_ENROLL_MAX) as (n & -> & Hn1 & Hn2); [in_args|].
    destruct (one_int_ok _ _ _ Hm Hnd "timeout-secs" 0 U64_MAX DEFAULT_ENROLL_TIMEOUT_SECS) as (d & -> & Hd1 & Hd2); [in_args|].
    destruct (one_text_ok _ _ _ Hm Hnd "k0s-data-dir" false (Some K0S_DEFAULT_DATA_DIR)) as (k & -> & Hk); [in_args|right; eauto|].
    eexists. split; [reflexivity|]. unfold U32_MAX, U64_MAX in *. cbn -[Z.pow]. split_and!; try done.
    + rewrite !andb_true_iff, !Z.leb_le, !Z.ltb_lt. lia.
    + intros H. apply Hk in H. congruence.
  - destruct (one_text_ok _ _ _ Hm Hnd "seed" true None) as (s & -> & _); [in_args|by left|].
    destruct (one_text_ok _ _ _ Hm Hnd "k0s-data-dir" false (Some K0S_DEFAULT_DATA_DIR)) as (k & -> & Hk); [in_args|right; eauto|].
    eexists. split; [reflexivity|]. cbn. split_and!; try done. intros H. apply Hk in H. congruence.
  - eexists. split; [reflexivity|]. by cbn.
Qed.
Lemma try_parse_ok cli : Cli_try_parse_from argv = Ok cli → well_parsed cli.
Proof.
  intros (m & Hm & Hc)%bind_Ok. destruct (from_arg_matches_ok m Hm) as (cli' & Hc' & Hw). congruence.
Qed.
End Accepted.

(** * Examples *)
(** The cases of [src/src/cli_tests.rs]. *)
Definition parse (argv : list string) : option Cli :=
  match Cli_try_parse_from (C:=sim_clap) argv with Ok cli => Some cli | _ => None end.
Abbreviation rejected argv := (parse argv%string = None).
Abbreviation commands argv c := (cli_command <$> parse argv%string = Some c%string).

Example serve_tests :
  commands ["serve"] (Serve DEFAULT_SOCKET false) ∧
  commands ["serve"; "--socket"; "/tmp/sceau.sock"] (Serve "/tmp/sceau.sock" false) ∧
  commands ["serve"; "--force-legacy"] (Serve DEFAULT_SOCKET true).
Proof. vm_compute. done. Qed.
Example genesis_tests : commands ["genesis"] (Genesis false) ∧ commands ["genesis"; "--force"] (Genesis true).
Proof. vm_compute. done. Qed.
Example enroll_tests :
  rejected ["enroll"] ∧
  commands ["enroll"; "--listen"; "0.0.0.0:8443"] (Enroll_ "0.0.0.0:8443" 1 300 K0S_DEFAULT_DATA_DIR) ∧
  commands ["enroll"; "--listen"; "127.0.0.1:8443"; "--max"; "3"; "--timeout-secs"; "120"]
    (Enroll_ "127.0.0.1:8443" 3 120 K0S_DEFAULT_DATA_DIR) ∧
  rejected ["enroll"; "--listen"; "127.0.0.1:8443"; "--max"; "0"] ∧
  rejected ["enroll"; "--listen=127.0.0.1:8443"; "--max=4294967296"] ∧
  commands ["enroll"; "--listen"; "127.0.0.1:8443"; "--k0s-data-dir"; "/opt/k0s"]
    (Enroll_ "127.0.0.1:8443" 1 300 "/opt/k0s").
Proof. vm_compute. done. Qed.
Example join_tests :
  rejected ["join"] ∧
  commands ["join"; "--seed"; "node1.k8s.example.com:8443"]
    (Join_ "node1.k8s.example.com:8443" K0S_DEFAULT_DATA_DIR).
Proof. vm_compute. done. Qed.
Example other_tests :
  rejected [] ∧ rejected ["bogus"] ∧ rejected ["--socket"; "/run/sceau/sceau.sock"] ∧ commands ["status"] Status_ ∧
  rejected ["status"; "--seed"; "somewhere:8443"] ∧
  cli_tcti <$> parse ["serve"]%string = Some DEFAULT_TCTI ∧
  cli_tcti <$> parse ["--tcti"; "device:/dev/tpmrm1"; "genesis"]%string = Some "device:/dev/tpmrm1"%string ∧
  cli_tcti <$> parse ["genesis"; "--tcti"; "device:/dev/tpmrm1"]%string = Some "device:/dev/tpmrm1"%string.
Proof. vm_compute. done. Qed.
