(* ===== verification/Permits.v ===== *)
(** The permit counter of [enroll] under concurrency.

    [Enroll::duplicate] ([src/src/enroll.rs]) runs once per request, and tonic
    runs requests concurrently.  The requests share an [AtomicUsize] and a
    [Notify]; between two of its accesses to them a request can be suspended and
    any other can run.  A request is a program counter here ([Pc], one
    constructor per place between two shared accesses), [advance] is its next
    atomic action, and an execution is any interleaving of the requests'
    actions.  Whether the body, [handle_duplicate], succeeds is chosen by the
    environment. *)
From S2P Require Import Prelude.

(** [usize] on a 64-bit target; [fetch_sub] and [fetch_add] wrap around. *)
Definition USIZE : Z := 2 ^ 64.
Definition fetch_sub_1 (n : Z) : Z := (n - 1) `mod` USIZE.
Definition fetch_add_1 (n : Z) : Z := (n + 1) `mod` USIZE.
#[global] Arguments fetch_sub_1 : simpl never.
#[global] Arguments fetch_add_1 : simpl never.

Inductive Reply := Served | RejectedMax | Failed.

(** [Entering]: before [fetch_sub].  [AtMax]: [permits_before] was 0, before
    the compensating [fetch_add].  [Handling]: inside [handle_duplicate].
    [Notifying]: served, before [notify_one].  [Restoring]: failed, before
    [fetch_add]. *)
Inductive Pc :=
| Entering
| AtMax
| Handling (was_last_permit : bool)
| Notifying
| Restoring
| Returned (r : Reply).

#[export] Instance Reply_eq_dec : EqDecision Reply.
Proof. solve_decision. Defined.
#[export] Instance Pc_eq_dec : EqDecision Pc.
Proof. solve_decision. Defined.

(** The two shared objects: [remaining], and whether [done] holds a
    notification ([notify_one] stores at most one). *)
Record Shared := mkShared { remaining : Z; notified : bool }.

(** The next atomic action of a request; [ok] is what [handle_duplicate]
    returns if that is the action. *)
Definition advance (ok : bool) (sh : Shared) (pc : Pc) : option (Shared * Pc) :=
  match pc with
  | Entering =>
      let permits_before := remaining sh in
      Some (mkShared (fetch_sub_1 permits_before) (notified sh),
            if permits_before =? 0 then AtMax else Handling (permits_before =? 1))
  | AtMax => Some (mkShared (fetch_add_1 (remaining sh)) (notified sh), Returned RejectedMax)
  | Handling was_last_permit =>
      Some (sh, if ok then (if was_last_permit then Notifying else Returned Served) else Restoring)
  | Notifying => Some (mkShared (remaining sh) true, Returned Served)
  | Restoring => Some (mkShared (fetch_add_1 (remaining sh)) (notified sh), Returned Failed)
  | Returned _ => None
  end.

Record Permits := mkPermits { shared : Shared; tasks : list Pc }.

(** A request arrives, or request [t] takes its next action. *)
Inductive Event := Arrive | Advance (t : nat) (ok : bool).

Definition exec (e : Event) (st : Permits) : option Permits :=
  match e with
  | Arrive => Some (mkPermits (shared st) (tasks st ++ [Entering]))
  | Advance t ok =>
      pc ← tasks st !! t;
      r ← advance ok (shared st) pc;
      Some (mkPermits r.1 (<[t := r.2]> (tasks st)))
  end.

(** [remaining: AtomicUsize::new(max as usize)]. *)
Definition permits_init (max : Z) : Permits := mkPermits (mkShared max false) [].

(** States reached by events that [guard] allows. *)
Inductive reach (guard : Event → Permits → Prop) (max : Z) : Permits → Prop :=
| reach_init : reach guard max (permits_init max)
| reach_step st e st' :
    reach guard max st → guard e st → exec e st = Some st' → reach guard max st'.

Definition anything (_ : Event) (_ : Permits) : Prop := True.
(** No request executes [fetch_sub] while another is between its failed
    [fetch_sub] and the compensating [fetch_add]. *)
Definition no_overlap (e : Event) (st : Permits) : Prop :=
  match e with
  | Advance t _ => tasks st !! t = Some Entering → AtMax ∉ tasks st
  | Arrive => True
  end.

(** * Counting *)
(** A request that holds a permit for good or for now; one that only borrowed
    it; one that was served. *)
Definition granted (pc : Pc) : Z :=
  match pc with Handling _ | Notifying | Restoring | Returned Served => 1 | _ => 0 end.
Definition borrowed (pc : Pc) : Z := match pc with AtMax => 1 | _ => 0 end.
Definition served (pc : Pc) : Z := match pc with Notifying | Returned Served => 1 | _ => 0 end.

Lemma granted_nonneg x : 0 ≤ granted x.
Proof. destruct x as [| | | | |[]]; simpl; lia. Qed.
Lemma borrowed_nonneg x : 0 ≤ borrowed x.
Proof. destruct x; simpl; lia. Qed.
Lemma served_granted x : served x ≤ granted x.
Proof. destruct x as [| | | | |[]]; simpl; lia. Qed.

Abbreviation total f st := (sum_with f (tasks st)).

(** A task's action: what it does to the shared state and to the counts. *)
Lemma exec_advance t ok st st' :
  exec (Advance t ok) st = Some st' →
  ∃ pc sh pc', tasks st !! t = Some pc ∧ advance ok (shared st) pc = Some (sh, pc') ∧
    st' = mkPermits sh (<[t := pc']> (tasks st)) ∧
    ∀ f, total f st' = total f st - f pc + f pc'.
Proof.
  cbn. destruct (tasks st !! t) as [pc|] eqn:Ht; [|done]. cbn.
  destruct (advance ok (shared st) pc) as [[sh pc']|] eqn:Ha; [|done]. cbn.
  intros [= <-]. exists pc, sh, pc'. split_and!; try done. intros f. by apply sum_with_insert.
Qed.

Ltac task_cases H :=
  let pc := fresh "pc" in
  destruct (exec_advance _ _ _ _ H) as (pc & ? & ? & ? & ? & -> & Hsum);
  destruct pc as [| |[]| | |]; simplify_eq/=.

(** * Invariants *)
Section Invariants.
Context (max : Z) (Hmax : 0 ≤ max < USIZE).

Definition conserved (st : Permits) : Prop :=
  remaining (shared st) = (max - total granted st - total borrowed st) `mod` USIZE.

Lemma wrap_sub a : (a `mod` USIZE - 1) `mod` USIZE = (a - 1) `mod` USIZE.
Proof. apply Zminus_mod_idemp_l. Qed.
Lemma wrap_add a : (a `mod` USIZE + 1) `mod` USIZE = (a + 1) `mod` USIZE.
Proof. apply Zplus_mod_idemp_l. Qed.

Lemma conserved_step e st st' : exec e st = Some st' → conserved st → conserved st'.
Proof.
  unfold conserved. intros He Hc. destruct e as [|t ok].
  { injection He as <-. cbn. rewrite !sum_with_app. cbn. rewrite Hc. f_equal. lia. }
  task_cases He; pose proof (Hsum granted) as Hg; pose proof (Hsum borrowed) as Hb;
    rewrite Hg, Hb, ?Hc; unfold fetch_sub_1, fetch_add_1; rewrite ?Hc, ?wrap_sub, ?wrap_add;
    repeat case_match; simplify_eq/=; f_equal; lia.
Qed.

Lemma reach_conserved guard st : reach guard max st → conserved st.
Proof.
  induction 1 as [|st e st' _ IH _ He]; [|by eapply conserved_step].
  unfold conserved; cbn. rewrite Z.mod_small; lia.
Qed.

(** Without overlap: never more than [max] permits out, at most one borrowed. *)
Definition calm (st : Permits) : Prop := total granted st ≤ max ∧ total borrowed st ≤ 1.

Lemma calm_remaining st :
  conserved st → calm st → total borrowed st = 0 → remaining (shared st) = max - total granted st.
Proof.
  intros Hc [Hg _] Hb. pose proof (sum_with_nonneg granted (tasks st) granted_nonneg).
  rewrite Hc, Hb, Z.mod_small; lia.
Qed.

Lemma no_atmax st : AtMax ∉ tasks st → total borrowed st = 0.
Proof.
  induction (tasks st) as [|x l IH]; [done|]. intros [Hx Hl]%not_elem_of_cons.
  cbn. rewrite (IH Hl). destruct x; done.
Qed.

Lemma calm_step e st st' :
  no_overlap e st → exec e st = Some st' → conserved st → calm st → calm st'.
Proof.
  intros Hno He Hc Hcalm. pose proof Hcalm as [Hg Hb]. destruct e as [|t ok].
  { injection He as <-. unfold calm. cbn. rewrite !sum_with_app. cbn. lia. }
  unfold calm. task_cases He; rewrite !Hsum; cbn; repeat case_match; simplify_eq/=; try lia.
  - rewrite (no_atmax _ (Hno H)). lia.
  - pose proof (calm_remaining _ Hc Hcalm (no_atmax _ (Hno H))) as Hrem.
    apply Z.eqb_neq in H0. lia.
Qed.

Lemma reach_calm st : reach no_overlap max st → calm st.
Proof.
  induction 1 as [|st e st' Hr IH Hno He]; [split; cbn; lia|].
  eapply calm_step; eauto using reach_conserved.
Qed.

(** When every permit is out, the notification has been stored or the request
    that will decide about it is still running. *)
Definition deciding (pc : Pc) : bool :=
  match pc with Handling true | Notifying | Restoring => true | _ => false end.
Definition announced (st : Permits) : Prop :=
  total granted st = max → notified (shared st) = true ∨ ∃ t pc, tasks st !! t = Some pc ∧ deciding pc.

Lemma announced_step e st st' :
  no_overlap e st → exec e st = Some st' → conserved st → calm st → announced st → announced st'.
Proof.
  intros Hno He Hc Hcalm Ha. destruct e as [|t ok].
  { injection He as <-. unfold announced. cbn. rewrite sum_with_app. cbn. intros Hg.
    destruct Ha as [?|(u & pc & Hu & ?)]; [lia|by left|].
    right. exists u, pc. split; [by apply lookup_app_l_Some|done]. }
  destruct (exec_advance _ _ _ _ He) as (pc & sh & pc' & Ht & Hadv & -> & Hsum).
  intros Hg. rewrite Hsum in Hg. cbn [shared tasks].
  assert (∀ u pc0, tasks st !! u = Some pc0 → deciding pc0 → u ≠ t →
    ∃ v pc1, <[t:=pc']> (tasks st) !! v = Some pc1 ∧ deciding pc1) as Hother.
  { intros u pc0 Hu Hd Hne. exists u, pc0. by rewrite list_lookup_insert_ne. }
  assert (deciding pc' → ∃ v pc1, <[t:=pc']> (tasks st) !! v = Some pc1 ∧ deciding pc1) as Hself.
  { intros. exists t, pc'. rewrite list_lookup_insert_eq; [done|by eapply lookup_lt_Some]. }
  assert (granted pc' = granted pc → deciding pc = false →
    notified sh = true ∨ ∃ v pc1, <[t:=pc']> (tasks st) !! v = Some pc1 ∧ deciding pc1) as Hkeep.
  { intros Hsame Hd. destruct Ha as [Hn|(u & pc0 & Hu & Hd')]; [lia| |].
    - left. destruct pc as [| |[]| | |]; simplify_eq/=; done.
    - right. apply (Hother u pc0); [done..|]. intros ->. simplify_eq. by rewrite Hd in Hd'. }
  destruct pc as [| |[]| | |]; simplify_eq/=; try (by auto).
  - case_match; [by apply Hkeep|]. right. apply Hself. cbn in *.
    pose proof (calm_remaining _ Hc Hcalm (no_atmax _ (Hno Ht))) as Hrem.
    assert (remaining (shared st) = 1) as -> by lia. done.
  - destruct ok; auto.
  - destruct ok; [apply Hkeep; done|auto].
  - destruct Hcalm as [? _]. lia.
Qed.

Lemma reach_announced st : 1 ≤ max → reach no_overlap max st → announced st.
Proof.
  intros H1. induction 1 as [|st e st' Hr IH Hno He].
  - unfold announced; cbn. lia.
  - eapply announced_step; eauto using reach_conserved, reach_calm.
Qed.
End Invariants.

(** * Requests one after the other *)
(** A request run alone to its reply: at most three actions. *)
Fixpoint run_pc (fuel : nat) (ok : bool) (sh : Shared) (pc : Pc) : option (Reply * Shared) :=
  match pc, fuel with
  | Returned r, _ => Some (r, sh)
  | _, O => None
  | _, S n => x ← advance ok sh pc; run_pc n ok x.1 x.2
  end.
Definition solo (ok : bool) (sh : Shared) : option (Reply * Shared) := run_pc 3 ok sh Entering.
Fixpoint sequential (oks : list bool) (sh : Shared) : option (list Reply * Shared) :=
  match oks with
  | [] => Some ([], sh)
  | ok :: oks' =>
      x ← solo ok sh;
      y ← sequential oks' x.2;
      Some (x.1 :: y.1, y.2)
  end.

(** The contract of [--max]: a budget that only a served request consumes. *)
Fixpoint budget (b : Z) (oks : list bool) : list Reply :=
  match oks with
  | [] => []
  | ok :: oks' =>
      if b =? 0 then RejectedMax :: budget b oks'
      else if ok then Served :: budget (b - 1) oks'
      else Failed :: budget b oks'
  end.
Definition served_in (rs : list Reply) : Z := sum_with served (Returned <$> rs).

Lemma fetch_sub_1_pos b : 0 < b < USIZE → fetch_sub_1 b = b - 1.
Proof. intros. apply Z.mod_small. lia. Qed.
Lemma fetch_add_sub b : 0 ≤ b < USIZE → fetch_add_1 (fetch_sub_1 b) = b.
Proof.
  intros. unfold fetch_add_1, fetch_sub_1. rewrite wrap_add.
  replace (b - 1 + 1) with b by lia. by apply Z.mod_small.
Qed.

Lemma solo_spec ok b n :
  0 ≤ b < USIZE →
  solo ok (mkShared b n) = Some (
    if b =? 0 then (RejectedMax, mkShared b n)
    else if ok then (Served, mkShared (b - 1) (n || (b =? 1)))
    else (Failed, mkShared b n)).
Proof.
  intros Hb. unfold solo. cbn. destruct (Z.eqb_spec b 0) as [->|Hne]; cbn.
  { by rewrite fetch_add_sub. }
  destruct ok; cbn; [|by rewrite fetch_add_sub].
  destruct (Z.eqb_spec b 1); cbn; rewrite fetch_sub_1_pos by lia; by rewrite ?orb_true_r, ?orb_false_r.
Qed.

Lemma served_in_nonneg rs : 0 ≤ served_in rs.
Proof. apply sum_with_nonneg. intros [| | | | |[]]; cbn; lia. Qed.

Lemma budget_served b oks : 0 ≤ b → served_in (budget b oks) ≤ b.
Proof.
  revert b. induction oks as [|ok oks IH]; intros b Hb; [done|]. cbn.
  destruct (Z.eqb_spec b 0); [|destruct ok]; cbn; unfold served_in in *; cbn.
  - pose proof (IH b Hb). lia.
  - pose proof (IH (b - 1) ltac:(lia)). lia.
  - pose proof (IH b Hb). lia.
Qed.

Lemma sequential_spec oks b n :
  0 ≤ b < USIZE →
  let rs := budget b oks in
  sequential oks (mkShared b n) =
    Some (rs, mkShared (b - served_in rs) (n || ((0 <? b) && (served_in rs =? b)))).
Proof.
  cbv zeta. revert b n. induction oks as [|ok oks IH]; intros b n Hb.
  { cbn [sequential budget]. change (served_in []) with 0. rewrite Z.sub_0_r.
    destruct (Z.ltb_spec 0 b), (Z.eqb_spec 0 b); try lia; by rewrite orb_false_r. }
  cbn [sequential budget]. rewrite solo_spec by done. cbn.
  destruct (Z.eqb_spec b 0) as [->|Hne]; cbn; [by rewrite IH by done|].
  destruct ok; cbn; [|by rewrite IH by done].
  rewrite IH by lia. cbn. unfold served_in. cbn.
  fold (served_in (budget (b - 1) oks)).
  pose proof (budget_served (b - 1) oks ltac:(lia)).
  pose proof (served_in_nonneg (budget (b - 1) oks)).
  f_equal. f_equal. f_equal; [lia|].
  destruct n; [done|]. cbn.
  destruct (Z.eqb_spec b 1), (Z.ltb_spec 0 (b - 1)), (Z.ltb_spec 0 b),
    (Z.eqb_spec (served_in (budget (b - 1) oks)) (b - 1)),
    (Z.eqb_spec (1 + served_in (budget (b - 1) oks)) b); cbn; done || lia.
Qed.

(** * Executions as event lists *)
Fixpoint exec_all (es : list Event) (st : Permits) : option Permits :=
  match es with
  | [] => Some st
  | e :: es' => st' ← exec e st; exec_all es' st'
  end.
Lemma reach_exec_all max es st st' :
  reach anything max st → exec_all es st = Some st' → reach anything max st'.
Proof.
  revert st. induction es as [|e es IH]; intros st Hr; cbn; [by intros [= <-]|].
  destruct (exec e st) as [st1|] eqn:He; [|done]. cbn. apply IH. by eapply reach_step.
Qed.

(** Three requests at [max = 1]: 0 takes the permit, 1 finds none and is
    suspended with the counter wrapped, 2 is granted a permit; all finish. *)
Definition overlap_events : list Event :=
  [Arrive; Arrive; Arrive; Advance 0 true; Advance 1 true; Advance 2 true;
   Advance 1 true; Advance 0 true; Advance 0 true; Advance 2 true].

(** A request served when the counter is positive. *)
Lemma serve_one max st :
  reach anything max st → 1 < remaining (shared st) < USIZE →
  ∃ st', reach anything max st' ∧ total served st' = total served st + 1 ∧
    remaining (shared st') = remaining (shared st) - 1.
Proof.
  intros Hr Hrem. set (t := length (tasks st)).
  assert (∀ pc pc', <[t := pc']> (tasks st ++ [pc]) = tasks st ++ [pc']) as Hins.
  { intros. unfold t. by rewrite insert_app_r_alt, Nat.sub_diag by lia. }
  assert (∀ pc, (tasks st ++ [pc]) !! t = Some pc) as Hlk.
  { intros. unfold t. by rewrite lookup_app_r, Nat.sub_diag by lia. }
  exists (mkPermits (mkShared (remaining (shared st) - 1) (notified (shared st)))
            (tasks st ++ [Returned Served])). split_and!; [|cbn; rewrite sum_with_app; cbn; lia|done].
  apply (reach_exec_all max [Arrive; Advance t true; Advance t true] st); [done|].
  cbn. rewrite Hlk. cbn. rewrite Hins.
  destruct (Z.eqb_spec (remaining (shared st)) 0); [lia|].
  destruct (Z.eqb_spec (remaining (shared st)) 1); [lia|].
  rewrite Hlk. cbn. by rewrite Hins, fetch_sub_1_pos by lia.
Qed.

Lemma overlap_serves n :
  2 ≤ n < USIZE → ∃ st, reach anything 1 st ∧ total served st = n ∧
                        remaining (shared st) = USIZE + 1 - n.
Proof.
  intros [H2 HU]. revert HU. pattern n. apply Zlt_lower_bound_ind with (z := 2); [|done].
  clear n H2. intros n IH Hn HU. destruct (decide (n = 2)) as [->|].
  - destruct (exec_all overlap_events (permits_init 1)) as [st|] eqn:He; [|vm_compute in He; done].
    exists st. split; [eapply reach_exec_all; [constructor|exact He]|].
    vm_compute in He. injection He as <-. split; vm_compute; reflexivity.
  - destruct (IH (n - 1)) as (st & Hr & Hs & Hrem); [lia..|].
    destruct (serve_one 1 st Hr) as (st' & ? & ? & ?); [lia|]. exists st'. split_and!; [done|lia..].
Qed.

Lemma returned_counts l :
  Forall (λ pc, ∃ r, pc = Returned r) l →
  sum_with granted l = sum_with served l - sum_with borrowed l.
Proof. induction 1 as [|x l [r ->] _ IH]; [done|]. destruct r; cbn; lia. Qed.

Ltac not_in := apply (bool_decide_unpack _); vm_compute; exact I.

(** * Theorems *)
(** Conservation, under every interleaving: the counter is [max] less
    the permits that requests hold (being handled, about to be restored, or
    served) and less those borrowed by requests about to be refused, modulo
    2^64.  In particular once all requests have returned, only served ones have
    kept a permit: failed and refused ones gave theirs back. *)
Theorem permits_conserved max st :
  0 ≤ max < USIZE → reach anything max st →
  remaining (shared st) = (max - total granted st - total borrowed st) `mod` USIZE ∧
  (Forall (λ pc, ∃ r, pc = Returned r) (tasks st) →
   remaining (shared st) = (max - total served st) `mod` USIZE).
Proof.
  intros Hmax Hr. pose proof (reach_conserved max Hmax _ _ Hr) as Hc. split; [exact Hc|].
  intros Hall. rewrite Hc, (returned_counts _ Hall). f_equal. lia.
Qed.

(** As long as no request takes a permit inside another's refusal window,
    [--max] holds at every moment: served and in-flight requests together never
    exceed it. *)
Theorem max_holds_without_overlap max st :
  0 ≤ max < USIZE → reach no_overlap max st →
  total served st ≤ total granted st ≤ max ∧
  (AtMax ∉ tasks st → remaining (shared st) = max - total granted st).
Proof.
  intros Hmax Hr. pose proof (reach_calm max Hmax _ Hr) as Hcalm.
  split; [split; [apply sum_with_mono, served_granted|by apply Hcalm]|].
  intros Hno. apply calm_remaining; eauto using reach_conserved, no_atmax.
Qed.

(** Under the same condition the listener learns that it is done: when all
    requests have returned and [max] of them were served, the notification that
    ends [serve_with_shutdown] has been stored. *)
Theorem full_enrollment_notifies max st :
  1 ≤ max < USIZE → reach no_overlap max st →
  Forall (λ pc, ∃ r, pc = Returned r) (tasks st) → total served st = max →
  notified (shared st) = true.
Proof.
  intros Hmax Hr Hall Hs.
  pose proof (reach_calm max ltac:(lia) _ Hr) as [Hg _].
  pose proof (sum_with_mono served granted (tasks st) served_granted).
  destruct (reach_announced max ltac:(lia) st ltac:(lia) Hr) as [?|(t & pc & Ht & Hd)]; [lia|done|].
  destruct (Forall_lookup_1 _ _ _ _ Hall Ht) as [r Hpc]. by rewrite Hpc in Hd.
Qed.

(** Requests that do not overlap at all are answered as the contract of
    [--max] says: a request is served if the body succeeds and the budget is not
    used up, failures cost nothing, and the listener is notified exactly when
    the budget reaches zero. *)
Theorem sequential_enrollment max oks :
  1 ≤ max < USIZE →
  let rs := budget max oks in
  sequential oks (mkShared max false) =
    Some (rs, mkShared (max - served_in rs) (served_in rs =? max)) ∧ served_in rs ≤ max.
Proof.
  cbv zeta. intros. split; [|apply budget_served; lia].
  pose proof (sequential_spec oks max false ltac:(lia)) as Hs. cbv zeta in Hs. rewrite Hs.
  by destruct (Z.ltb_spec 0 max); [|lia].
Qed.

(** Overlapping requests defeat [--max]: with [max = 1] there are
    executions that serve any number of joiners below 2^64, because a request
    that finds no permit first lets the counter wrap to 2^64 - 1 and a request
    that arrives before it is put back finds a permit there. *)
Theorem overlap_defeats_max n :
  2 ≤ n < USIZE → ∃ st, reach anything 1 st ∧ total served st = n.
Proof. intros Hn. destruct (overlap_serves n Hn) as (st & ? & ? & _). eauto. Qed.

(** The listener can close early: with [max = 2], the request that took
    the last permit notifies when it is served, also if the other one has failed
    in the meantime.  One joiner was served, one permit is free again, and the
    shutdown is already signalled. *)
Theorem listener_can_close_early :
  ∃ st, reach no_overlap 2 st ∧ Forall (λ pc, ∃ r, pc = Returned r) (tasks st) ∧
    total served st = 1 ∧ remaining (shared st) = 1 ∧ notified (shared st) = true.
Proof.
  exists (mkPermits (mkShared 1 true) [Returned Failed; Returned Served]).
  split; [|by split_and!; [repeat constructor; eauto|..]].
  eapply (reach_step _ _ (mkPermits (mkShared 1 false) [Returned Failed; Notifying]) (Advance 1 true));
    [|done|done].
  eapply (reach_step _ _ (mkPermits (mkShared 1 false) [Returned Failed; Handling true])
            (Advance 1 true)); [|done|done].
  eapply (reach_step _ _ (mkPermits (mkShared 0 false) [Restoring; Handling true])
            (Advance 0 true)); [|done|done].
  eapply (reach_step _ _ (mkPermits (mkShared 0 false) [Handling false; Handling true])
            (Advance 0 false)); [|done|done].
  eapply (reach_step _ _ (mkPermits (mkShared 1 false) [Handling false; Entering])
            (Advance 1 true)); [|intros _; not_in|done].
  eapply (reach_step _ _ (mkPermits (mkShared 2 false) [Entering; Entering])
            (Advance 0 true)); [|intros _; not_in|done].
  eapply (reach_step _ _ (mkPermits (mkShared 2 false) [Entering]) Arrive); [|done|done].
  eapply (reach_step _ _ (permits_init 2) Arrive); [constructor|done|done].
Qed.

(** * Examples *)
(** Two requests at [max = 1], the first served before the second arrives. *)
Definition two_events : list Event :=
  [Arrive; Advance 0 true; Advance 0 true; Advance 0 true; Arrive; Advance 1 true; Advance 1 true].
Definition two_tasks : Permits := mkPermits (mkShared 0 true) [Returned Served; Returned RejectedMax].

Lemma two_tasks_all_returned : Forall (λ pc, ∃ r, pc = Returned r) (tasks two_tasks).
Proof. repeat constructor; eauto. Qed.
Lemma two_tasks_reach : reach no_overlap 1 two_tasks.
Proof.
  eapply (reach_step _ _ (mkPermits (mkShared (USIZE - 1) true) [Returned Served; AtMax])
            (Advance 1 true)); [|done|vm_compute; reflexivity].
  eapply (reach_step _ _ (mkPermits (mkShared 0 true) [Returned Served; Entering])
            (Advance 1 true)); [|intros _; not_in|vm_compute; reflexivity].
  eapply (reach_step _ _ (mkPermits (mkShared 0 true) [Returned Served]) Arrive); [|done|done].
  eapply (reach_step _ _ (mkPermits (mkShared 0 false) [Notifying]) (Advance 0 true)); [|done|done].
  eapply (reach_step _ _ (mkPermits (mkShared 0 false) [Handling true]) (Advance 0 true)); [|done|done].
  eapply (reach_step _ _ (mkPermits (mkShared 1 false) [Entering]) (Advance 0 true));
    [|intros _; not_in|done].
  eapply (reach_step _ _ (permits_init 1) Arrive); [constructor|done|done].
Qed.

Lemma permits_conserved_witness :
  remaining (shared two_tasks) =
    (1 - total granted two_tasks - total borrowed two_tasks) `mod` USIZE ∧
  (Forall (λ pc, ∃ r, pc = Returned r) (tasks two_tasks) →
   remaining (shared two_tasks) = (1 - total served two_tasks) `mod` USIZE).
Proof.
  apply (permits_conserved 1 two_tasks); [done|].
  apply (reach_exec_all 1 two_events (permits_init 1)); [constructor|vm_compute; reflexivity].
Defined.

Lemma max_holds_without_overlap_witness :
  total served two_tasks ≤ total granted two_tasks ≤ 1 ∧
  (AtMax ∉ tasks two_tasks → remaining (shared two_tasks) = 1 - total granted two_tasks).
Proof. apply (max_holds_without_overlap 1 two_tasks); [done|apply two_tasks_reach]. Defined.

Lemma full_enrollment_notifies_witness : notified (shared two_tasks) = true.
Proof.
  apply (full_enrollment_notifies 1 two_tasks);
    [done|apply two_tasks_reach|apply two_tasks_all_returned|reflexivity].
Defined.

Lemma sequential_enrollment_witness :
  let rs := budget 1 [false; true; true] in
  sequential [false; true; true] (mkShared 1 false) =
    Some (rs, mkShared (1 - served_in rs) (served_in rs =? 1)) ∧ served_in rs ≤ 1.
Proof. apply (sequential_enrollment 1 [false; true; true]). done. Defined.

Lemma overlap_defeats_max_witness : ∃ st, reach anything 1 st ∧ total served st = 1000.
Proof. apply (overlap_defeats_max 1000). done. Defined.
