(* ===== verification/Enroll.v ===== *)
(** The seed side of enrollment, [src/src/enroll.rs]: the [Duplicate] RPC and
    the bounded listener around it.

    A handler runs on [EnrollState], the service and the TPM behind it.  The
    interleaving of concurrent handlers is the subject of [Permits.v] (the counter
    alone) and [EnrollConc.v] (the whole handlers); here one request runs at a time,
    and [duplicate_solo] connects it with the former.  The address
    parser, the kubeconfig loader and tonic's server are fields of
    [EnrollDeps]. *)
From S2P Require Import Prelude Grpc Host Net Tss SimTpm Envelope Sealer Kms Fleet Authz Certs Permits.

Record DuplicateRequest := mkDuplicateRequest { joiner_transport_public : list byte }.
Record DuplicateResponse := mkDuplicateResponse {
  r_fleet_key_public : list byte;
  r_duplicate_private : list byte;
  r_encrypted_secret : list byte;
  r_has_encryption_key : bool;
  r_encryption_key : list byte
}.
(** [tonic::Request]: the message and the chain the TLS layer accepted. *)
Record Request := mkRequest { peer_certs : option (list (list byte)); message : DuplicateRequest }.

Definition denied (e : string) : Status :=
  mkStatus Code_PermissionDenied ("sceau enroll: " +:+ e)%string.
Definition internal (e : string) : Status :=
  mkStatus Code_Internal ("sceau enroll: " +:+ e)%string.

(** [Display] of the error types of the crates. *)
Class ErrorText `{D : TssData} `{P : Pki} := {
  tss_display : TssError → string;
  rcgen_display : RcgenError → string;
  pkcs1_display : Pkcs1Error → string;
  pkcs8_display : Pkcs8Error → string
}.

(** [EnrollService]; [permits] is the pair of [remaining] and [done]. *)
Record EnrollService `{KA : KubeApi} := mkEnrollService {
  es_context : Mutex Ctx;
  es_fleet_key_handle : KeyHandle;
  es_kube_client : KubeClient;
  permits : Shared
}.

Section Enroll.
Context `{D : TssData} {O : TssOps} `{KA : KubeApi} `{X : X509} `{P : Pki} {ET : ErrorText}.

Definition FleetError_display (e : FleetError TssError) : string :=
  match e with
  | FleetError_Tpm e => "TPM error: " +:+ TpmError_display tss_display e
  | FleetError_Tss e => "TPM error: " +:+ tss_display e
  | NoSessionHandle => "TPM returned no session handle when starting an auth session"
  end%string.

Definition CertError_display (e : CertError) : string :=
  match e with
  | CertError_Read p e => "reading " +:+ p +:+ ": " +:+ io_display e
  | CertError_Parse l d => "parsing " +:+ l +:+ ": " +:+ str_debug d
  | NoCommonName l => l +:+ " has no Subject Common Name"
  | CertError_Authz e => AuthzError_display e
  | CertError_Rcgen e => "minting certificate: " +:+ rcgen_display e
  | InvalidValidityWindow => "computing certificate validity window"
  | CertError_Pkcs1 e => "converting CA key from PKCS#1 to PKCS#8: " +:+ pkcs1_display e
  | CertError_Pkcs8 e => "encoding CA key as PKCS#8: " +:+ pkcs8_display e
  end%string.

Record EnrollState := mkEnrollState { service : EnrollService; etpm : World }.

Definition set_permits (f : Shared → Shared) (s : EnrollService) : EnrollService :=
  mkEnrollService _ (es_context s) (es_fleet_key_handle s) (es_kube_client s) (f (permits s)).
Definition poison_context (s : EnrollService) : EnrollService :=
  mkEnrollService _ (mkMutex true (inner (es_context s))) (es_fleet_key_handle s)
    (es_kube_client s) (permits s).
Definition on_permits (f : Shared → Shared) (st : EnrollState) : EnrollState :=
  mkEnrollState (set_permits f (service st)) (etpm st).

(** The steps of [handle_duplicate] before its first [await]: who the peer
    claims to be. *)
Definition peer_node_name (request : Request) : outcome Status string :=
  peer_certs ← ok_or (denied "no client certificate presented") (peer_certs request);
  leaf ← ok_or (denied "empty client certificate chain") (head peer_certs);
  cn ← map_err (denied ∘ CertError_display) (peer_cert_common_name leaf);
  map_err (denied ∘ AuthzError_display) (node_name_from_cn cn).
(** All its authentication and authorization steps. *)
Definition authorize_request (client : KubeClient) (request : Request) : outcome Status string :=
  node_name ← peer_node_name request;
  _ ← map_err (denied ∘ AuthzError_display) (authorize_node client node_name);
  Ok node_name.

Definition marshall_public (p : Public) : outcome Status (list byte) :=
  map_err (λ e, internal (tss_display e)) (marshall p).

(** [self.context.lock()] around the TPM work. *)
Definition with_context {A} (body : Ctx → M World Status A) : M EnrollState Status A := λ st,
  if poisoned (es_context (service st)) then (Err (internal poison_message), st) else
  match body (inner (es_context (service st))) (etpm st) with
  | (Panic, w) => (Panic, mkEnrollState (poison_context (service st)) w)
  | (r, w) => (r, mkEnrollState (service st) w)
  end.

(** The response for a blob, field by field. *)
Definition response_of_blob (blob : DuplicationBlob) : outcome Status DuplicateResponse :=
  fleet_key_public ← marshall_public (fleet_key_public blob);
  Ok {| r_fleet_key_public := fleet_key_public;
        r_duplicate_private := value (duplicate_private blob);
        r_encrypted_secret := value (encrypted_secret blob);
        r_has_encryption_key := bool_decide (is_Some (encryption_key blob));
        r_encryption_key := match encryption_key blob with
                            | Some data => value data
                            | None => []
                            end |}.

Definition handle_duplicate (request : Request) : M EnrollState Status DuplicateResponse := λ st,
  (_ ← lift (authorize_request (es_kube_client (service st)) request);
   joiner_public ← lift (map_err (λ e, internal ("unmarshalling joiner transport public: "
                                                   +:+ tss_display e)%string)
                           (unmarshall (joiner_transport_public (message request))));
   blob ← with_context (λ context, map_errM (internal ∘ FleetError_display)
            (duplicate_for_joiner context (es_fleet_key_handle (service st)) joiner_public));
   lift (response_of_blob blob)) st.

(** [Enroll::duplicate]. *)
Definition fetch_sub : Shared → Shared := λ p, mkShared (fetch_sub_1 (remaining p)) (notified p).
Definition fetch_add : Shared → Shared := λ p, mkShared (fetch_add_1 (remaining p)) (notified p).
Definition notify_one : Shared → Shared := λ p, mkShared (remaining p) true.
Definition duplicate (request : Request) : M EnrollState Status DuplicateResponse := λ st,
  let permits_before := remaining (permits (service st)) in
  let st1 := on_permits fetch_sub st in
  if permits_before =? 0 then
    (Err (denied "--max already reached"), on_permits fetch_add st1)
  else
    let was_last_permit := permits_before =? 1 in
    match handle_duplicate request st1 with
    | (Ok response, st2) =>
        (Ok response, if was_last_permit then on_permits notify_one st2 else st2)
    | (Err status, st2) => (Err status, on_permits fetch_add st2)
    | (Panic, st2) => (Panic, st2)
    end.
End Enroll.

(** * The listener *)
(** [kube::config] and [tonic::transport]. *)
Class EnrollDeps `{KA : KubeApi} := {
  Kubeconfig : Type;
  KubeConfig : Type;
  KubeconfigError : Type;
  TransportError : Type;
  kubeconfig_read_from : string → outcome KubeconfigError Kubeconfig;
  from_custom_kubeconfig : Kubeconfig → outcome KubeconfigError KubeConfig;
  kube_client_try_from : KubeConfig → outcome KubeError KubeClient;
  (** the server's certificate and key, and the client CA root *)
  server_tls_config : string * string → string → outcome TransportError unit;
  (** binding the address *)
  listen_on : SocketAddr → outcome TransportError unit
}.

Section RunEnroll.
Context `{D : TssData} {O : TssOps} `{KA : KubeApi} `{X : X509} `{P : Pki} {PI : PkiIssue}
  {ET : ErrorText} {ED : EnrollDeps}.

Inductive EnrollError :=
| EnrollError_Fleet (e : FleetError TssError)
| EnrollError_Tss (e : TssError)
| EnrollError_Cert (e : CertError)
| EnrollError_Read (path : string) (e : IoError)
| InvalidListenAddress (addr : string) (e : AddrParseError)
| EnrollError_InvalidTcti (tcti text : string)
| EnrollError_Transport (e : TransportError)
| EnrollError_Kube (e : KubeError)
| EnrollError_Kubeconfig (path : string) (e : KubeconfigError).

(** What [run_enroll] hands to the server. *)
Record Listener := mkListener {
  ls_addr : SocketAddr;
  ls_node_name : string;
  ls_identity : string * string;
  ls_client_ca : string;
  ls_service : EnrollService
}.

(** [run_enroll] up to the construction of the server.  [fs], [now] and
    [leaf_key] are the host's files, clock and key generator. *)
Definition enroll_setup (fs : Fs) (now : OffsetDateTime) (leaf_key : outcome RcgenError KeyPair)
  (listen : string) (max : Z) (tcti k0s_data_dir : string) : M World EnrollError Listener :=
  addr ← lift (map_err (InvalidListenAddress listen) (parse_socket_addr listen));
  tcti_conf ← lift (map_err (λ e, EnrollError_InvalidTcti tcti (tss_display e)) (tcti_from_str tcti));
  context ← map_errM EnrollError_Tss (context_new tcti_conf);
  on_failure (context_drop context) (
    fleet_key_handle ← map_errM EnrollError_Fleet (load_fleet_key context);
    node_name ← lift (map_err EnrollError_Cert (own_node_name fs k0s_data_dir));
    identity ← lift (map_err EnrollError_Cert
                 (mint_enroll_server_identity fs now leaf_key node_name k0s_data_dir));
    let ca_cert_path := path_join k0s_data_dir "pki/ca.crt" in
    ca_cert_pem ← lift (map_err (EnrollError_Read ca_cert_path) (read_to_string fs ca_cert_path));
    let admin_kubeconfig_path := path_join k0s_data_dir "pki/admin.conf" in
    kubeconfig ← lift (map_err (EnrollError_Kubeconfig admin_kubeconfig_path)
                         (kubeconfig_read_from admin_kubeconfig_path));
    kube_config ← lift (map_err (EnrollError_Kubeconfig admin_kubeconfig_path)
                          (from_custom_kubeconfig kubeconfig));
    kube_client ← lift (map_err EnrollError_Kube (kube_client_try_from kube_config));
    mret {| ls_addr := addr; ls_node_name := node_name; ls_identity := identity;
            ls_client_ca := ca_cert_pem;
            ls_service := mkEnrollService _ (mkMutex false context) fleet_key_handle kube_client
                            (mkShared max false) |}).

(** [serve_with_shutdown]: requests are served until [done] is notified or the
    timeout elapses; [incoming] are the requests that arrive before it. *)
Fixpoint serve_requests (incoming : list Request) :
  M EnrollState EnrollError (list (RpcResult DuplicateResponse)) := λ st,
  if notified (permits (service st)) then (Ok [], st) else
  match incoming with
  | [] => (Ok [], st)
  | r :: rest => (x ← respond (duplicate r); xs ← serve_requests rest; mret (x :: xs)) st
  end.

Definition serve (s : EnrollService) (incoming : list Request) :
  M World EnrollError (list (RpcResult DuplicateResponse)) := λ w,
  let (r, st) := serve_requests incoming (mkEnrollState s w) in (r, etpm st).

(** [run_enroll]; the replies are what the clients get.  The service, and the
    context in it, are dropped with the server. *)
Definition run_enroll (fs : Fs) (now : OffsetDateTime) (leaf_key : outcome RcgenError KeyPair)
  (incoming : list Request) (listen : string) (max : Z) (tcti k0s_data_dir : string) :
  M World EnrollError (list (RpcResult DuplicateResponse)) :=
  l ← enroll_setup fs now leaf_key listen max tcti k0s_data_dir;
  finally (context_drop (inner (es_context (ls_service l)))) (
    _ ← lift (map_err EnrollError_Transport (server_tls_config (ls_identity l) (ls_client_ca l)));
    _ ← lift (map_err EnrollError_Transport (listen_on (ls_addr l)));
    serve (ls_service l) incoming).
End RunEnroll.

(** * Specification *)
Section EnrollSpec.
Context `{D : TssData} {L : TssDataLaws} {O : TssOps} {TM : TpmModel} {TS : TpmSpec} `{KA : KubeApi} `{X : X509}
  `{P : Pki} {ET : ErrorText}.

(** The peer's leaf certificate names [name], a current [Node]. *)
Definition names_node (client : KubeClient) (request : Request) (name : string) : Prop :=
  ∃ leaf chain cert attr rest, peer_certs request = Some (leaf :: chain) ∧
    parse_x509_certificate leaf = Ok cert ∧ iter_common_name cert = attr :: rest ∧
    attr_as_str attr = Ok (NODE_IDENTITY_PREFIX +:+ name)%string ∧ name ≠ ""%string ∧
    ∃ n, api_node_get client name = Ok n.
Definition entitled (client : KubeClient) (request : Request) : Prop :=
  ∃ name, names_node client request name.

(** The peer's leaf certificate has the common name of the node [name]. *)
Definition claims_node (request : Request) (name : string) : Prop :=
  ∃ leaf chain cert attr rest, peer_certs request = Some (leaf :: chain) ∧
    parse_x509_certificate leaf = Ok cert ∧ iter_common_name cert = attr :: rest ∧
    attr_as_str attr = Ok (NODE_IDENTITY_PREFIX +:+ name)%string ∧ name ≠ ""%string.
Lemma peer_node_name_ok req name : peer_node_name req = Ok name ↔ claims_node req name.
Proof.
  unfold peer_node_name, claims_node. rewrite bind_Ok. setoid_rewrite ok_or_Ok.
  setoid_rewrite bind_Ok. setoid_rewrite ok_or_Ok. setoid_rewrite bind_Ok. setoid_rewrite map_err_Ok.
  setoid_rewrite peer_cert_common_name_ok. setoid_rewrite node_name_from_cn_ok. split.
  - intros (certs & Hc & leaf & Hl & cn & (cert & attr & rest & Hp & Hi & Ha) & -> & Hne).
    destruct certs as [|leaf' chain]; simplify_eq/=. by exists leaf, chain, cert, attr, rest.
  - intros (leaf & chain & cert & attr & rest & Hc & Hp & Hi & Ha & Hne).
    exists (leaf :: chain). split; [done|]. exists leaf. split; [done|].
    exists (NODE_IDENTITY_PREFIX +:+ name)%string. split; [by exists cert, attr, rest|done].
Qed.
Lemma authorize_request_ok client req name :
  authorize_request client req = Ok name ↔ names_node client req name.
Proof.
  unfold authorize_request. rewrite bind_Ok. setoid_rewrite peer_node_name_ok.
  setoid_rewrite bind_Ok. setoid_rewrite map_err_Ok. split.
  - intros (n & (leaf & chain & cert & attr & rest & ? & ? & ? & ? & ?) & [] & Hz%authorize_node_ok & [= ->]).
    by exists leaf, chain, cert, attr, rest.
  - intros (leaf & chain & cert & attr & rest & ? & ? & ? & ? & ? & ?). exists name.
    split; [by exists leaf, chain, cert, attr, rest|]. exists tt. by rewrite authorize_node_ok.
Qed.

Lemma peer_node_name_err req s : peer_node_name req = Err s → status_code s = Code_PermissionDenied.
Proof.
  unfold peer_node_name. destruct (peer_certs req) as [cs|]; cbn; [|by intros [= <-]].
  destruct (head cs) as [leaf|]; cbn; [|by intros [= <-]].
  destruct (peer_cert_common_name leaf) as [cn|e|]; cbn; [|by intros [= <-]|done].
  by destruct (node_name_from_cn cn) as [n|e|]; cbn; [|intros [= <-]|].
Qed.
Lemma authorize_request_err client req s :
  authorize_request client req = Err s → status_code s = Code_PermissionDenied.
Proof.
  unfold authorize_request. destruct (peer_node_name req) as [n|e|] eqn:Hn; cbn; [| |done].
  - by destruct (authorize_node client n) as [[]|e|]; cbn; [|intros [= <-]|].
  - intros [= <-]. by eapply peer_node_name_err.
Qed.

Lemma on_permits_restore st :
  0 ≤ remaining (permits (service st)) < USIZE →
  on_permits fetch_add (on_permits fetch_sub st) = st.
Proof.
  destruct st as [[c h k [r n]] w]. cbn. intros Hr.
  unfold on_permits, set_permits, fetch_add, fetch_sub. cbn. by rewrite fetch_add_sub.
Qed.

(** A handler that fails before the TPM is asked. *)
Lemma handle_duplicate_unauthorized req st s :
  authorize_request (es_kube_client (service st)) req = Err s →
  handle_duplicate req st = (Err s, st).
Proof. intros H. unfold handle_duplicate. rewrite H. done. Qed.
Lemma handle_duplicate_malformed req st name e :
  authorize_request (es_kube_client (service st)) req = Ok name →
  unmarshall (joiner_transport_public (message req)) = Err e →
  handle_duplicate req st =
    (Err (internal ("unmarshalling joiner transport public: " +:+ tss_display e)%string), st).
Proof. intros Ha Hu. unfold handle_duplicate. rewrite Ha, Hu. done. Qed.

(** The handler touches neither the counter nor the notification. *)
Lemma handle_duplicate_permits req st r st' :
  handle_duplicate req st = (r, st') → permits (service st') = permits (service st).
Proof.
  unfold handle_duplicate. destruct (authorize_request _ _) as [n|s|]; cbn; [|by intros [= _ <-]..].
  destruct (unmarshall _) as [jp|e|]; cbn; [|by intros [= _ <-]..].
  unfold mbind, M_bind, with_context, lift. cbn.
  destruct (poisoned _); [by intros [= _ <-]|].
  destruct (map_errM _ _ _) as [[b|e|] w]; [|by intros [= _ <-]..].
  by intros [= _ <-].
Qed.

(** A service that can serve: a healthy lock, and a handle for a duplicable
    key [k] in its context. *)
Record service_ok (st : EnrollState) (k : Key) : Prop := {
  so_ready : ready (etpm st);
  so_room : room 2 (etpm st);
  so_lock : poisoned (es_context (service st)) = false;
  so_key : key_at (view (etpm st)) (inner (es_context (service st)))
             (es_fleet_key_handle (service st)) k;
  so_duplicable : duplicable_key k
}.

Lemma response_of_blob_ok blob : ∃ r, response_of_blob blob = Ok r.
Proof.
  unfold response_of_blob, marshall_public.
  destruct (marshall_total (fleet_key_public blob)) as (bs & -> & _). cbn. eauto.
Qed.

Lemma handle_duplicate_spec req st k jp :
  service_ok st k → entitled (es_kube_client (service st)) req →
  unmarshall (joiner_transport_public (message req)) = Ok jp → wrappable jp = true →
  run (handle_duplicate req) st (λ resp st', service st' = service st ∧ ready (etpm st') ∧
    view (etpm st') = view (etpm st) ∧
    ∃ blob, blob_for jp blob k ∧ response_of_blob blob = Ok resp).
Proof.
  intros [Hr Hroom Hlock Hkey Hdup] [name Hn] Hu Hw. apply authorize_request_ok in Hn.
  unfold handle_duplicate, run. rewrite Hn, Hu. cbn.
  destruct (run_map_errM (internal ∘ FleetError_display) _ _ _
    (duplicate_for_joiner_spec _ _ _ jp _ Hr Hroom Hkey Hdup Hw)) as (blob & w' & Hm & Hr' & Hv & Hb).
  unfold mbind, M_bind, with_context, lift. cbn. rewrite Hlock, Hm.
  destruct (response_of_blob_ok blob) as [resp Hresp]. rewrite Hresp.
  exists resp, (mkEnrollState (service st) w'). split_and!; eauto.
Qed.
(** A public area the TPM refuses, at [TPM2_LoadExternal] or [TPM2_Duplicate]. *)
Lemma handle_duplicate_refused req st k jp :
  service_ok st k → entitled (es_kube_client (service st)) req →
  unmarshall (joiner_transport_public (message req)) = Ok jp → wrappable jp = false →
  fails (handle_duplicate req) st (λ s st', service st' = service st ∧ ready (etpm st') ∧
    view (etpm st') = view (etpm st) ∧ status_code s = Code_Internal).
Proof.
  intros [Hr Hroom Hlock Hkey Hdup] [name Hn] Hu Hw. apply authorize_request_ok in Hn.
  unfold handle_duplicate, fails. rewrite Hn, Hu. cbn.
  destruct (fails_map_errM (internal ∘ FleetError_display) (duplicate_for_joiner
    (inner (es_context (service st))) (es_fleet_key_handle (service st)) jp) (etpm st) (λ s w', ready w' ∧
    view w' = view (etpm st) ∧ status_code s = Code_Internal)) as (s & w' & Hm & Hr' & Hv & Hs).
  { eapply fails_mono; [by eapply (duplicate_for_joiner_refused _ _ k jp)|]. by intros ? ? (? & ? & _). }
  unfold mbind, M_bind, with_context, lift. cbn. rewrite Hlock, Hm.
  by exists s, (mkEnrollState (service st) w').
Qed.
End EnrollSpec.

(** * Theorems *)
Section EnrollTheorems.
Context `{D : TssData} {L : TssDataLaws} {O : TssOps} {TM : TpmModel} {TS : TpmSpec} `{KA : KubeApi} `{X : X509}
  `{P : Pki} {PI : PkiIssue} {ET : ErrorText} {ED : EnrollDeps}.
Implicit Types st : EnrollState.

Lemma duplicate_ok_inv req st resp st' :
  duplicate req st = (Ok resp, st') →
  ∃ st2, handle_duplicate req (on_permits fetch_sub st) = (Ok resp, st2).
Proof.
  unfold duplicate. destruct (_ =? 0); [done|].
  destruct (handle_duplicate _ _) as [[r|s|] st2]; cbn; [|done..]. intros [= <- _]. eauto.
Qed.

(** C19. Authorization: the fleet key is duplicated only for a peer whose TLS
    client certificate has the common name [system:node:<name>] of a [Node] that
    currently exists in the cluster. *)
Theorem only_cluster_nodes_are_served req st resp st' :
  duplicate req st = (Ok resp, st') → entitled (es_kube_client (service st)) req.
Proof.
  intros [st2 H]%duplicate_ok_inv. unfold handle_duplicate in H.
  destruct (authorize_request _ req) as [name|s|] eqn:Ha; [|done..].
  exists name. by apply authorize_request_ok in Ha.
Qed.

(** C20. Any other peer is refused with PERMISSION_DENIED, and the refusal
    leaves the service, its permits and the TPM exactly as they were. *)
Theorem unentitled_request_changes_nothing req st r st' :
  0 ≤ remaining (permits (service st)) < USIZE →
  ¬ entitled (es_kube_client (service st)) req → duplicate req st = (r, st') → no_panic r →
  ∃ s, r = Err s ∧ status_code s = Code_PermissionDenied ∧ st' = st.
Proof.
  intros Hrem Hno Hd Hp. unfold duplicate in Hd. cbv zeta in Hd.
  destruct (_ =? 0). { rewrite on_permits_restore in Hd by done. injection Hd as <- <-. eauto. }
  destruct (authorize_request (es_kube_client (service st)) req) as [name|s|] eqn:Ha.
  - destruct Hno. exists name. by apply authorize_request_ok.
  - rewrite (handle_duplicate_unauthorized _ _ s) in Hd by done.
    rewrite on_permits_restore in Hd by done. injection Hd as <- <-.
    eauto using authorize_request_err.
  - unfold handle_duplicate in Hd. cbn in Hd. rewrite Ha in Hd. cbn in Hd. by injection Hd as <- _.
Qed.

Lemma duplicate_served req st k jp :
  service_ok st k → entitled (es_kube_client (service st)) req →
  unmarshall (joiner_transport_public (message req)) = Ok jp → wrappable jp = true →
  0 < remaining (permits (service st)) < USIZE →
  run (duplicate req) st (λ resp st',
    (∃ blob, blob_for jp blob k ∧ response_of_blob blob = Ok resp) ∧
    ready (etpm st') ∧ view (etpm st') = view (etpm st) ∧
    permits (service st') =
      mkShared (remaining (permits (service st)) - 1)
        (notified (permits (service st)) || (remaining (permits (service st)) =? 1))).
Proof.
  intros Hok Hent Hu Hw Hrem. set (st1 := on_permits fetch_sub st).
  assert (service_ok st1 k) as Hok1 by (by destruct Hok).
  destruct (handle_duplicate_spec req st1 k jp Hok1 Hent Hu Hw)
    as (resp & st2 & Hh & Hs & Hr & Hv & Hb).
  unfold run, duplicate. destruct (Z.eqb_spec (remaining (permits (service st))) 0); [lia|].
  fold st1. rewrite Hh. eexists resp, _. split; [reflexivity|].
  assert (permits (service st2) = fetch_sub (permits (service st))) as Hp by (by rewrite Hs).
  destruct (_ =? 1); split_and!; try done; cbn; rewrite Hp;
    unfold notify_one, fetch_sub; cbn [remaining notified];
    by rewrite fetch_sub_1_pos, ?orb_true_r, ?orb_false_r by lia.
Qed.
Lemma duplicate_refused_joiner req st k jp :
  service_ok st k → entitled (es_kube_client (service st)) req →
  unmarshall (joiner_transport_public (message req)) = Ok jp → wrappable jp = false →
  0 < remaining (permits (service st)) < USIZE →
  fails (duplicate req) st (λ s st', status_code s = Code_Internal ∧ service st' = service st ∧
    ready (etpm st') ∧ view (etpm st') = view (etpm st)).
Proof.
  intros Hok Hent Hu Hw Hrem. set (st1 := on_permits fetch_sub st).
  assert (service_ok st1 k) as Hok1 by (by destruct Hok).
  destruct (handle_duplicate_refused req st1 k jp Hok1 Hent Hu Hw) as (s & st2 & Hh & Hs & Hr & Hv & Hc).
  unfold fails, duplicate. destruct (Z.eqb_spec (remaining (permits (service st))) 0); [lia|].
  fold st1. rewrite Hh. eexists s, _. split; [reflexivity|]. split_and!; try done.
  pose proof (f_equal service (on_permits_restore st ltac:(lia))) as Hres. fold st1 in Hres.
  cbn in *. by rewrite Hs.
Qed.

(** C21. A current node is served exactly when the TPM can wrap a key for the
    public area it sent.  With a permit left and a healthy service that holds the
    fleet key: for a storage key's public area the request succeeds, the response
    encodes a duplicate of the fleet key for exactly that area, one permit is
    used, the last one notifies the listener, and the TPM keeps nothing; for any
    other area, refused by [TPM2_LoadExternal] or by [TPM2_Duplicate], the answer
    is INTERNAL, the permit is returned, and the TPM keeps nothing either. *)
Theorem entitled_joiner_is_served req st k jp :
  service_ok st k → entitled (es_kube_client (service st)) req →
  unmarshall (joiner_transport_public (message req)) = Ok jp →
  0 < remaining (permits (service st)) < USIZE →
  (wrappable jp = true →
   run (duplicate req) st (λ resp st',
     (∃ blob, blob_for jp blob k ∧ response_of_blob blob = Ok resp) ∧
     ready (etpm st') ∧ view (etpm st') = view (etpm st) ∧
     permits (service st') =
       mkShared (remaining (permits (service st)) - 1)
         (notified (permits (service st)) || (remaining (permits (service st)) =? 1)))) ∧
  (wrappable jp = false →
   fails (duplicate req) st (λ s st', status_code s = Code_Internal ∧ service st' = service st ∧
     ready (etpm st') ∧ view (etpm st') = view (etpm st))).
Proof. eauto using duplicate_served, duplicate_refused_joiner. Qed.

Lemma duplicate_solo req st r st' :
  duplicate req st = (r, st') → no_panic r →
  ∃ ok reply, solo ok (permits (service st)) = Some (reply, permits (service st')) ∧
              (reply = Served ↔ ∃ resp, r = Ok resp).
Proof.
  unfold duplicate, solo. intros Hd Hp. cbn. destruct (_ =? 0).
  { injection Hd as <- <-. eexists true, _. split; [reflexivity|]. split; [done|by intros [? [=]]]. }
  destruct (handle_duplicate _ _) as [[resp|s|] st2] eqn:Hh; simplify_eq; [| |done];
    apply handle_duplicate_permits in Hh.
  - exists true, Served. split; [|split; eauto].
    destruct (_ =? 1); cbn; unfold notify_one; by rewrite Hh.
  - exists false, Failed. split; [|split; [done|by intros [? [=]]]].
    cbn. unfold fetch_add. by rewrite Hh.
Qed.

(** What a request that runs alone does to the permits. *)
Lemma duplicate_permits req st r st' b n :
  duplicate req st = (r, st') → no_panic r → permits (service st) = mkShared b n → 0 ≤ b < USIZE →
  ((∃ resp, r = Ok resp) ∧ b ≠ 0 ∧ permits (service st') = mkShared (b - 1) (n || (b =? 1))) ∨
  ((∃ s, r = Err s) ∧ permits (service st') = mkShared b n).
Proof.
  intros Hd Hp Hpm Hb. destruct (duplicate_solo _ _ _ _ Hd Hp) as (ok & reply & Hs & Hr).
  rewrite Hpm, solo_spec in Hs by done.
  assert (reply ≠ Served → ∃ s, r = Err s) as Herr.
  { intros Hne. destruct r as [resp|s|]; [|by eexists|done]. destruct Hne. by apply Hr; eexists. }
  destruct (Z.eqb_spec b 0); [|destruct ok]; simplify_eq; [right; auto|left|right; auto].
  split_and!; [by apply Hr|done..].
Qed.

(** Refinement: on the counter and the notification, a request that runs
    alone does what the atomic-step model of [Permits] does, and a reply is
    positive exactly when that model serves. *)
Theorem duplicate_refines_solo req st r st' :
  duplicate req st = (r, st') → no_panic r →
  ∃ ok reply, solo ok (permits (service st)) = Some (reply, permits (service st')) ∧
              (reply = Served ↔ ∃ resp, r = Ok resp).
Proof. apply duplicate_solo. Qed.

(** A request that is answered with an error gives its permit back. *)
Theorem failed_request_restores_permit req st s st' :
  0 ≤ remaining (permits (service st)) < USIZE → duplicate req st = (Err s, st') →
  permits (service st') = permits (service st).
Proof.
  intros Hrem Hd. destruct (permits (service st)) as [b n] eqn:Hpm.
  destruct (duplicate_permits _ _ _ _ b n Hd) as [[[? [=]] _]|[_ ?]]; done.
Qed.

(** A handler that panics keeps its permit. *)
Lemma duplicate_permits_panic req st st' b n :
  duplicate req st = (Panic, st') → permits (service st) = mkShared b n → 0 ≤ b < USIZE →
  b ≠ 0 ∧ permits (service st') = mkShared (b - 1) n.
Proof.
  unfold duplicate. intros Hd Hpm Hb. cbv zeta in Hd. rewrite Hpm in Hd. cbn in Hd.
  destruct (Z.eqb_spec b 0); [done|].
  destruct (handle_duplicate _ _) as [[resp|s|] st2] eqn:Hh; simplify_eq.
  apply handle_duplicate_permits in Hh. rewrite Hh. cbn. rewrite Hpm. split; [done|].
  unfold fetch_sub. cbn. by rewrite fetch_sub_1_pos by lia.
Qed.

(** The replies that carry a blob, and the connections that broke. *)
Definition is_answered {A} (x : RpcResult A) : bool := match x with Answered _ => true | _ => false end.
Definition is_aborted {A} (x : RpcResult A) : bool := match x with Aborted => true | _ => false end.
Definition count_served {A} (xs : list (RpcResult A)) : Z := Z.of_nat (length (List.filter is_answered xs)).
Definition count_aborted {A} (xs : list (RpcResult A)) : Z := Z.of_nat (length (List.filter is_aborted xs)).
Definition count_used {A} (xs : list (RpcResult A)) : Z := count_served xs + count_aborted xs.

Lemma count_used_cons {A} (x : RpcResult A) xs :
  count_served (x :: xs) = (if is_answered x then 1 else 0) + count_served xs ∧
  count_aborted (x :: xs) = (if is_aborted x then 1 else 0) + count_aborted xs.
Proof. unfold count_served, count_aborted. destruct x; cbn; lia. Qed.

(** One request of the loop: what it does to the permits. *)
Lemma respond_permits {E} req st b :
  permits (service st) = mkShared b false → 0 ≤ b < USIZE →
  ∃ x st', respond (E:=E) (duplicate req) st = (Ok x, st') ∧
    (is_answered x || is_aborted x = true → b ≠ 0) ∧
    permits (service st') =
      mkShared (b - (if is_answered x then 1 else 0) - (if is_aborted x then 1 else 0))
               (is_answered x && (b =? 1)).
Proof.
  intros Hpm Hb. unfold respond. destruct (duplicate req st) as [r st'] eqn:Hd.
  destruct r as [resp|s|]; eexists _, _; (split; [reflexivity|]); cbn.
  - destruct (duplicate_permits _ _ _ _ b false Hd) as [(_ & ? & ->)|[[? [=]] _]]; [done..|].
    cbn. split; [done|]. f_equal; lia.
  - destruct (duplicate_permits _ _ _ _ b false Hd) as [[[? [=]] _]|[_ ->]]; [done..|].
    split; [done|]. f_equal; lia.
  - destruct (duplicate_permits_panic _ _ _ b false Hd) as [? ->]; [done|lia|].
    split; [done|]. f_equal; lia.
Qed.

(** The permits after the replies [xs], from [b] permits and notification [n]. *)
Definition accounted {A} (b : Z) (n : bool) (xs : list (RpcResult A)) (sh : Shared) : Prop :=
  remaining sh = b - count_used xs ∧
  0 ≤ count_served xs ∧ 0 ≤ count_aborted xs ∧ count_used xs ≤ b ∧
  (notified sh = true → n = true ∨ b = count_used xs) ∧
  (count_aborted xs = 0 → b = count_used xs → n = true ∨ b ≠ 0 → notified sh = true).

Lemma accounted_nil {A} b n : 0 ≤ b → accounted (A:=A) b n [] (mkShared b n).
Proof.
  intros. unfold accounted, count_used, count_served, count_aborted; cbn.
  split_and!; auto; [lia..|]. intros _ -> [|]; [done|lia].
Qed.

Lemma serve_requests_spec rs st b n :
  permits (service st) = mkShared b n → 0 ≤ b < USIZE →
  run (serve_requests rs) st (λ xs st', accounted b n xs (permits (service st'))).
Proof.
  revert st b n.
  induction rs as [|r rs IH]; intros st b n Hpm Hb; unfold run; cbn [serve_requests]; rewrite Hpm;
    cbn [notified].
  { exists [], st. rewrite Hpm. split; [by destruct n|apply accounted_nil; lia]. }
  destruct n; [exists [], st; rewrite Hpm; split; [done|apply accounted_nil; lia]|].
  destruct (respond_permits (E:=EnrollError) r st b Hpm Hb) as (x & st1 & Hx & Hne & Hpm1).
  rewrite (bind_ok _ _ _ _ _ Hx).
  destruct (IH st1 _ _ Hpm1) as (xs & st2 & Hxs & Hpm2 & Hc1 & Hc2 & Hc3 & Hn1 & Hn2).
  { destruct x; cbn in *; try specialize (Hne ltac:(done)); lia. }
  rewrite (bind_ok _ _ _ _ _ Hxs). exists (x :: xs), st2. split; [reflexivity|].
  unfold accounted, count_used in *. destruct (count_used_cons x xs) as [-> ->].
  destruct x; cbn in *; try specialize (Hne ltac:(done)); (split_and!; [lia..| |]).
  all: try (intros H; right; destruct (Hn1 H) as [H'|H']; [try apply Z.eqb_eq in H'|]; (done || lia)).
  all: intros; apply Hn2; try lia.
Qed.

(** C22. A whole run of the listener, one request after the other: every run
    ends, at most [max] joiners are served, whatever arrives and however often
    requests fail, and the listener is told to close only when the permits are
    used up.  If no handler panics, it is told exactly when [max] were served. *)
Theorem enroll_serves_at_most_max rs st max :
  1 ≤ max < USIZE → permits (service st) = mkShared max false →
  run (serve_requests rs) st (λ xs st', count_served xs ≤ max ∧
    (notified (permits (service st')) = true → count_used xs = max) ∧
    (count_aborted xs = 0 → notified (permits (service st')) = true ↔ count_served xs = max)).
Proof.
  intros Hmax Hpm. eapply run_mono; [apply (serve_requests_spec rs st max false Hpm); lia|].
  cbv beta. intros xs st' (_ & Hc1 & Hc2 & Hc3 & Hn1 & Hn2). unfold count_used in *.
  split_and!; [lia|intros H; destruct (Hn1 H); [done|lia]|].
  intros H0. split; [intros H; destruct (Hn1 H); [done|lia]|]. intros <-. apply Hn2; lia.
Qed.

(** What [run_enroll] needs of its host: a parsable address and TCTI, the
    node's certificate and the CA's files, a kubeconfig, and a TLS stack that
    accepts them. *)
Record enroll_env (fs : Fs) (now : OffsetDateTime) (leaf_key : outcome RcgenError KeyPair)
    (listen tcti dir : string) (name : string) (client : KubeClient) : Prop := {
  env_addr : ∃ a, parse_socket_addr listen = Ok a ∧ listen_on a = Ok tt;
  env_tcti : ∃ t, tcti_from_str tcti = Ok t;
  env_name : own_node_name fs dir = Ok name;
  env_identity : ∃ i ca, mint_enroll_server_identity fs now leaf_key name dir = Ok i ∧
                   read_to_string fs (path_join dir "pki/ca.crt") = Ok ca ∧
                   server_tls_config i ca = Ok tt;
  env_kube : ∃ kc c, kubeconfig_read_from (path_join dir "pki/admin.conf") = Ok kc ∧
               from_custom_kubeconfig kc = Ok c ∧ kube_client_try_from c = Ok client
}.

Lemma enroll_setup_spec fs now leaf_key listen max tcti dir name client k w :
  enroll_env fs now leaf_key listen tcti dir name client →
  ready w → room 3 w → v_persistent (view w) !! FLEET_KEY_PERSISTENT_HANDLE = Some k →
  duplicable_key k →
  run (enroll_setup fs now leaf_key listen max tcti dir) w (λ l w',
    service_ok (mkEnrollState (ls_service l) w') k ∧ ls_node_name l = name ∧
    es_kube_client (ls_service l) = client ∧ permits (ls_service l) = mkShared max false ∧
    server_tls_config (ls_identity l) (ls_client_ca l) = Ok tt ∧ listen_on (ls_addr l) = Ok tt ∧
    let c := inner (es_context (ls_service l)) in fresh_context (view w) c ∧
    view w' = add_obj c (es_fleet_key_handle (ls_service l))
                (OPersistent FLEET_KEY_PERSISTENT_HANDLE k) (open_context c (view w))).
Proof.
  intros [(a & Ha & Hl) [t Ht] Hname (i & ca & Hi & Hca & Htls) (kc & c & Hkc & Hc & Hcl)] Hr Hroom Hk Hd.
  unfold enroll_setup. eapply run_bind_lift; [by rewrite Ha|].
  eapply run_bind_lift; [by rewrite Ht|].
  step by (by apply run_map_errM, context_new_spec) as (Hr1 & Hfr & Hv1). apply run_on_failure.
  step by (apply run_map_errM, (load_fleet_key_spec _ k); [done| |by rewrite Hv1])
    as (Hr2 & Hf2 & Hv2).
  { eapply room_open; [exact Hv1|]. by eapply room_le, Hroom; lia. }
  eapply run_bind_lift; [by rewrite Hname|]. eapply run_bind_lift; [by rewrite Hi|]. cbv zeta.
  eapply run_bind_lift; [by rewrite Hca|]. eapply run_bind_lift; [by rewrite Hkc|].
  eapply run_bind_lift; [by rewrite Hc|]. eapply run_bind_lift; [by rewrite Hcl|].
  apply run_ret. rewrite Hv1 in Hv2. split_and!; try done.
  split; cbn; [done|by eapply room_open_add|done| |done]. right. exists FLEET_KEY_PERSISTENT_HANDLE.
  by rewrite Hv2, obj_at_add_eq.
Qed.

(** Whatever a request asks for, a healthy service and its TPM stay as they
    were, permits apart. *)
Lemma duplicate_keeps_tpm req st k :
  service_ok st k → no_panic (authorize_request (es_kube_client (service st)) req) →
  ∃ r st', duplicate req st = (r, st') ∧ no_panic r ∧ service_ok st' k ∧
    es_kube_client (service st') = es_kube_client (service st) ∧
    es_context (service st') = es_context (service st) ∧ view (etpm st') = view (etpm st).
Proof.
  intros Hok Hnp. unfold duplicate. set (st1 := on_permits fetch_sub st).
  destruct (_ =? 0); [eexists _, _; split_and!; try done; by destruct Hok|].
  assert (service_ok st1 k) as Hok1 by (by destruct Hok).
  destruct (authorize_request _ req) as [name|s|] eqn:Ha; [|clear Hnp|done].
  - destruct (unmarshall (joiner_transport_public (message req))) as [jp|e|] eqn:Hu.
    + assert (entitled (es_kube_client (service st1)) req) as Hent by (by exists name; apply authorize_request_ok).
      assert (∀ st2, service st2 = service st1 → ready (etpm st2) → view (etpm st2) = view (etpm st1) →
        service_ok st2 k) as Hok2.
      { intros st2 Hs Hr Hv. destruct Hok1 as [_ Hroom ? Hkey ?]. split; try done; [by eapply room_view| |];
          rewrite ?Hs, ?Hv; done. }
      destruct (wrappable jp) eqn:Hw.
      2: { destruct (handle_duplicate_refused req st1 k jp) as (s & st2 & -> & Hs & Hr & Hv & _); [done..|].
           specialize (Hok2 st2 Hs Hr Hv).
           eexists _, _; split_and!; try done; try (by destruct Hok2); cbn; by rewrite Hs. }
      destruct (handle_duplicate_spec req st1 k jp Hok1) as (resp & st2 & -> & Hs & Hr & Hv & _); [done..|].
      specialize (Hok2 st2 Hs Hr Hv). destruct (_ =? 1); eexists _, _; split_and!; try done; try (by destruct Hok2); cbn; by rewrite Hs.
    + rewrite (handle_duplicate_malformed req st1 name e) by done.
      eexists _, _; split_and!; try done. by destruct Hok.
    + by destruct (unmarshall_no_panic (joiner_transport_public (message req))).
  - rewrite (handle_duplicate_unauthorized req st1 s) by done.
    eexists _, _; split_and!; try done. by destruct Hok.
Qed.

Lemma serve_requests_keeps_tpm rs st k xs st' :
  service_ok st k → Forall (λ r, no_panic (authorize_request (es_kube_client (service st)) r)) rs →
  serve_requests rs st = (Ok xs, st') → ready (etpm st') ∧ view (etpm st') = view (etpm st).
Proof.
  intros Hok Hrs. revert st xs Hok Hrs. induction rs as [|r rs IH]; intros st xs Hok Hrs; cbn.
  { intros Hs. assert (st' = st) as -> by (by destruct (notified _); simplify_eq). by destruct Hok. }
  inversion_clear Hrs as [|? ? Hr Hrs']. destruct (notified _).
  { intros [= _ <-]. by destruct Hok. }
  destruct (duplicate_keeps_tpm r st k Hok Hr) as (x & st1 & Hd & Hnp & Hok1 & Hcl & _ & Hv).
  assert (∃ y, respond (E:=EnrollError) (duplicate r) st = (Ok y, st1)) as [y Hy].
  { unfold respond. rewrite Hd. destruct x; by eauto. }
  rewrite (bind_ok _ _ _ _ _ Hy). rewrite <- Hcl in Hrs'.
  intros (ys & st2 & Hys & Hret)%bind_ok_inv. cbn in Hret. injection Hret as _ <-.
  destruct (IH st1 ys Hok1 Hrs' Hys) as [? ->]. done.
Qed.

Lemma run_enroll_spec fs now leaf_key rs listen max tcti dir name client k w :
  enroll_env fs now leaf_key listen tcti dir name client → ready w → room 3 w →
  v_persistent (view w) !! FLEET_KEY_PERSISTENT_HANDLE = Some k → duplicable_key k →
  1 ≤ max < USIZE → Forall (λ r, no_panic (authorize_request client r)) rs →
  run (run_enroll fs now leaf_key rs listen max tcti dir) w (λ replies w',
    count_served replies ≤ max ∧ ready w' ∧ view w' = view w).
Proof.
  intros Henv Hr Hroom Hk Hd Hmax Hrs. unfold run_enroll.
  step by (by eapply enroll_setup_spec) as (Hok & _ & Hcl & Hpm & Htls & Hl & Hfr & Hv).
  rewrite <- Hcl in Hrs. apply run_finally.
  eapply run_bind_lift; [by rewrite Htls|]. eapply run_bind_lift; [by rewrite Hl|].
  destruct (serve_requests_spec rs (mkEnrollState (ls_service a) w') max false Hpm)
    as (xs & st' & Hxs & _ & _ & ? & ? & _); [lia|].
  destruct (serve_requests_keeps_tpm rs _ k xs st' Hok Hrs Hxs) as [Hr' Hv'].
  exists xs, (etpm st'). unfold serve. rewrite Hxs. split; [done|].
  split; [unfold count_used in *; lia|]. match goal with |- ready (context_drop ?c _) ∧ _ =>
    destruct (context_drop_spec c (etpm st') Hr') as [? ->] end. split; [done|].
  rewrite Hv'. cbn. rewrite Hv. autorewrite with ctx. by apply close_context_fresh.
Qed.

(** A whole [enroll]: on a node that is set up and holds a fleet key it
    returns [Ok], whatever requests arrive and also when none does; it serves at
    most [max] joiners, and leaves the TPM exactly as it found it. *)
Theorem enroll_run fs now leaf_key rs listen max tcti dir name client k w :
  enroll_env fs now leaf_key listen tcti dir name client → ready w → room 3 w →
  v_persistent (view w) !! FLEET_KEY_PERSISTENT_HANDLE = Some k → duplicable_key k →
  1 ≤ max < USIZE → Forall (λ r, no_panic (authorize_request client r)) rs →
  run (run_enroll fs now leaf_key rs listen max tcti dir) w (λ replies w',
    count_served replies ≤ max ∧ ready w' ∧ view w' = view w).
Proof. apply run_enroll_spec. Qed.

(** C25. The listener's address: a [--listen] that is no socket address (a host
    name, say, or a port above 65535) is refused before the TPM, the files or the
    cluster are touched; every address that gets through has octets, segments and
    port in range; and the text of an IPv4 address and port means that address. *)
Theorem enroll_listen_address fs now leaf_key rs max tcti dir w :
  (∀ listen, is_ok (parse_socket_addr listen) = false →
     run_enroll fs now leaf_key rs listen max tcti dir w
       = (Err (InvalidListenAddress listen AddrKind_Socket), w)) ∧
  (∀ listen l w', enroll_setup fs now leaf_key listen max tcti dir w = (Ok l, w') → in_range (ls_addr l)) ∧
  (∀ a l w', v4_in_range a → enroll_setup fs now leaf_key (show_v4 a) max tcti dir w = (Ok l, w') →
     ls_addr l = V4 a).
Proof.
  assert (∀ listen l w', enroll_setup fs now leaf_key listen max tcti dir w = (Ok l, w') →
    parse_socket_addr listen = Ok (ls_addr l)) as Hset.
  { intros listen l w' (a & w1 & Ha & H)%bind_ok_inv. apply bind_ok_inv in H as (t & w2 & _ & H).
    apply bind_ok_inv in H as (c & w3 & _ & H). apply on_failure_ok_inv in H.
    do 7 apply bind_ok_inv in H as (? & ? & _ & H). cbn in H. injection H as <- _. cbn.
    unfold lift in Ha. destruct (parse_socket_addr listen) as [y|e|]; cbn in Ha; [|done..].
    by injection Ha as -> _. }
  split_and!.
  - intros listen Hl. unfold run_enroll, enroll_setup, parse_socket_addr in *.
    destruct (read_socket_addr listen) as [[a []]|]; done.
  - intros listen l w' H%Hset. by eapply parse_socket_addr_range.
  - intros a l w' Ha H%Hset. rewrite parse_show_v4 in H by done. by injection H as ->.
Qed.
End EnrollTheorems.

(** * Examples *)
(** A cluster is the list of its node names. *)
#[export] Instance sim_kube : KubeApi | 100 := {|
  KubeClient := list string; KubeError := unit; Node := unit;
  api_node_get c n := if bool_decide (n ∈ c) then Ok tt else Err tt
|}.
#[export] Instance sim_text : ErrorText (D:=sim_data) (P:=sim_pki) | 100 := {|
  tss_display := sim_display; rcgen_display _ := "rcgen"%string;
  pkcs1_display _ := "pkcs1"%string; pkcs8_display _ := "pkcs8"%string
|}.
#[export] Instance sim_enroll_deps : EnrollDeps (KA:=sim_kube) | 100 := {|
  Kubeconfig := string; KubeConfig := string;
  KubeconfigError := unit; TransportError := unit;
  kubeconfig_read_from p := Ok p;
  from_custom_kubeconfig k := Ok k;
  kube_client_try_from _ := Ok ["n1"; "n2"]%string;
  server_tls_config _ _ := Ok tt;
  listen_on _ := Ok tt
|}.

(** The seed [n1] after genesis, with [b] permits, and a request of a peer
    whose certificate has common name [cn]. *)
Definition demo_seed (b : Z) : EnrollState (KA:=sim_kube) (O:=sim_ops) :=
  mkEnrollState (mkEnrollService sim_kube (mkMutex false 1%N) (demo_genesis x07).1 ["n1"; "n2"]%string
    (mkShared b false)) (demo_genesis x07).2.
Definition demo_request (cn : string) : Request :=
  mkRequest (Some [String.list_byte_of_string cn])
    (mkDuplicateRequest (sim_public_bytes (sk_public (sim_fleet_key x09)))).

Lemma demo_seed_ok b : service_ok (TS:=sim_spec) (demo_seed b) (sim_fleet_key x07).
Proof.
  split; [apply demo_genesis_ready|apply demo_genesis_room; lia|reflexivity|apply demo_genesis_key|].
  eapply (local_fleet_key_duplicable (TS:=sim_spec)), sim_fleet_key_local.
Qed.
Lemma demo_request_entitled :
  entitled (KA:=sim_kube) ["n1"; "n2"]%string (demo_request "system:node:n2").
Proof.
  exists "n2"%string. eexists _, [], "system:node:n2"%string, "system:node:n2"%string, [].
  split_and!; try reflexivity; [done|]. exists tt. reflexivity.
Qed.
Lemma demo_request_not_entitled :
  ¬ entitled (KA:=sim_kube) ["n1"; "n2"]%string (demo_request "system:node:mallory").
Proof.
  intros (name & leaf & chain & cert & attr & rest & Hc & Hp & Hi & Ha & _ & n & Hn).
  injection Hc as <- <-. vm_compute in Hp. injection Hp as <-. injection Hi as <- <-.
  injection Ha as Ha. apply strip_prefix_Some in Ha. vm_compute in Ha. injection Ha as <-.
  by vm_compute in Hn.
Qed.

(** The outcome of one request on the demo seed. *)
Definition demo_reply (b : Z) (cn : string) :=
  duplicate (O:=sim_ops) (X:=sim_x509) (ET:=sim_text) (demo_request cn) (demo_seed b).
Definition demo_blob_bytes : DuplicateResponse :=
  match (demo_reply 1 "system:node:n2").1 with
  | Ok r => r
  | _ => mkDuplicateResponse [] [] [] false []
  end.

Lemma only_cluster_nodes_are_served_witness :
  entitled (KA:=sim_kube) ["n1"; "n2"]%string (demo_request "system:node:n2").
Proof.
  apply (only_cluster_nodes_are_served (O:=sim_ops) (X:=sim_x509) (ET:=sim_text)
           (demo_request "system:node:n2") (demo_seed 1) demo_blob_bytes (demo_reply 1 "system:node:n2").2).
  apply (pair_fst (demo_reply 1 "system:node:n2")). vm_compute. reflexivity.
Defined.

Lemma unentitled_request_changes_nothing_witness :
  ∃ s, (demo_reply 1 "system:node:mallory").1 = Err s ∧ status_code s = Code_PermissionDenied ∧
       (demo_reply 1 "system:node:mallory").2 = demo_seed 1.
Proof.
  apply (unentitled_request_changes_nothing (O:=sim_ops) (X:=sim_x509) (ET:=sim_text)
           (demo_request "system:node:mallory") (demo_seed 1));
    [done|apply demo_request_not_entitled|apply surjective_pairing|vm_compute; discriminate].
Defined.

(** A public area that is no storage key's. *)
Definition odd_request : Request :=
  mkRequest (Some [String.list_byte_of_string "system:node:n2"])
    (mkDuplicateRequest (sim_public_bytes (mkSimPublic (mkObjectAttributes false false true true true false) None x05))).
Lemma entitled_joiner_is_served_witness :
  run (duplicate (O:=sim_ops) (X:=sim_x509) (ET:=sim_text) (demo_request "system:node:n2"))
    (demo_seed 1) (λ resp st',
      (∃ blob, blob_for (TS:=sim_spec) (sk_public (sim_fleet_key x09)) blob (sim_fleet_key x07) ∧
               response_of_blob (ET:=sim_text) blob = Ok resp) ∧
      ready (TpmSpec:=sim_spec) (etpm st') ∧
      sw_view (etpm st') = sw_view (etpm (demo_seed 1)) ∧
      permits (service st') = mkShared 0 true) ∧
  fails (duplicate (O:=sim_ops) (X:=sim_x509) (ET:=sim_text) odd_request) (demo_seed 1) (λ s st',
    status_code s = Code_Internal ∧ service st' = service (demo_seed 1) ∧
    ready (TpmSpec:=sim_spec) (etpm st') ∧ sw_view (etpm st') = sw_view (etpm (demo_seed 1))).
Proof.
  split.
  - apply (entitled_joiner_is_served (TS:=sim_spec) (L:=sim_data_laws) (X:=sim_x509) (ET:=sim_text)
             (demo_request "system:node:n2") (demo_seed 1) (sim_fleet_key x07) (sk_public (sim_fleet_key x09)));
      [apply demo_seed_ok|apply demo_request_entitled|vm_compute; reflexivity|done|reflexivity].
  - apply (entitled_joiner_is_served (TS:=sim_spec) (L:=sim_data_laws) (X:=sim_x509) (ET:=sim_text)
             odd_request (demo_seed 1) (sim_fleet_key x07)
             (mkSimPublic (mkObjectAttributes false false true true true false) None x05));
      [apply demo_seed_ok|apply demo_request_entitled|vm_compute; reflexivity|done|reflexivity].
Defined.

Lemma duplicate_refines_solo_witness :
  ∃ ok reply, solo ok (mkShared 1 false) =
    Some (reply, permits (service (demo_reply 1 "system:node:n2").2)) ∧
    (reply = Served ↔ ∃ resp, (demo_reply 1 "system:node:n2").1 = Ok resp).
Proof.
  apply (duplicate_refines_solo (O:=sim_ops) (X:=sim_x509) (ET:=sim_text)
           (demo_request "system:node:n2") (demo_seed 1));
    [apply surjective_pairing|vm_compute; discriminate].
Defined.

Definition demo_refusal : Status :=
  match (demo_reply 1 "system:node:mallory").1 with Err s => s | _ => internal "" end.
Lemma failed_request_restores_permit_witness :
  permits (service (demo_reply 1 "system:node:mallory").2) = mkShared 1 false.
Proof.
  apply (failed_request_restores_permit (O:=sim_ops) (X:=sim_x509) (ET:=sim_text)
           (demo_request "system:node:mallory") (demo_seed 1) demo_refusal
           (demo_reply 1 "system:node:mallory").2); [done|].
  apply (pair_fst (demo_reply 1 "system:node:mallory")). vm_compute. reflexivity.
Defined.

Lemma enroll_serves_at_most_max_witness :
  run (serve_requests (O:=sim_ops) (X:=sim_x509) (ET:=sim_text) (ED:=sim_enroll_deps)
         [demo_request "system:node:mallory"; demo_request "system:node:n2";
          demo_request "system:node:n1"]) (demo_seed 1) (λ xs st', count_served xs ≤ 1 ∧
    (notified (permits (service st')) = true → count_used xs = 1) ∧
    (count_aborted xs = 0 → notified (permits (service st')) = true ↔ count_served xs = 1)).
Proof.
  apply (enroll_serves_at_most_max (O:=sim_ops) (X:=sim_x509) (ET:=sim_text) (ED:=sim_enroll_deps));
    [done|reflexivity].
Defined.

(** Two joiners, of which one is not entitled. *)
Lemma enroll_run_witness :
  run (run_enroll (O:=sim_ops) (X:=sim_x509) (PI:=sim_pki_issue) (ET:=sim_text)
         (ED:=sim_enroll_deps) (sim_fs "n1") 0 (Ok "key"%string)
         [demo_request "system:node:mallory"; demo_request "system:node:n2"] "0.0.0.0:8443" 1
         "device:/dev/tpmrm0" K0S_DEFAULT_DATA_DIR) (demo_genesis x07).2 (λ replies w',
      count_served replies ≤ 1 ∧ ready (TpmSpec:=sim_spec) w' ∧
      sw_view w' = sw_view (demo_genesis x07).2).
Proof.
  apply (enroll_run (TS:=sim_spec) (L:=sim_data_laws) (X:=sim_x509)
           (PI:=sim_pki_issue) (ET:=sim_text) (ED:=sim_enroll_deps) _ _ _ _ _ _ _ _ "n1"
           ["n1"; "n2"]%string (sim_fleet_key x07));
    [|apply demo_genesis_ready|apply demo_genesis_room; lia|apply demo_genesis_slot
     |eapply (local_fleet_key_duplicable (TS:=sim_spec)), sim_fleet_key_local|done|].
  - split; repeat eexists; vm_compute; reflexivity.
  - repeat constructor; vm_compute; discriminate.
Defined.

Lemma enroll_listen_address_witness :
  run_enroll (O:=sim_ops) (X:=sim_x509) (PI:=sim_pki_issue) (ET:=sim_text) (ED:=sim_enroll_deps)
    (sim_fs "n1") 0 (Ok "key"%string) [] "localhost:8443" 1 "device:/dev/tpmrm0" K0S_DEFAULT_DATA_DIR
    (demo_genesis x07).2 =
  (Err (InvalidListenAddress "localhost:8443" AddrKind_Socket), (demo_genesis x07).2).
Proof.
  apply (enroll_listen_address (O:=sim_ops) (X:=sim_x509) (PI:=sim_pki_issue) (ET:=sim_text)
           (ED:=sim_enroll_deps)). reflexivity.
Defined.
