(* ===== verification/EnrollConc.v ===== *)
(** The enrollment server under concurrency.

    tonic runs [Enroll::duplicate] ([src/src/enroll.rs]) once per request, several
    at a time, on one [EnrollService]: they share the permit counter, the
    notification and the mutex around the TPM context, and they ask an API server
    whose [Node] objects come and go.  A request is a program counter here
    ([EnrollPc], one constructor per place where it can be suspended),
    [enroll_advance] is its next action with the real bodies of [Enroll.v], and an
    execution is any interleaving.

    A client can also go away.  tonic then drops the handler's future, which
    happens before its first poll or at an [await]; the only one is that of
    [authorize_node].  Nothing in the handler runs when it is dropped.

    [Permits.v] is the same system with only the counter left; executions here are
    executions there ([sim_step]). *)
From S2P Require Import Prelude Grpc Host Net Tss SimTpm Envelope Sealer Kms Fleet Authz Certs Permits Enroll.

Section System.
Context `{D : TssData} {O : TssOps} `{KA : KubeApi} `{X : X509} `{P : Pki} {ET : ErrorText}.

(** [EEntering]: before [fetch_sub].  [EAtMax]: [permits_before] was 0, before
    [fetch_add].  [EAwaiting]: waits for the API server's answer about the node.
    [ELocking]: waits for the context's mutex.  [EInContext]: holds it.
    [ENotifying]: served, before [notify_one].  [ERestoring]: failed, before
    [fetch_add].  The others are final; [EPanicked] and [ECancelled] remember the
    permit that the request took, if it had one. *)
Inductive EnrollPc :=
| EEntering
| EAtMax
| EAwaiting (was_last_permit : bool) (node_name : string)
| ELocking (was_last_permit : bool) (joiner_public : Public)
| EInContext (was_last_permit : bool) (joiner_public : Public)
| ENotifying (response : DuplicateResponse)
| ERestoring (status : Status)
| EServed (response : DuplicateResponse)
| EFailed (status : Status)
| ERefused
| EPanicked (was_last_permit : bool)
| ECancelled (permit : option bool).

(** The RPC's result. *)
Definition enroll_result (pc : EnrollPc) : option (outcome Status DuplicateResponse) :=
  match pc with
  | EServed response => Some (Ok response)
  | EFailed status => Some (Err status)
  | ERefused => Some (Err (denied "--max already reached"))
  | EPanicked _ => Some Panic
  | _ => None
  end.

(** Where a request goes with the outcome of a step of its body. *)
Definition continue {A} (was_last_permit : bool) (r : outcome Status A) (k : A → EnrollPc) : EnrollPc :=
  match r with Ok a => k a | Err status => ERestoring status | Panic => EPanicked was_last_permit end.

(** [handle_duplicate] after the authorization, up to the mutex. *)
Definition joiner_of (request : Request) : outcome Status Public :=
  map_err (λ e, internal ("unmarshalling joiner transport public: " +:+ tss_display e)%string)
    (unmarshall (joiner_transport_public (message request))).
(** The critical section. *)
Definition duplicate_in_context (jp : Public) : M EnrollState Status DuplicationBlob := λ st,
  with_context (λ context, map_errM (internal ∘ FleetError_display)
    (duplicate_for_joiner context (es_fleet_key_handle (service st)) jp)) st.

(** The service, whether its mutex is held, the requests, and the states the
    cluster has been in so far. *)
Record EnrollSystem := mkEnrollSystem {
  sy_state : EnrollState;
  sy_held : bool;
  sy_tasks : list (Request * EnrollPc);
  sy_clusters : list KubeClient
}.

(** The next action of a request: the new state, mutex and program counter;
    [None] while it is blocked. *)
Definition enroll_advance (request : Request) (pc : EnrollPc) (st : EnrollState) (held : bool) :
  option (EnrollState * bool * EnrollPc) :=
  match pc with
  | EEntering =>
      let permits_before := remaining (permits (service st)) in
      Some (on_permits fetch_sub st, held,
            if permits_before =? 0 then EAtMax
            else let last := permits_before =? 1 in
                 continue last (peer_node_name request) (EAwaiting last))
  | EAtMax => Some (on_permits fetch_add st, held, ERefused)
  | EAwaiting last node_name =>
      Some (st, held,
            continue last (map_err (denied ∘ AuthzError_display)
                             (authorize_node (es_kube_client (service st)) node_name)) (λ _,
            continue last (joiner_of request) (ELocking last)))
  | ELocking last jp =>
      if held then None
      else if poisoned (es_context (service st)) then Some (st, false, ERestoring (internal poison_message))
      else Some (st, true, EInContext last jp)
  | EInContext last jp =>
      let (r, st') := duplicate_in_context jp st in
      Some (st', false,
            continue last r (λ blob, continue last (response_of_blob blob) (λ response,
              if last then ENotifying response else EServed response)))
  | ENotifying response => Some (on_permits notify_one st, held, EServed response)
  | ERestoring status => Some (on_permits fetch_add st, held, EFailed status)
  | _ => None
  end.

(** A client goes away. *)
Definition enroll_cancel (pc : EnrollPc) : option EnrollPc :=
  match pc with
  | EEntering => Some (ECancelled None)
  | EAwaiting last _ => Some (ECancelled (Some last))
  | _ => None
  end.

Definition set_client (client : KubeClient) (st : EnrollState) : EnrollState :=
  mkEnrollState (mkEnrollService _ (es_context (service st)) (es_fleet_key_handle (service st)) client
    (permits (service st))) (etpm st).

(** A request arrives, request [t] takes its next action, the client of [t]
    goes away, or the cluster's [Node]s change. *)
Inductive EnrollEvent :=
| EvArrive (request : Request) | EvAdvance (t : nat) | EvCancel (t : nat) | EvCluster (client : KubeClient).
Definition enroll_exec (e : EnrollEvent) (sys : EnrollSystem) : option EnrollSystem :=
  match e with
  | EvArrive request =>
      Some (mkEnrollSystem (sy_state sys) (sy_held sys) (sy_tasks sys ++ [(request, EEntering)])
              (sy_clusters sys))
  | EvAdvance t =>
      x ← sy_tasks sys !! t;
      r ← enroll_advance x.1 x.2 (sy_state sys) (sy_held sys);
      Some (mkEnrollSystem r.1.1 r.1.2 (<[t := (x.1, r.2)]> (sy_tasks sys)) (sy_clusters sys))
  | EvCancel t =>
      x ← sy_tasks sys !! t;
      pc ← enroll_cancel x.2;
      Some (mkEnrollSystem (sy_state sys) (sy_held sys) (<[t := (x.1, pc)]> (sy_tasks sys))
              (sy_clusters sys))
  | EvCluster client =>
      Some (mkEnrollSystem (set_client client (sy_state sys)) (sy_held sys) (sy_tasks sys)
              (sy_clusters sys ++ [client]))
  end.
Fixpoint enroll_exec_all (es : list EnrollEvent) (sys : EnrollSystem) : option EnrollSystem :=
  match es with
  | [] => Some sys
  | e :: es' => sys' ← enroll_exec e sys; enroll_exec_all es' sys'
  end.
Definition enroll_system (st : EnrollState) : EnrollSystem :=
  mkEnrollSystem st false [] [es_kube_client (service st)].

(** States reached from [st] by events that [guard] allows. *)
Inductive enroll_reach (guard : EnrollEvent → EnrollSystem → Prop) (st : EnrollState) : EnrollSystem → Prop :=
| enroll_reach_init : enroll_reach guard st (enroll_system st)
| enroll_reach_step sys e sys' :
    enroll_reach guard st sys → guard e sys → enroll_exec e sys = Some sys' → enroll_reach guard st sys'.
Definition any_event (_ : EnrollEvent) (_ : EnrollSystem) : Prop := True.
Lemma enroll_reach_exec_all st es : ∀ sys sys',
  enroll_reach any_event st sys → enroll_exec_all es sys = Some sys' → enroll_reach any_event st sys'.
Proof.
  induction es as [|e es IH]; intros sys sys' Hr H; [by injection H as <-|].
  cbn [enroll_exec_all] in H. apply bind_Some in H as (s1 & He & H). eapply IH; [|exact H].
  by apply enroll_reach_step with sys e.
Qed.
(** As [Permits.no_overlap]. *)
Definition no_refusal_overlap (e : EnrollEvent) (sys : EnrollSystem) : Prop :=
  match e with
  | EvAdvance t => ∀ req, sy_tasks sys !! t = Some (req, EEntering) → EAtMax ∉ (sy_tasks sys).*2
  | _ => True
  end.

(** * The permits of an execution *)
(** What [Permits] sees of a request.  One that panicked or was cancelled stays
    where it was for ever. *)
Definition permit_pc (pc : EnrollPc) : Pc :=
  match pc with
  | EEntering | ECancelled None => Entering
  | EAtMax => AtMax
  | EAwaiting last _ | ELocking last _ | EInContext last _ | EPanicked last | ECancelled (Some last) =>
      Handling last
  | ENotifying _ => Notifying
  | ERestoring _ => Restoring
  | EServed _ => Returned Served
  | EFailed _ => Returned Failed
  | ERefused => Returned RejectedMax
  end.
Definition permit_view (sys : EnrollSystem) : Permits :=
  mkPermits (permits (service (sy_state sys))) ((permit_pc ∘ snd) <$> sy_tasks sys).

Lemma with_context_permits {A} (body : Ctx → M World Status A) st r st' :
  with_context body st = (r, st') → permits (service st') = permits (service st) ∧
    es_kube_client (service st') = es_kube_client (service st).
Proof.
  unfold with_context. destruct (poisoned _); [by intros [= _ <-]|].
  by destruct (body _ _) as [[a|e|] w]; intros [= _ <-].
Qed.

(** A request's action is at most two actions of [Permits]. *)
Variant permit_action (sh sh' : Shared) (pc pc' : Pc) : Prop :=
| pa_stutter : sh' = sh → pc' = pc → permit_action sh sh' pc pc'
| pa_one ok : advance ok sh pc = Some (sh', pc') → permit_action sh sh' pc pc'
| pa_fail sh1 last :
    advance false sh pc = Some (sh1, Handling last) → advance false sh1 (Handling last) = Some (sh', pc') →
    permit_action sh sh' pc pc'.

Lemma enroll_advance_permits req pc st held st' held' pc' :
  enroll_advance req pc st held = Some (st', held', pc') →
  permit_action (permits (service st)) (permits (service st')) (permit_pc pc) (permit_pc pc').
Proof.
  destruct pc as [| |last n|last jp|last jp|resp|s|resp|s| |l|o]; cbn; try done.
  - intros [= <- _ <-]. destruct (_ =? 0) eqn:E0; [|destruct (peer_node_name req) as [n|s|]]; cbn.
    + apply (pa_one _ _ _ _ true). cbn. by rewrite E0.
    + apply (pa_one _ _ _ _ true). cbn. by rewrite E0.
    + eapply pa_fail; cbn; [by rewrite E0|done].
    + apply (pa_one _ _ _ _ true). cbn. by rewrite E0.
  - intros [= <- _ <-]. by apply (pa_one _ _ _ _ true).
  - intros [= <- _ <-]. destruct (map_err _ _) as [[]|s|]; cbn; [|by apply (pa_one _ _ _ _ false)|by apply pa_stutter].
    destruct (joiner_of req) as [jp|s|]; cbn; [by apply pa_stutter|by apply (pa_one _ _ _ _ false)|by apply pa_stutter].
  - destruct held; [done|]. destruct (poisoned _); intros [= <- _ <-]; [by apply (pa_one _ _ _ _ false)|by apply pa_stutter].
  - destruct (duplicate_in_context jp st) as [r st1] eqn:Hd. apply with_context_permits in Hd as [Hp _].
    intros [= <- _ <-]. rewrite Hp. destruct r as [b|s|]; cbn; [|by apply (pa_one _ _ _ _ false)|by apply pa_stutter].
    destruct (response_of_blob b) as [resp|s|]; cbn; [|by apply (pa_one _ _ _ _ false)|by apply pa_stutter].
    apply (pa_one _ _ _ _ true). by destruct last.
  - intros [= <- _ <-]. by apply (pa_one _ _ _ _ true).
  - intros [= <- _ <-]. by apply (pa_one _ _ _ _ true).
Qed.

(** With [strict], no request takes a permit inside another's refusal window. *)
Definition permit_guard (strict : bool) : Event → Permits → Prop := if strict then no_overlap else anything.
Definition enroll_guard (strict : bool) : EnrollEvent → EnrollSystem → Prop :=
  if strict then no_refusal_overlap else any_event.

Lemma permit_guard_advance strict t ok pm :
  (strict = true → tasks pm !! t = Some Entering → AtMax ∉ tasks pm) →
  permit_guard strict (Advance t ok) pm.
Proof. destruct strict; cbn; auto. done. Qed.
Lemma at_max_view sys : EAtMax ∉ (sy_tasks sys).*2 → AtMax ∉ tasks (permit_view sys).
Proof.
  intros Hno ([req pc] & Heq & Hin)%list_elem_of_fmap. apply Hno, list_elem_of_fmap.
  exists (req, pc). split; [|done]. cbn in *. by destruct pc as [| | | | | | | | | | |[]].
Qed.
Lemma permit_action_reach strict max sh sh' ts t pc pc' :
  reach (permit_guard strict) max (mkPermits sh ts) → ts !! t = Some pc → permit_action sh sh' pc pc' →
  (strict = true → pc = Entering → AtMax ∉ ts) →
  reach (permit_guard strict) max (mkPermits sh' (<[t := pc']> ts)).
Proof.
  intros Hr Ht Ha Hg.
  assert (∀ ok sh pc sh' pc' ts, reach (permit_guard strict) max (mkPermits sh ts) → ts !! t = Some pc →
    (strict = true → pc = Entering → AtMax ∉ ts) → advance ok sh pc = Some (sh', pc') →
    reach (permit_guard strict) max (mkPermits sh' (<[t := pc']> ts))) as Hone.
  { clear. intros ok sh pc sh' pc' ts Hr Ht Hg Ha. apply (reach_step _ _ _ (Advance t ok) _ Hr).
    - apply permit_guard_advance. cbn. rewrite Ht. intros ? [= ->]. by apply Hg.
    - cbn. rewrite Ht. cbn. by rewrite Ha. }
  destruct Ha as [-> ->|ok Ha|sh1 last Ha Hb]; [by rewrite list_insert_id|by eapply Hone|].
  rewrite <- (list_insert_insert_eq ts t pc' (Handling last)).
  apply (Hone false sh1 (Handling last)); [by apply (Hone false sh pc)| |done|exact Hb]. apply list_lookup_insert_eq. by eapply lookup_lt_Some.
Qed.

Lemma sim_step strict max e sys sys' :
  enroll_guard strict e sys → enroll_exec e sys = Some sys' →
  reach (permit_guard strict) max (permit_view sys) → reach (permit_guard strict) max (permit_view sys').
Proof.
  intros Hg He Hr. destruct e as [req|t|t|client].
  - injection He as <-. apply (reach_step _ _ _ Arrive _ Hr); [by destruct strict|].
    cbn. unfold permit_view. cbn. by rewrite fmap_app.
  - apply bind_Some in He as ([req pc] & Ht & ([[st' held'] pc'] & Ha & He)%bind_Some). injection He as <-.
    apply enroll_advance_permits in Ha as Hp. unfold permit_view. cbn [sy_state sy_tasks fst snd]. rewrite list_fmap_insert.
    apply (permit_action_reach _ _ _ _ _ t (permit_pc pc) (permit_pc pc') Hr); [|done|].
    + rewrite list_lookup_fmap, Ht. done.
    + intros -> Hpc. apply (at_max_view sys). cbn in Ha, Hpc, Hg. apply (Hg req). rewrite Ht.
      by destruct pc as [| | | | | | | | | | |[]].
  - apply bind_Some in He as ([req pc] & Ht & (pc' & Hc & He)%bind_Some). injection He as <-.
    unfold permit_view. cbn [sy_state sy_tasks]. rewrite list_fmap_insert, list_insert_id; [done|].
    rewrite list_lookup_fmap, Ht. cbn. by destruct pc; simplify_eq/=.
  - by injection He as <-.
Qed.
Lemma enroll_reach_permits strict st sys :
  notified (permits (service st)) = false → enroll_reach (enroll_guard strict) st sys →
  reach (permit_guard strict) (remaining (permits (service st))) (permit_view sys).
Proof.
  intros Hn. induction 1 as [|sys e sys' _ IH Hg He]; [|by eapply sim_step].
  unfold permit_view. cbn. destruct (permits (service st)) as [b n]. cbn in *. subst. constructor.
Qed.

(** * Counting *)
(** A request that was served; one that panicked or was cancelled with a permit
    in its hands. *)
Definition served_pc (pc : EnrollPc) : Z := match pc with EServed _ => 1 | _ => 0 end.
Definition lost_pc (pc : EnrollPc) : Z :=
  match pc with EPanicked _ | ECancelled (Some _) => 1 | _ => 0 end.
(** A request that will take no further action. *)
Definition settled (pc : EnrollPc) : Prop := is_Some (enroll_result pc) ∨ ∃ o, pc = ECancelled o.
Definition count (f : EnrollPc → Z) (sys : EnrollSystem) : Z := sum_with (f ∘ snd) (sy_tasks sys).

Lemma granted_served_lost pc : served_pc pc + lost_pc pc ≤ granted (permit_pc pc).
Proof. destruct pc as [| | | | | | | | | | |[]]; cbn; lia. Qed.
Lemma settled_counts sys :
  Forall (settled ∘ snd) (sy_tasks sys) →
  total granted (permit_view sys) + total borrowed (permit_view sys) = count served_pc sys + count lost_pc sys.
Proof.
  unfold permit_view, count. cbn. rewrite !sum_with_fmap.
  induction 1 as [|[req pc] l Hpc _ IH]; [done|]. cbn in *.
  destruct Hpc as [[x Hx]|[[l0|] ->]]; [destruct pc|..]; simplify_eq/=; lia.
Qed.

(** * Locks and progress *)
Definition in_context (pc : EnrollPc) : Z := match pc with EInContext _ _ => 1 | _ => 0 end.
(** How many actions a request has at most before it. *)
Definition enroll_weight (pc : EnrollPc) : Z :=
  match pc with
  | EEntering => 5 | EAwaiting _ _ => 4 | ELocking _ _ => 3 | EInContext _ _ => 2
  | EAtMax | ENotifying _ | ERestoring _ => 1 | _ => 0
  end.
Lemma enroll_weight_bounds pc : 0 ≤ enroll_weight pc ≤ 5.
Proof. destruct pc; cbn; lia. Qed.

Lemma enroll_advance_counts req pc st held st' held' pc' :
  enroll_advance req pc st held = Some (st', held', pc') →
  enroll_weight pc' < enroll_weight pc ∧
  (in_context pc ≤ Z.b2z held → in_context pc' - in_context pc = Z.b2z held' - Z.b2z held).
Proof.
  destruct pc; cbn; try done; unfold continue; repeat case_match; intros; simplify_eq/=;
    destruct_and?; simplify_eq/=; (split; [lia|]); try destruct held; cbn; lia.
Qed.
(** The mutex is held exactly if some request is inside. *)
Definition lock_ok (sys : EnrollSystem) : Prop := count in_context sys = Z.b2z (sy_held sys).

(** What an event that changes request [t] does to the counts. *)
Lemma count_insert f sys t req pc pc' st held :
  sy_tasks sys !! t = Some (req, pc) →
  count f (mkEnrollSystem st held (<[t := (req, pc')]> (sy_tasks sys)) (sy_clusters sys))
    = count f sys - f pc + f pc'.
Proof. intros Ht. unfold count. cbn. by rewrite (sum_with_insert _ _ _ _ _ Ht). Qed.
Lemma lock_ok_step e sys sys' : lock_ok sys → enroll_exec e sys = Some sys' → lock_ok sys'.
Proof.
  intros Hl He. destruct e as [req|t|t|client].
  - injection He as <-. unfold lock_ok, count in *. cbn. rewrite sum_with_app. cbn. lia.
  - apply bind_Some in He as ([req pc] & Ht & ([[st' held'] pc'] & Ha & He)%bind_Some). injection He as <-.
    apply enroll_advance_counts in Ha as [_ Hc]. unfold lock_ok. cbn [fst snd]. rewrite (count_insert _ _ _ _ _ _ _ _ Ht), Hl.
    cbn [sy_held]. pose proof (sum_with_lookup (in_context ∘ snd) _ _ _ ltac:(by intros [? []]) Ht) as Hin.
    unfold lock_ok, count in Hl. rewrite Hl in Hin. specialize (Hc Hin). cbn [snd] in Hc. lia.
  - apply bind_Some in He as ([req pc] & Ht & (pc' & Hc & He)%bind_Some). injection He as <-.
    unfold lock_ok. cbn [fst]. rewrite (count_insert _ _ _ _ _ _ _ _ Ht), Hl. destruct pc; simplify_eq/=; lia.
  - by injection He as <-.
Qed.
Lemma enroll_reach_lock guard st sys : enroll_reach guard st sys → lock_ok sys.
Proof. induction 1 as [|sys e sys' _ IH _ He]; [done|by eapply lock_ok_step]. Qed.

(** If a request is not settled, some request can act. *)
Lemma enroll_progress sys t req pc :
  lock_ok sys → sy_tasks sys !! t = Some (req, pc) → ¬ settled pc →
  ∃ t', is_Some (enroll_exec (EvAdvance t') sys).
Proof.
  intros Hl Ht Hs. assert (∀ t req pc, sy_tasks sys !! t = Some (req, pc) →
    is_Some (enroll_advance req pc (sy_state sys) (sy_held sys)) → is_Some (enroll_exec (EvAdvance t) sys)) as Hgo.
  { clear. intros t req pc Ht [x Hx]. cbn. rewrite Ht. cbn. rewrite Hx. cbn. eauto. }
  destruct (sy_held sys) eqn:Eh.
  - unfold lock_ok, count in Hl. rewrite Eh in Hl.
    destruct (sum_with_pos _ _ ltac:(rewrite Hl; done)) as (t' & [req' pc'] & Ht' & Hi).
    exists t'. eapply Hgo; [exact Ht'|]. destruct pc'; cbn in Hi; try lia. cbn. case_match; eauto.
  - exists t. eapply Hgo; [exact Ht|]. unfold settled in Hs. destruct pc; cbn in *; repeat case_match; eauto;
      exfalso; apply Hs; eauto.
Qed.
Lemma enroll_exec_weight t sys sys' :
  enroll_exec (EvAdvance t) sys = Some sys' → count enroll_weight sys' < count enroll_weight sys.
Proof.
  intros ([req pc] & Ht & ([[st' held'] pc'] & Ha & He)%bind_Some)%bind_Some. injection He as <-.
  apply enroll_advance_counts in Ha as [Hw _]. cbn [fst snd] in *. rewrite (count_insert _ _ _ _ _ _ _ _ Ht). lia.
Qed.

(** * A request that is not interleaved with others *)
Lemma advance_last req pc st held ts cs st' held' pc' :
  enroll_advance req pc st held = Some (st', held', pc') →
  enroll_exec (EvAdvance (length ts)) (mkEnrollSystem st held (ts ++ [(req, pc)]) cs)
    = Some (mkEnrollSystem st' held' (ts ++ [(req, pc')]) cs).
Proof.
  intros Ha. cbn. rewrite lookup_app_r, Nat.sub_diag by lia. cbn. rewrite Ha. cbn.
  by rewrite insert_app_r_alt, Nat.sub_diag by lia.
Qed.
Lemma cancel_last req pc st held ts cs pc' :
  enroll_cancel pc = Some pc' →
  enroll_exec (EvCancel (length ts)) (mkEnrollSystem st held (ts ++ [(req, pc)]) cs)
    = Some (mkEnrollSystem st held (ts ++ [(req, pc')]) cs).
Proof.
  intros Hc. cbn. rewrite lookup_app_r, Nat.sub_diag by lia. cbn. rewrite Hc. cbn.
  by rewrite insert_app_r_alt, Nat.sub_diag by lia.
Qed.
Lemma exec_cons e es sys sys1 r :
  enroll_exec e sys = Some sys1 → enroll_exec_all es sys1 = r → enroll_exec_all (e :: es) sys = r.
Proof. intros He <-. cbn [enroll_exec_all]. by rewrite He. Qed.
(** The request's own actions, until it returns. *)
Fixpoint enroll_alone (n : nat) (req : Request) (pc : EnrollPc) (st : EnrollState) (held : bool) :
  option (EnrollPc * EnrollState * bool) :=
  match n with
  | 0%nat => Some (pc, st, held)
  | S n' => x ← enroll_advance req pc st held; enroll_alone n' req x.2 x.1.1 x.1.2
  end.
Lemma enroll_alone_exec n req ts cs : ∀ pc st held pc' st' held',
  enroll_alone n req pc st held = Some (pc', st', held') →
  enroll_exec_all (replicate n (EvAdvance (length ts))) (mkEnrollSystem st held (ts ++ [(req, pc)]) cs)
    = Some (mkEnrollSystem st' held' (ts ++ [(req, pc')]) cs).
Proof.
  induction n as [|n IH]; intros pc st held pc' st' held'; [by intros [= <- <- <-]|].
  cbn [enroll_alone replicate enroll_exec_all]. intros ([[st1 held1] pc1] & Ha & Hn)%bind_Some.
  rewrite (advance_last _ _ _ _ _ _ _ _ _ Ha). by apply IH.
Qed.

Lemma handle_duplicate_steps req st :
  handle_duplicate req st =
    (_ ← lift (authorize_request (es_kube_client (service st)) req);
     jp ← lift (joiner_of req);
     blob ← duplicate_in_context jp;
     lift (response_of_blob blob)) st.
Proof.
  unfold handle_duplicate, mbind, M_bind, lift.
  destruct (authorize_request _ _); [|done..]. unfold joiner_of. by destruct (map_err _ _).
Qed.

(** A request that has been authorized and waits for the mutex, alone. *)
Lemma enroll_alone_locked req last jp st :
  ∃ n pc, (n ≤ 3)%nat ∧
    let '(r, st2) := (blob ← duplicate_in_context jp; lift (response_of_blob blob)) st in
    let st' := match r with
      | Ok _ => if last : bool then on_permits notify_one st2 else st2
      | Err _ => on_permits fetch_add st2 | Panic => st2 end in
    enroll_alone n req (ELocking last jp) st false = Some (pc, st', false) ∧ enroll_result pc = Some r.
Proof.
  unfold mbind, M_bind, lift, duplicate_in_context, with_context.
  destruct (poisoned (es_context (service st))) eqn:Hpo.
  { exists 2%nat, (EFailed (internal poison_message)). split_and!; [lia| |done]. cbn. by rewrite Hpo. }
  destruct (map_errM _ _ _) as [[blob|s|] w] eqn:Hm; cbn.
  - destruct (response_of_blob blob) as [resp|s|] eqn:Hr; [destruct last|..].
    1: exists 3%nat, (EServed resp). 2: exists 2%nat, (EServed resp). 3: exists 3%nat, (EFailed s).
    4: exists 2%nat, (EPanicked last).
    all: (split_and!; [lia| |done]); cbn; rewrite Hpo; cbn; unfold duplicate_in_context, with_context;
      rewrite Hpo, Hm; cbn; rewrite Hr; done.
  - exists 3%nat, (EFailed s). split_and!; [lia| |done]. cbn. rewrite Hpo. cbn.
    unfold duplicate_in_context, with_context. by rewrite Hpo, Hm.
  - exists 2%nat, (EPanicked last). split_and!; [lia| |done]. cbn. rewrite Hpo. cbn.
    unfold duplicate_in_context, with_context. by rewrite Hpo, Hm.
Qed.
Lemma enroll_alone_duplicate req st r st' :
  duplicate req st = (r, st') →
  ∃ n pc, (n ≤ 5)%nat ∧ enroll_alone n req EEntering st false = Some (pc, st', false) ∧
    enroll_result pc = Some r.
Proof.
  unfold duplicate. cbv zeta. destruct (remaining (permits (service st)) =? 0) eqn:E0.
  { intros [= <- <-]. exists 2%nat, ERefused. split_and!; [lia| |done]. cbn. by rewrite E0. }
  rewrite handle_duplicate_steps. set (st1 := on_permits fetch_sub st).
  set (last := remaining (permits (service st)) =? 1).
  unfold authorize_request. change (es_kube_client (service st1)) with (es_kube_client (service st)).
  unfold mbind at 1, M_bind at 1. unfold lift at 1.
  destruct (peer_node_name req) as [name|s|] eqn:Hn; cbn.
  2: { intros [= <- <-]. exists 2%nat, (EFailed s). split_and!; [lia| |done]. cbn. by rewrite E0, Hn. }
  2: { intros [= <- <-]. exists 1%nat, (EPanicked last). split_and!; [lia| |done]. cbn. by rewrite E0, Hn. }
  destruct (authorize_node (es_kube_client (service st)) name) as [[]|e|] eqn:Hz; cbn.
  2: { intros [= <- <-]. eexists 3%nat, (EFailed _). split_and!; [lia| |done]. cbn. rewrite E0, Hn. cbn. by rewrite Hz. }
  2: { intros [= <- <-]. exists 2%nat, (EPanicked last). split_and!; [lia| |done]. cbn. rewrite E0, Hn. cbn. by rewrite Hz. }
  unfold mbind at 1, M_bind at 1. unfold lift at 1.
  destruct (joiner_of req) as [jp|s|] eqn:Hj.
  2: { intros [= <- <-]. exists 3%nat, (EFailed s). split_and!; [lia| |done].
       cbn. rewrite E0, Hn. cbn. rewrite Hz. cbn. by rewrite Hj. }
  2: { intros [= <- <-]. exists 2%nat, (EPanicked last). split_and!; [lia| |done].
       cbn. rewrite E0, Hn. cbn. rewrite Hz. cbn. by rewrite Hj. }
  destruct (enroll_alone_locked req last jp st1) as (n & pc & Hle & H).
  destruct ((blob ← duplicate_in_context jp; lift (response_of_blob blob)) st1) as [x st2].
  destruct H as [Hn' Hr]. intros Hd. exists (S (S n)), pc. rewrite Hr.
  assert (enroll_alone (S (S n)) req EEntering st false = enroll_alone n req (ELocking last jp) st1 false) as ->.
  { cbn. rewrite E0, Hn. cbn. rewrite Hz. cbn. by rewrite Hj. }
  rewrite Hn'. destruct x; injection Hd as <- <-; (split_and!; [lia|done..]).
Qed.
End System.

(** * What concurrent requests get *)
Section Safety.
Context `{D : TssData} {L : TssDataLaws} {O : TssOps} {TM : TpmModel} {TS : TpmSpec} `{KA : KubeApi} `{X : X509}
  `{P : Pki} {ET : ErrorText}.
Implicit Types st : EnrollState.

(** The peer was a node of the cluster at some time. *)
Definition was_entitled (clusters : list KubeClient) (req : Request) : Prop :=
  ∃ c, c ∈ clusters ∧ entitled c req.
(** [resp] encodes a duplicate of [k] for the public area that [req] carries. *)
Definition answers (k : Key) (req : Request) (resp : DuplicateResponse) : Prop :=
  ∃ jp blob, unmarshall (joiner_transport_public (message req)) = Ok jp ∧ blob_for jp blob k ∧
    response_of_blob blob = Ok resp.

(** What a request has established when it is at [pc]. *)
Definition pc_safe (k : Key) (clusters : list KubeClient) (req : Request) (pc : EnrollPc) : Prop :=
  match pc with
  | EAwaiting _ name => claims_node req name
  | ELocking _ jp | EInContext _ jp =>
      was_entitled clusters req ∧ unmarshall (joiner_transport_public (message req)) = Ok jp
  | ENotifying resp | EServed resp => was_entitled clusters req ∧ answers k req resp
  | ERestoring s | EFailed s => was_entitled clusters req ∨ status_code s = Code_PermissionDenied
  | _ => True
  end.
Record safe (st0 : EnrollState) (k : Key) (sys : EnrollSystem) : Prop := {
  sf_service : service_ok (sy_state sys) k;
  sf_context : es_context (service (sy_state sys)) = es_context (service st0);
  sf_view : view (etpm (sy_state sys)) = view (etpm st0);
  sf_cluster : es_kube_client (service (sy_state sys)) ∈ sy_clusters sys;
  sf_tasks : ∀ t req pc, sy_tasks sys !! t = Some (req, pc) → pc_safe k (sy_clusters sys) req pc
}.

Lemma was_entitled_app cs c req : was_entitled cs req → was_entitled (cs ++ [c]) req.
Proof. intros (x & ? & ?). exists x. split; [|done]. apply elem_of_app. by left. Qed.
Lemma pc_safe_app k cs c req pc : pc_safe k cs req pc → pc_safe k (cs ++ [c]) req pc.
Proof.
  destruct pc; cbn; try done;
    first [intros [??]; split; [by apply was_entitled_app|done]|intros [?|?]; [left; by apply was_entitled_app|by right]].
Qed.

Lemma names_of_claims client req name :
  claims_node req name → authorize_node client name = Ok tt → entitled client req.
Proof.
  intros (leaf & chain & cert & attr & rest & ? & ? & ? & ? & ?) Hz%authorize_node_ok.
  by exists name, leaf, chain, cert, attr, rest.
Qed.
Lemma joiner_of_ok req jp :
  joiner_of req = Ok jp → unmarshall (joiner_transport_public (message req)) = Ok jp.
Proof. unfold joiner_of. by destruct (unmarshall _) as [x|e|]; cbn; [intros [= ->]|..]. Qed.

(** The critical section, for a public area that a key can be wrapped for and for
    any other. *)
Lemma duplicate_in_context_spec jp st k :
  service_ok st k → ∃ r st', duplicate_in_context jp st = (r, st') ∧ service_ok st' k ∧
    service st' = service st ∧ view (etpm st') = view (etpm st) ∧
    match r with
    | Ok blob => wrappable jp = true ∧ blob_for jp blob k
    | Err s => wrappable jp = false ∧ status_code s = Code_Internal
    | Panic => False
    end.
Proof.
  intros Hok. pose proof Hok as [Hr Hroom Hlock Hkey Hdup].
  assert (∀ w', ready w' → view w' = view (etpm st) → service_ok (mkEnrollState (service st) w') k) as Hok'.
  { intros w' Hr' Hv. split; cbn; [done|by eapply room_view|done|by rewrite Hv|done]. }
  unfold duplicate_in_context, with_context. rewrite Hlock. unfold map_errM.
  destruct (wrappable jp) eqn:Hw.
  - destruct (duplicate_for_joiner_spec _ _ _ jp _ Hr Hroom Hkey Hdup Hw) as (blob & w' & -> & Hr' & Hv & Hb).
    eexists _, _. split; [reflexivity|]. by split_and!; [by apply Hok'|..].
  - destruct (duplicate_for_joiner_refused _ _ _ jp _ Hr Hroom Hkey Hw) as (e & w' & -> & Hr' & Hv & _).
    eexists _, _. split; [reflexivity|]. by split_and!; [by apply Hok'|..].
Qed.

(** One action of one request. *)
Lemma enroll_advance_safe k cs req pc st held st' held' pc' :
  service_ok st k → es_kube_client (service st) ∈ cs → pc_safe k cs req pc →
  enroll_advance req pc st held = Some (st', held', pc') →
  service_ok st' k ∧ es_context (service st') = es_context (service st) ∧
  es_kube_client (service st') = es_kube_client (service st) ∧
  view (etpm st') = view (etpm st) ∧ pc_safe k cs req pc'.
Proof.
  intros Hok Hcl Hpc Ha.
  assert (∀ f, service_ok (on_permits f st) k) as Hon by (by intros f; destruct Hok).
  destruct pc as [| |last n|last jp|last jp|resp|s|resp|s| |l|o]; cbn in Ha, Hpc; try done.
  - injection Ha as <- _ <-. split_and!; try done. destruct (_ =? 0); [done|].
    destruct (peer_node_name req) as [n|s|] eqn:Hn; cbn; [by apply peer_node_name_ok|right; by eapply peer_node_name_err|done].
  - injection Ha as <- _ <-. by split_and!.
  - injection Ha as <- _ <-. split_and!; try done.
    destruct (authorize_node _ n) as [[]|e|] eqn:Hz; cbn; [|by right|done].
    assert (was_entitled cs req) by (eexists; split; [exact Hcl|by eapply names_of_claims]).
    destruct (joiner_of req) as [jp|s|] eqn:Hj; cbn; [|by left|done]. split; [done|by apply joiner_of_ok].
  - destruct held; [done|]. rewrite (so_lock _ _ Hok) in Ha. by injection Ha as <- _ <-.
  - destruct (duplicate_in_context_spec jp st k Hok) as (r & st1 & Hd & Hok1 & Hs & Hv & Hb).
    rewrite Hd in Ha. injection Ha as <- _ <-. rewrite Hs. split_and!; try done.
    destruct Hpc as [He Hu]. destruct r as [blob|s|]; cbn; [|by left|done]. destruct Hb as [_ Hb]. destruct (response_of_blob_ok blob) as [resp Hresp]. rewrite Hresp. cbn.
    assert (answers k req resp) by (by exists jp, blob). by destruct last.
  - injection Ha as <- _ <-. by split_and!.
  - injection Ha as <- _ <-. by split_and!.
Qed.

Lemma safe_step st0 k e sys sys' : safe st0 k sys → enroll_exec e sys = Some sys' → safe st0 k sys'.
Proof.
  intros [Hok Hctx Hv Hcl Hts] He. destruct e as [req|t|t|client].
  - injection He as <-. split; cbn; try done. intros t r pc [?|[_ Hx]]%lookup_app_Some; [by eapply Hts|].
    by apply list_lookup_singleton_Some in Hx as [_ [= <- <-]].
  - apply bind_Some in He as ([req pc] & Ht & ([[st' held'] pc'] & Ha & He)%bind_Some). injection He as <-.
    destruct (enroll_advance_safe k _ _ _ _ _ _ _ _ Hok Hcl (Hts _ _ _ Ht) Ha) as (? & Hc1 & Hk1 & Hv1 & ?).
    split; cbn; [done|by rewrite Hc1|by rewrite Hv1|by rewrite Hk1|].
    intros t' r x. rewrite list_lookup_insert_Some. intros [(<- & [= <- <-] & _)|[_ ?]]; [done|by eapply Hts].
  - apply bind_Some in He as ([req pc] & Ht & (pc' & Hc & He)%bind_Some). injection He as <-.
    split; cbn; try done. intros t' r x. rewrite list_lookup_insert_Some.
    intros [(<- & [= <- <-] & _)|[_ ?]]; [by destruct pc; simplify_eq/=|by eapply Hts].
  - injection He as <-. split; cbn; [by destruct Hok|done|done| |].
    + apply elem_of_app. right. by apply list_elem_of_singleton.
    + intros t r pc Ht. by apply pc_safe_app, (Hts t).
Qed.
Lemma enroll_reach_safe guard st k sys : service_ok st k → enroll_reach guard st sys → safe st k sys.
Proof.
  intros Hok. induction 1 as [|sys e sys' _ IH _ He]; [|by eapply safe_step].
  split; cbn; try done. by apply list_elem_of_singleton.
Qed.
End Safety.

(** * Requests inside a refusal window *)
Section Window.
Context `{D : TssData} {L : TssDataLaws} {O : TssOps} {TM : TpmModel} {TS : TpmSpec} `{KA : KubeApi} `{X : X509}
  `{P : Pki} {ET : ErrorText}.
Implicit Types st : EnrollState.

(** A request that is not interleaved with others, from anywhere. *)
Lemma alone_exec req sys r st' :
  sy_held sys = false → duplicate req (sy_state sys) = (r, st') →
  ∃ n pc, (n ≤ 5)%nat ∧ enroll_result pc = Some r ∧
    enroll_exec_all (EvArrive req :: replicate n (EvAdvance (length (sy_tasks sys)))) sys =
      Some (mkEnrollSystem st' false (sy_tasks sys ++ [(req, pc)]) (sy_clusters sys)).
Proof.
  intros Hh Hd. destruct (enroll_alone_duplicate _ _ _ _ Hd) as (n & pc & ? & Ha & ?).
  exists n, pc. split_and!; [done..|]. cbn [enroll_exec_all enroll_exec mbind option_bind].
  rewrite Hh. by apply enroll_alone_exec.
Qed.

Lemma enroll_exec_all_app es es' : ∀ sys sys',
  enroll_exec_all es sys = Some sys' → enroll_exec_all (es ++ es') sys = enroll_exec_all es' sys'.
Proof.
  induction es as [|e es IH]; intros sys sys' H; [by injection H as ->|].
  cbn [enroll_exec_all app] in *. apply bind_Some in H as (s1 & He & H). rewrite He. cbn. by apply IH.
Qed.
(** As long as the counter shows permits, joiners are served, by actions of their
    own only. *)
Lemma serve_many k req jp n : ∀ sys,
  unmarshall (joiner_transport_public (message req)) = Ok jp → wrappable jp = true →
  sy_held sys = false → service_ok (sy_state sys) k →
  entitled (es_kube_client (service (sy_state sys))) req →
  Z.of_nat n ≤ remaining (permits (service (sy_state sys))) < USIZE →
  ∃ es sys', enroll_exec_all es sys = Some sys' ∧
    (∀ t, (t < length (sy_tasks sys))%nat → EvAdvance t ∉ es ∧ EvCancel t ∉ es) ∧
    sy_tasks sys `prefix_of` sy_tasks sys' ∧ count served_pc sys' = count served_pc sys + Z.of_nat n.
Proof.
  induction n as [|n IH]; intros sys Hu Hw Hh Hok He Hrem.
  { exists [], sys. split_and!; [done| |done|lia]. intros t _. split; apply not_elem_of_nil. }
  destruct (duplicate_served req _ k jp Hok He Hu Hw) as (resp & st1 & Hd & _ & _ & _ & Hp); [lia|].
  assert (no_panic (authorize_request (es_kube_client (service (sy_state sys))) req)) as Hnp.
  { destruct He as [name Hn%authorize_request_ok]. by rewrite Hn. }
  destruct (duplicate_keeps_tpm req _ k Hok Hnp) as (r & st2 & Hd2 & _ & Hok2 & Hcl & _).
  rewrite Hd in Hd2. injection Hd2 as <- <-.
  destruct (alone_exec req sys _ _ Hh Hd) as (m & pc & _ & Hres & Hex).
  destruct (IH (mkEnrollSystem st1 false (sy_tasks sys ++ [(req, pc)]) (sy_clusters sys)) Hu Hw)
    as (es & sys' & Hes & Hown & Hpre & Hc); [done|done|cbn; by rewrite Hcl|cbn; rewrite Hp; cbn; lia|].
  eexists (_ ++ es), sys'. split_and!.
  - erewrite enroll_exec_all_app; [exact Hes|exact Hex].
  - intros t Ht. cbn in Hown. rewrite length_app in Hown. destruct (Hown t ltac:(lia)) as [H1 H2].
    rewrite !not_elem_of_app, !not_elem_of_cons. split_and!; try done;
      by intros [[= ->] _]%elem_of_replicate; lia.
  - etrans; [|exact Hpre]. by apply prefix_app_r.
  - rewrite Hc. unfold count. cbn. rewrite sum_with_app. cbn. destruct pc; simplify_eq/=; lia.
Qed.
End Window.

(** * Theorems *)
Section Theorems.
Context `{D : TssData} {L : TssDataLaws} {O : TssOps} {TM : TpmModel} {TS : TpmSpec} `{KA : KubeApi} `{X : X509}
  `{P : Pki} {ET : ErrorText}.
Implicit Types st : EnrollState.

(** C7. However requests overlap, and whatever happens to the cluster or to the
    clients meanwhile: who is served was a node of the cluster at some time and has
    a duplicate of the fleet key for exactly the public area it sent, who never was
    one gets PERMISSION_DENIED if anything, the mutex is never poisoned, and the TPM
    is as it was before the first request. *)
Theorem concurrent_enroll_is_safe st k sys :
  service_ok st k → enroll_reach any_event st sys →
  service_ok (sy_state sys) k ∧ view (etpm (sy_state sys)) = view (etpm st) ∧
  es_context (service (sy_state sys)) = es_context (service st) ∧
  ∀ t req pc r, sy_tasks sys !! t = Some (req, pc) → enroll_result pc = Some r →
    match r with
    | Ok resp => was_entitled (sy_clusters sys) req ∧ answers k req resp
    | Err s => was_entitled (sy_clusters sys) req ∨ status_code s = Code_PermissionDenied
    | Panic => True
    end.
Proof.
  intros Hok Hr. destruct (enroll_reach_safe _ _ _ _ Hok Hr) as [? ? ? _ Hts]. split_and!; try done.
  intros t req pc r Ht Hres. specialize (Hts t req pc Ht). destruct pc; simplify_eq/=; auto.
Qed.

(** C8. Refinement: every execution of the real handlers is one of the permit
    counter's model.  Once all requests have settled, the counter is [max] less the
    served requests and less those that panicked or whose client went away with a
    permit in hand, modulo 2^64; and if no request takes a permit inside another's
    refusal window, these are never more than [max]. *)
Theorem concurrent_enroll_refines_permits st sys :
  notified (permits (service st)) = false → 0 ≤ remaining (permits (service st)) < USIZE →
  enroll_reach any_event st sys →
  let max := remaining (permits (service st)) in
  reach anything max (permit_view sys) ∧
  (Forall (settled ∘ snd) (sy_tasks sys) →
     remaining (permits (service (sy_state sys))) =
       (max - count served_pc sys - count lost_pc sys) `mod` USIZE) ∧
  (enroll_reach no_refusal_overlap st sys →
     reach no_overlap max (permit_view sys) ∧ count served_pc sys + count lost_pc sys ≤ max).
Proof.
  intros Hn Hmax Hr max. assert (reach anything max (permit_view sys)) as Hp.
  { by apply (enroll_reach_permits false). }
  split_and!; [done|..].
  - intros Hs. pose proof (reach_conserved max Hmax _ _ Hp) as Hc. unfold conserved in Hc.
    change (permits (service (sy_state sys))) with (shared (permit_view sys)). rewrite Hc.
    f_equal. pose proof (settled_counts sys Hs). lia.
  - intros Hr'. assert (reach no_overlap max (permit_view sys)) as Hp'.
    { by apply (enroll_reach_permits true). }
    split; [done|]. destruct (reach_calm max Hmax _ Hp') as [Hg _]. unfold count, permit_view in *. cbn in Hg.
    rewrite sum_with_fmap in Hg. rewrite <- sum_with_plus. etrans; [|exact Hg].
    apply sum_with_mono. intros [req pc]. apply granted_served_lost.
Qed.

(** C16. No deadlock, and no request goes on for ever: however [n] requests are
    scheduled, they have taken all their actions after at most [5n], and when none
    can act any more each has its result or lost its client.  One request at a time
    uses the TPM. *)
Theorem concurrent_enroll_terminates st sys k sys' :
  enroll_reach any_event st sys →
  nsteps (λ s s', ∃ t, enroll_exec (EvAdvance t) s = Some s') k sys sys' →
  Z.of_nat k ≤ 5 * Z.of_nat (length (sy_tasks sys)) ∧
  ((∀ t, enroll_exec (EvAdvance t) sys' = None) → Forall (settled ∘ snd) (sy_tasks sys')) ∧
  count in_context sys' ≤ 1.
Proof.
  intros Hr Hn.
  assert (enroll_reach any_event st sys' ∧
    Z.of_nat k + count enroll_weight sys' ≤ count enroll_weight sys) as [Hr' Hk].
  { induction Hn as [sys|k sys s1 sys' [t He] _ IH]; [split; [done|lia]|].
    destruct IH as [? ?]; [by apply enroll_reach_step with sys (EvAdvance t)|].
    apply enroll_exec_weight in He. split; [done|lia]. }
  assert (0 ≤ count enroll_weight sys') by (apply sum_with_nonneg; intros [? pc]; apply enroll_weight_bounds).
  assert (count enroll_weight sys ≤ 5 * Z.of_nat (length (sy_tasks sys)))
    by (apply sum_with_length; intros [? pc]; apply enroll_weight_bounds).
  pose proof (enroll_reach_lock _ _ _ Hr') as Hl. split_and!; [lia| |rewrite Hl; by destruct (sy_held sys')].
  intros Hstuck. apply Forall_lookup. intros t [req pc] Hpc. cbn.
  destruct (decide (enroll_weight pc = 0)) as [Hw|Hw].
  - destruct pc; cbn in Hw; try lia; [left; eexists; reflexivity..|right; eauto].
  - destruct (enroll_progress sys' t req pc Hl Hpc) as (t' & x & Hx); [|by rewrite Hstuck in Hx].
    intros [[r Hres]|[o ->]]; [by destruct pc|done].
Qed.

(** C23. A request that is not interleaved with others does what
    [Enroll::duplicate] does as a function, whatever else is pending: it has
    its result after at most five actions, and both the result and the state of the
    service and the TPM are the same. *)
Theorem concurrent_enroll_alone req sys r st' :
  sy_held sys = false → duplicate req (sy_state sys) = (r, st') →
  ∃ n pc, (n ≤ 5)%nat ∧ enroll_result pc = Some r ∧
    enroll_exec_all (EvArrive req :: replicate n (EvAdvance (length (sy_tasks sys)))) sys =
      Some (mkEnrollSystem st' false (sy_tasks sys ++ [(req, pc)]) (sy_clusters sys)).
Proof. apply alone_exec. Qed.

(** C12. Overlapping requests defeat [--max] in the real handlers: a listener that
    was started with one permit, and that has served nobody yet, can come to a state
    in which one refused request has done its [fetch_sub] and not its [fetch_add];
    and from there, without that request taking a step, the fleet key is handed to
    any number [n] of joiners below 2^64. *)
Theorem overlap_serves_any_number st k req jp n :
  service_ok st k → entitled (es_kube_client (service st)) req →
  unmarshall (joiner_transport_public (message req)) = Ok jp → wrappable jp = true →
  remaining (permits (service st)) = 1 → 1 ≤ n < USIZE →
  ∃ sys es sys' refused, enroll_reach any_event st sys ∧ count served_pc sys = 0 ∧
    sy_tasks sys !! refused = Some (req, EAtMax) ∧
    enroll_exec_all es sys = Some sys' ∧ EvAdvance refused ∉ es ∧ EvCancel refused ∉ es ∧
    sy_tasks sys' !! refused = Some (req, EAtMax) ∧ count served_pc sys' = n.
Proof.
  intros Hok He Hu Hw Hrem Hn. pose proof He as [name (leaf & chain & cert & attr & rest & Hc)].
  assert (peer_node_name req = Ok name) as Hname.
  { apply peer_node_name_ok. exists leaf, chain, cert, attr, rest. by destruct Hc as (? & ? & ? & ? & ? & _). }
  set (st2 := on_permits fetch_sub (on_permits fetch_sub st)).
  assert (remaining (permits (service st2)) = USIZE - 1) as Hrem2 by (cbn; by rewrite Hrem).
  set (win := mkEnrollSystem st2 false [(req, EAwaiting true name); (req, EAtMax)] [es_kube_client (service st)]).
  destruct (serve_many k req jp (Z.to_nat n) win Hu Hw) as (es & sys & Hes & Hown & Hpre & Hs);
    [done|by destruct Hok|done|change (sy_state win) with st2; rewrite Hrem2; lia|].
  destruct (Hown 1%nat) as [H1 H2]; [cbn; lia|].
  exists win, es, sys, 1%nat. split_and!; try done.
  - apply (enroll_reach_exec_all st [EvArrive req; EvArrive req; EvAdvance 0; EvAdvance 1] (enroll_system st));
      [apply enroll_reach_init|]. cbn. rewrite Hrem. cbn. rewrite Hname. done.
  - by apply (prefix_lookup_Some (sy_tasks win)).
  - rewrite Hs. unfold count. cbn. lia.
Qed.

(** C26. The listener learns that it is done: if no request takes a permit inside
    another's refusal window, then once all requests have settled and [max] of them
    were served, the notification that ends [serve_with_shutdown] has been stored. *)
Theorem full_enrollment_notifies_listener st sys :
  let max := remaining (permits (service st)) in
  notified (permits (service st)) = false → 1 ≤ max < USIZE →
  enroll_reach no_refusal_overlap st sys → Forall (settled ∘ snd) (sy_tasks sys) →
  count served_pc sys = max → notified (permits (service (sy_state sys))) = true.
Proof.
  intros max Hn Hmax Hr Hall Hs.
  assert (reach no_overlap max (permit_view sys)) as Hp by (by apply (enroll_reach_permits true)).
  destruct (reach_calm max ltac:(lia) _ Hp) as [Hg _]. pose proof (settled_counts sys Hall) as Hc.
  pose proof (sum_with_nonneg borrowed (tasks (permit_view sys)) borrowed_nonneg) as Hb.
  assert (0 ≤ count lost_pc sys) as Hl by (apply sum_with_nonneg; by intros [? [| | | | | | | | | | |[]]]).
  assert (count served_pc sys + count lost_pc sys ≤ total granted (permit_view sys)) as Hsum.
  { unfold count, permit_view. cbn. rewrite sum_with_fmap, <- sum_with_plus.
    apply sum_with_mono. intros [req pc]. apply granted_served_lost. }
  destruct (reach_announced max ltac:(lia) _ ltac:(lia) Hp) as [?|(t & pc & Ht & Hd)]; [lia|done|].
  unfold permit_view in Ht. cbn in Ht. rewrite list_lookup_fmap in Ht.
  destruct (sy_tasks sys !! t) as [[req epc]|] eqn:Hepc; [|done]. injection Ht as <-.
  pose proof (sum_with_lookup (lost_pc ∘ snd) _ _ _ ltac:(by intros [? [| | | | | | | | | | |[]]]) Hepc) as Hlost.
  fold (count lost_pc sys) in Hlost. pose proof (Forall_lookup_1 _ _ _ _ Hall Hepc) as [[x Hx]|[o Ho]]; cbn in *.
  - destruct epc; simplify_eq/=; try done; lia.
  - destruct o; simplify_eq/=; try done; lia.
Qed.

(** C13. A client that goes away while the API server is asked about its node
    takes a permit with it: at the last permit the next request is refused, nobody
    was served, and the listener has not been told to close. *)
Theorem cancelled_request_keeps_its_permit req req' name sys :
  remaining (permits (service (sy_state sys))) = 1 → claims_node req name →
  let t := length (sy_tasks sys) in
  ∃ sys', enroll_exec_all [EvArrive req; EvAdvance t; EvCancel t; EvArrive req'; EvAdvance (S t); EvAdvance (S t)] sys
      = Some sys' ∧
    sy_tasks sys' = sy_tasks sys ++ [(req, ECancelled (Some true)); (req', ERefused)] ∧
    remaining (permits (service (sy_state sys'))) = 0 ∧
    notified (permits (service (sy_state sys'))) = notified (permits (service (sy_state sys))).
Proof.
  intros Hrem Hn%peer_node_name_ok t. destruct sys as [[[c h kc [b nt]] w] held ts cs]. cbn in Hrem, t. subst b.
  eexists. split.
  - eapply exec_cons; [reflexivity|]. eapply exec_cons; [apply advance_last; cbn; by rewrite Hn|].
    eapply exec_cons; [by apply cancel_last|]. eapply exec_cons; [reflexivity|].
    replace (S t) with (length (ts ++ [(req, ECancelled (Some true))])) by (rewrite length_app; cbn; lia).
    do 2 (eapply exec_cons; [by apply advance_last|]). reflexivity.
  - cbn. by rewrite <- app_assoc.
Qed.
End Theorems.

Section WholeEnroll.
Context `{D : TssData} {L : TssDataLaws} {O : TssOps} {TM : TpmModel} {TS : TpmSpec} `{KA : KubeApi} `{X : X509}
  `{P : Pki} {PI : PkiIssue} {ET : ErrorText} {ED : EnrollDeps}.

(** C24. A whole [enroll] with concurrent joiners: on a node that is set up and holds
    a fleet key the setup succeeds, and at whatever point the server ends, after
    whatever interleaving of requests, disconnections and changes of the cluster,
    dropping the service leaves the TPM exactly as [enroll] found it; without overlap
    in a refusal window at most [max] joiners have been served. *)
Theorem concurrent_enroll_run fs now leaf_key listen max tcti dir name client k w :
  enroll_env fs now leaf_key listen tcti dir name client → ready w → room 3 w →
  v_persistent (view w) !! FLEET_KEY_PERSISTENT_HANDLE = Some k → duplicable_key k → 1 ≤ max < USIZE →
  run (enroll_setup fs now leaf_key listen max tcti dir) w (λ l w1, ∀ sys,
    enroll_reach any_event (mkEnrollState (ls_service l) w1) sys →
    let w2 := context_drop (inner (es_context (service (sy_state sys)))) (etpm (sy_state sys)) in
    ready w2 ∧ view w2 = view w ∧
    (enroll_reach no_refusal_overlap (mkEnrollState (ls_service l) w1) sys → count served_pc sys ≤ max)).
Proof.
  intros Henv Hr Hroom Hk Hd Hmax.
  eapply run_mono; [by eapply (enroll_setup_spec fs now leaf_key listen max)|]. cbv beta.
  intros l w1 (Hok & _ & _ & Hpm & _ & _ & Hfr & Hv) sys Hreach.
  destruct (enroll_reach_safe _ _ _ _ Hok Hreach) as [[Hr' _ _ _ _] Hctx Hv' _ _]. cbv zeta. rewrite Hctx.
  destruct (context_drop_spec (inner (es_context (ls_service l))) (etpm (sy_state sys)) Hr') as [? Hdrop].
  cbn [service] in *. split_and!; [done| |].
  - rewrite Hdrop, Hv'. cbn. rewrite Hv. autorewrite with ctx. by apply close_context_fresh.
  - intros Hcalm. assert (reach no_overlap max (permit_view sys)) as Hp.
    { pose proof (enroll_reach_permits true (mkEnrollState (ls_service l) w1) sys) as Hp.
      cbn [service] in Hp. rewrite Hpm in Hp. by apply Hp. }
    destruct (reach_calm max ltac:(lia) _ Hp) as [Hg _]. unfold permit_view in Hg. cbn in Hg. rewrite sum_with_fmap in Hg.
    etrans; [|exact Hg]. apply sum_with_mono. intros [req pc]. cbn. by destruct pc as [| | | | | | | | | | |[]].
Qed.
End WholeEnroll.

(** * Examples *)
(** Two joiners and a stranger at a seed with two permits: both joiners are asked
    about, n2 leaves the cluster, the mutex is contended, the stranger comes while
    no permit is left, and all get their answers. *)
Definition demo_events : list (EnrollEvent (KA:=sim_kube)) :=
  [EvArrive (demo_request "system:node:n2"); EvArrive (demo_request "system:node:n1");
   EvAdvance 0; EvAdvance 1; EvAdvance 0; EvCluster ["n1"]%string; EvAdvance 1; EvAdvance 0;
   EvArrive (demo_request "system:node:n3"); EvAdvance 2; EvAdvance 2;
   EvAdvance 0; EvAdvance 1; EvAdvance 1; EvAdvance 1].
Definition demo_end : EnrollSystem (O:=sim_ops) (KA:=sim_kube) :=
  default (enroll_system (demo_seed 2)) (enroll_exec_all (ET:=sim_text) (X:=sim_x509) demo_events (enroll_system (demo_seed 2))).

Definition runs_to_end (es : list (EnrollEvent (KA:=sim_kube))) : bool :=
  match enroll_exec_all (ET:=sim_text) (X:=sim_x509) es (enroll_system (O:=sim_ops) (demo_seed 2)) with
  | Some _ => true | None => false
  end.
Definition is_served (pc : EnrollPc (D:=sim_data)) : bool := match pc with EServed _ => true | _ => false end.
(** The second joiner cannot take the mutex while the first has it. *)
Example demo_contended : runs_to_end (take 8 demo_events ++ [EvAdvance 1]) = false.
Proof. vm_compute. reflexivity. Qed.
Example demo_runs_to_end : runs_to_end demo_events = true.
Proof. vm_compute. reflexivity. Qed.
Example demo_served :
  (is_served ∘ snd) <$> sy_tasks demo_end = [true; true; false] ∧
  permits (service (sy_state demo_end)) = mkShared 0 true.
Proof. vm_compute. split; reflexivity. Qed.

Lemma demo_end_exec :
  enroll_exec_all (ET:=sim_text) (X:=sim_x509) demo_events (enroll_system (O:=sim_ops) (demo_seed 2)) = Some demo_end.
Proof.
  pose proof demo_runs_to_end as H. unfold runs_to_end in H. unfold demo_end.
  by destruct (enroll_exec_all _ _).
Qed.
Lemma demo_end_reach : enroll_reach (ET:=sim_text) (X:=sim_x509) any_event (demo_seed 2) demo_end.
Proof. eapply enroll_reach_exec_all; [apply enroll_reach_init|apply demo_end_exec]. Qed.

Lemma concurrent_enroll_is_safe_witness :
  sw_view (etpm (sy_state demo_end)) = sw_view (etpm (demo_seed 2)) ∧
  ∀ t req pc resp, sy_tasks demo_end !! t = Some (req, pc) → enroll_result pc = Some (Ok resp) →
    was_entitled (X:=sim_x509) (sy_clusters demo_end) req ∧
    answers (TM:=sim_model) (ET:=sim_text) (sim_fleet_key x07) req resp.
Proof.
  destruct (concurrent_enroll_is_safe (TS:=sim_spec) (L:=sim_data_laws) (X:=sim_x509) (ET:=sim_text)
    (demo_seed 2) (sim_fleet_key x07) demo_end (demo_seed_ok 2) demo_end_reach) as (_ & Hv & _ & H).
  split; [exact Hv|]. intros t req pc resp Ht Hr. exact (H t req pc (Ok resp) Ht Hr).
Defined.

Definition settled_b {D : TssData} (pc : EnrollPc (D:=D)) : bool :=
  match pc with EServed _ | EFailed _ | ERefused | EPanicked _ | ECancelled _ => true | _ => false end.
Lemma settled_b_sound {D : TssData} (l : list (Request * EnrollPc (D:=D))) :
  forallb (settled_b ∘ snd) l = true → Forall (settled ∘ snd) l.
Proof.
  induction l as [|[req pc] l IH]; [constructor|]. cbn. intros [Hpc Hl]%andb_true_iff.
  constructor; [|by apply IH]. destruct pc; try done; [left; eexists; reflexivity..|right; eauto].
Qed.
Lemma concurrent_enroll_refines_permits_witness :
  reach anything 2 (permit_view demo_end) ∧
  remaining (permits (service (sy_state demo_end))) =
    (2 - count served_pc demo_end - count lost_pc demo_end) `mod` USIZE.
Proof.
  destruct (concurrent_enroll_refines_permits (X:=sim_x509) (ET:=sim_text) (demo_seed 2) demo_end
    eq_refl ltac:(done) demo_end_reach) as (H1 & H2 & _).
  split; [exact H1|]. apply H2, settled_b_sound. vm_compute. reflexivity.
Defined.

Definition demo_waiting : EnrollSystem (O:=sim_ops) (KA:=sim_kube) :=
  mkEnrollSystem (demo_seed 2) false
    [(demo_request "system:node:n2", EEntering); (demo_request "system:node:n1", EEntering)] [["n1"; "n2"]%string].
Lemma demo_waiting_reach : enroll_reach (ET:=sim_text) (X:=sim_x509) any_event (demo_seed 2) demo_waiting.
Proof.
  apply (enroll_reach_exec_all _ (take 2 demo_events) (enroll_system (demo_seed 2)));
    [apply enroll_reach_init|reflexivity].
Qed.
Lemma advances_nsteps `{D : TssData} {O : TssOps} `{KA : KubeApi} `{X : X509} `{P : Pki} {ET : ErrorText} ts :
  ∀ sys sys', enroll_exec_all (EvAdvance <$> ts) sys = Some sys' →
  nsteps (λ s s', ∃ t, enroll_exec (EvAdvance t) s = Some s') (length ts) sys sys'.
Proof.
  induction ts as [|t ts IH]; intros sys sys' H; [injection H as <-; constructor|].
  cbn [fmap list_fmap enroll_exec_all] in H. apply bind_Some in H as (s1 & He & H).
  econstructor; [by exists t|by apply IH].
Qed.
Definition demo_schedule : list nat := [0; 1; 0; 0; 1; 0; 1; 1; 1]%nat.
Definition demo_stopped : EnrollSystem (O:=sim_ops) (KA:=sim_kube) :=
  default demo_waiting (enroll_exec_all (ET:=sim_text) (X:=sim_x509) (EvAdvance <$> demo_schedule) demo_waiting).
Definition reaches_stop : bool :=
  match enroll_exec_all (ET:=sim_text) (X:=sim_x509) (EvAdvance <$> demo_schedule) demo_waiting with
  | Some _ => true | None => false
  end.
Lemma demo_stopped_exec :
  enroll_exec_all (ET:=sim_text) (X:=sim_x509) (EvAdvance <$> demo_schedule) demo_waiting = Some demo_stopped.
Proof.
  assert (reaches_stop = true) as H by (vm_compute; reflexivity). unfold reaches_stop in H.
  unfold demo_stopped. by destruct (enroll_exec_all _ _).
Qed.
Lemma concurrent_enroll_terminates_witness :
  9 ≤ 5 * Z.of_nat (length (sy_tasks demo_waiting)) ∧
  ((∀ t, enroll_exec (ET:=sim_text) (X:=sim_x509) (EvAdvance t) demo_stopped = None) →
     Forall (settled ∘ snd) (sy_tasks demo_stopped)) ∧
  count in_context demo_stopped ≤ 1.
Proof.
  apply (concurrent_enroll_terminates (X:=sim_x509) (ET:=sim_text) (demo_seed 2) demo_waiting 9 demo_stopped
    demo_waiting_reach).
  exact (advances_nsteps demo_schedule _ _ demo_stopped_exec).
Defined.

Lemma concurrent_enroll_alone_witness :
  ∃ n pc, (n ≤ 5)%nat ∧ enroll_result pc = Some (demo_reply 2 "system:node:n2").1 ∧
    enroll_exec_all (ET:=sim_text) (X:=sim_x509)
      (EvArrive (demo_request "system:node:n2") :: replicate n (EvAdvance 0)) (enroll_system (demo_seed 2))
      = Some (mkEnrollSystem (demo_reply 2 "system:node:n2").2 false [(demo_request "system:node:n2", pc)]
               [["n1"; "n2"]%string]).
Proof.
  apply (concurrent_enroll_alone (X:=sim_x509) (ET:=sim_text) (demo_request "system:node:n2")
    (enroll_system (demo_seed 2))); [reflexivity|]. unfold demo_reply. by destruct (duplicate _ _).
Defined.

Lemma cancelled_request_keeps_its_permit_witness :
  ∃ sys', enroll_exec_all (ET:=sim_text) (X:=sim_x509)
      [EvArrive (demo_request "system:node:n2"); EvAdvance 0; EvCancel 0; EvArrive (demo_request "system:node:n1");
       EvAdvance 1; EvAdvance 1] (enroll_system (O:=sim_ops) (demo_seed 1)) = Some sys' ∧
    sy_tasks sys' = [(demo_request "system:node:n2", ECancelled (Some true));
                     (demo_request "system:node:n1", ERefused)] ∧
    remaining (permits (service (sy_state sys'))) = 0 ∧ notified (permits (service (sy_state sys'))) = false.
Proof.
  apply (cancelled_request_keeps_its_permit (X:=sim_x509) (ET:=sim_text) (demo_request "system:node:n2")
    (demo_request "system:node:n1") "n2" (enroll_system (demo_seed 1))); [reflexivity|].
  eexists _, [], _, _, []. split_and!; try reflexivity; done.
Defined.

Lemma overlap_serves_any_number_witness :
  ∃ sys es sys' refused, enroll_reach (X:=sim_x509) (ET:=sim_text) any_event (demo_seed 1) sys ∧
    count served_pc sys = 0 ∧
    sy_tasks sys !! refused = Some (demo_request "system:node:n2", EAtMax) ∧
    enroll_exec_all (X:=sim_x509) (ET:=sim_text) es sys = Some sys' ∧
    EvAdvance refused ∉ es ∧ EvCancel refused ∉ es ∧
    sy_tasks sys' !! refused = Some (demo_request "system:node:n2", EAtMax) ∧ count served_pc sys' = 1000000.
Proof.
  eapply (overlap_serves_any_number (TS:=sim_spec) (L:=sim_data_laws) (X:=sim_x509) (ET:=sim_text)
    (demo_seed 1) (sim_fleet_key x07) (demo_request "system:node:n2"));
    [apply demo_seed_ok|apply demo_request_entitled|vm_compute; reflexivity|reflexivity|reflexivity|done].
Defined.

(** An execution in which no request is ever about to be refused. *)
Definition not_at_max {D : TssData} (x : Request * EnrollPc (D:=D)) : bool :=
  match x.2 with EAtMax => false | _ => true end.
Fixpoint calm_exec (es : list (EnrollEvent (KA:=sim_kube))) (sys : EnrollSystem (O:=sim_ops)) :
  option (EnrollSystem (O:=sim_ops)) :=
  match es with
  | [] => Some sys
  | e :: es' =>
      if forallb not_at_max (sy_tasks sys)
      then sys' ← enroll_exec (ET:=sim_text) (X:=sim_x509) e sys; calm_exec es' sys' else None
  end.
Lemma calm_exec_reach st es : ∀ sys sys',
  enroll_reach no_refusal_overlap st sys → calm_exec es sys = Some sys' → enroll_reach no_refusal_overlap st sys'.
Proof.
  induction es as [|e es IH]; intros sys sys' Hr H; [by injection H as <-|]. cbn [calm_exec] in H.
  destruct (forallb not_at_max (sy_tasks sys)) eqn:Hf; [|done]. apply bind_Some in H as (s1 & He & H).
  eapply IH; [|exact H]. apply (enroll_reach_step _ _ sys e _ Hr); [|exact He]. destruct e; try done.
  intros req _ ([q pc] & Hpc & Hin)%list_elem_of_fmap. cbn in Hpc. subst pc.
  apply list_elem_of_In in Hin. by apply (proj1 (forallb_forall _ _) Hf (q, EAtMax)) in Hin.
Qed.
Definition demo_two : list (EnrollEvent (KA:=sim_kube)) := take 2 demo_events ++ (EvAdvance <$> demo_schedule).
Definition demo_full : EnrollSystem (O:=sim_ops) (KA:=sim_kube) :=
  default demo_waiting (calm_exec demo_two (enroll_system (demo_seed 2))).
Definition demo_two_runs : bool :=
  match calm_exec demo_two (enroll_system (demo_seed 2)) with Some _ => true | None => false end.
Lemma demo_full_reach : enroll_reach (ET:=sim_text) (X:=sim_x509) no_refusal_overlap (demo_seed 2) demo_full.
Proof.
  apply (calm_exec_reach _ demo_two (enroll_system (demo_seed 2))); [apply enroll_reach_init|].
  assert (demo_two_runs = true) as H by (vm_compute; reflexivity). unfold demo_two_runs in H.
  unfold demo_full. by destruct (calm_exec _ _).
Qed.
Lemma full_enrollment_notifies_listener_witness :
  notified (permits (service (sy_state demo_full))) = true.
Proof.
  apply (full_enrollment_notifies_listener (X:=sim_x509) (ET:=sim_text) (demo_seed 2) demo_full);
    [reflexivity|done|apply demo_full_reach| |].
  - apply settled_b_sound. vm_compute. reflexivity.
  - vm_compute. reflexivity.
Defined.

Lemma concurrent_enroll_run_witness :
  run (enroll_setup (O:=sim_ops) (X:=sim_x509) (PI:=sim_pki_issue) (ET:=sim_text) (ED:=sim_enroll_deps)
         (sim_fs "n1") 0 (Ok "key"%string) "0.0.0.0:8443" 1 "device:/dev/tpmrm0" K0S_DEFAULT_DATA_DIR)
    (demo_genesis x07).2 (λ l w1, ∀ sys,
      enroll_reach (X:=sim_x509) (ET:=sim_text) any_event (mkEnrollState (ls_service l) w1) sys →
      let w2 := context_drop (inner (es_context (service (sy_state sys)))) (etpm (sy_state sys)) in
      ready (TpmSpec:=sim_spec) w2 ∧ sw_view w2 = sw_view (demo_genesis x07).2 ∧
      (enroll_reach (X:=sim_x509) (ET:=sim_text) no_refusal_overlap (mkEnrollState (ls_service l) w1) sys →
       count served_pc sys ≤ 1)).
Proof.
  apply (concurrent_enroll_run (TS:=sim_spec) (L:=sim_data_laws) (X:=sim_x509) (PI:=sim_pki_issue) (ET:=sim_text)
           (ED:=sim_enroll_deps) (sim_fs "n1") 0 (Ok "key"%string) "0.0.0.0:8443" 1 "device:/dev/tpmrm0"
           K0S_DEFAULT_DATA_DIR "n1" ["n1"; "n2"]%string (sim_fleet_key x07));
    [|apply demo_genesis_ready|apply demo_genesis_room; lia|apply demo_genesis_slot
     |eapply (local_fleet_key_duplicable (TS:=sim_spec)), sim_fleet_key_local|done].
  split; repeat eexists; vm_compute; reflexivity.
Defined.
