(* ===== verification/Join.v ===== *)
(** The joiner side of enrollment, [src/src/join.rs].

    [run_join] runs on the joiner's TPM and on the network: [JoinDeps] has the
    tonic client calls, which act on an abstract [Net] (the connection and the
    seed behind it). *)
From S2P Require Import Prelude Grpc Host Tss SimTpm Envelope Sealer Fleet Authz Certs Permits Enroll.

(** [tonic::transport]'s client side. *)
Class JoinDeps := {
  Net : Type;
  InvalidUri : Type;
  ClientError : Type;
  Endpoint : Type;
  Channel : Type;
  channel_from_shared : string → outcome InvalidUri Endpoint;
  (** CA certificate, then the identity's certificate and key *)
  client_tls_config : Endpoint → string → string * string → outcome ClientError Endpoint;
  connect : Endpoint → M Net ClientError Channel;
  client_duplicate : Channel → DuplicateRequest → M Net Status DuplicateResponse
}.

Section Join.
Context `{D : TssData} {O : TssOps} `{P : Pki} {ET : ErrorText} `{JD : JoinDeps}.

Inductive JoinError :=
| JoinError_Fleet (e : FleetError TssError)
| JoinError_Tss (e : TssError)
| JoinError_Cert (e : CertError)
| JoinError_Read (path : string) (e : IoError)
| JoinError_InvalidTcti (tcti text : string)
| InvalidSeedUri (uri : string) (e : InvalidUri)
| JoinError_Connect (uri : string) (e : ClientError)
| Rejected (s : Status)
| JoinError_Unmarshall (e : TssError).

Record JoinWorld := mkJoinWorld { jtpm : World; jnet : Net }.

Definition on_tpm {E A} (m : M World E A) : M JoinWorld E A := λ jw,
  let (r, w) := m (jtpm jw) in (r, mkJoinWorld w (jnet jw)).
Definition on_net {E A} (m : M Net E A) : M JoinWorld E A := λ jw,
  let (r, n) := m (jnet jw) in (r, mkJoinWorld (jtpm jw) n).

Definition join_marshall (p : Public) : outcome JoinError (list byte) :=
  map_err JoinError_Tss (marshall p).

(** The blob of a response, field by field. *)
Definition blob_of_response (response : DuplicateResponse) : outcome JoinError DuplicationBlob :=
  fleet_key_public ← map_err JoinError_Unmarshall (unmarshall (r_fleet_key_public response));
  duplicate_private ← map_err JoinError_Unmarshall (try_from (r_duplicate_private response));
  encrypted_secret ← map_err JoinError_Unmarshall (try_from (r_encrypted_secret response));
  encryption_key ← (if r_has_encryption_key response then
                      data ← map_err JoinError_Unmarshall (try_from (r_encryption_key response));
                      Ok (Some data)
                    else Ok None);
  Ok {| fleet_key_public := fleet_key_public; duplicate_private := duplicate_private;
        encrypted_secret := encrypted_secret; encryption_key := encryption_key |}.

(** [run_join] from the files to the seed's response. *)
Definition request_blob (fs : Fs) (seed k0s_data_dir : string) (transport_public : Public) :
  M JoinWorld JoinError DuplicateResponse :=
  let client_cert_path := path_join k0s_data_dir "kubelet/pki/kubelet-client-current.pem" in
  let ca_cert_path := path_join k0s_data_dir "pki/ca.crt" in
  client_pem ← lift (map_err (JoinError_Read client_cert_path) (read_to_string fs client_cert_path));
  ca_cert_pem ← lift (map_err (JoinError_Read ca_cert_path) (read_to_string fs ca_cert_path));
  let uri := ("https://" +:+ seed)%string in
  endpoint ← lift (map_err (InvalidSeedUri uri) (channel_from_shared uri));
  endpoint ← lift (map_err (JoinError_Connect uri)
                     (client_tls_config endpoint ca_cert_pem (client_pem, client_pem)));
  channel ← on_net (map_errM (JoinError_Connect uri) (connect endpoint));
  joiner_transport_public ← lift (join_marshall transport_public);
  on_net (map_errM Rejected (client_duplicate channel (mkDuplicateRequest joiner_transport_public))).

(** The context is dropped when [run_join] returns. *)
Definition drop_jtpm (context : Ctx) (jw : JoinWorld) : JoinWorld :=
  mkJoinWorld (context_drop context (jtpm jw)) (jnet jw).

Definition run_join (fs : Fs) (seed tcti k0s_data_dir : string) : M JoinWorld JoinError unit :=
  tcti_conf ← lift (map_err (λ e, JoinError_InvalidTcti tcti (tss_display e)) (tcti_from_str tcti));
  context ← on_tpm (map_errM JoinError_Tss (context_new tcti_conf));
  finally (drop_jtpm context) (
    transport ← on_tpm (map_errM JoinError_Fleet (create_transport_key context));
    response ← request_blob fs seed k0s_data_dir transport.2;
    blob ← lift (blob_of_response response);
    _ ← on_tpm (map_errM JoinError_Fleet (import_and_persist context transport.1 blob));
    mret tt).
End Join.

(** * Specification *)
Section JoinSpec.
Context `{D : TssData} {L : TssDataLaws} {O : TssOps} {TM : TpmModel} {TS : TpmSpec} `{P : Pki} {ET : ErrorText}
  `{JD : JoinDeps}.

Lemma run_on_tpm {E A} (m : M World E A) jw Q :
  run m (jtpm jw) Q →
  run (on_tpm m) jw (λ a jw', Q a (jtpm jw') ∧ jnet jw' = jnet jw).
Proof.
  intros (a & w & Hm & HQ). exists a, (mkJoinWorld w (jnet jw)). unfold on_tpm. by rewrite Hm.
Qed.
Lemma run_on_net {E A} (m : M Net E A) jw Q :
  run m (jnet jw) Q →
  run (on_net m) jw (λ a jw', Q a (jnet jw') ∧ jtpm jw' = jtpm jw).
Proof.
  intros (a & w & Hm & HQ). exists a, (mkJoinWorld (jtpm jw) w). unfold on_net. by rewrite Hm.
Qed.

Lemma blob_round_trip blob resp :
  response_of_blob blob = Ok resp → blob_of_response resp = Ok blob.
Proof.
  unfold response_of_blob, marshall_public.
  destruct (marshall_total (fleet_key_public blob)) as (bs & Hbs & _ & Hu). rewrite Hbs. cbn.
  intros [= <-]. unfold blob_of_response. cbn. rewrite Hu. cbn.
  rewrite !try_from_value. cbn. destruct blob as [p d e [x|]]; cbn; [|done].
  by rewrite try_from_value.
Qed.

(** The host's side of a join: files, addresses and a TLS client that accepts
    them. *)
Record join_env (fs : Fs) (seed tcti dir client_pem : string) (ep : Endpoint) : Prop := {
  je_tcti : ∃ t, tcti_from_str tcti = Ok t;
  je_client : read_to_string fs (path_join dir "kubelet/pki/kubelet-client-current.pem") = Ok client_pem;
  je_endpoint : ∃ ca ep0, read_to_string fs (path_join dir "pki/ca.crt") = Ok ca ∧
                  channel_from_shared ("https://" +:+ seed)%string = Ok ep0 ∧
                  client_tls_config ep0 ca (client_pem, client_pem) = Ok ep
}.

(** The seed answers a request for public area [jp] with a response that
    satisfies [Q]. *)
Definition seed_answers (ep : Endpoint) (n : Net) (jp : Public) (Q : DuplicateResponse → Net → Prop) :=
  ∃ bs, marshall jp = Ok bs ∧
    run (connect ep) n (λ ch n1, run (client_duplicate ch (mkDuplicateRequest bs)) n1 Q).

Lemma request_blob_spec fs seed tcti dir pem ep jp Q jw :
  join_env fs seed tcti dir pem ep → seed_answers ep (jnet jw) jp Q →
  run (request_blob fs seed dir jp) jw (λ r jw', Q r (jnet jw') ∧ jtpm jw' = jtpm jw).
Proof.
  intros [_ Hc (ca & ep0 & Hca & Hch & Htls)] (bs & Hbs & Hcon). unfold request_blob. cbv zeta.
  eapply run_bind_lift; [by rewrite Hc|]. eapply run_bind_lift; [by rewrite Hca|].
  eapply run_bind_lift; [by rewrite Hch|]. eapply run_bind_lift; [by rewrite Htls|].
  step by (apply run_on_net, run_map_errM, Hcon) as [Hd Ht].
  eapply run_bind_lift; [unfold join_marshall; by rewrite Hbs|].
  eapply run_mono; [apply run_on_net, run_map_errM, Hd|]. cbv beta. intros r jw2 [? ->]. done.
Qed.

Lemma run_join_spec fs seed tcti dir pem ep k (Qn : Net → Prop) jw :
  join_env fs seed tcti dir pem ep → ready (jtpm jw) → room 4 (jtpm jw) →
  (∀ t, local_fleet_key (v_seed (view (jtpm jw))) t →
    seed_answers ep (jnet jw) (public_of t) (λ resp n,
      (∃ blob, blob_for (public_of t) blob k ∧ response_of_blob blob = Ok resp) ∧ Qn n)) →
  run (run_join fs seed tcti dir) jw (λ _ jw', ready (jtpm jw') ∧
    view (jtpm jw') = with_persistent (insert FLEET_KEY_PERSISTENT_HANDLE k) (view (jtpm jw)) ∧
    Qn (jnet jw')).
Proof.
  intros Henv Hr Hroom Hseed. destruct (je_tcti _ _ _ _ _ _ Henv) as [tc Htc]. unfold run_join.
  eapply run_bind_lift; [by rewrite Htc|].
  step by (by apply run_on_tpm, run_map_errM, context_new_spec) as ((Hr1 & Hfr & Hv1) & Hn1).
  rename a into c. apply run_finally.
  step by (apply run_on_tpm, run_map_errM, create_transport_key_spec; [done|];
    eapply room_open; [exact Hv1|]; by eapply room_le, Hroom; lia)
    as ((Hr2 & t & Ht & Hp & Hf2 & Hv2) & Hn2).
  rewrite Hv1 in Ht, Hf2, Hv2. rename a into tp.
  step by (eapply request_blob_spec; [exact Henv|]; rewrite Hp, Hn2, Hn1; by apply Hseed)
    as (((blob & Hblob & Hresp) & Hqn) & Ht3).
  eapply run_bind_lift; [by apply blob_round_trip|]. cbn.
  step by (apply run_on_tpm, run_map_errM, (import_and_persist_spec _ _ t _ k); rewrite ?Ht3;
    [done|by eapply room_open_add|by rewrite Hv2, obj_at_add_eq|done])
    as (((Hr4 & _) & _ & _ & o & Hv4) & Hn4).
  apply run_ret. cbn. rewrite Hn4. destruct (context_drop_spec c (jtpm w'2) Hr4) as [? ->].
  split_and!; [done| |done]. rewrite Hv4, Ht3, Hv2. autorewrite with ctx.
  by rewrite close_context_fresh.
Qed.

Lemma fails_on_net {E A} (m : M Net E A) jw Q :
  fails m (jnet jw) Q →
  fails (on_net m) jw (λ e jw', Q e (jnet jw') ∧ jtpm jw' = jtpm jw).
Proof.
  intros (a & w & Hm & HQ). exists a, (mkJoinWorld (jtpm jw) w). unfold on_net. by rewrite Hm.
Qed.

(** A join that fails in or after the exchange with the seed, before the
    import: the error is passed on and the TPM ends as it began. *)
Lemma run_join_fails fs seed tcti dir (Q : JoinError → Prop) jw :
  (∃ t, tcti_from_str tcti = Ok t) → ready (jtpm jw) → room 2 (jtpm jw) →
  (∀ tk jw1, jnet jw1 = jnet jw → local_fleet_key (v_seed (view (jtpm jw))) tk →
    fails (r ← request_blob fs seed dir (public_of tk); lift (blob_of_response r)) jw1
      (λ e jw2, Q e ∧ jtpm jw2 = jtpm jw1)) →
  fails (run_join fs seed tcti dir) jw (λ e jw', Q e ∧ ready (jtpm jw') ∧
    view (jtpm jw') = view (jtpm jw)).
Proof.
  intros [tc Htc] Hr Hroom Hseed. unfold run_join.
  eapply fails_bind_lift; [by rewrite Htc|].
  eapply fails_bind_r; [by apply run_on_tpm, run_map_errM, context_new_spec|].
  cbv beta. intros c jw1 ((Hr1 & Hfr & Hv1) & Hn1). apply fails_finally.
  eapply fails_bind_r; [apply run_on_tpm, run_map_errM, create_transport_key_spec; [done|];
    by eapply room_open|].
  cbv beta. intros tp jw2 ((Hr2 & t & Ht & Hp & Hf2 & Hv2) & Hn2).
  rewrite Hv1 in Ht, Hf2, Hv2. rewrite Hp.
  destruct (Hseed t jw2) as (e & jw3 & Hfail & HQ & Ht3); [congruence|done|].
  exists e, jw3. split.
  - revert Hfail. unfold mbind, M_bind, lift.
    destruct (request_blob fs seed dir (public_of t) jw2) as [[r|e'|] jw4]; [|congruence..].
    by destruct (blob_of_response r); intros; simplify_eq.
  - cbn. rewrite <- Ht3 in Hr2. destruct (context_drop_spec c _ Hr2) as [? ->].
    split_and!; [done..|]. rewrite Ht3, Hv2. autorewrite with ctx. by apply close_context_fresh.
Qed.
End JoinSpec.

(** * Theorems *)
Section JoinTheorems.
Context `{D : TssData} {L : TssDataLaws} {O : TssOps} {TM : TpmModel} {TS : TpmSpec} `{P : Pki} {ET : ErrorText}
  `{JD : JoinDeps}.

(** The [Duplicate] response is a faithful encoding: what the joiner
    decodes from the message the seed built is the seed's blob, with or without
    an encryption key. *)
Theorem duplicate_response_round_trip blob :
  ∃ resp, response_of_blob blob = Ok resp ∧ blob_of_response resp = Ok blob.
Proof.
  destruct (response_of_blob_ok blob) as [resp Hr]. exists resp. eauto using blob_round_trip.
Qed.

(** [join] installs the seed's key: if the seed answers the joiner's
    transport key with a duplicate of [k], the join succeeds, the joiner's
    persistent slot holds [k], whatever was there before, and nothing else of the
    TPM has changed. *)
Theorem join_installs_seed_key fs seed tcti dir pem ep k jw :
  join_env fs seed tcti dir pem ep → ready (jtpm jw) → room 4 (jtpm jw) →
  (∀ t, local_fleet_key (v_seed (view (jtpm jw))) t →
    seed_answers ep (jnet jw) (public_of t) (λ resp _,
      ∃ blob, blob_for (public_of t) blob k ∧ response_of_blob blob = Ok resp)) →
  run (run_join fs seed tcti dir) jw (λ _ jw',
    view (jtpm jw') = with_persistent (insert FLEET_KEY_PERSISTENT_HANDLE k) (view (jtpm jw))).
Proof.
  intros Henv Hr Hroom Hseed.
  eapply run_mono; [eapply (run_join_spec _ _ _ _ _ _ k (λ _, True)); [done..|]|].
  - intros t Ht. destruct (Hseed t Ht) as (bs & Hbs & Hrun). exists bs. split; [done|].
    eapply run_mono; [exact Hrun|]. cbv beta. intros ch n H.
    eapply run_mono; [exact H|]. cbv beta. done.
  - cbv beta. by intros _ jw' (_ & ? & _).
Qed.

(** A join that the seed refuses is reported with the seed's status and
    does not cost the node the fleet key it may already hold: the TPM ends
    exactly as it began, the transport key gone with its context. *)
Theorem refused_join_keeps_existing_key fs seed tcti dir pem ep s jw :
  join_env fs seed tcti dir pem ep → ready (jtpm jw) → room 2 (jtpm jw) →
  run (connect ep) (jnet jw) (λ ch n1, ∀ req, fails (client_duplicate ch req) n1 (λ e _, e = s)) →
  fails (run_join fs seed tcti dir) jw (λ e jw', e = Rejected s ∧ ready (jtpm jw') ∧
    view (jtpm jw') = view (jtpm jw)).
Proof.
  intros [Htc Hc (ca & ep0 & Hca & Hch & Htls)] Hr Hroom Hcon.
  apply (run_join_fails fs seed tcti dir (λ e, e = Rejected s)); [done..|].
  intros tk jw1 Hn _. apply fails_bind_l. unfold request_blob. cbv zeta.
  eapply fails_bind_lift; [by rewrite Hc|]. eapply fails_bind_lift; [by rewrite Hca|].
  eapply fails_bind_lift; [by rewrite Hch|]. eapply fails_bind_lift; [by rewrite Htls|].
  rewrite <- Hn in Hcon. eapply fails_bind_r; [apply run_on_net, run_map_errM, Hcon|].
  cbv beta. intros ch jw2 [Hd Ht].
  destruct (marshall_total (public_of tk)) as (bs & Hbs & _).
  eapply fails_bind_lift; [unfold join_marshall; by rewrite Hbs|].
  eapply fails_mono; [apply (fails_on_net _ _ (λ e _, e = Rejected s)), fails_map_errM|].
  - eapply fails_mono; [apply Hd|]. cbv beta. by intros e n ->.
  - cbv beta. intros e jw3 [-> ->]. done.
Qed.
End JoinTheorems.

(** * A direct connection *)
(** The network between a joiner and one seed, on which nothing is lost: the
    call reaches the seed's handler with the joiner's client certificate.
    [der_of_pem] is the TLS stack's decoding of that certificate. *)
Section Direct.
Context `{D : TssData} {O : TssOps} `{KA : KubeApi} `{X : X509} `{P : Pki} {ET : ErrorText}
  (der_of_pem : string → list byte).
Definition direct : JoinDeps := {|
  Net := EnrollState; InvalidUri := unit; ClientError := unit;
  Endpoint := string * string; Channel := string;
  channel_from_shared uri := Ok (uri, ""%string);
  client_tls_config ep _ identity := Ok (ep.1, identity.1);
  connect ep := mret ep.2;
  client_duplicate ch req := duplicate (mkRequest (Some [der_of_pem ch]) req)
|}.
End Direct.

Section DirectSpec.
Context `{D : TssData} {L : TssDataLaws} {O : TssOps} {TM : TpmModel} {TS : TpmSpec} `{KA : KubeApi} `{X : X509}
  `{P : Pki} {ET : ErrorText} (der_of_pem : string → list byte).
#[local] Existing Instance direct | 0.

(** The certificate in [pem] names a node of the cluster [client] sees. *)
Definition cert_of_node (client : KubeClient) (pem : string) : Prop :=
  ∀ msg, entitled client (mkRequest (Some [der_of_pem pem]) msg).

Lemma direct_seed_answers (st : EnrollState) uri pem k jp :
  service_ok st k → cert_of_node (es_kube_client (service st)) pem →
  0 < remaining (permits (service st)) < USIZE → wrappable jp = true →
  seed_answers (JD:=direct der_of_pem) (uri, pem) st jp (λ resp st',
    (∃ blob, blob_for jp blob k ∧ response_of_blob blob = Ok resp) ∧
    ready (etpm st') ∧ view (etpm st') = view (etpm st)).
Proof.
  intros Hok Hcert Hrem Hw. destruct (marshall_total jp) as (bs & Hbs & _ & Hu).
  exists bs. split; [done|]. apply run_ret. cbn.
  eapply run_mono; [by apply (duplicate_served _ st k jp)|]. cbv beta. intros r st' (? & ? & ? & _). done.
Qed.
End DirectSpec.

(** * Examples *)
#[export] Instance sim_direct : JoinDeps | 100 :=
  direct (O:=sim_ops) (KA:=sim_kube) (X:=sim_x509) (ET:=sim_text) String.list_byte_of_string.

Definition demo_join (b : Z) : JoinWorld (O:=sim_ops) (JD:=sim_direct) :=
  mkJoinWorld (sim_init x09) (demo_seed b).

Lemma demo_join_env :
  join_env (D:=sim_data) (JD:=sim_direct) (sim_fs "n2") "n1:8443" "device:/dev/tpmrm0"
    K0S_DEFAULT_DATA_DIR "system:node:n2" ("https://n1:8443", "system:node:n2")%string.
Proof. split; repeat eexists; vm_compute; reflexivity. Qed.

Lemma demo_cert_of_node :
  cert_of_node (KA:=sim_kube) String.list_byte_of_string ["n1"; "n2"]%string "system:node:n2".
Proof.
  intros msg. exists "n2"%string. eexists _, [], "system:node:n2"%string, "system:node:n2"%string, [].
  split_and!; try reflexivity; [done|]. exists tt. reflexivity.
Qed.

Lemma duplicate_response_round_trip_witness :
  ∃ resp, response_of_blob (D:=sim_data) (ET:=sim_text)
            (mkDuplicationBlob sim_data (sk_public (sim_fleet_key x07)) [x01] [x02] None) = Ok resp ∧
          blob_of_response (JD:=sim_direct) (P:=sim_pki) resp =
            Ok (mkDuplicationBlob sim_data (sk_public (sim_fleet_key x07)) [x01] [x02] None).
Proof.
  apply (duplicate_response_round_trip (D:=sim_data) (L:=sim_data_laws) (ET:=sim_text)
           (JD:=sim_direct)).
Defined.

Lemma join_installs_seed_key_witness :
  run (run_join (ET:=sim_text) (sim_fs "n2") "n1:8443" "device:/dev/tpmrm0" K0S_DEFAULT_DATA_DIR)
    (demo_join 1) (λ _ jw', sw_view (jtpm jw') =
      with_persistent (insert FLEET_KEY_PERSISTENT_HANDLE (sim_fleet_key x07)) (sw_view (sim_init x09))).
Proof.
  eapply (join_installs_seed_key (TS:=sim_spec) (L:=sim_data_laws) (ET:=sim_text) (JD:=sim_direct));
    [apply demo_join_env|apply sim_init_ready|apply sim_init_room; lia|].
  intros t Ht. destruct (direct_seed_answers (TS:=sim_spec) (L:=sim_data_laws) (X:=sim_x509)
    (ET:=sim_text) String.list_byte_of_string (demo_seed 1) "https://n1:8443" "system:node:n2"
    (sim_fleet_key x07) (sk_public t)) as (bs & Hbs & Hrun);
    [apply demo_seed_ok|apply demo_cert_of_node|done|by eapply (local_fleet_key_wrappable (TS:=sim_spec))|].
  exists bs. split; [exact Hbs|]. eapply run_mono; [exact Hrun|]. cbv beta. intros ch n H.
  eapply run_mono; [exact H|]. cbv beta. by intros r n' (? & _).
Defined.

Lemma refused_join_keeps_existing_key_witness :
  fails (run_join (ET:=sim_text) (sim_fs "n2") "n1:8443" "device:/dev/tpmrm0" K0S_DEFAULT_DATA_DIR)
    (demo_join 0) (λ e jw', e = Rejected (denied "--max already reached") ∧
      ready (TpmSpec:=sim_spec) (jtpm jw') ∧ sw_view (jtpm jw') = sw_view (sim_init x09)).
Proof.
  eapply (refused_join_keeps_existing_key (TS:=sim_spec) (L:=sim_data_laws) (ET:=sim_text)
            (JD:=sim_direct));
    [apply demo_join_env|apply sim_init_ready|apply sim_init_room; lia|].
  apply run_ret. intros req. eexists _, _. split; [|reflexivity]. reflexivity.
Defined.
