(* ===== verification/Main.v ===== *)
(** The five commands of [src/src/main.rs]: which sealing key a node uses, how the
    KMS service is put together, what [genesis] and [status] do, and the process from
    its command line ([Cli.v]) to its exit code.

    The signal handler and the tracing subscriber are not modelled; [anyhow]'s
    errors are [AnyError]. *)
From S2P Require Import Prelude Grpc Host Tss SimTpm Steps Envelope Sealer Kms KmsConc Fleet KmsVault Authz Certs Permits Enroll Join Clap Cli.

Section Main.
Context `{D : TssData} {O : TssOps} {K : KeyIdDeps} `{KA : KubeApi} `{X : X509} `{P : Pki}
  {PI : PkiIssue} {ET : ErrorText} {ED : EnrollDeps} {JD : JoinDeps}.

(** [anyhow::Error]: an error of the program under a chain of contexts. *)
Inductive AnyError :=
| Any_Tss (e : TssError)
| Any_Tpm (e : TpmError TssError)
| Any_Fleet (e : FleetError TssError)
| Any_Io (e : IoError)
| Any_Transport (e : TransportError)
| Any_Enroll (e : EnrollError)
| Any_Join (e : JoinError)
| Context_ (msg : string) (e : AnyError).

(** [build_sealer]: the fleet key if the probe finds one, with the per-node
    SRK as legacy sealer, and the SRK alone otherwise.  The probe's context goes
    into the fleet sealer, or is dropped at the end. *)
Definition build_sealer (tcti_conf : TctiNameConf) : M World AnyError (TpmSealer * option TpmSealer) :=
  probe ← map_errM (Context_ "connecting to TPM" ∘ Any_Tss) (context_new tcti_conf);
  r ← on_failure (context_drop probe) (attempt (load_fleet_key probe));
  match r with
  | inl fleet_key =>
      primary ← map_errM Any_Tpm (from_primary probe fleet_key);
      legacy ← on_failure (sealer_dropped primary)
                 (map_errM (Context_ "building legacy per-node SRK fallback for Decrypt" ∘ Any_Tpm)
                    (sealer_new tcti_conf));
      mret (primary, Some legacy)
  | inr _ =>
      finally (context_drop probe) (
        s ← map_errM Any_Tpm (sealer_new tcti_conf);
        mret (s, None))
  end.

(** [run_genesis] *)
Definition run_genesis (tcti : string) (force : bool) : M World AnyError unit :=
  tcti_conf ← lift (map_err (Context_ "invalid TCTI configuration" ∘ Any_Tss) (tcti_from_str tcti));
  context ← map_errM (Context_ "connecting to TPM" ∘ Any_Tss) (context_new tcti_conf);
  finally (context_drop context) (
    _ ← map_errM (Context_ "creating fleet sealing key" ∘ Any_Fleet) (create_fleet_key context force);
    mret tt).

(** The line [run_status] prints. *)
Definition status_line (fleet_key : bool) (id : string) : string :=
  ("fleet_key=" +:+ (if fleet_key then "true" else "false") +:+ " key_id=" +:+ id)%string.

(** [run_status]: returns what it prints; the sealer is dropped after that, and
    then the probe's context if no sealer took it over. *)
Definition run_status (tcti : string) : M World AnyError string :=
  tcti_conf ← lift (map_err (Context_ "invalid TCTI configuration" ∘ Any_Tss) (tcti_from_str tcti));
  probe ← map_errM (Context_ "connecting to TPM" ∘ Any_Tss) (context_new tcti_conf);
  r ← on_failure (context_drop probe) (attempt (load_fleet_key probe));
  match r with
  | inl fleet_key =>
      s ← map_errM (Context_ "reading fleet key's public area" ∘ Any_Tpm) (from_primary probe fleet_key);
      _ ← map_errM Any_Tpm (sealer_drop s);
      mret (status_line true (key_id s))
  | inr _ =>
      finally (context_drop probe) (
        s ← map_errM (Context_ "initializing per-node SRK" ∘ Any_Tpm) (sealer_new tcti_conf);
        _ ← map_errM Any_Tpm (sealer_drop s);
        mret (status_line false (key_id s)))
  end.

(** The TPM part of [run_serve]: the sealers and the service made of them. *)
Definition serve_sealers (tcti_conf : TctiNameConf) (force_legacy : bool) :
  M World AnyError (TpmSealer * option TpmSealer) :=
  if force_legacy then
    s ← map_errM (Context_ "initializing TPM sealer" ∘ Any_Tpm) (sealer_new tcti_conf);
    mret (s, None)
  else map_errM (Context_ "initializing TPM sealer") (build_sealer tcti_conf).
Definition kms_service_of (sealers : TpmSealer * option TpmSealer) : KmsService :=
  match sealers.2 with
  | Some legacy => with_legacy_fallback sealers.1 legacy
  | None => kms_new sealers.1
  end.

(** The host: its TPM and its files. *)
Record HostState := mkHostState { htpm : World; hfs : HostFs }.
Definition on_htpm {E A} (m : M World E A) : M HostState E A := λ h,
  let (r, w) := m (htpm h) in (r, mkHostState w (hfs h)).
Definition on_hfs {E A} (m : M HostFs E A) : M HostState E A := λ h,
  let (r, f) := m (hfs h) in (r, mkHostState (htpm h) f).

(** The socket's directory and a stale socket. *)
Definition create_parent (socket : string) : M HostState AnyError unit :=
  match path_parent socket with
  | Some parent => on_hfs (map_errM (Context_ ("creating " +:+ parent)%string ∘ Any_Io)
                             (create_dir_all parent))
  | None => mret tt
  end.
Definition remove_stale (socket : string) : M HostState AnyError unit := λ h,
  if path_exists (hfs h) socket
  then on_hfs (map_errM (Context_ ("removing stale socket " +:+ socket)%string ∘ Any_Io)
                 (remove_file socket)) h
  else (Ok tt, h).

(** The server: requests until the shutdown signal, then both sealers are
    dropped, in the order of the service's fields.  Whoever is at the other end of
    the socket chooses the next request by what it has been answered so far
    ([Client]); the session is the list of all exchanges. *)
Definition Exchange : Type := KmsRequest * RpcResult KmsResponse.
Definition Client : Type := list Exchange → KmsRequest.
Fixpoint serve_kms (seen : list Exchange) (clients : list Client) : M KmsState AnyError (list Exchange) :=
  match clients with
  | [] => mret seen
  | client :: rest =>
      let req := client seen in
      x ← respond (kms_handle tss_display req);
      serve_kms (seen ++ [(req, x)]) rest
  end.
Definition drop_service (k : KmsService) : M World AnyError unit :=
  _ ← map_errM Any_Tpm (sealer_drop (inner (sealer k)));
  match legacy_sealer k with
  | Some legacy => map_errM Any_Tpm (sealer_drop (inner legacy))
  | None => mret tt
  end.
Definition serve_and_drop (k : KmsService) (clients : list Client) : M World AnyError (list Exchange) := λ w,
  match serve_kms [] clients (mkKmsState k w) with
  | (Ok xs, st) => (_ ← drop_service (svc st); mret xs) (tpm st)
  | (r, st) => (r, tpm st)
  end.

(** The socket, bound and restricted to its owner. *)
Definition bind_socket (socket : string) : M HostState AnyError unit :=
  _ ← on_hfs (map_errM (Context_ ("binding " +:+ socket)%string ∘ Any_Io) (unix_bind socket));
  on_hfs (map_errM Any_Io (set_permissions socket MODE_0600)).
(** A [?] that returns while the two sealers are locals drops them, the last
    declared first. *)
Definition drop_sealers (sealers : TpmSealer * option TpmSealer) : M World AnyError unit :=
  _ ← match sealers.2 with
      | Some legacy => map_errM Any_Tpm (sealer_drop legacy)
      | None => mret tt
      end;
  map_errM Any_Tpm (sealer_drop sealers.1).
Definition or_drop (sealers : TpmSealer * option TpmSealer) (m : M HostState AnyError unit) :
  M HostState AnyError unit :=
  r ← attempt m;
  match r with
  | inl _ => mret tt
  | inr e => _ ← on_htpm (drop_sealers sealers); throw e
  end.

(** [run_serve]; [clients] make the requests that arrive before the signal, the
    exchanges with them are returned, and [server_end] is how tonic's server ends. *)
Definition run_serve (clients : list Client) (server_end : outcome TransportError unit)
  (tcti socket : string) (force_legacy : bool) : M HostState AnyError (list Exchange) :=
  _ ← create_parent socket;
  _ ← remove_stale socket;
  tcti_conf ← lift (map_err (Context_ "invalid TCTI configuration" ∘ Any_Tss) (tcti_from_str tcti));
  sealers ← on_htpm (serve_sealers tcti_conf force_legacy);
  _ ← or_drop sealers (bind_socket socket);
  exchanges ← on_htpm (serve_and_drop (kms_service_of sealers) clients);
  _ ← lift (map_err Any_Transport server_end);
  _ ← attempt (on_hfs (remove_file socket));
  mret exchanges.

(** Everything a command can act on, and what the outside world decides: the
    files [enroll] and [join] read, the clock, the generated leaf key, and the
    clients of the socket. *)
Record MainState := mkMainState { m_tpm : World; m_fs : HostFs; m_net : Net }.
Record Outside := mkOutside {
  out_files : Fs;
  out_now : OffsetDateTime;
  out_leaf_key : outcome RcgenError KeyPair;
  out_joiners : list Request;
  out_clients : list Client;
  out_server_end : outcome TransportError unit
}.
Definition via_tpm {A} (m : M World AnyError A) : M MainState AnyError unit := λ s,
  let (r, w) := m (m_tpm s) in ((λ _, tt) <$> r, mkMainState w (m_fs s) (m_net s)).
Definition via_host {A} (m : M HostState AnyError A) : M MainState AnyError unit := λ s,
  let (r, h) := m (mkHostState (m_tpm s) (m_fs s)) in
  ((λ _, tt) <$> r, mkMainState (htpm h) (hfs h) (m_net s)).
Definition via_join {A} (m : M JoinWorld AnyError A) : M MainState AnyError unit := λ s,
  let (r, j) := m (mkJoinWorld (m_tpm s) (m_net s)) in
  ((λ _, tt) <$> r, mkMainState (jtpm j) (m_fs s) (jnet j)).

(** [main], after the command line is parsed; [timeout_secs] has its effect
    in which joiners are among [out_joiners]. *)
Definition main (out : Outside) (cli : Cli) : M MainState AnyError unit :=
  match cli_command cli with
  | Genesis force => via_tpm (run_genesis (cli_tcti cli) force)
  | Enroll_ listen max _ k0s_data_dir =>
      via_tpm (map_errM (Context_ "enroll failed" ∘ Any_Enroll)
        (run_enroll (out_files out) (out_now out) (out_leaf_key out) (out_joiners out)
           listen max (cli_tcti cli) k0s_data_dir))
  | Join_ seed k0s_data_dir =>
      via_join (map_errM (Context_ "join failed" ∘ Any_Join)
        (run_join (out_files out) seed (cli_tcti cli) k0s_data_dir))
  | Serve socket force_legacy =>
      via_host (run_serve (out_clients out) (out_server_end out) (cli_tcti cli) socket force_legacy)
  | Status_ => via_tpm (run_status (cli_tcti cli))
  end.

(** The process: [Cli::parse] ends it with clap's exit code if the command line is
    not accepted; [main] returning an error is exit code 1, a panic 101. *)
Definition sceau `{C : Clap} (argv : list string) (out : Outside) (s : MainState) : Z * MainState :=
  match Cli_try_parse_from argv with
  | Ok cli =>
      match main out cli s with
      | (Ok _, s') => (0, s')
      | (Err _, s') => (1, s')
      | (Panic, s') => (101, s')
      end
  | Err e => (clap_exit_code e, s)
  | Panic => (101, s)
  end.
End Main.

(** * Specification *)
Section MainSpec.
Context `{D : TssData} {L : TssDataLaws} {O : TssOps} {TM : TpmModel} {TS : TpmSpec} {K : KeyIdDeps}
  {KL : KeyIdLaws} `{KA : KubeApi} `{X : X509} `{P : Pki} {PI : PkiIssue} {ET : ErrorText}
  {ED : EnrollDeps} {JD : JoinDeps}.
Abbreviation SLOT := FLEET_KEY_PERSISTENT_HANDLE.

(** [id] identifies key [k]. *)
Definition key_id_of (k : Key) (id : string) : Prop := derive_key_id (name_of (public_of k)) = Ok id.

Lemma sealer_for_id w s k : sealer_for w s k → key_id_of k (key_id s).
Proof. by intros (_ & ? & _). Qed.

(** The sealers a node serves with: the fleet key and the SRK behind it, each in
    a context of its own, or the SRK alone. *)
Definition sealers_for (w : World) (r : TpmSealer * option TpmSealer) (kp : Key) (kl : option Key) : Prop :=
  sealer_for w r.1 kp ∧
  match r.2, kl with
  | Some legacy, Some k => sealer_for w legacy k ∧ owns_transient_primary r.1 = false ∧
      owns_transient_primary legacy = true ∧ context r.1 ≠ context legacy ∧
      obj_at (view w) (context legacy) (primary legacy) = Some (OKey k)
  | None, None => owns_transient_primary r.1 = true ∧
      obj_at (view w) (context r.1) (primary r.1) = Some (OKey kp)
  | _, _ => False
  end.

(** The view without the sealers' contexts. *)
Definition close_sealers (r : TpmSealer * option TpmSealer) (v : TpmView Public Digest Key Seed) :=
  match r.2 with
  | Some legacy => close_context (context legacy) (close_context (context r.1) v)
  | None => close_context (context r.1) v
  end.

(** The key a node seals with and its legacy key, by what its slot holds. *)
Definition node_keys (w : World) (kp : Key) (kl : option Key) : Prop :=
  match v_persistent (view w) !! SLOT with
  | Some k => kp = k ∧ ∃ srk, kl = Some srk ∧ is_srk (v_seed (view w)) srk
  | None => is_srk (v_seed (view w)) kp ∧ kl = None
  end.

Lemma node_keys_unique w kp kl kp' kl' : node_keys w kp kl → node_keys w kp' kl' → kp = kp' ∧ kl = kl'.
Proof.
  unfold node_keys. destruct (v_persistent _ !! SLOT).
  - intros (-> & srk & -> & H1) (-> & srk' & -> & H2). by rewrite (is_srk_unique _ _ _ H1 H2).
  - intros [H1 ->] [H2 ->]. by rewrite (is_srk_unique _ _ _ H1 H2).
Qed.

(** The SRK alone, built while the context [c0] of the probe is open. *)
Lemma srk_sealer t c0 w w0 :
  ready w → room 2 w → fresh_context (view w0) c0 → view w = open_context c0 (view w0) →
  run (sealer_new t) w (λ s w', ready w' ∧ ∃ k, is_srk (v_seed (view w0)) k ∧
    sealers_for w' (s, None) k None ∧ c0 ≠ context s ∧ fresh_context (view w0) (context s) ∧
    view w' = add_obj (context s) (primary s) (OKey k)
                (open_context (context s) (open_context c0 (view w0)))).
Proof.
  intros Hr Hroom Hf0 Hv. eapply run_mono; [by apply sealer_new_spec|]. cbv beta.
  intros s w' (Hr' & k & Hk & Hs & Ho & Hf & Hv'). split; [done|]. exists k. rewrite Hv in *.
  assert (context s ≠ c0) as Hne.
  { eapply fresh_context_ne; [|exact Hf]. cbn. rewrite lookup_partial_alter_eq. eauto. }
  split_and!; try done.
  - split; [done|]. cbn. by rewrite Hv', obj_at_add_eq.
  - destruct Hf as [Ha Hob]. cbn in Ha. by rewrite lookup_partial_alter_ne in Ha.
Qed.

Lemma close_probe c0 s k (v : TpmView Public Digest Key Seed) :
  fresh_context v c0 → c0 ≠ context s →
  close_context c0 (add_obj (context s) (primary s) (OKey k)
    (open_context (context s) (open_context c0 v))) =
  add_obj (context s) (primary s) (OKey k) (open_context (context s) v).
Proof.
  intros Hf Hne. rewrite close_context_add_ne, close_context_open_ne, close_context_open by done.
  by rewrite close_context_fresh.
Qed.

(** Dropping the probe's context after the SRK sealer was built beside it. *)
Lemma drop_probe c0 s k w w0 :
  ready w → fresh_context (view w0) c0 → c0 ≠ context s → sealers_for w (s, None) k None →
  view w = add_obj (context s) (primary s) (OKey k)
             (open_context (context s) (open_context c0 (view w0))) →
  let w' := context_drop c0 w in ready w' ∧ sealers_for w' (s, None) k None ∧
    view w' = add_obj (context s) (primary s) (OKey k) (open_context (context s) (view w0)).
Proof.
  intros Hr Hf Hne (Hs & Ho & Hk) Hv. cbv zeta.
  destruct (context_drop_spec c0 w Hr) as [Hr' Hv']. rewrite Hv, close_probe in Hv' by done.
  split_and!; [done| |done]. destruct Hs as (_ & Hi & Hc).
  assert (obj_at (view (context_drop c0 w)) (context s) (primary s) = Some (OKey k)) as Hk'
    by (by rewrite Hv', obj_at_add_eq).
  split; [split_and!; [by left|done..]|done].
Qed.

Lemma close_sealers_fresh r c h o (v : TpmView Public Digest Key Seed) :
  r.2 = None → context r.1 = c → fresh_context v c → close_sealers r (add_obj c h o (open_context c v)) = v.
Proof.
  intros Hn Hc Hf. unfold close_sealers. rewrite Hn, Hc. autorewrite with ctx.
  by apply close_context_fresh.
Qed.

(** The fleet key's handle in a new context. *)
Lemma probe_fleet_key t k w (E : Type) (f : TssError → E) :
  ready w → room 2 w → v_persistent (view w) !! SLOT = Some k →
  run (probe ← map_errM f (context_new t);
       r ← on_failure (context_drop probe) (attempt (load_fleet_key probe));
       mret (probe, r)) w (λ p w', ∃ h, p.2 = inl h ∧ ready w' ∧ fresh_context (view w) p.1 ∧
    view w' = add_obj p.1 h (OPersistent SLOT k) (open_context p.1 (view w))).
Proof.
  intros Hr Hroom Hs.
  step by (by apply run_map_errM, context_new_spec) as (Hr1 & Hf1 & Hv1).
  step by (apply run_on_failure, run_attempt, (load_fleet_key_spec _ k);
    [done|by eapply room_open|by rewrite Hv1]) as (h & -> & Hr2 & Hf2 & Hv2).
  apply run_ret. exists h. by rewrite Hv1 in Hv2.
Qed.
Lemma probe_no_fleet_key t w (E : Type) (f : TssError → E) :
  ready w → room 1 w → v_persistent (view w) !! SLOT = None →
  run (probe ← map_errM f (context_new t);
       r ← on_failure (context_drop probe) (attempt (load_fleet_key probe));
       mret (probe, r)) w (λ p w', (∃ e, p.2 = inr e) ∧ ready w' ∧ fresh_context (view w) p.1 ∧
    view w' = open_context p.1 (view w)).
Proof.
  intros Hr Hroom Hs.
  step by (by apply run_map_errM, context_new_spec) as (Hr1 & Hf1 & Hv1).
  step by (apply run_on_failure, fails_attempt, load_fleet_key_none;
    [done|by eapply room_open|by rewrite Hv1]) as (e & -> & Hr2 & Hv2).
  apply run_ret. rewrite Hv1 in Hv2. split_and!; eauto.
Qed.

(** Both commands start with the probe and go on from what it finds. *)
Lemma run_probe {E A B C} (m : M World E A) (g : A → M World E B) (k : A → B → M World E C) w Q :
  run (a ← m; b ← g a; mret (a, b)) w (λ p w', run (k p.1 p.2) w' Q) →
  run (a ← m; b ← g a; k a b) w Q.
Proof.
  intros ([a b] & w' & Hm & Hk). unfold run in *. revert Hm. unfold mbind, M_bind.
  destruct (m w) as [[a'|e|] w1]; [|done..].
  destruct (g a' w1) as [[b'|e|] w2]; [|done..]. cbn. by intros [= -> -> ->].
Qed.

Lemma build_sealer_spec t w :
  ready w → room 3 w →
  run (build_sealer t) w (λ r w', ready w' ∧ ∃ kp kl, node_keys w kp kl ∧ sealers_for w' r kp kl ∧
    v_persistent (view w') = v_persistent (view w) ∧ close_sealers r (view w') = view w ∧
    (size (v_objs (view w')) ≤ size (v_objs (view w)) + 2)%nat).
Proof.
  intros Hr Hroom. unfold build_sealer, node_keys. apply run_probe.
  destruct (v_persistent (view w) !! SLOT) as [k|] eqn:Hs.
  - eapply run_mono; [apply (probe_fleet_key t k); [done|by eapply room_le, Hroom; lia|done]|].
    cbv beta. intros [c r] w1 (h & Hh & Hr1 & Hf1 & Hv1). cbn in Hh, Hf1, Hv1. subst r. cbn.
    assert (room 2 w1) as Hroom1 by (by eapply room_open_add).
    step by (apply run_map_errM, (from_primary_spec _ _ k); [done|by eapply room_le, Hroom1; lia|])
      as (Hr3 & Hv3 & Hs3 & Hc3 & _ & Ho3).
    { right. exists SLOT. by rewrite Hv1, obj_at_add_eq. }
    step by (apply run_on_failure, run_map_errM, sealer_new_spec; [done|by eapply room_view])
      as (Hr4 & srk & Hsrk & Hs4 & Ho4 & Hf4 & Hv4).
    rewrite Hv3 in Hsrk, Hf4, Hv4. assert (context a0 ≠ c) as Hne.
    { intros Heq. destruct Hf4 as [_ Hf4]. specialize (Hf4 h). rewrite Heq, Hv1, obj_at_add_eq in Hf4. done. }
    apply run_ret. split; [done|]. exists k, (Some srk). rewrite Hv1 in Hsrk.
    split_and!; [done|by exists srk| |by rewrite Hv4, Hv1| |].
    + split; [|cbn; split_and!; try done; [by rewrite Hc3|by rewrite Hv4, obj_at_add_eq]].
      destruct Hs3 as (Hk3 & ? & ?). split_and!; [|done..]. rewrite Hv4. apply key_at_add; [apply Hf4|].
      rewrite <- Hv3. by destruct Hk3 as [?|(sl & ? & ?)]; [left|right; exists sl].
    + unfold close_sealers. cbn. rewrite Hc3, Hv4, close_context_add_ne, close_context_open_ne by done.
      rewrite Hv1. autorewrite with ctx. rewrite (close_context_fresh c) by done.
      apply close_context_fresh. destruct Hf4 as [Ha4 Ho4']. rewrite Hv1 in Ha4, Ho4'.
      split; [cbn in Ha4; by rewrite lookup_partial_alter_ne in Ha4|].
      intros h'. specialize (Ho4' h'). by rewrite obj_at_add_ne in Ho4' by congruence.
    + rewrite Hv4, size_add_fresh by apply Hf4. cbn. rewrite Hv1, size_add_fresh by apply Hf1. cbn. lia.
  - eapply run_mono; [apply probe_no_fleet_key; [done|by eapply room_le, Hroom; lia|done]|].
    cbv beta. intros [c r] w1 ([e He] & Hr1 & Hf1 & Hv1). cbn in He, Hf1, Hv1. subst r. cbn.
    apply run_finally.
    step by (apply run_map_errM, (srk_sealer _ c w1 w); [done| |done|done])
      as (Hr3 & k & Hk & Hsl & Hne & Hfs & Hv3).
    { eapply room_open; [exact Hv1|]. by eapply room_le, Hroom; lia. }
    apply run_ret. destruct (drop_probe c a k w' w Hr3 Hf1 Hne Hsl Hv3) as (? & ? & Hv4).
    split; [done|]. exists k, None. split_and!; [done..|by rewrite Hv4| |].
    + rewrite Hv4. by apply close_sealers_fresh.
    + rewrite Hv4, size_add_fresh by apply Hfs. cbn. lia.
Qed.

Lemma srk_sealer_drop s w kp :
  ready w → room 1 w → sealers_for w (s, None) kp None →
  run (sealer_drop s) w (λ _ w', ready w' ∧ view w' = close_context (context s) (view w)).
Proof. intros Hr Hroom (_ & Ho & Hk). apply sealer_drop_spec; eauto. Qed.
Lemma fleet_sealer_drop s w :
  ready w → room 1 w → owns_transient_primary s = false →
  run (sealer_drop s) w (λ _ w', ready w' ∧ view w' = close_context (context s) (view w)).
Proof. intros Hr Hroom Ho. apply sealer_drop_spec; [done..|]. congruence. Qed.

Lemma run_status_spec tcti w :
  (∃ t, tcti_from_str tcti = Ok t) → ready w → room 3 w →
  run (run_status tcti) w (λ line w', ready w' ∧ view w' = view w ∧
    ∃ kp kl id, node_keys w kp kl ∧ key_id_of kp id ∧
      line = status_line (bool_decide (is_Some kl)) id).
Proof.
  intros [t Ht] Hr Hroom. unfold run_status, node_keys. eapply run_bind_lift; [by rewrite Ht|].
  apply run_probe. destruct (v_persistent (view w) !! SLOT) as [k|] eqn:Hs.
  - eapply run_mono; [apply (probe_fleet_key t k); [done|by eapply room_le, Hroom; lia|done]|].
    cbv beta. intros [c r] w1 (h & Hh & Hr1 & Hf1 & Hv1). cbn in Hh, Hf1, Hv1. subst r. cbn.
    assert (room 2 w1) as Hroom1 by (by eapply room_open_add).
    step by (apply run_map_errM, (from_primary_spec _ _ k); [done|by eapply room_le, Hroom1; lia|])
      as (Hr3 & Hv3 & Hs3 & Hc3 & _ & Ho3).
    { right. exists SLOT. by rewrite Hv1, obj_at_add_eq. }
    step by (apply run_map_errM, fleet_sealer_drop; [done| |done]) as (Hr4 & Hv4).
    { eapply room_view; [exact Hv3|]. by eapply room_le, Hroom1; lia. }
    apply run_ret. split_and!; [done| |].
    { rewrite Hv4, Hc3, Hv3, Hv1. autorewrite with ctx. by apply close_context_fresh. }
    destruct (srk_public_spec) as (p & Hp & _).
    exists k, (Some (primary_key (v_seed (view w)) p)), (key_id a).
    split_and!; [done|eexists; split; [done|by exists p]|by eapply sealer_for_id|done].
  - eapply run_mono; [apply probe_no_fleet_key; [done|by eapply room_le, Hroom; lia|done]|].
    cbv beta. intros [c r] w1 ([e He] & Hr1 & Hf1 & Hv1). cbn in He, Hf1, Hv1. subst r. cbn.
    apply run_finally. assert (room 3 w1) as Hroom1 by (by eapply room_open).
    step by (apply run_map_errM, (srk_sealer _ c w1 w); [done|by eapply room_le, Hroom1; lia|done|done])
      as (Hr3 & k & Hk & Hsl & Hne & Hfs & Hv3).
    step by (eapply run_map_errM, srk_sealer_drop; [done| |exact Hsl]) as (Hr4 & Hv4).
    { unfold room in *. rewrite Hv3, size_add_fresh by apply Hfs. rewrite Hv1 in Hroom1. cbn in *. lia. }
    apply run_ret. destruct (context_drop_spec c _ Hr4) as [? ->]. split_and!; [done| |].
    { rewrite Hv4, Hv3. autorewrite with ctx. rewrite close_context_open_ne by congruence.
      autorewrite with ctx. by rewrite (close_context_fresh (context a)), close_context_fresh. }
    exists k, None, (key_id a). split_and!; try done. destruct Hsl. by eapply sealer_for_id.
Qed.

Lemma run_genesis_spec tcti force w :
  (∃ t, tcti_from_str tcti = Ok t) → ready w → room 3 w →
  run (run_genesis tcti force) w (λ _ w', ready w' ∧ ∃ k, genesis_key w force k ∧
    view w' = with_persistent (insert SLOT k) (view w)).
Proof.
  intros [t Ht] Hr Hroom. unfold run_genesis. eapply run_bind_lift; [by rewrite Ht|].
  step by (by apply run_map_errM, context_new_spec) as (Hr1 & Hf1 & Hv1). apply run_finally.
  step by (apply run_map_errM, create_fleet_key_spec; [done|by eapply room_open])
    as (k & Hk & (Hr2 & _) & Hc).
  apply run_ret. destruct (context_drop_spec a w'0 Hr2) as [? ->]. split; [done|]. exists k.
  unfold genesis_key in Hk. rewrite Hv1 in Hk, Hc. split; [done|].
  rewrite Hc. autorewrite with ctx. by rewrite close_context_fresh.
Qed.

(** ** The files of [run_serve] *)
Definition no_faults (f : HostFs) : Prop := ∀ c, faults f c = None.

Lemma run_on_htpm {E A} (m : M World E A) h Q :
  run m (htpm h) Q → run (on_htpm m) h (λ a h', Q a (htpm h') ∧ hfs h' = hfs h).
Proof. intros (a & w & Hm & HQ). exists a, (mkHostState w (hfs h)). unfold on_htpm. by rewrite Hm. Qed.
Lemma run_on_hfs {E A} (m : M HostFs E A) h Q :
  run m (hfs h) Q → run (on_hfs m) h (λ a h', Q a (hfs h') ∧ htpm h' = htpm h).
Proof. intros (a & f & Hm & HQ). exists a, (mkHostState (htpm h) f). unfold on_hfs. by rewrite Hm. Qed.

Lemma create_dir_all_spec p f :
  no_faults f → run (create_dir_all p) f (λ _ f', no_faults f').
Proof.
  intros Hf. unfold create_dir_all, guarded, run. rewrite Hf.
  eexists tt, _. split; [reflexivity|]. by case_match.
Qed.
Lemma remove_file_spec p f :
  no_faults f → path_exists f p = true →
  run (remove_file p) f (λ _ f', no_faults f' ∧ path_exists f' p = false).
Proof.
  intros Hf He. unfold remove_file, guarded, run. rewrite Hf, He. eexists tt, _. split; [reflexivity|].
  split; [done|]. unfold path_exists. cbn. by rewrite lookup_delete_eq.
Qed.
Lemma unix_bind_spec p f :
  no_faults f → path_exists f p = false →
  run (unix_bind p) f (λ _ f', no_faults f' ∧ path_exists f' p = true).
Proof.
  intros Hf He. unfold unix_bind, guarded, run. rewrite Hf, He. eexists tt, _. split; [reflexivity|].
  split; [done|]. unfold path_exists. cbn. by rewrite lookup_insert_eq.
Qed.
Lemma set_permissions_spec p mode f :
  no_faults f → path_exists f p = true →
  run (set_permissions p mode) f (λ _ f', no_faults f' ∧ path_exists f' p = true ∧
    entries f' !! p = Some mode).
Proof.
  intros Hf He. unfold set_permissions, guarded, run. rewrite Hf, He. eexists tt, _. split; [reflexivity|].
  split; [done|]. unfold path_exists. cbn. by rewrite lookup_insert_eq.
Qed.

Lemma bind_socket_spec socket h :
  no_faults (hfs h) → path_exists (hfs h) socket = false →
  run (bind_socket socket) h (λ _ h', (no_faults (hfs h') ∧ path_exists (hfs h') socket = true ∧
    entries (hfs h') !! socket = Some MODE_0600) ∧ htpm h' = htpm h).
Proof.
  intros Hf He. unfold bind_socket.
  step by (by apply run_on_hfs, run_map_errM, unix_bind_spec) as ((Hf4 & He4) & Hw4).
  eapply run_mono; [by apply run_on_hfs, run_map_errM, set_permissions_spec|].
  cbv beta. rewrite Hw4. done.
Qed.

Lemma or_drop_run r m h (Q : unit → HostState → Prop) : run m h Q → run (or_drop r m) h Q.
Proof.
  intros ([] & h' & Hm & HQ). exists tt, h'. unfold or_drop, mbind, M_bind, attempt. by rewrite Hm.
Qed.

Lemma create_parent_spec socket h :
  no_faults (hfs h) →
  run (create_parent socket) h (λ _ h', no_faults (hfs h') ∧ htpm h' = htpm h).
Proof.
  intros Hf. unfold create_parent. destruct (path_parent socket) as [parent|]; [|by apply run_ret].
  by apply run_on_hfs, run_map_errM, create_dir_all_spec.
Qed.
Lemma remove_stale_spec socket h :
  no_faults (hfs h) →
  run (remove_stale socket) h (λ _ h', (no_faults (hfs h') ∧ path_exists (hfs h') socket = false) ∧
    htpm h' = htpm h).
Proof.
  intros Hf. destruct (path_exists (hfs h) socket) eqn:He; unfold run, remove_stale; rewrite He.
  - apply (run_on_hfs _ _ (λ _ f, no_faults f ∧ path_exists f socket = false)).
    by apply run_map_errM, remove_file_spec.
  - by exists tt, h.
Qed.

(** ** The requests of [run_serve] *)
(** The ledger after a session, and a session that agrees with the ledger at every
    point of it. *)
Definition session_ledger (l : Ledger) (xs : list Exchange) : Ledger :=
  foldl (λ L e, match e.2 with Answered resp => record L e.1 resp | _ => L end) l xs.
Fixpoint answered (kid : string) (l : Ledger) (xs : list Exchange) : Prop :=
  match xs with
  | [] => True
  | (req, x) :: rest => ∃ resp, x = Answered resp ∧ vault_answers kid l req resp ∧
      answered kid (record l req resp) rest
  end.
(** Each client asked once, knowing what came before. *)
Definition asked (seen : list Exchange) (cs : list Client) (xs : list Exchange) : Prop :=
  length xs = length cs ∧
  ∀ n c, cs !! n = Some c → fst <$> xs !! n = Some (c (seen ++ take n xs)).
(** Clients that the contract covers: whatever the session has brought, they send
    back only ciphertext of the ledger. *)
Definition honest (l : Ledger) (from : nat) (cs : list Client) : Prop :=
  ∀ n c seen, cs !! n = Some c → length seen = (from + n)%nat → admissible (session_ledger l seen) (c seen).

Lemma honest_tail l from c cs : honest l from (c :: cs) → honest l (S from) cs.
Proof. intros H n c' seen Hc Hlen. apply (H (S n)); [done|lia]. Qed.
Lemma session_ledger_snoc l seen req resp :
  session_ledger l (seen ++ [(req, Answered resp)]) = record (session_ledger l seen) req resp.
Proof. unfold session_ledger. by rewrite foldl_app. Qed.

Lemma serve_kms_spec l cs kp kl : ∀ seen st,
  kms_ok st kp kl → ledger_ok st kp kl (session_ledger l seen) → honest l (length seen) cs →
  run (serve_kms seen cs) st (λ xs st', svc st' = svc st ∧ view (tpm st') = view (tpm st) ∧ ready (tpm st') ∧
    ledger_ok st kp kl (session_ledger l xs) ∧
    ∃ ys, xs = seen ++ ys ∧ asked seen cs ys ∧
      answered (key_id (inner (sealer (svc st)))) (session_ledger l seen) ys).
Proof.
  induction cs as [|c cs IH]; intros seen st Hok Hl Hc; cbn [serve_kms].
  { apply run_ret. split_and!; [done..|by destruct Hok|done|]. exists []. by rewrite app_nil_r. }
  cbv zeta. step by (eapply run_respond, (kms_handle_vault _ _ _ _ _ (c seen)); [done..|];
    apply (Hc 0%nat); [done|lia]) as (resp & -> & Hsv & Hv & Hok' & Hl' & Hans).
  rewrite <- session_ledger_snoc in Hl'. eapply run_mono; [apply (IH _ _ Hok' Hl')|].
  { apply honest_tail in Hc. rewrite length_app, Nat.add_comm. done. }
  cbv beta. intros xs st2 (Hsv2 & Hv2 & Hr2 & Hl2 & ys & -> & [Hlen Hask] & Hys).
  rewrite Hsv in Hsv2, Hys. split_and!; [done|congruence|done|eapply (ledger_ok_svc w'); [congruence|done]|].
  exists ((c seen, Answered resp) :: ys). rewrite <- app_assoc. split_and!; [done|split|].
  - cbn. by rewrite Hlen.
  - intros [|n] c' Hc'; cbn in Hc'; [injection Hc' as <-; cbn; by rewrite app_nil_r|].
    change (fst <$> ys !! n = Some (c' (seen ++ (c seen, Answered resp) :: take n ys))).
    by rewrite (Hask _ _ Hc'), <- app_assoc.
  - exists resp. split_and!; [done..|]. by rewrite session_ledger_snoc in Hys.
Qed.

Lemma drop_service_spec w r kp kl :
  ready w → room 1 w → sealers_for w r kp kl →
  run (drop_service (kms_service_of r)) w (λ _ w', ready w' ∧ view w' = close_sealers r (view w)).
Proof.
  destruct r as [s [legacy|]]; intros Hr Hroom [Hs Hrest]; cbn in Hrest; unfold drop_service; cbn.
  - destruct kl as [k|]; [|done]. destruct Hrest as (_ & Ho & Ho' & Hne & Hk).
    step by (by apply run_map_errM, fleet_sealer_drop) as [Hr1 Hv1].
    eapply run_mono; [apply run_map_errM, sealer_drop_spec; [done| |]|].
    + unfold room in *. rewrite Hv1. pose proof (size_close_context (context s) (view w)). lia.
    + intros _. exists k. by rewrite Hv1, obj_at_close_context_ne.
    + cbv beta. intros _ w2 [? ->]. by rewrite Hv1.
  - destruct kl; [done|]. destruct Hrest as [Ho Hk].
    step by (by eapply run_map_errM, srk_sealer_drop) as [? Hv]. by apply run_ret.
Qed.

(** Ciphertext sealed under one of the node's keys, with that key's id. *)
Definition ledger_of (kp : Key) (kl : option Key) (l : Ledger) : Prop :=
  ∀ ct kid pt, (ct, kid, pt) ∈ l →
    ∃ k, (k = kp ∨ kl = Some k) ∧ key_id_of k kid ∧ envelope_seals k ct pt.

Lemma sealers_kms_ok w r kp kl :
  ready w → room 2 w → sealers_for w r kp kl →
  (∀ k id, kl = Some k → key_id_of k id → ¬ key_id_of kp id) →
  kms_ok (mkKmsState (kms_service_of r) w) kp kl.
Proof.
  destruct r as [s [legacy|]]; intros Hr Hroom [Hs Hrest] Hid; destruct kl as [k|]; try done;
    split; cbn; try done.
  destruct Hrest as (Hl & _). split_and!; [done..|]. intros Heq.
  eapply (Hid k (key_id legacy)); [done|by eapply sealer_for_id|]. rewrite Heq. by eapply sealer_for_id.
Qed.
Lemma ledger_of_ok w r kp kl l :
  sealers_for w r kp kl → ledger_of kp kl l → ledger_ok (mkKmsState (kms_service_of r) w) kp kl l.
Proof.
  intros [Hs Hrest] Hl ct kid pt Hin. destruct (Hl _ _ _ Hin) as (k & Hk & Hid & He).
  exists k. split; [|done]. destruct Hk as [-> | -> ].
  - left. split; [|done]. apply sealer_for_id in Hs. unfold key_id_of in *.
    destruct r as [s [?|]]; cbn in *; congruence.
  - right. destruct r as [s [legacy|]]; [|done]. cbn in *. destruct Hrest as (Hl' & _).
    exists (mkMutex false legacy). apply sealer_for_id in Hl'. unfold key_id_of in *.
    split_and!; [done| |done]. cbn. congruence.
Qed.
(** And back: what a session added is sealed under the node's keys. *)
Lemma ledger_ok_of w r kp kl l :
  sealers_for w r kp kl → ledger_ok (mkKmsState (kms_service_of r) w) kp kl l → ledger_of kp kl l.
Proof.
  intros [Hs Hrest] Hl ct kid pt Hin. destruct (Hl _ _ _ Hin) as (k & Hsel & He). exists k.
  destruct r as [s [legacy|]]; cbn in Hrest; destruct kl as [k'|]; try done;
    (destruct Hsel as [[-> ->]|(m & Hm & -> & Hkl)]; [split_and!; [by left|by eapply sealer_for_id|done]|]); [|done].
  destruct Hrest as (Hleg & _). injection Hm as <-. injection Hkl as <-.
  split_and!; [by right|by eapply sealer_for_id|done].
Qed.
End MainSpec.

(** * Theorems *)
Section MainTheorems.
Context `{D : TssData} {L : TssDataLaws} {O : TssOps} {TM : TpmModel} {TS : TpmSpec} {K : KeyIdDeps}
  {KL : KeyIdLaws} `{KA : KubeApi} `{X : X509} `{P : Pki} {PI : PkiIssue} {ET : ErrorText}
  {ED : EnrollDeps} {JD : JoinDeps}.
Abbreviation SLOT := FLEET_KEY_PERSISTENT_HANDLE.

Lemma serve_and_drop_spec l cs w r kp kl :
  ready w → room 2 w → sealers_for w r kp kl →
  (∀ k id, kl = Some k → key_id_of k id → ¬ key_id_of kp id) →
  ledger_of kp kl l → honest l 0 cs →
  run (serve_and_drop (kms_service_of r) cs) w (λ xs w', ready w' ∧
    view w' = close_sealers r (view w) ∧ asked [] cs xs ∧ ledger_of kp kl (session_ledger l xs) ∧
    ∃ kid, key_id_of kp kid ∧ answered kid l xs).
Proof.
  intros Hr Hroom Hs Hid Hl Hcs.
  destruct (serve_kms_spec l cs kp kl [] _ (sealers_kms_ok _ _ _ _ Hr Hroom Hs Hid)
    (ledger_of_ok _ _ _ _ _ Hs Hl)) as (xs & st & Hx & Hsv & Hv & Hr' & Hl' & ys & -> & Hask & Hys); [done|].
  cbn in Hv. assert (sealers_for (tpm st) r kp kl) as Hs'.
  { unfold sealers_for, sealer_for in *. by rewrite Hv. }
  destruct (drop_service_spec (tpm st) r kp kl) as (u & w' & Hd & Hr2 & Hp); [done| |done|].
  { unfold room in *. rewrite Hv. lia. }
  exists ys, w'. unfold serve_and_drop. rewrite Hx. split.
  { unfold mbind, M_bind. rewrite Hsv. cbn. by rewrite Hd. }
  split_and!; [done|by rewrite Hp, Hv|done|by eapply ledger_ok_of|].
  exists (key_id (inner (sealer (kms_service_of r)))). split; [|done].
  destruct Hs as [Hs _]. apply sealer_for_id in Hs. by destruct r as [s [?|]].
Qed.

Lemma run_serve_spec l cs tcti socket h kp kl :
  (∃ t, tcti_from_str tcti = Ok t) → no_faults (hfs h) → ready (htpm h) → room 4 (htpm h) →
  node_keys (htpm h) kp kl → (∀ k id, kl = Some k → key_id_of k id → ¬ key_id_of kp id) →
  ledger_of kp kl l → honest l 0 cs →
  run (run_serve cs (Ok tt) tcti socket false) h (λ xs h',
    path_exists (hfs h') socket = false ∧
    view (htpm h') = view (htpm h) ∧ asked [] cs xs ∧ ledger_of kp kl (session_ledger l xs) ∧
    ∃ kid, key_id_of kp kid ∧ answered kid l xs).
Proof.
  intros [t Ht] Hf Hr Hroom Hkeys Hid Hl Hcs. unfold run_serve.
  step by (by apply create_parent_spec) as (Hf1 & Hw1).
  step by (by apply remove_stale_spec) as ((Hf2 & He2) & Hw2). rewrite Hw1 in Hw2.
  eapply run_bind_lift; [by rewrite Ht|].
  step by (apply run_on_htpm, run_map_errM, build_sealer_spec; rewrite Hw2;
    [done|by eapply room_le, Hroom; lia])
    as ((Hr3 & kp' & kl' & Hk' & Hs3 & _ & Hcl & Hsz) & Hfs3). rewrite Hw2 in Hk', Hcl, Hsz.
  destruct (node_keys_unique _ _ _ _ _ Hkeys Hk') as [<- <-].
  step by (apply or_drop_run, bind_socket_spec; by rewrite Hfs3) as ((Hf5 & He5 & _) & Hw5).
  step by (apply run_on_htpm, (serve_and_drop_spec l cs _ a1 kp kl); rewrite ?Hw5;
    [done| |done..]) as ((Hr6 & Hp6 & Hans) & Hfs6).
  { unfold room in *. lia. }
  eapply run_bind_lift; [done|].
  step by (apply run_attempt, run_on_hfs, remove_file_spec; by rewrite Hfs6)
    as ([] & -> & (_ & He7) & Hw7).
  apply run_ret. rewrite Hw7, Hp6, Hw5. done.
Qed.

(** Which key a node seals with: [serve] prefers the fleet key whenever
    the well-known slot holds one, keeping the per-node SRK for [Decrypt] only,
    and uses the SRK alone otherwise; building the sealers changes no slot. *)
Theorem build_sealer_prefers_fleet_key t w :
  ready w → room 3 w →
  run (build_sealer t) w (λ r w',
    v_persistent (view w') = v_persistent (view w) ∧
    match v_persistent (view w) !! SLOT with
    | Some k => sealer_for w' r.1 k ∧
        ∃ legacy srk, r.2 = Some legacy ∧ is_srk (v_seed (view w)) srk ∧ sealer_for w' legacy srk
    | None => r.2 = None ∧ ∃ srk, is_srk (v_seed (view w)) srk ∧ sealer_for w' r.1 srk
    end).
Proof.
  intros Hr Hroom. eapply run_mono; [by apply build_sealer_spec|]. cbv beta.
  intros [s lg] w' (_ & kp & kl & Hk & [Hs Hrest] & Hp & _ & _). split; [done|]. unfold node_keys in Hk.
  destruct (v_persistent (view w) !! SLOT) as [k|].
  - destruct Hk as (-> & srk & -> & Hsrk). split; [done|]. cbn in Hrest.
    destruct lg as [lg|]; [|done]. exists lg, srk. by destruct Hrest as (? & _).
  - destruct Hk as [Hsrk ->]. destruct lg; [done|]. eauto.
Qed.

(** The service that [serve] builds is one that concurrent requests find as
    [KmsVault.v] wants it: its two sealers have contexts of their own, and there is
    room for a section of each. *)
Theorem build_sealer_serves_concurrently t w kp kl :
  ready w → room 6 w → node_keys w kp kl → (∀ k id, kl = Some k → key_id_of k id → ¬ key_id_of kp id) →
  run (build_sealer t) w (λ r w', kms_conc_ok (mkKmsState (kms_service_of r) w') kp kl).
Proof.
  intros Hr Hroom Hkeys Hid. eapply run_mono; [apply build_sealer_spec; [done|by eapply room_le, Hroom; lia]|].
  cbv beta. intros r w' (Hr' & kp' & kl' & Hk' & Hs & _ & _ & Hsz).
  destruct (node_keys_unique _ _ _ _ _ Hkeys Hk') as [-> ->].
  assert (room 4 w') as Hroom' by (unfold room in *; lia).
  split; [apply sealers_kms_ok; [done|by eapply room_le, Hroom'; lia|done..]|].
  intros m Hm. split; [|done]. destruct r as [s [legacy|]]; [|done]. injection Hm as <-. destruct Hs as [_ Hs].
  cbn in *. destruct kl'; [|done]. by destruct Hs as (_ & _ & _ & Hne & _).
Qed.

(** C32. A whole [genesis]: it succeeds, and all it changes of the TPM is the
    well-known slot.  Without [--force] a key that is there stays; otherwise the
    slot ends with the key this TPM derives from the fleet template, which
    carries the [TPM2_Duplicate] policy and is neither fixedTPM nor fixedParent,
    so that it can be handed to joiners. *)
Theorem genesis_run tcti force w :
  (∃ t, tcti_from_str tcti = Ok t) → ready w → room 3 w →
  run (run_genesis tcti force) w (λ _ w', ready w' ∧ ∃ k,
    view w' = with_persistent (insert SLOT k) (view w) ∧
    (force = false → ∀ k0, v_persistent (view w) !! SLOT = Some k0 → k = k0) ∧
    (force = true ∨ v_persistent (view w) !! SLOT = None →
       local_fleet_key (v_seed (view w)) k ∧ duplicable_key k)).
Proof.
  intros Ht Hr Hroom. eapply run_mono; [by apply run_genesis_spec|]. cbv beta.
  intros _ w' (Hr' & k & Hk & Hv). split; [done|]. exists k. unfold genesis_key in Hk.
  split_and!; [done| |]; destruct force; try done.
  - intros _ k0 Hs. by rewrite Hs in Hk.
  - eauto using local_fleet_key_duplicable.
  - intros [|Hs]; [done|]. rewrite Hs in Hk. eauto using local_fleet_key_duplicable.
Qed.

(** C33. [status] never disagrees with [serve]: on the same TPM it reports the
    key identifier of the sealer that [build_sealer] picks, and [fleet_key=true]
    exactly when that sealer comes with a legacy fallback.  It leaves the TPM as it
    was. *)
Theorem status_agrees_with_serve tcti t w :
  tcti_from_str tcti = Ok t → ready w → room 3 w →
  run (build_sealer t) w (λ r _, run (run_status tcti) w (λ line w',
    line = status_line (bool_decide (is_Some r.2)) (key_id r.1) ∧ view w' = view w)).
Proof.
  intros Ht Hr Hroom. eapply run_mono; [by apply build_sealer_spec|]. cbv beta.
  intros [s lg] w' (_ & kp & kl & Hk & [Hs Hrest] & _ & _ & _).
  eapply run_mono; [apply run_status_spec; eauto|]. cbv beta.
  intros line w2 (_ & -> & kp' & kl' & id & Hk' & Hid & ->). split; [|done]. unfold node_keys in *.
  apply sealer_for_id in Hs. unfold key_id_of in *. cbn in *.
  destruct (v_persistent (view w) !! SLOT) as [k|].
  - destruct Hk as (-> & srk & -> & _), Hk' as (-> & srk' & -> & _).
    destruct lg; [|done]. rewrite Hid in Hs. by injection Hs as ->.
  - destruct Hk as [H1 ->], Hk' as [H2 ->]. destruct lg; [done|].
    rewrite (is_srk_unique _ _ _ H2 H1) in Hid. rewrite Hid in Hs. by injection Hs as ->.
Qed.

(** C14. From the command line to the exit code: an accepted [enroll] on a node that
    is set up and holds a fleet key exits with 0, whoever asks for what, and leaves
    TPM, files and network as they were.  The public areas in the requests are
    arbitrary: one that the TPM does not load, or does not take for a storage key,
    is refused and leaves nothing behind.  That [--max] is in range is the parser's
    doing, not a hypothesis; that no handler panics while it looks at a request's
    certificate is one. *)
Theorem sceau_enroll_process `{C : Clap} {CL : ClapLaws} argv out s tcti listen max secs dir name client k :
  Cli_try_parse_from argv = Ok (mkCli tcti (Enroll_ listen max secs dir)) →
  enroll_env (out_files out) (out_now out) (out_leaf_key out) listen tcti dir name client →
  ready (m_tpm s) → room 3 (m_tpm s) → v_persistent (view (m_tpm s)) !! SLOT = Some k → duplicable_key k →
  Forall (λ r, no_panic (authorize_request client r)) (out_joiners out) →
  ∃ s', sceau argv out s = (0, s') ∧ ready (m_tpm s') ∧ view (m_tpm s') = view (m_tpm s) ∧
    m_fs s' = m_fs s ∧ m_net s' = m_net s.
Proof.
  intros Hp Henv Hr Hroom Hk Hd Hjs. unfold sceau.
  destruct (try_parse_ok _ _ Hp) as [Hmax _]. cbn -[Z.pow] in Hmax.
  rewrite !andb_true_iff, !Z.leb_le, !Z.ltb_lt in Hmax.
  assert (1 ≤ max < USIZE) as Hmax' by (change USIZE with (2 ^ 64); lia).
  destruct (run_enroll_spec _ _ _ _ _ _ _ _ _ _ _ _ Henv Hr Hroom Hk Hd Hmax' Hjs) as (xs & w & Hrun & _ & Hr' & Hv).
  rewrite Hp. unfold main. cbn [cli_command cli_tcti]. unfold via_tpm. rewrite (map_errM_ok _ _ _ _ _ Hrun). cbn.
  eexists. split; [reflexivity|]. by cbn.
Qed.

(** What a log says was asked, in its order, and answered. *)
Definition in_order (l : KmsLog) : list Client := (λ e _, e.1.2) <$> l.
Definition exchanges (l : KmsLog) : list Exchange := (λ e, (e.1.2, rpc_result e.2)) <$> l.
Lemma replay_serve_kms l : ∀ seen st st', replay tss_display st l st' →
  serve_kms seen (in_order l) st = (Ok (seen ++ exchanges l), st').
Proof.
  induction l as [|[[t req] r] l IH]; intros seen st st'; [intros ->; cbn; by rewrite app_nil_r|]. cbn.
  intros (st1 & Hh & Hr). unfold mbind, M_bind, respond. rewrite Hh.
  by destruct r; cbn; rewrite (IH _ _ _ Hr), <- app_assoc.
Qed.
(** C17. On a node with one sealer, serving one request at a time, as [serve_kms]
    does, loses nothing: any execution in which requests run concurrently, one TPM
    command at a time, and none panics gives, whenever the mutex is free, the
    replies and the state of handling the same requests one by one in some order,
    and ends, once all have been answered, with a reply to each.  (With a legacy
    sealer the commands of two requests can alternate, and what holds is the
    contract of [KmsVault.v].) *)
Theorem concurrent_serve_is_sequential {NS : NullauthSteps} {NSL : NullauthSplit} guard st sys :
  legacy_sealer (svc st) = None → kms_reach tss_display guard st sys → none_panicked (ks_log sys) →
  (primary_held sys = false →
     serve_kms [] (in_order (ks_log sys)) st = (Ok (exchanges (ks_log sys)), ks_state sys)) ∧
  (Forall (λ pc, ∃ req r, pc = Replied req r) (ks_tasks sys) →
     primary_held sys = false ∧ (exchanges (ks_log sys)).*1 ≡ₚ pc_request <$> ks_tasks sys).
Proof.
  intros Hleg Hr Hnp. destruct (kms_reach_seq _ _ _ _ Hleg Hr Hnp) as (Hs & w0 & Hrep & Hw & _). split.
  - intros Hh. rewrite (replay_serve_kms _ [] _ _ Hrep), <- (Hw Hh), <- Hs. by destruct (ks_state sys).
  - intros Hall. split.
    + destruct (kms_reach_locks _ _ _ _ Hr) as [Hl _]. destruct (primary_held sys); [|done].
      destruct (sum_with_pos in_primary (ks_tasks sys)) as (t & pc & Hpc & Hin); [cbn in Hl; lia|].
      by destruct (Forall_lookup_1 _ _ _ _ Hall Hpc) as (req & r & ->).
    + unfold exchanges. rewrite <- list_fmap_compose. apply log_permutation; [by eapply kms_reach_log|done].
Qed.

(** C4. A whole life of [serve], stale socket and all: on a host whose files
    can be written, and whose two keys have distinct identifiers, every request
    of a session is answered positively and correctly, where the clients may ask
    for [Status], for [Encrypt] of up to 128 bytes, and for [Decrypt] of ciphertext
    sealed earlier under the fleet key or, before the node had one, under its SRK,
    as well as of any ciphertext that this session has given out: that one decrypts
    to what was encrypted, now and, being sealed under one of the node's keys, in
    every later life.  At the end the socket is gone and the TPM is as it was
    before. *)
Theorem serve_session l cs tcti socket h kp kl :
  (∃ t, tcti_from_str tcti = Ok t) → no_faults (hfs h) → ready (htpm h) → room 4 (htpm h) →
  node_keys (htpm h) kp kl → (∀ k id, kl = Some k → key_id_of k id → ¬ key_id_of kp id) →
  ledger_of kp kl l → honest l 0 cs →
  run (run_serve cs (Ok tt) tcti socket false) h (λ xs h',
    path_exists (hfs h') socket = false ∧
    view (htpm h') = view (htpm h) ∧ asked [] cs xs ∧ ledger_of kp kl (session_ledger l xs) ∧
    ∃ kid, key_id_of kp kid ∧ answered kid l xs).
Proof. apply run_serve_spec. Qed.
End MainTheorems.

(** * Examples *)
Abbreviation build_sealer_sim := (build_sealer (O:=sim_ops) (K:=sim_key_id) (P:=sim_pki)
  (ED:=sim_enroll_deps) (JD:=sim_direct)).
Abbreviation run_status_sim := (run_status (O:=sim_ops) (K:=sim_key_id) (P:=sim_pki)
  (ED:=sim_enroll_deps) (JD:=sim_direct)).

Lemma build_sealer_prefers_fleet_key_witness :
  run (build_sealer_sim "device:/dev/tpmrm0"%string) (demo_genesis x07).2 (λ r w',
    v_persistent (sw_view w') = v_persistent (sw_view (demo_genesis x07).2) ∧
    match v_persistent (sw_view (demo_genesis x07).2) !! FLEET_KEY_PERSISTENT_HANDLE with
    | Some k => sealer_for (TS:=sim_spec) w' r.1 k ∧
        ∃ legacy srk, r.2 = Some legacy ∧
          is_srk (TS:=sim_spec) (v_seed (sw_view (demo_genesis x07).2)) srk ∧
          sealer_for (TS:=sim_spec) w' legacy srk
    | None => r.2 = None ∧
        ∃ srk, is_srk (TS:=sim_spec) (v_seed (sw_view (demo_genesis x07).2)) srk ∧
          sealer_for (TS:=sim_spec) w' r.1 srk
    end).
Proof.
  apply (build_sealer_prefers_fleet_key (TS:=sim_spec) (L:=sim_data_laws) (KL:=sim_key_id_laws)
           (P:=sim_pki) (ED:=sim_enroll_deps) (JD:=sim_direct));
    [apply demo_genesis_ready|apply demo_genesis_room; lia].
Defined.

Lemma concurrent_serve_is_sequential_witness :
  (primary_held demo_done = false →
     serve_kms (O:=sim_ops) (P:=sim_pki) (ET:=sim_text) (ED:=sim_enroll_deps) (JD:=sim_direct) []
       (in_order (ks_log demo_done)) demo_kms = (Ok (exchanges (ks_log demo_done)), ks_state demo_done)) ∧
  (Forall (λ pc, ∃ req r, pc = Replied req r) (ks_tasks demo_done) →
     primary_held demo_done = false ∧ (exchanges (ks_log demo_done)).*1 ≡ₚ pc_request <$> ks_tasks demo_done).
Proof.
  apply (concurrent_serve_is_sequential (O:=sim_ops) (P:=sim_pki) (ET:=sim_text) (ED:=sim_enroll_deps) (JD:=sim_direct)
    any_request demo_kms demo_done); [reflexivity| |].
  - apply (kms_schedule_reach _ _ demo_order _ demo_arrived_reach demo_runs).
  - apply all_ok_no_panic. vm_compute. reflexivity.
Defined.

Lemma genesis_run_witness :
  run (run_genesis (O:=sim_ops) (P:=sim_pki) (ED:=sim_enroll_deps) (JD:=sim_direct)
         "device:/dev/tpmrm0" true) (demo_genesis x07).2 (λ _ w',
    ready (TpmSpec:=sim_spec) w' ∧ ∃ k,
      sw_view w' = with_persistent (insert FLEET_KEY_PERSISTENT_HANDLE k)
                     (sw_view (demo_genesis x07).2) ∧
      (true = false → ∀ k0, v_persistent (sw_view (demo_genesis x07).2) !!
                              FLEET_KEY_PERSISTENT_HANDLE = Some k0 → k = k0) ∧
      (true = true ∨ v_persistent (sw_view (demo_genesis x07).2) !!
                       FLEET_KEY_PERSISTENT_HANDLE = None →
       local_fleet_key (TS:=sim_spec) (v_seed (sw_view (demo_genesis x07).2)) k ∧
       duplicable_key (TS:=sim_spec) k)).
Proof.
  apply (genesis_run (TS:=sim_spec) (L:=sim_data_laws) (P:=sim_pki) (ED:=sim_enroll_deps)
           (JD:=sim_direct)); [by eexists|apply demo_genesis_ready|apply demo_genesis_room; lia].
Defined.

Lemma status_agrees_with_serve_witness :
  run (build_sealer_sim "device:/dev/tpmrm0"%string) (demo_genesis x07).2 (λ r _,
    run (run_status_sim "device:/dev/tpmrm0") (demo_genesis x07).2 (λ line w',
      line = status_line (bool_decide (is_Some r.2)) (key_id r.1) ∧
      sw_view w' = sw_view (demo_genesis x07).2)).
Proof.
  apply (status_agrees_with_serve (TS:=sim_spec) (L:=sim_data_laws) (KL:=sim_key_id_laws)
           (P:=sim_pki) (ED:=sim_enroll_deps) (JD:=sim_direct));
    [reflexivity|apply demo_genesis_ready|apply demo_genesis_room; lia].
Defined.

Lemma demo_node_keys :
  node_keys (TS:=sim_spec) (demo_genesis x07).2 (sim_fleet_key x07) (Some (demo_srk x07)).
Proof.
  unfold node_keys. destruct (v_persistent _ !! _) as [k|] eqn:H;
    pose proof (eq_trans (eq_sym H) demo_genesis_slot) as Hk; [|done]. injection Hk as ->.
  split; [done|]. exists (demo_srk x07). split; [done|]. eexists. split; vm_compute; reflexivity.
Qed.
Lemma build_sealer_serves_concurrently_witness :
  run (build_sealer_sim "device:/dev/tpmrm0"%string) (demo_genesis x07).2 (λ r w',
    kms_conc_ok (TS:=sim_spec) (mkKmsState (O:=sim_ops) (kms_service_of r) w') (sim_fleet_key x07) (Some (demo_srk x07))).
Proof.
  apply (build_sealer_serves_concurrently (TS:=sim_spec) (L:=sim_data_laws) (KL:=sim_key_id_laws)
           (P:=sim_pki) (ED:=sim_enroll_deps) (JD:=sim_direct));
    [apply demo_genesis_ready|apply demo_genesis_room; lia|apply demo_node_keys|].
  intros k id [= <-] H1 H2. vm_compute in H1, H2. congruence.
Defined.

(** A host with a stale socket, after genesis, asked for its status, for an
    encryption, for a ciphertext of its SRK from before genesis, and for the
    ciphertext that it has just given out. *)
Definition demo_files : HostFs := mkHostFs {[ DEFAULT_SOCKET := MODE_0600 ]} (λ _, None).
Definition demo_serving : HostState (O:=sim_ops) := mkHostState (demo_genesis x07).2 demo_files.
Definition decrypt_back : Client := λ seen,
  match seen !! 1%nat with
  | Some (ReqEncrypt _, Answered (RespEncrypt r)) =>
      ReqDecrypt (mkDecryptRequest (enc_ciphertext r) "u" (enc_key_id r) ∅)
  | _ => ReqStatus
  end.
Definition demo_clients : list Client :=
  [λ _, ReqStatus; λ _, ReqEncrypt (mkEncryptRequest [x01; x02] "u"); λ _, ReqDecrypt old_request; decrypt_back].
Lemma session_ledger_grows l seen : l ⊆ session_ledger l seen.
Proof.
  revert l. induction seen as [|[req x] seen IH]; intros l; [done|]. cbn.
  destruct x; [etrans; [apply record_grows|]|..]; apply IH.
Qed.
Lemma session_ledger_in l seen q r :
  (ReqEncrypt q, Answered (RespEncrypt r)) ∈ seen →
  (enc_ciphertext r, enc_key_id r, enc_plaintext q) ∈ session_ledger l seen.
Proof.
  intros (a & b & ->)%list_elem_of_split. unfold session_ledger. rewrite foldl_app. cbn.
  apply (session_ledger_grows _ b). by left.
Qed.
Lemma demo_honest : honest old_ledger 0 demo_clients.
Proof.
  intros n c seen Hc Hlen. destruct n as [|[|[|[|n]]]]; cbn in Hc; try injection Hc as <-; try done.
  - vm_compute. lia.
  - exists [xaa]. apply session_ledger_grows. by apply list_elem_of_singleton.
  - unfold decrypt_back. destruct (seen !! 1%nat) as [[[|q|q] [[r|r|r]|e|]]|] eqn:Hx; try exact I.
    exists (enc_plaintext q). by eapply session_ledger_in, list_elem_of_lookup_2.
Qed.

Lemma old_ledger_of : ledger_of (TS:=sim_spec) (sim_fleet_key x07) (Some (demo_srk x07)) old_ledger.
Proof.
  intros ct kid pt [= -> -> ->]%list_elem_of_singleton. exists (demo_srk x07).
  split_and!; [by right|vm_compute; reflexivity|apply old_ciphertext_seals].
Qed.

Lemma serve_session_witness :
  run (run_serve (O:=sim_ops) (K:=sim_key_id) (P:=sim_pki) (ET:=sim_text) (ED:=sim_enroll_deps)
         (JD:=sim_direct) demo_clients (Ok tt) "device:/dev/tpmrm0" DEFAULT_SOCKET false) demo_serving
    (λ xs h', path_exists (hfs h') DEFAULT_SOCKET = false ∧
      sw_view (htpm h') = sw_view (htpm demo_serving) ∧ asked [] demo_clients xs ∧
      ledger_of (TS:=sim_spec) (sim_fleet_key x07) (Some (demo_srk x07)) (session_ledger old_ledger xs) ∧
      ∃ kid, key_id_of (TS:=sim_spec) (sim_fleet_key x07) kid ∧ answered kid old_ledger xs).
Proof.
  apply (serve_session (TS:=sim_spec) (L:=sim_data_laws) (KL:=sim_key_id_laws) (P:=sim_pki)
           (ET:=sim_text) (ED:=sim_enroll_deps) (JD:=sim_direct) old_ledger demo_clients
           "device:/dev/tpmrm0" DEFAULT_SOCKET demo_serving (sim_fleet_key x07) (Some (demo_srk x07)));
    [by eexists|done|apply demo_genesis_ready|apply demo_genesis_room; lia|apply demo_node_keys
    | |apply old_ledger_of|apply demo_honest].
  intros k id [= <-] H1 H2. vm_compute in H1, H2. congruence.
Defined.

Definition demo_argv : list string := ["enroll"; "--listen=0.0.0.0:8443"; "--max"; "2"]%string.
Definition demo_host : MainState (O:=sim_ops) (JD:=sim_direct) :=
  mkMainState (O:=sim_ops) (demo_genesis x07).2 demo_files (demo_seed 1).
Definition demo_joiners : Outside (KA:=sim_kube) (P:=sim_pki) (ED:=sim_enroll_deps) :=
  mkOutside (sim_fs "n1") 0 (Ok "key"%string)
    [demo_request "system:node:mallory"; odd_request; demo_request "system:node:n2"] [] (Ok tt).
Lemma sceau_enroll_process_witness :
  ∃ s', sceau (O:=sim_ops) (K:=sim_key_id) (X:=sim_x509) (P:=sim_pki) (PI:=sim_pki_issue) (ET:=sim_text)
          (ED:=sim_enroll_deps) (JD:=sim_direct) (C:=sim_clap) demo_argv demo_joiners demo_host = (0, s') ∧
    ready (TpmSpec:=sim_spec) (m_tpm s') ∧ sw_view (m_tpm s') = sw_view (m_tpm demo_host) ∧
    m_fs s' = m_fs demo_host ∧ m_net s' = m_net demo_host.
Proof.
  apply (sceau_enroll_process (TS:=sim_spec) (L:=sim_data_laws) (K:=sim_key_id) (X:=sim_x509) (P:=sim_pki)
      (PI:=sim_pki_issue) (ET:=sim_text) (ED:=sim_enroll_deps) (JD:=sim_direct) (CL:=sim_clap_laws)
      demo_argv demo_joiners demo_host DEFAULT_TCTI "0.0.0.0:8443" 2 300 K0S_DEFAULT_DATA_DIR "n1" ["n1"; "n2"]%string (sim_fleet_key x07));
    [vm_compute; reflexivity| |apply demo_genesis_ready|apply demo_genesis_room; lia|apply demo_genesis_slot
    |eapply (local_fleet_key_duplicable (TS:=sim_spec)), sim_fleet_key_local|].
  - split; repeat eexists; vm_compute; reflexivity.
  - repeat constructor; vm_compute; discriminate.
Defined.
