(* ===== verification/Faults.v ===== *)
(** What the commands do to the TPM's persistent storage when anything may fail.

    Every theorem here holds for every world and every outcome of every TPM
    command ([FaultSpec]), so also for a process that loses the TPM half way
    through. *)
From S2P Require Import Prelude Grpc Host Tss FaultSpec SimTpm FaultSim Envelope Sealer Kms Fleet Authz Certs Permits Enroll Join Clap Cli Main.

(** * Programs that do not write to the slots *)
Section ReadOnly.
Context `{D : TssData} {O : TssOps} {TM : TpmModel} {FS : FaultSpec} {K : KeyIdDeps}
  (R : relation (gmap PersistentTpmHandle Key)) `{!PreOrder R}.

Lemma keeps_sealer_new t : keeps R (sealer_new t).
Proof. unfold sealer_new. nv_solve. Qed.
Lemma keeps_from_primary c h : keeps R (from_primary c h).
Proof. unfold from_primary. nv_solve. Qed.
Lemma keeps_seal s pt : keeps R (seal s pt).
Proof. unfold seal. nv_solve. Qed.
Lemma keeps_unseal s ct : keeps R (unseal s ct).
Proof. unfold unseal. nv_solve. Qed.
Lemma keeps_sealer_drop s : keeps R (sealer_drop s).
Proof. unfold sealer_drop. nv_solve. Qed.
Lemma keeps_sealer_dropped s : keeps_world R (sealer_dropped s).
Proof. apply keeps_sealer_drop. Qed.

Lemma keeps_start_session c ty : keeps R (start_session c ty).
Proof. unfold start_session. nv_solve. Qed.
Hint Resolve keeps_start_session : nv.
Lemma keeps_policy_digest c : keeps R (duplication_auth_policy_digest c).
Proof. unfold duplication_auth_policy_digest. nv_solve. Qed.
Lemma keeps_policy_session c : keeps R (duplication_auth_policy_session c).
Proof. unfold duplication_auth_policy_session. nv_solve. Qed.
Hint Resolve keeps_policy_digest keeps_policy_session : nv.
Lemma keeps_duplicable_storage_public c : keeps R (duplicable_storage_public c).
Proof. unfold duplicable_storage_public. nv_solve. Qed.
Lemma keeps_load_fleet_key c : keeps R (load_fleet_key c).
Proof. unfold load_fleet_key, key_handle_from. nv_solve. Qed.
Hint Resolve keeps_duplicable_storage_public : nv.
Lemma keeps_create_transport_key c : keeps R (create_transport_key c).
Proof. unfold create_transport_key. nv_solve. Qed.
Lemma keeps_duplicate_for_joiner c h p : keeps R (duplicate_for_joiner c h p).
Proof. unfold duplicate_for_joiner. nv_solve. Qed.
End ReadOnly.

#[export] Hint Resolve keeps_sealer_new keeps_from_primary keeps_seal keeps_unseal keeps_sealer_drop
  keeps_sealer_dropped keeps_start_session keeps_duplicable_storage_public keeps_load_fleet_key
  keeps_create_transport_key keeps_duplicate_for_joiner : nv.

(** * The worlds of the services and commands *)
#[export] Instance kms_nv `{TM : TpmModel} : HasNv KmsState := λ st, nv (tpm st).
#[export] Instance enroll_nv `{TM : TpmModel} `{KA : KubeApi} : HasNv (EnrollState (KA:=KA)) :=
  λ st, nv (etpm st).
#[export] Instance join_nv `{TM : TpmModel} `{JD : JoinDeps} : HasNv JoinWorld := λ jw, nv (jtpm jw).
#[export] Instance host_nv `{TM : TpmModel} : HasNv HostState := λ h, nv (htpm h).
#[export] Instance main_nv `{TM : TpmModel} `{JD : JoinDeps} : HasNv MainState := λ s, nv (m_tpm s).

Section Services.
Context `{D : TssData} {O : TssOps} {TM : TpmModel} {FS : FaultSpec} {K : KeyIdDeps}
  `{KA : KubeApi} `{X : X509} `{P : Pki} {PI : PkiIssue} {ET : ErrorText} {ED : EnrollDeps}
  {JD : JoinDeps} (R : relation (gmap PersistentTpmHandle Key)) `{!PreOrder R}.

Lemma keeps_with_lock {A} m poison (body : TpmSealer → M World Status A) :
  (∀ s, keeps R (body s)) → keeps R (with_lock m poison body).
Proof.
  intros Hb st. unfold with_lock. destruct (poisoned m); [reflexivity|].
  specialize (Hb (inner m) (tpm st)). by destruct (body _ _) as [[]].
Qed.
Lemma keeps_encrypt d req : keeps R (encrypt d req).
Proof. intros st. unfold encrypt. apply keeps_with_lock. nv_solve. Qed.
Lemma keeps_try_sealer d req s : keeps R (try_sealer d req s).
Proof. unfold try_sealer. nv_solve. Qed.
Lemma keeps_try_primary d req : keeps R (try_primary d req).
Proof. intros st. apply keeps_with_lock, keeps_try_sealer. Qed.
Lemma keeps_try_legacy d req : keeps R (try_legacy d req).
Proof.
  intros st. unfold try_legacy. destruct (legacy_sealer _); [|reflexivity].
  apply keeps_with_lock, keeps_try_sealer.
Qed.
Lemma keeps_status : keeps R (status (O:=O)).
Proof. intros st. reflexivity. Qed.
Hint Resolve keeps_encrypt keeps_try_primary keeps_try_legacy keeps_status : nv.
Lemma keeps_decrypt d req : keeps R (decrypt d req).
Proof. unfold decrypt. nv_solve. Qed.
Hint Resolve keeps_decrypt : nv.
Lemma keeps_kms_handle d r : keeps R (kms_handle d r).
Proof. unfold kms_handle. nv_solve. Qed.

Lemma keeps_with_context {A} (body : Ctx → M World Status A) :
  (∀ c, keeps R (body c)) → keeps R (with_context body).
Proof.
  intros Hb st. unfold with_context. destruct (poisoned _); [reflexivity|].
  match goal with |- context [body ?c ?w] => specialize (Hb c w); destruct (body c w) as [[]] end; done.
Qed.
Lemma keeps_handle_duplicate req : keeps R (handle_duplicate req).
Proof.
  intros st. unfold handle_duplicate. revert st.
  enough (∀ client h, keeps R (
    _ ← lift (authorize_request client req);
    joiner_public ← lift (map_err (λ e, internal ("unmarshalling joiner transport public: "
                                                   +:+ tss_display e)%string)
                           (unmarshall (joiner_transport_public (message req))));
    blob ← with_context (λ context, map_errM (internal ∘ FleetError_display)
            (duplicate_for_joiner context h joiner_public));
    lift (response_of_blob blob))) as H.
  { intros st. apply H. }
  nv_solve. apply keeps_with_context. nv_solve.
Qed.
Lemma keeps_duplicate_rpc req : keeps R (duplicate req).
Proof.
  intros st. unfold duplicate. cbv zeta. destruct (_ =? 0); [reflexivity|].
  pose proof (keeps_handle_duplicate req (on_permits fetch_sub st)) as H.
  destruct (handle_duplicate req _) as [[] st2]; cbn in *; try done. by destruct (_ =? 1).
Qed.
Lemma keeps_serve_requests rs : keeps R (serve_requests rs).
Proof.
  induction rs as [|r rs IH]; intros st; cbn; destruct (notified _); try reflexivity.
  revert st. enough (keeps R (x ← respond (E:=EnrollError) (duplicate r); xs ← serve_requests rs;
    mret (x :: xs))) as H by (intros st; apply H).
  nv_solve. apply keeps_duplicate_rpc.
Qed.
Lemma keeps_serve s rs : keeps R (serve s rs).
Proof.
  intros w. pose proof (keeps_serve_requests rs (mkEnrollState s w)) as H. unfold serve.
  by destruct (serve_requests rs _).
Qed.
Lemma keeps_run_enroll fs now key rs listen max tcti dir :
  keeps R (run_enroll fs now key rs listen max tcti dir).
Proof. unfold run_enroll, enroll_setup. nv_solve. apply keeps_serve. Qed.

Lemma keeps_on_tpm {E A} (m : M World E A) : keeps R m → keeps R (on_tpm m).
Proof. intros Hm jw. specialize (Hm (jtpm jw)). unfold on_tpm. by destruct (m _). Qed.
Lemma keeps_on_net {E A} (m : M Net E A) : keeps R (on_net m).
Proof. intros jw. unfold on_net. destruct (m _). reflexivity. Qed.
Lemma keeps_drop_jtpm c : keeps_world R (drop_jtpm c).
Proof. intros jw. apply (keeps_context_drop R c (jtpm jw)). Qed.
Lemma keeps_request_blob fs seed dir p : keeps R (request_blob fs seed dir p).
Proof. unfold request_blob. nv_solve; apply keeps_on_net. Qed.
Hint Resolve keeps_drop_jtpm keeps_request_blob : nv.

Lemma keeps_on_htpm {E A} (m : M World E A) : keeps R m → keeps R (on_htpm m).
Proof. intros Hm h. specialize (Hm (htpm h)). unfold on_htpm. by destruct (m _). Qed.
Lemma keeps_on_hfs {E A} (m : M HostFs E A) : keeps R (on_hfs m).
Proof. intros h. unfold on_hfs. destruct (m _). reflexivity. Qed.
Hint Resolve keeps_on_hfs keeps_kms_handle : nv.
Lemma keeps_build_sealer t : keeps R (build_sealer t).
Proof. unfold build_sealer. nv_solve. Qed.
Hint Resolve keeps_build_sealer : nv.
Lemma keeps_serve_kms cs : ∀ seen, keeps R (serve_kms seen cs).
Proof. induction cs as [|c cs IH]; intros seen; cbn; nv_solve. Qed.
Lemma keeps_serve_and_drop k cs : keeps R (serve_and_drop k cs).
Proof.
  intros w. pose proof (keeps_serve_kms cs [] (mkKmsState k w)) as H. unfold serve_and_drop.
  destruct (serve_kms [] cs _) as [[xs|e|] st]; cbn in *; [|done..]. etrans; [exact H|].
  apply (keeps_bind R (drop_service (svc st)) (λ _, mret xs)); [|nv_solve].
  unfold drop_service. nv_solve.
Qed.
Lemma keeps_remove_stale socket : keeps R (remove_stale socket).
Proof. intros h. unfold remove_stale. destruct (path_exists _ _); [apply keeps_on_hfs|reflexivity]. Qed.
Hint Resolve keeps_remove_stale keeps_serve_and_drop : nv.
Lemma keeps_run_serve cs e tcti socket fl : keeps R (run_serve cs e tcti socket fl).
Proof.
  unfold run_serve, create_parent, serve_sealers, or_drop, bind_socket, drop_sealers.
  nv_solve; apply keeps_on_htpm; nv_solve.
Qed.
Lemma keeps_run_status tcti : keeps R (run_status tcti).
Proof. unfold run_status. nv_solve. Qed.
End Services.

#[export] Hint Resolve keeps_drop_jtpm keeps_request_blob : nv.

(** * The writers write to one slot *)
Section Writers.
Context `{D : TssData} {L : TssDataLaws} {O : TssOps} {TM : TpmModel} {FS : FaultSpec}
  `{P : Pki} {ET : ErrorText} `{JD : JoinDeps}.
Abbreviation SLOT := FLEET_KEY_PERSISTENT_HANDLE.
Abbreviation off_slot := (agree_off SLOT).

Lemma keeps_persist c h : keeps off_slot (persist c h).
Proof. unfold persist, key_handle_from. eapply keeps_bind_lift; [by rewrite slot_ok|]. nv_solve. Qed.
Lemma keeps_delete c : keeps off_slot (delete_persisted_fleet_key c).
Proof.
  unfold delete_persisted_fleet_key. apply keeps_bind; [apply _|nv_solve|].
  intros [h|e]; [|nv_solve]. eapply keeps_bind_lift; [by rewrite slot_ok|]. nv_solve.
Qed.
Hint Resolve keeps_persist keeps_delete : nv.
Lemma keeps_create_fleet_key c force : keeps off_slot (create_fleet_key c force).
Proof. unfold create_fleet_key, create_and_persist. nv_solve. Qed.
Lemma keeps_import_and_persist c t blob : keeps off_slot (import_and_persist c t blob).
Proof. unfold import_and_persist. nv_solve. Qed.
Hint Resolve keeps_create_fleet_key keeps_import_and_persist : nv.
Lemma keeps_run_join fs seed tcti dir : keeps off_slot (run_join fs seed tcti dir).
Proof. unfold run_join. nv_solve; apply keeps_on_tpm; nv_solve. Qed.
End Writers.

(** * Following a transient key through failures *)
Section Transient.
Context `{D : TssData} {L : TssDataLaws} {O : TssOps} {TM : TpmModel} {FS : FaultSpec}.
Abbreviation SLOT := FLEET_KEY_PERSISTENT_HANDLE.

(** Handle [h] of context [c] denotes a loaded object that is not persistent. *)
Definition transient (w : World) (c : Ctx) (h : ESYS_TR) : Prop :=
  ∃ ob, obj_at (view w) c h = Some ob ∧ ∀ sl k, ob ≠ OPersistent sl k.
(** [m] leaves it loaded, unless it panics. *)
Definition holds {E A} (c : Ctx) (h : ESYS_TR) (m : M World E A) : Prop :=
  ∀ w, transient w c h → (m w).1 ≠ Panic → transient (m w).2 c h.

Lemma transient_obj w w' c h :
  obj_at (view w') c h = obj_at (view w) c h → transient w c h → transient w' c h.
Proof. intros He (ob & Ho & Hp). exists ob. by rewrite He. Qed.
Lemma transient_add w w' c h h' o :
  obj_at (view w) c h' = None → view w' = add_obj c h' o (view w) → transient w c h → transient w' c h.
Proof.
  intros Hf Hv Ht. pose proof Ht as (ob & Ho & _). eapply transient_obj, Ht.
  rewrite Hv. apply obj_at_add_ne. by eapply fresh_ne.
Qed.

Lemma holds_bind {E A B} c h (m : M World E A) (f : A → M World E B) :
  holds c h m → (∀ a, holds c h (f a)) → holds c h (m ≫= f).
Proof.
  intros Hm Hf w Ht Hp. specialize (Hm w Ht). unfold mbind, M_bind in *.
  destruct (m w) as [[a|e|] w1]; cbn in *; [apply Hf; [by apply Hm|done]|by apply Hm|done].
Qed.
Lemma holds_ret {E A} c h (a : A) : holds c h (mret a : M World E A).
Proof. by intros w. Qed.
Lemma holds_map_errM {E E' A} c h (g : E → E') (m : M World E A) :
  holds c h m → holds c h (map_errM g m).
Proof.
  intros Hm w Ht. specialize (Hm w Ht). unfold map_errM. destruct (m w) as [[] w1]; cbn in *; auto.
Qed.
Lemma holds_attempt {E E' A} c h (m : M World E A) :
  holds c h m → holds c h (attempt (E':=E') m).
Proof.
  intros Hm w Ht. specialize (Hm w Ht). unfold attempt. destruct (m w) as [[] w1]; cbn in *; auto.
Qed.
Lemma holds_nullauth {E A} (conv : TssError → E) c h (f : M World E A) :
  holds c h f → holds c h (execute_with_nullauth_session conv c f).
Proof.
  intros Hf w Ht Hnp. pose proof Ht as (ob & Ho & _). destruct (fault_nullauth conv c f w) as
    [(e & w' & -> & Hv)|(h0 & s & w1 & r & w2 & r' & w' & Hfr & Hv1 & Hr & He & _ & Hpp & Hcl)].
  - destruct Hv as [Hv|(h0 & s & Hfr & Hv)]; cbn; [by eapply transient_obj; [rewrite Hv|]|].
    by eapply transient_add.
  - rewrite He in *. cbn in *. assert (r ≠ Panic) as Hr' by (by intros ->; rewrite Hpp in Hnp).
    specialize (Hf w1). rewrite Hr in Hf. cbn in Hf. destruct Hf as (ob2 & Ho2 & Hp2); [|done|].
    + eapply transient_obj, Ht. rewrite Hv1. apply obj_at_open_ne. by eapply fresh_ne.
    + pose proof (fresh_ne _ _ _ _ _ _ Hfr Ho) as Hne. exists ob2. split; [|done].
      destruct (Hcl Hr') as [[_ ->]|[_ [->| ->]]]; [|done|];
        unfold close_session; by rewrite obj_at_with_ambient, obj_at_del_ne.
Qed.
Lemma holds_atomic {A} c h (m : M World TssError A) Q :
  (∀ w, atomic m w (Q w)) → (∀ w a w', transient w c h → Q w a w' → transient w' c h) → holds c h m.
Proof.
  intros Hm HQ w Ht _. specialize (Hm w). unfold atomic in Hm.
  destruct (m w) as [[a|e|] w']; cbn; [by eapply HQ| |done].
  destruct Hm as [Hv|[a Hm]]; [by eapply transient_obj; [rewrite Hv|]|by eapply HQ].
Qed.
Lemma holds_tr_from_tpm_public c h sl : holds c h (tr_from_tpm_public c sl).
Proof.
  eapply holds_atomic; [apply fault_tr_from_tpm_public|]. intros w a w' Ht (Hf & k & _ & Hv).
  by eapply transient_add.
Qed.
Lemma holds_evict_control c h pr h' sl : holds c h (evict_control c pr h' sl).
Proof.
  eapply holds_atomic; [apply fault_evict_control|]. intros w a w' Ht Hm. pose proof Ht as (ob & Ho & Hp).
  destruct Hm as [(k & _ & _ & Hf & Hv)|(k & Hk & Hv)]; eapply transient_obj, Ht; rewrite Hv.
  - rewrite obj_at_add_ne; [done|by eapply fresh_ne].
  - rewrite obj_at_del_ne; [done|]. intros [= ->]. rewrite Hk in Ho. injection Ho as <-. by eapply Hp.
Qed.
Lemma holds_load_fleet_key c h : holds c h (load_fleet_key c).
Proof.
  unfold load_fleet_key, key_handle_from. rewrite slot_ok. apply holds_bind; [by intros w|]. intros sl.
  apply holds_bind; [|intros; apply holds_ret].
  apply holds_map_errM, holds_nullauth, holds_tr_from_tpm_public.
Qed.
Lemma holds_delete c h : holds c h (delete_persisted_fleet_key c).
Proof.
  unfold delete_persisted_fleet_key.
  apply holds_bind; [apply holds_attempt, holds_load_fleet_key|]. intros [x|e]; [|apply holds_ret].
  rewrite slot_ok. apply holds_bind; [by intros w|]. intros sl.
  apply holds_bind; [|intros; apply holds_ret].
  apply holds_map_errM, holds_nullauth, holds_evict_control.
Qed.

(** A successful call in a session of its own. *)
Lemma nullauth_ok_inv {E A} (conv : TssError → E) c (f : M World E A) w a w' :
  execute_with_nullauth_session conv c f w = (Ok a, w') →
  ∃ h s w1 w2, obj_at (view w) c h = None ∧ view w1 = open_session c h s (view w) ∧
    f w1 = (Ok a, w2) ∧ view w' = close_session c h (v_ambient (view w) !! c) (view w2).
Proof.
  intros H. destruct (fault_nullauth conv c f w) as
    [(e & w0 & He & _)|(h & s & w1 & r & w2 & r' & w0 & Hf & Hv1 & Hr & He & _ & Hpp & Hcl)];
    rewrite H in He; [done|]. injection He as <- <-.
  destruct r as [x|e|]; [| |by specialize (Hpp eq_refl)];
    (destruct Hcl as [[Hx Hv]|[[e' [=]] _]]; [done|]); [|done]. injection Hx as <-.
  by exists h, s, w1, w2.
Qed.

(** A key just created is transient. *)
Lemma create_primary_transient c hy p w h w' :
  execute_with_nullauth_session id c (create_primary c hy p) w = (Ok h, w') → transient w' c h.
Proof.
  intros (h0 & s & w1 & w2 & _ & Hv1 & Hc & Hv)%nullauth_ok_inv.
  pose proof (fault_create_primary c hy p w1) as Hm. unfold atomic in Hm. rewrite Hc in Hm.
  destruct Hm as (Hf & k & Hv2). exists (OKey k). split; [|done].
  assert ((c, h0) ≠ (c, h)) as Hne.
  { intros [= ->]. by rewrite Hv1, obj_at_open_eq in Hf. }
  rewrite Hv. unfold close_session. by rewrite obj_at_with_ambient, obj_at_del_ne, Hv2, obj_at_add_eq.
Qed.

(** [persist] of a transient key writes only to an empty slot, and succeeds
    only if it has written. *)
Lemma persist_transient c h w r w' :
  transient w c h → persist c h w = (r, w') →
  nv w' = nv w ∧ is_ok r = false ∨ nv w !! SLOT = None ∧ ∃ k, nv w' = <[SLOT := k]> (nv w).
Proof.
  intros Ht. pose proof Ht as (ob & Ho & Hp). unfold persist, key_handle_from. rewrite slot_ok.
  unfold mbind, M_bind, lift, map_errM, mret, M_ret. cbn.
  destruct (fault_nullauth id c (evict_control c Provision_Owner h SLOT) w) as
    [(e & w0 & -> & Hv)|(h0 & s & w1 & x & w2 & x' & w0 & Hf & Hv1 & Hx & -> & Hs & Hpp & Hcl)].
  { cbn. intros [= <- <-]. left. split; [|done]. unfold nv, world_nv.
    by destruct Hv as [->|(? & ? & _ & ->)]. }
  pose proof (fresh_ne _ _ _ _ _ _ Hf Ho) as Hne. destruct Hs as [_ Hs].
  intros Hd. assert (w' = w0) as -> by (destruct x'; cbn in Hd; congruence).
  assert (∀ h', (∃ k, obj_at (view w1) c h = Some (OKey k) ∧ v_persistent (view w1) !! SLOT = None ∧
      obj_at (view w1) c h' = None ∧
      view w2 = add_obj c h' (OPersistent SLOT k) (with_persistent (insert SLOT k) (view w1))) ∨
    (∃ k, obj_at (view w1) c h = Some (OPersistent SLOT k) ∧
      view w2 = del_obj c h (with_persistent (delete SLOT) (view w1))) →
    nv w !! SLOT = None ∧ ∃ k, nv w0 = <[SLOT := k]> (nv w)) as Hdone.
  { unfold nv, world_nv. intros h' [(k & _ & Hn & _ & Hv2)|(k & Hk & _)].
    - rewrite Hv1 in Hn. split; [exact Hn|]. exists k. by rewrite Hs, Hv2, Hv1.
    - rewrite Hv1, obj_at_open_ne, Ho in Hk by done. injection Hk as ->. by destruct (Hp SLOT k). }
  pose proof (fault_evict_control c Provision_Owner h SLOT w1) as Hm. unfold atomic in Hm.
  rewrite Hx in Hm. destruct x as [h'|e|]; [right; by eapply Hdone| |done].
  destruct Hm as [Hm|[h' Hm]]; [left|right; by eapply Hdone].
  split; [unfold nv, world_nv; by rewrite Hs, Hm, Hv1|].
  destruct Hcl as [[-> _]|[[e' ->] _]]; [done| |]; cbn in Hd; by injection Hd as <-.
Qed.
End Transient.

(** * The key slot under failures *)
Section Slot.
Context `{D : TssData} {L : TssDataLaws} {O : TssOps} {TM : TpmModel} {FS : FaultSpec}.
Abbreviation SLOT := FLEET_KEY_PERSISTENT_HANDLE.

Lemma keeps_nv {E A} (m : M World E A) w r w' : keeps eq m → m w = (r, w') → nv w' = nv w.
Proof. intros Hm He. specialize (Hm w). by rewrite He in Hm. Qed.

Lemma create_and_persist_occupied c w k :
  nv w !! SLOT = Some k → nv (create_and_persist c w).2 = nv w.
Proof.
  intros Hk. unfold create_and_persist, mbind, M_bind at 1.
  destruct (duplicable_storage_public c w) as [r1 w1] eqn:H1.
  apply keeps_nv in H1 as Hw1; [|apply keeps_duplicable_storage_public, _].
  destruct r1 as [p|e|]; [|done..]. unfold M_bind, map_errM.
  destruct (execute_with_nullauth_session id c (create_primary c Hierarchy_Owner p) w1) as [r2 w2] eqn:H2.
  apply keeps_nv in H2 as Hw2; [|nv_solve]. rewrite Hw1 in Hw2.
  destruct r2 as [h|e|]; cbn; [|done..]. apply create_primary_transient in H2.
  destruct (persist c h w2) as [r3 w3] eqn:H3. cbn.
  destruct (persist_transient _ _ _ _ _ H2 H3) as [[Hw3 _]|[Hn _]]; congruence.
Qed.

Lemma create_and_persist_ok c w h w' :
  create_and_persist c w = (Ok h, w') → is_Some (nv w' !! SLOT).
Proof.
  unfold create_and_persist. intros (p & w1 & _ & H)%bind_ok_inv.
  apply bind_ok_inv in H as (h0 & w2 & H2 & H3). apply map_errM_ok_inv, create_primary_transient in H2.
  destruct (persist_transient _ _ _ _ _ H2 H3) as [[_ ?]|[_ [k ->]]]; [done|].
  rewrite lookup_insert_eq. eauto.
Qed.

Lemma load_fleet_key_ok c w h w' :
  load_fleet_key c w = (Ok h, w') → is_Some (nv w' !! SLOT).
Proof.
  intros H. apply keeps_nv in H as Hn; [|apply keeps_load_fleet_key, _]. revert H.
  unfold load_fleet_key, key_handle_from. rewrite slot_ok. intros (sl & w0 & [= <- <-] & H)%bind_ok_inv.
  apply bind_ok_inv in H as (h' & w1 & H%map_errM_ok_inv & _).
  apply nullauth_ok_inv in H as (h0 & s & w2 & w3 & _ & Hv2 & Ht & _).
  pose proof (fault_tr_from_tpm_public c SLOT w2) as Hm. unfold atomic in Hm. rewrite Ht in Hm.
  destruct Hm as (_ & k & Hk & _). rewrite Hn. rewrite Hv2 in Hk. exists k. exact Hk.
Qed.

Lemma create_fleet_key_ok c force w h w' :
  create_fleet_key c force w = (Ok h, w') → is_Some (nv w' !! SLOT).
Proof.
  unfold create_fleet_key. destruct force.
  - intros (u & w1 & _ & H)%bind_ok_inv. by eapply create_and_persist_ok.
  - intros (r & w1 & Hr & H)%bind_ok_inv. destruct r as [x|e]; [|by eapply create_and_persist_ok].
    cbn in H. injection H as <- <-. unfold attempt in Hr.
    destruct (load_fleet_key c w) as [[]] eqn:Hl; simplify_eq. by eapply load_fleet_key_ok.
Qed.

(** The session that [start_session] hands out is loaded. *)
Lemma start_session_ok c ty w s w' :
  start_session c ty w = (Ok s, w') → ∃ ses, obj_at (view w') c (session_handle s) = Some (OSession ses).
Proof.
  unfold start_session. intros (o & w1 & _ & H)%bind_ok_inv.
  apply bind_ok_inv in H as (s0 & w2 & _ & H). apply bind_ok_inv in H as (u & w3 & Ha%map_errM_ok_inv & H).
  cbn in H. injection H as <- <-.
  match type of Ha with tr_sess_set_attributes ?c ?s ?a ?m ?w = _ =>
    pose proof (fault_sess_set_attributes c s a m w) as Hm end.
  unfold atomic in Hm. rewrite Ha in Hm. destruct Hm as (ses & ses' & _ & ->).
  exists ses'. apply obj_at_add_eq.
Qed.

Lemma import_and_persist_ok c t blob w h w' :
  import_and_persist c t blob w = (Ok h, w') → is_Some (nv w' !! SLOT).
Proof.
  unfold import_and_persist. intros (s & w1 & Hs & H)%bind_ok_inv.
  apply start_session_ok in Hs as (ses & Hses).
  apply bind_ok_inv in H as (r & w2 & Hr & H). apply bind_ok_inv in H as (u & w3 & Hfl%map_errM_ok_inv & H).
  apply bind_ok_inv in H as (o & w4 & Ho%map_errM_ok_inv & H).
  destruct r as [o'|e]; cbn in Ho; [|done]. injection Ho as -> <-.
  apply bind_ok_inv in H as (u' & w5 & Hd & H). apply bind_ok_inv in H as (h' & w6 & Hp & H).
  apply bind_ok_inv in H as (u2 & w7 & Hf2 & H). cbn in H. injection H as _ <-.
  assert (transient w3 c o) as Ht.
  { unfold attempt in Hr. destruct (execute_with_session _ _ _ w1) as [[x|e|] wx] eqn:Hx; simplify_eq.
    match type of Hx with execute_with_session _ _ ?f _ = _ =>
      destruct (fault_with_session c s f w1) as (wa & ra & wb & wc & Hva & Hra & He & _ & Hvc) end.
    rewrite Hx in He. injection He as <- <-. specialize (Hvc ltac:(done)).
    apply bind_ok_inv in Hra as (priv & wi & Hi & Hl).
    pose proof (fault_import c t (encryption_key blob) (fleet_key_public blob)
      (duplicate_private blob) (encrypted_secret blob) duplication_symmetric_alg wa) as Hm.
    unfold atomic in Hm. rewrite Hi in Hm.
    pose proof (fault_load c t priv (fleet_key_public blob) wi) as Hm2. unfold atomic in Hm2.
    rewrite Hl in Hm2. destruct Hm2 as (Hfr & ob & Hob & Hvb).
    assert ((c, session_handle s) ≠ (c, o)) as Hne.
    { intros [= Heq]. rewrite Hm, Hva, obj_at_with_ambient, <- Heq, Hses in Hfr. done. }
    pose proof (fault_flush c (session_handle s) w2) as Hm3. unfold atomic in Hm3. rewrite Hfl in Hm3.
    exists ob. split; [|done].
    by rewrite Hm3, obj_at_del_ne, Hvc, obj_at_with_ambient, Hvb, obj_at_add_eq. }
  pose proof (holds_delete c o w3 Ht) as Ht5. rewrite Hd in Ht5. specialize (Ht5 ltac:(done)). cbn in Ht5.
  apply keeps_nv in Hf2; [|nv_solve]. rewrite Hf2.
  destruct (persist_transient _ _ _ _ _ Ht5 Hp) as [[_ ?]|[_ [k ->]]]; [done|].
  rewrite lookup_insert_eq. eauto.
Qed.
End Slot.

(** * The commands *)
Section Commands.
Context `{D : TssData} {L : TssDataLaws} {O : TssOps} {TM : TpmModel} {FS : FaultSpec} {K : KeyIdDeps}
  `{KA : KubeApi} `{X : X509} `{P : Pki} {PI : PkiIssue} {ET : ErrorText} {ED : EnrollDeps}
  {JD : JoinDeps}.
Abbreviation SLOT := FLEET_KEY_PERSISTENT_HANDLE.

Lemma keeps_via_tpm {A} R `{!PreOrder R} (m : M World AnyError A) : keeps R m → keeps R (via_tpm m).
Proof. intros Hm s. specialize (Hm (m_tpm s)). unfold via_tpm. by destruct (m _). Qed.
Lemma keeps_via_host {A} R `{!PreOrder R} (m : M HostState AnyError A) : keeps R m → keeps R (via_host m).
Proof.
  intros Hm s. specialize (Hm (mkHostState (m_tpm s) (m_fs s))). unfold via_host. by destruct (m _).
Qed.
Lemma keeps_via_join {A} R `{!PreOrder R} (m : M JoinWorld AnyError A) : keeps R m → keeps R (via_join m).
Proof.
  intros Hm s. specialize (Hm (mkJoinWorld (m_tpm s) (m_net s))). unfold via_join. by destruct (m _).
Qed.
Lemma keeps_run_genesis tcti force : keeps (agree_off SLOT) (run_genesis tcti force).
Proof. unfold run_genesis. nv_solve. apply keeps_create_fleet_key. Qed.

(** The commands that only read the slots. *)
Definition reads_only (c : Command) : bool :=
  match c with Serve _ _ | Enroll_ _ _ _ _ | Status_ => true | Genesis _ | Join_ _ _ => false end.

Lemma keeps_main_reader out cli : reads_only (cli_command cli) = true → keeps eq (main out cli).
Proof.
  unfold main. destruct (cli_command cli); cbn; try done; intros _.
  - apply keeps_via_host, keeps_run_serve; apply _.
  - apply keeps_via_tpm, keeps_map_errM, keeps_run_enroll; apply _.
  - apply keeps_via_tpm, keeps_run_status; apply _.
Qed.
Lemma keeps_main out cli : keeps (agree_off SLOT) (main out cli).
Proof.
  destruct (reads_only (cli_command cli)) eqn:Hc.
  - intros s sl _. by rewrite <- (keeps_main_reader out cli Hc s).
  - unfold main. destruct (cli_command cli); try done.
    + apply keeps_via_tpm; [apply _|]. apply keeps_run_genesis.
    + apply keeps_via_join, keeps_map_errM, keeps_run_join; apply _.
Qed.

(** C10. Whatever fails and however it ends, no command touches a persistent slot
    of the TPM other than the fleet key's, and [serve], [enroll] and [status]
    leave that one alone too. *)
Theorem commands_write_one_slot out cli s :
  agree_off SLOT (nv s) (nv (main out cli s).2) ∧
  (reads_only (cli_command cli) = true → nv (main out cli s).2 = nv s).
Proof.
  split; [apply keeps_main|]. intros Hc. symmetry. by apply (keeps_main_reader out cli Hc).
Qed.

(** The fleet key's slot, once occupied, keeps its key. *)
Definition key_kept (m m' : gmap PersistentTpmHandle Key) : Prop :=
  ∀ k, m !! SLOT = Some k → m' !! SLOT = Some k.
#[local] Instance key_kept_preorder : PreOrder key_kept.
Proof. split; [by intros m k|]. intros m1 m2 m3 H1 H2 k Hk. by apply H2, H1. Qed.

Lemma keeps_create_and_persist c : keeps key_kept (create_and_persist c).
Proof. intros w k Hk. by rewrite (create_and_persist_occupied _ _ _ Hk). Qed.
Hint Resolve keeps_create_and_persist : nv.
Lemma keeps_unforced_genesis tcti : keeps key_kept (run_genesis tcti false).
Proof. unfold run_genesis, create_fleet_key. nv_solve. Qed.

(** The commands that replace the key of the slot. *)
Definition replaces_key (c : Command) : bool :=
  match c with Genesis true | Join_ _ _ => true | _ => false end.

Lemma main_keeps_key out cli s k :
  replaces_key (cli_command cli) = false →
  nv s !! SLOT = Some k → nv (main out cli s).2 !! SLOT = Some k.
Proof.
  intros Hc Hk. destruct (reads_only (cli_command cli)) eqn:Hr.
  - by rewrite <- (keeps_main_reader out cli Hr s).
  - unfold main. destruct (cli_command cli) as [|[]| | |]; try done.
    by apply (keeps_via_tpm key_kept), Hk; apply keeps_unforced_genesis.
Qed.

(** C9. Short of the words [--force] and [join] on the command line, [sceau] cannot
    lose or replace the fleet key of its node, whatever TPM commands fail or lose
    their answers: in particular a plain [genesis] whose probe of the slot fails on
    a node that has a key ends with that key in place. *)
Theorem sceau_keeps_fleet_key `{C : Clap} {CL : ClapLaws} argv out s k :
  absent argv "force" → "join"%string ∉ argv →
  nv s !! SLOT = Some k → nv (sceau argv out s).2 !! SLOT = Some k.
Proof.
  intros Hf Hj Hk. unfold sceau. destruct (Cli_try_parse_from argv) as [cli|e|] eqn:Hp; [|done..].
  destruct (try_parse_ok _ _ Hp) as (_ & _ & Hd & Hw).
  assert (replaces_key (cli_command cli) = false) as Hc.
  { destruct (cli_command cli) as [|force| | |]; cbn in *; try done. by rewrite (Hd Hf). }
  pose proof (main_keeps_key out cli s k Hc Hk) as H. by destruct (main out cli s) as [[]].
Qed.

(** What of its host a command cannot reach. *)
Lemma main_frame out cli s :
  (command_word (cli_command cli) ≠ "serve"%string → m_fs (main out cli s).2 = m_fs s) ∧
  (command_word (cli_command cli) ≠ "join"%string → m_net (main out cli s).2 = m_net s).
Proof.
  unfold main. destruct (cli_command cli); cbn; unfold via_tpm, via_host, via_join; split; try done;
    intros _; match goal with |- context [let (_, _) := ?m in _] => by destruct m end.
Qed.
Lemma command_word_declared c : command_word c ∈ (subcommands sceau_command).*1.
Proof. destruct c; cbn; set_solver. Qed.
(** C36. What the process does is bounded by the words of its command line, however
    it ends and whatever fails: without [serve] no file changes, without [join] the
    seed is not reached, without [genesis] and [join] no persistent slot of the TPM
    changes, and without any of the five subcommands the process ends with clap's
    exit code and has touched nothing.  The documented
    [sceau --socket /run/sceau/sceau.sock] is such a line.  Conversely, every line
    that clap matches runs: the conversion into [Cli] never fails. *)
Theorem effects_need_their_word `{C : Clap} {CL : ClapLaws} argv out s :
  ("serve"%string ∉ argv → m_fs (sceau argv out s).2 = m_fs s) ∧
  ("join"%string ∉ argv → m_net (sceau argv out s).2 = m_net s) ∧
  ("genesis"%string ∉ argv → "join"%string ∉ argv → nv (sceau argv out s).2 = nv s) ∧
  ((∀ name, name ∈ (subcommands sceau_command).*1 → name ∉ argv) →
     ∃ e, sceau argv out s = (clap_exit_code e, s)) ∧
  (∀ m, try_get_matches_from sceau_command argv = Ok m → ∃ cli, Cli_try_parse_from argv = Ok cli ∧
     (sceau argv out s).2 = (main out cli s).2).
Proof.
  unfold sceau. destruct (Cli_try_parse_from argv) as [cli|e|] eqn:Hp.
  - destruct (try_parse_ok _ _ Hp) as (_ & _ & _ & Hw). destruct (main_frame out cli s) as [Hfs Hnet].
    pose proof (keeps_main_reader out cli) as Hnv. split_and!.
    + intros Hn. rewrite <- Hfs by congruence. by destruct (main out cli s) as [[]].
    + intros Hn. rewrite <- Hnet by congruence. by destruct (main out cli s) as [[]].
    + intros Hg Hj. rewrite (Hnv ltac:(destruct (cli_command cli); done) s).
      by destruct (main out cli s) as [[]].
    + intros Hn. by destruct (Hn _ (command_word_declared (cli_command cli))).
    + intros m _. exists cli. split; [done|]. by destruct (main out cli s) as [[]].
  - split_and!; try done; [by exists e|]. intros m Hm. destruct (from_arg_matches_ok argv m Hm) as (cli & Hc & _).
    unfold Cli_try_parse_from in Hp. rewrite Hm in Hp. cbn in Hp. congruence.
  - pose proof (clap_no_panic sceau_command argv) as Hnp. unfold Cli_try_parse_from in Hp.
    destruct (try_get_matches_from sceau_command argv) as [m| |] eqn:Hm; cbn in Hp; try done.
    destruct (from_arg_matches_ok argv m Hm) as (cli & Hc & _). congruence.
Qed.

Lemma run_genesis_ok tcti force w u w' :
  run_genesis tcti force w = (Ok u, w') → is_Some (nv w' !! SLOT).
Proof.
  unfold run_genesis. intros (t & w1 & _ & H)%bind_ok_inv. apply bind_ok_inv in H as (c & w2 & _ & H).
  apply finally_ok_inv in H as (w3 & H & ->). apply bind_ok_inv in H as (h & w4 & H%map_errM_ok_inv & Hret).
  cbn in Hret. injection Hret as _ <-. rewrite <- (keeps_context_drop eq c w4).
  by eapply create_fleet_key_ok.
Qed.
Lemma run_join_ok fs seed tcti dir jw u jw' :
  run_join fs seed tcti dir jw = (Ok u, jw') → is_Some (nv jw' !! SLOT).
Proof.
  unfold run_join. intros (t & w1 & _ & H)%bind_ok_inv. apply bind_ok_inv in H as (c & w2 & _ & H).
  apply finally_ok_inv in H as (w3 & H & ->). rewrite <- (keeps_drop_jtpm eq c w3).
  apply bind_ok_inv in H as (tr & w4 & _ & H). apply bind_ok_inv in H as (rsp & w5 & _ & H).
  apply bind_ok_inv in H as (blob & w6 & _ & H). apply bind_ok_inv in H as (h & w7 & H & Hret).
  cbn in Hret. injection Hret as _ <-. unfold on_tpm in H.
  destruct (map_errM _ _ (jtpm w6)) as [r w8] eqn:Hm. injection H as -> <-.
  apply map_errM_ok_inv in Hm. by eapply import_and_persist_ok.
Qed.

(** C11. An operator can trust the exit status: if [genesis] or [join] reports
    success, the slot holds a key, whichever of their TPM commands failed on the
    way (a lost flush or a failed probe). *)
Theorem success_leaves_a_key out cli s s' :
  reads_only (cli_command cli) = false → main out cli s = (Ok tt, s') → is_Some (nv s' !! SLOT).
Proof.
  intros Hr. unfold main. destruct (cli_command cli); try done; [unfold via_tpm|unfold via_join].
  - destruct (run_genesis _ _ _) as [[u|e|] w] eqn:H; cbn; intros [=]. subst s'.
    by apply run_genesis_ok in H.
  - destruct (map_errM _ _ _) as [[u|e|] w] eqn:H; cbn; intros [=]. subst s'.
    apply map_errM_ok_inv in H. by apply run_join_ok in H.
Qed.
End Commands.

(** * Examples *)
(** A node with a key of its own, seed 9, whose TPM follows a schedule. *)
Abbreviation main_faulty := (main (O:=faulty_ops) (K:=sim_key_id) (X:=sim_x509) (P:=sim_pki)
  (PI:=sim_pki_issue) (ET:=sim_text) (ED:=sim_enroll_deps) (JD:=sim_direct)).
Definition demo_outside : Outside (KA:=sim_kube) (P:=sim_pki) (ED:=sim_enroll_deps) :=
  mkOutside (sim_fs "n2") 0 (Ok "key"%string) [] [] (Ok tt).
Definition faulty_node (schedule : list Fate) : MainState (O:=faulty_ops) (JD:=sim_direct) :=
  mkMainState (O:=faulty_ops) (mkFaultWorld (demo_genesis x09).2 schedule) demo_files (demo_seed 1).
Definition join_cli : Cli := mkCli DEFAULT_TCTI (Join_ "n1:8443" K0S_DEFAULT_DATA_DIR).
(** The 24th command of a join is the one that persists the received key. *)
Definition lost_persist : list Fate := replicate 23 Executed ++ [NotSent].

Lemma is_ok_unit {E} (r : outcome E unit) : is_ok r = true → r = Ok tt.
Proof. by destruct r as [[]| |]. Qed.

Lemma commands_write_one_slot_witness :
  agree_off FLEET_KEY_PERSISTENT_HANDLE (nv (faulty_node lost_persist))
    (nv (main_faulty demo_outside join_cli (faulty_node lost_persist)).2) ∧
  (reads_only (cli_command join_cli) = true →
   nv (main_faulty demo_outside join_cli (faulty_node lost_persist)).2 = nv (faulty_node lost_persist)).
Proof.
  apply (commands_write_one_slot (FS:=faulty_spec) (L:=sim_data_laws) (X:=sim_x509) (P:=sim_pki)
           (PI:=sim_pki_issue) (ET:=sim_text) (ED:=sim_enroll_deps) (JD:=sim_direct)).
Defined.

(** The connection, the probe's session and the probe succeed except the last. *)
Lemma sceau_keeps_fleet_key_witness :
  nv (sceau (O:=faulty_ops) (K:=sim_key_id) (X:=sim_x509) (P:=sim_pki) (PI:=sim_pki_issue) (ET:=sim_text)
        (ED:=sim_enroll_deps) (JD:=sim_direct) (C:=sim_clap) ["genesis"]%string demo_outside
        (faulty_node [Executed; Executed; NoAnswer])).2
    !! FLEET_KEY_PERSISTENT_HANDLE = Some (sim_fleet_key x09).
Proof.
  apply (sceau_keeps_fleet_key (FS:=faulty_spec) (L:=sim_data_laws) (X:=sim_x509) (P:=sim_pki)
           (PI:=sim_pki_issue) (ET:=sim_text) (ED:=sim_enroll_deps) (JD:=sim_direct) (CL:=sim_clap_laws));
    [by repeat constructor| |vm_compute; reflexivity].
  by intros [?|[]%elem_of_nil]%elem_of_cons.
Defined.

(** The invocation of README.md. *)
Definition documented_argv : list string :=
  ["--socket"; "/run/sceau/sceau.sock"; "--tcti"; "device:/dev/tpmrm0"]%string.
Lemma effects_need_their_word_witness :
  ∃ e, sceau (O:=faulty_ops) (K:=sim_key_id) (X:=sim_x509) (P:=sim_pki) (PI:=sim_pki_issue) (ET:=sim_text)
         (ED:=sim_enroll_deps) (JD:=sim_direct) (C:=sim_clap) documented_argv demo_outside (faulty_node []) =
       (clap_exit_code e, faulty_node []).
Proof.
  apply (effects_need_their_word (FS:=faulty_spec) (L:=sim_data_laws) (X:=sim_x509) (P:=sim_pki)
           (PI:=sim_pki_issue) (ET:=sim_text) (ED:=sim_enroll_deps) (JD:=sim_direct) (CL:=sim_clap_laws)
           documented_argv demo_outside (faulty_node [])).
  intros name Hn Hin. cbn in Hn. apply (bool_decide_eq_false_1 (name ∈ documented_argv)); [|done].
  repeat (apply elem_of_cons in Hn as [->|Hn]; [vm_compute; reflexivity|]). by apply elem_of_nil in Hn.
Defined.

Lemma success_leaves_a_key_witness :
  is_Some (nv (main_faulty demo_outside join_cli (faulty_node [])).2 !! FLEET_KEY_PERSISTENT_HANDLE).
Proof.
  apply (success_leaves_a_key (FS:=faulty_spec) (L:=sim_data_laws) (X:=sim_x509) (P:=sim_pki)
           (PI:=sim_pki_issue) (ET:=sim_text) (ED:=sim_enroll_deps) (JD:=sim_direct)
           demo_outside join_cli (faulty_node []) (main_faulty demo_outside join_cli (faulty_node [])).2);
    [reflexivity|]. apply (pair_fst (main_faulty demo_outside join_cli (faulty_node []))).
  apply is_ok_unit. vm_compute. reflexivity.
Defined.

(** What the last theorems do not promise for [join]: the key a node holds is
    evicted before the received one is persisted.  If that one command fails the
    join fails, the node is left without any fleet key, and the seed has spent
    its only slot on it and stops, so that the same [enroll] cannot be retried. *)
Theorem interrupted_join_loses_key_and_slot :
  let before := faulty_node lost_persist in
  let after := main_faulty demo_outside join_cli before in
  is_ok after.1 = false ∧
  is_Some (nv before !! FLEET_KEY_PERSISTENT_HANDLE) ∧
  nv after.2 !! FLEET_KEY_PERSISTENT_HANDLE = None ∧
  permits (service (m_net before)) = mkShared 1 false ∧
  permits (service (m_net after.2)) = mkShared 0 true.
Proof. vm_compute. split_and!; try done. by eexists. Qed.
