(* ===== verification/Ceremony.v ===== *)
(** The fleet ceremony end to end: [genesis] on a first node, [enroll] there
    and [join] on a second, then [serve] on both.

    The commands are processes of their own that find the TPM as the previous one
    left it; a node may also be rebooted between them, which keeps the owner seed
    and the persistent slots ([later]). *)
From Stdlib Require Import Strings.Ascii.
From S2P Require Import Prelude Grpc Host Tss SimTpm Envelope Sealer Kms Fleet Authz Certs Permits Enroll Join Clap Cli Main.

Section Ceremony.
Context `{D : TssData} {L : TssDataLaws} {O : TssOps} {TM : TpmModel} {TS : TpmSpec} {K : KeyIdDeps}
  {KL : KeyIdLaws} `{KA : KubeApi} `{X : X509} `{P : Pki} {PI : PkiIssue} {ET : ErrorText}
  {ED : EnrollDeps} (der_of_pem : string → list byte).
Abbreviation SLOT := FLEET_KEY_PERSISTENT_HANDLE.
Abbreviation JD := (direct der_of_pem).

(** [w'] is the TPM of [w] at a later time, as it was left or after a reboot. *)
Definition later (w w' : World) : Prop :=
  ready w' ∧ room 5 w' ∧ v_seed (view w') = v_seed (view w) ∧
  v_persistent (view w') = v_persistent (view w).

(** The SRK of the TPM with seed [sd] and the key [k] have different identifiers,
    which are 64 bits of a hash. *)
Definition ids_apart (sd : Seed) (k : Key) : Prop :=
  ∀ srk id, is_srk sd srk → key_id_of srk id → ¬ key_id_of k id.
(** So have the SRK of the TPM with seed [sd'] and the fleet key that the TPM with
    seed [sd] derives. *)
Definition ids_distinct (sd sd' : Seed) : Prop := ∀ k, local_fleet_key sd k → ids_apart sd' k.

(** A [serve] process started on [w] decrypts [ct]. *)
Definition decrypts (t : TctiNameConf) (w : World) (ct : list byte) (kid : string) (pt : list byte) : Prop :=
  ∀ uid ann, run (build_sealer (JD:=JD) t) w (λ r w1,
    run (decrypt tss_display (mkDecryptRequest ct uid kid ann)) (mkKmsState (kms_service_of r) w1)
      (λ d _, dec_plaintext d = pt)).

(** A node whose slot holds the fleet key [k]: its service. *)
Lemma fleet_service t w k :
  ids_apart (v_seed (view w)) k → ready w → room 4 w → v_persistent (view w) !! SLOT = Some k →
  run (build_sealer (JD:=JD) t) w (λ r w1, ∃ srk, is_srk (v_seed (view w)) srk ∧
    kms_ok (mkKmsState (kms_service_of r) w1) k (Some srk) ∧
    key_id_of k (key_id (inner (sealer (kms_service_of r)))) ∧ sealers_for w1 r k (Some srk)).
Proof.
  intros Hids Hr Hroom Hs.
  eapply run_mono; [apply build_sealer_spec; [done|by eapply room_le, Hroom; lia]|].
  cbv beta. intros r w1 (Hr1 & kp & kl & Hk & Hsl & _ & Hsz). unfold node_keys in Hk.
  rewrite Hs in Hk. destruct Hk as (-> & srk & -> & Hsrk). exists srk. split_and!; [done| | |done].
  - eapply sealers_kms_ok; [done|unfold room in *; lia|done|]. intros k' id [= <-] Hid.
    eapply Hids; [done|exact Hid].
  - destruct Hsl as [Hsl _]. apply sealer_for_id in Hsl. by destruct r as [? [?|]].
Qed.

Lemma fleet_node_decrypts t w k srk ct kid pt k0 :
  ids_apart (v_seed (view w)) k → ready w → room 4 w → v_persistent (view w) !! SLOT = Some k →
  is_srk (v_seed (view w)) srk → (k0 = k ∨ k0 = srk) → key_id_of k0 kid → envelope_seals k0 ct pt →
  decrypts t w ct kid pt.
Proof.
  intros Hids Hr Hroom Hs Hsrk Hk0 Hkid He uid ann.
  eapply run_mono; [by eapply (fleet_service t w k)|]. cbv beta.
  intros r w1 (srk' & Hsrk' & Hok & _ & Hsl). rewrite (is_srk_unique _ _ _ Hsrk' Hsrk) in *.
  destruct (ledger_of_ok w1 r k (Some srk) [(ct, kid, pt)] Hsl) with ct kid pt
    as (k1 & Hsel & He1); [|by apply list_elem_of_singleton|].
  { intros ct' kid' pt' [= -> -> ->]%list_elem_of_singleton. exists k0. split_and!; [|done..].
    destruct Hk0 as [-> | ->]; auto. }
  eapply run_mono; [eapply decrypt_spec; [exact Hok|exact Hsel|exact He1]|].
  cbv beta. by intros d st' (_ & _ & _ & ?).
Qed.

(** Both nodes after the exchange, with [k] in both slots. *)
Lemma ceremony_aftermath tA tB k wA wB wA3 wB3 :
  ids_apart (v_seed (view wA)) k → ids_apart (v_seed (view wB)) k → room 5 wA → room 5 wB → ready wA3 → ready wB3 →
  view wA3 = with_persistent (insert SLOT k) (view wA) →
  view wB3 = with_persistent (insert SLOT k) (view wB) →
  (∃ k, view wA3 = with_persistent (insert SLOT k) (view wA) ∧
        view wB3 = with_persistent (insert SLOT k) (view wB)) ∧
  later wA3 wA3 ∧ later wB3 wB3 ∧
  ∀ wA4 wB4, later wA3 wA4 → later wB3 wB4 →
  (∀ pt uid, (length pt ≤ MAX_SEAL_DATA)%nat →
     run (build_sealer (JD:=JD) tA) wA4 (λ r w, run (encrypt tss_display (mkEncryptRequest pt uid))
       (mkKmsState (kms_service_of r) w) (λ resp _,
         decrypts tB wB4 (enc_ciphertext resp) (enc_key_id resp) pt))) ∧
  (∀ srk ct kid pt, is_srk (v_seed (view wB)) srk → key_id_of srk kid → envelope_seals srk ct pt →
     decrypts tB wB4 ct kid pt).
Proof.
  intros HidA HidB HroomA HroomB HrA HrB HvA HvB. split; [by exists k|].
  assert (∀ w w3, room 5 w → ready w3 → view w3 = with_persistent (insert SLOT k) (view w) →
    later w3 w3) as Hlater.
  { intros w w3 Hroom Hr Hv. split_and!; [done| |done..]. unfold room in *. by rewrite Hv. }
  split; [by eapply Hlater, HvA|]. split; [by eapply Hlater, HvB|].
  intros wA4 wB4 (Hr4 & Hroom4 & HsdA4 & Hp4) (HrB4 & HroomB4 & HsdB4 & HpB4).
  assert (v_persistent (view wA4) !! SLOT = Some k) as HkA.
  { rewrite Hp4, HvA. apply lookup_insert_eq. }
  assert (v_persistent (view wB4) !! SLOT = Some k) as HkB.
  { rewrite HpB4, HvB. apply lookup_insert_eq. }
  rewrite HvB in HsdB4. cbn in HsdB4. rewrite HvA in HsdA4. cbn in HsdA4.
  rewrite <- HsdA4 in HidA. rewrite <- HsdB4 in HidB.
  assert (room 4 wB4) as HroomB5 by (by eapply room_le, HroomB4; lia). split.
  - intros pt uid Hl. eapply run_mono; [apply (fleet_service tA wA4 k); [done|done| |done]|].
    { by eapply room_le, Hroom4; lia. }
    cbv beta. intros r w (srk & _ & Hkok & Hid & _).
    eapply run_mono; [by eapply encrypt_spec|]. cbv beta. intros resp st (_ & _ & _ & He & _ & Hkid).
    destruct srk_public_spec as (p & Hp & _). eapply (fleet_node_decrypts tB wB4 k _ _ _ _ k); [done..| |by left| |done].
    + by exists p.
    + by rewrite Hkid.
  - intros srk ct kid pt Hsrk Hkid He. rewrite <- HsdB4 in Hsrk.
    eapply (fleet_node_decrypts tB wB4 k srk _ _ _ srk); [done..|by right|done|done].
Qed.

(** One enrollment: [enroll --max=1] on A, which holds key [k], and [join] on B
    against it.  A is as it was, B differs in the slot only. *)
Lemma enroll_join fsA now leaf_key listen tctiA dirA nameA client fsB seed tctiB dirB pemB ep k wA wB :
  ready wA → room 3 wA → v_persistent (view wA) !! SLOT = Some k → duplicable_key k →
  enroll_env fsA now leaf_key listen tctiA dirA nameA client →
  join_env (JD:=JD) fsB seed tctiB dirB pemB ep → ep.2 = pemB → cert_of_node der_of_pem client pemB →
  ready wB → room 4 wB →
  run (enroll_setup fsA now leaf_key listen 1 tctiA dirA) wA (λ lsn wA2,
  run (run_join (JD:=JD) fsB seed tctiB dirB)
      (mkJoinWorld (JD:=JD) wB (mkEnrollState (ls_service lsn) wA2)) (λ _ jw,
  let wA3 := context_drop (inner (es_context (ls_service lsn))) (etpm (jnet jw)) in
  ready wA3 ∧ view wA3 = view wA ∧
  ready (jtpm jw) ∧ view (jtpm jw) = with_persistent (insert SLOT k) (view wB))).
Proof.
  intros HrA HroomA Hk Hdup HenvA HenvB Hep Hcert HrB HroomB.
  eapply run_mono; [by eapply (enroll_setup_spec _ _ _ _ _ _ _ _ _ k)|].
  cbv beta. intros lsn wA2 (Hok & _ & Hcl & Hpm & _ & _ & Hf2 & Hv2).
  eapply run_mono; [eapply (run_join_spec (JD:=JD) _ _ _ _ _ _ k
    (λ st, ready (etpm st) ∧ view (etpm st) = view wA2)); [exact HenvB|done|done|]|].
  { intros t Ht. destruct ep as [uri pem]. cbn in Hep. subst pem.
    destruct (direct_seed_answers der_of_pem (mkEnrollState (ls_service lsn) wA2) uri pemB k
      (public_of t)) as (bs & Hbs & Hrun); [done|cbn; by rewrite Hcl|cbn; by rewrite Hpm
      |by eapply local_fleet_key_wrappable|].
    exists bs. split; [done|]. eapply run_mono; [exact Hrun|]. cbv beta. intros ch n H.
    eapply run_mono; [exact H|]. cbv beta. intros r n' (? & ? & ?). done. }
  cbv beta. intros _ jw (HrB3 & HvB3 & HrA2 & HvA2). cbv zeta.
  set (c := inner (es_context (ls_service lsn))) in *.
  destruct (context_drop_spec c _ HrA2) as [HrA3 HvA3]. rewrite HvA2, Hv2 in HvA3.
  autorewrite with ctx in HvA3. rewrite close_context_fresh in HvA3 by done. done.
Qed.

(** C2. The ceremony works.  Node A runs [genesis], then [enroll]; node B,
    whose client certificate names a node of A's cluster, runs [join] against
    it.  Every step succeeds on the TPM the step before has left.  When [enroll]
    has exited, both TPMs differ from the start in the fleet slot only, and both
    slots hold the same key.  From then on, also after reboots, what A's KMS
    service encrypts B's service decrypts, and ciphertext that B had sealed under
    its own SRK before joining still decrypts on B. *)
Theorem fleet_ceremony tA tB fsA now leaf_key listen tctiA dirA nameA client fsB seed tctiB dirB pemB ep
    wA wB :
  ids_distinct (v_seed (view wA)) (v_seed (view wA)) → ids_distinct (v_seed (view wA)) (v_seed (view wB)) →
  tcti_from_str tctiA = Ok tA → ready wA → room 5 wA → v_persistent (view wA) !! SLOT = None →
  enroll_env fsA now leaf_key listen tctiA dirA nameA client →
  join_env (JD:=JD) fsB seed tctiB dirB pemB ep → ep.2 = pemB → cert_of_node der_of_pem client pemB →
  ready wB → room 5 wB →
  run (run_genesis (JD:=JD) tctiA false) wA (λ _ wA1,
  run (enroll_setup fsA now leaf_key listen 1 tctiA dirA) wA1 (λ lsn wA2,
  run (run_join (JD:=JD) fsB seed tctiB dirB)
      (mkJoinWorld (JD:=JD) wB (mkEnrollState (ls_service lsn) wA2)) (λ _ jw,
  let wA3 := context_drop (inner (es_context (ls_service lsn))) (etpm (jnet jw)) in
  let wB3 := jtpm jw in
  (∃ k, view wA3 = with_persistent (insert SLOT k) (view wA) ∧
        view wB3 = with_persistent (insert SLOT k) (view wB)) ∧
  later wA3 wA3 ∧ later wB3 wB3 ∧
  ∀ wA4 wB4, later wA3 wA4 → later wB3 wB4 →
  (∀ pt uid, (length pt ≤ MAX_SEAL_DATA)%nat →
     run (build_sealer (JD:=JD) tA) wA4 (λ r w, run (encrypt tss_display (mkEncryptRequest pt uid))
       (mkKmsState (kms_service_of r) w) (λ resp _,
         decrypts tB wB4 (enc_ciphertext resp) (enc_key_id resp) pt))) ∧
  (∀ srk ct kid pt, is_srk (v_seed (view wB)) srk → key_id_of srk kid → envelope_seals srk ct pt →
     decrypts tB wB4 ct kid pt)))).
Proof.
  intros HidA HidB HtA HrA HroomA HsA HenvA HenvB Hep Hcert HrB HroomB.
  eapply run_mono; [apply run_genesis_spec; [by eexists|done|by eapply room_le, HroomA; lia]|].
  cbv beta. intros _ wA1 (Hr1 & k & Hk & Hv1). unfold genesis_key in Hk. rewrite HsA in Hk.
  apply local_fleet_key_duplicable in Hk as Hdup.
  eapply run_mono; [eapply (enroll_join _ _ _ _ _ _ _ _ _ _ _ _ _ ep k wA1 wB);
    [done| | |done..|by eapply room_le, HroomB; lia]|].
  { unfold room in *. rewrite Hv1. cbn. lia. }
  { rewrite Hv1. apply lookup_insert_eq. }
  cbv beta. intros lsn wA2 H. eapply run_mono; [exact H|]. cbv beta zeta.
  intros _ jw (HrA3 & HvA3 & HrB3 & HvB3). rewrite Hv1 in HvA3. apply ceremony_aftermath with k; auto.
Qed.
End Ceremony.

(** * Examples *)
Lemma sim_key_id_char k id :
  key_id_of (TS:=sim_spec) (K:=sim_key_id) k id →
  String.get 7 id = Some (if fixed_tpm (sp_attributes (sk_public k)) then "1" else "0")%char.
Proof.
  unfold key_id_of. intros H.
  apply (f_equal (λ o, match o with Ok s => String.get 7 s | _ => None end)) in H.
  rewrite <- H. destruct k as [sd [[[] ? ? ? ? ?] pol u]]; vm_compute; reflexivity.
Qed.
Lemma sim_ids_distinct sd sd' : ids_distinct (TS:=sim_spec) (K:=sim_key_id) sd sd'.
Proof.
  intros k Hk srk id Hsrk H1%sim_key_id_char H2%sim_key_id_char.
  rewrite (local_fleet_key_unique (TS:=sim_spec) _ _ _ Hk (sim_fleet_key_local sd)) in H2.
  destruct Hsrk as (p & [= <-] & ->). cbn in *. congruence.
Qed.

Abbreviation run_genesis_sim := (run_genesis (O:=sim_ops) (ED:=sim_enroll_deps) (P:=sim_pki)
  (JD:=sim_direct)).
Abbreviation enroll_setup_sim := (enroll_setup (O:=sim_ops) (X:=sim_x509) (PI:=sim_pki_issue)
  (ET:=sim_text) (ED:=sim_enroll_deps)).
Abbreviation run_join_sim := (run_join (O:=sim_ops) (P:=sim_pki) (ET:=sim_text) (JD:=sim_direct)).

Lemma sim_enroll_env :
  enroll_env (D:=sim_data) (X:=sim_x509) (PI:=sim_pki_issue) (ED:=sim_enroll_deps) (sim_fs "n1") 0
    (Ok "key"%string) "0.0.0.0:8443" "device:/dev/tpmrm0" K0S_DEFAULT_DATA_DIR "n1" ["n1"; "n2"]%string.
Proof. split; repeat eexists; vm_compute; reflexivity. Qed.

(** Nodes n1 and n2 with seeds 7 and 9. *)
Lemma fleet_ceremony_witness :
  run (run_genesis_sim "device:/dev/tpmrm0" false) (sim_init x07) (λ _ wA1,
    run (enroll_setup_sim (sim_fs "n1") 0 (Ok "key"%string) "0.0.0.0:8443" 1 "device:/dev/tpmrm0"
           K0S_DEFAULT_DATA_DIR) wA1 (λ lsn wA2,
    run (run_join_sim (sim_fs "n2") "n1:8443" "device:/dev/tpmrm0" K0S_DEFAULT_DATA_DIR)
      (mkJoinWorld (JD:=sim_direct) (sim_init x09) (mkEnrollState (ls_service lsn) wA2)) (λ _ jw,
    ∃ k, sw_view (sim_context_drop (inner (es_context (ls_service lsn))) (etpm (jnet jw))) =
           with_persistent (insert FLEET_KEY_PERSISTENT_HANDLE k) (sw_view (sim_init x07)) ∧
         sw_view (jtpm jw) =
           with_persistent (insert FLEET_KEY_PERSISTENT_HANDLE k) (sw_view (sim_init x09))))).
Proof.
  eapply run_mono; [apply (fleet_ceremony (TS:=sim_spec) (L:=sim_data_laws) (KL:=sim_key_id_laws)
    (X:=sim_x509) (PI:=sim_pki_issue) (ET:=sim_text) (ED:=sim_enroll_deps) String.list_byte_of_string
    "device:/dev/tpmrm0"%string "device:/dev/tpmrm0"%string
    (sim_fs "n1") 0 (Ok "key"%string) "0.0.0.0:8443" "device:/dev/tpmrm0" K0S_DEFAULT_DATA_DIR "n1"
    ["n1"; "n2"]%string (sim_fs "n2") "n1:8443" "device:/dev/tpmrm0" K0S_DEFAULT_DATA_DIR
    "system:node:n2" ("https://n1:8443", "system:node:n2")%string (sim_init x07) (sim_init x09));
    [apply sim_ids_distinct|apply sim_ids_distinct|reflexivity|apply sim_init_ready|apply sim_init_room; lia|reflexivity
    |apply sim_enroll_env|apply demo_join_env|reflexivity|apply demo_cert_of_node
    |apply sim_init_ready|apply sim_init_room; lia]|].
  cbv beta. intros _ wA1 H1. eapply run_mono; [exact H1|].
  cbv beta. intros lsn wA3 H3. eapply run_mono; [exact H3|].
  cbv beta. intros _ jw H4. exact (proj1 H4).
Defined.
