(* ===== verification/Cluster.v ===== *)
(** A whole cluster: any number of controllers, on which operators run [genesis]
    and enrollments in any order, also repeatedly and from any node that holds the
    key.

    The specification knows nothing of TPMs: it says of every node whose fleet key
    it holds, that is, on which node that key was created ([Origins]).  The
    implementation runs the commands on the nodes' TPMs ([Cluster]). *)
From S2P Require Import Prelude Grpc Host Net Tss SimTpm Envelope Sealer Kms Fleet Authz Certs Permits Enroll Join Clap Cli Main Ceremony.

(** What an operator does: [genesis] on a node, or [enroll --max=1] on one node
    and [join] against it on another. *)
Inductive Operation :=
| OpGenesis (n : string) (force : bool)
| OpEnroll (seed joiner : string).

(** * The specification *)
(** The nodes of the cluster; with a node, the node on which its key was
    created. *)
Abbreviation Origins := (gmap string (option string)).
Definition spec_step (op : Operation) (o : Origins) : option Origins :=
  match op with
  | OpGenesis n force =>
      held ← o !! n;
      Some (match held with
            | Some _ => if force then <[n := Some n]> o else o
            | None => <[n := Some n]> o
            end)
  | OpEnroll a b =>
      held ← o !! a;
      origin ← held;
      _ ← o !! b;
      if decide (a = b) then None else Some (<[b := Some origin]> o)
  end.
Fixpoint spec_steps (ops : list Operation) (o : Origins) : option Origins :=
  match ops with [] => Some o | op :: rest => o' ← spec_step op o; spec_steps rest o' end.
Definition no_keys {A} (ws : gmap string A) : Origins := (λ _, None) <$> ws.

(** * The implementation *)
(** The arguments and the files of a node. *)
Record NodeEnv `{P : Pki} := mkNodeEnv {
  ne_fs : Fs;
  ne_tcti : string;
  ne_dir : string;
  ne_listen : string;
  ne_address : string;
  ne_now : OffsetDateTime;
  ne_leaf_key : outcome RcgenError KeyPair
}.

Section Cluster.
Context `{D : TssData} {O : TssOps} {K : KeyIdDeps} `{KA : KubeApi} `{X : X509} `{P : Pki} {PI : PkiIssue}
  {ET : ErrorText} {ED : EnrollDeps} (der_of_pem : string → list byte) (env : string → NodeEnv).
Abbreviation JD := (direct der_of_pem).

Abbreviation Cluster := (gmap string World).

(** The commands on the nodes' TPMs; [None] if one of them fails. *)
Definition cluster_step (op : Operation) (ws : Cluster) : option Cluster :=
  match op with
  | OpGenesis n force =>
      w ← ws !! n;
      match run_genesis (JD:=JD) (ne_tcti (env n)) force w with
      | (Ok _, w') => Some (<[n := w']> ws)
      | _ => None
      end
  | OpEnroll a b =>
      wa ← ws !! a;
      wb ← ws !! b;
      if decide (a = b) then None else
      match enroll_setup (ne_fs (env a)) (ne_now (env a)) (ne_leaf_key (env a)) (ne_listen (env a)) 1
              (ne_tcti (env a)) (ne_dir (env a)) wa with
      | (Ok lsn, wa2) =>
          match run_join (JD:=JD) (ne_fs (env b)) (ne_address (env a)) (ne_tcti (env b)) (ne_dir (env b))
                  (mkJoinWorld (JD:=JD) wb (mkEnrollState (ls_service lsn) wa2)) with
          | (Ok _, jw) =>
              Some (<[b := jtpm jw]>
                (<[a := context_drop (inner (es_context (ls_service lsn))) (etpm (jnet jw))]> ws))
          | _ => None
          end
      | _ => None
      end
  end.
Fixpoint cluster_steps (ops : list Operation) (ws : Cluster) : option Cluster :=
  match ops with [] => Some ws | op :: rest => ws' ← cluster_step op ws; cluster_steps rest ws' end.
End Cluster.

(** * Simulation *)
Section Refinement.
Context `{D : TssData} {L : TssDataLaws} {O : TssOps} {TM : TpmModel} {TS : TpmSpec} {K : KeyIdDeps}
  {KL : KeyIdLaws} `{KA : KubeApi} `{X : X509} `{P : Pki} {PI : PkiIssue} {ET : ErrorText}
  {ED : EnrollDeps} (der_of_pem : string → list byte) (env : string → NodeEnv).
Abbreviation SLOT := FLEET_KEY_PERSISTENT_HANDLE.
Abbreviation JD := (direct der_of_pem).
Abbreviation Cluster := (gmap string World).

(** Every node is set up to be a seed, and every other node's certificate names
    a node of the cluster it asks. *)
Definition well_configured (nodes : gset string) : Prop :=
  ∀ a, a ∈ nodes → ∃ name client,
    enroll_env (ne_fs (env a)) (ne_now (env a)) (ne_leaf_key (env a)) (ne_listen (env a))
      (ne_tcti (env a)) (ne_dir (env a)) name client ∧
    ∀ b, b ∈ nodes → ∃ pem ep,
      join_env (JD:=JD) (ne_fs (env b)) (ne_address (env a)) (ne_tcti (env b)) (ne_dir (env b)) pem ep ∧
      ep.2 = pem ∧ cert_of_node der_of_pem client pem.

(** [w] is the TPM [w0] of the beginning, but for the slot, which holds the key
    that the TPM of the node [held] derives. *)
Definition node_refines (ws0 : Cluster) (w0 w : World) (held : option string) : Prop :=
  ready w ∧
  match held with
  | Some origin => ∃ wo k, ws0 !! origin = Some wo ∧ local_fleet_key (v_seed (view wo)) k ∧
                     view w = with_persistent (insert SLOT k) (view w0)
  | None => view w = view w0
  end.
Definition refines (ws0 ws : Cluster) (o : Origins) : Prop :=
  dom ws = dom ws0 ∧ dom o = dom ws0 ∧
  ∀ n w0 w held, ws0 !! n = Some w0 → ws !! n = Some w → o !! n = Some held → node_refines ws0 w0 w held.

(** The TPMs of the beginning: they answer, have room and an empty slot. *)
Definition fresh_cluster (ws0 : Cluster) : Prop :=
  ∀ n w, ws0 !! n = Some w → ready w ∧ room 5 w ∧ v_persistent (view w) !! SLOT = None.

Lemma with_persistent_insert_insert sl k k' (v : TpmView Public Digest Key Seed) :
  with_persistent (insert sl k) (with_persistent (insert sl k') v) = with_persistent (insert sl k) v.
Proof. unfold with_persistent. cbn. by rewrite insert_insert_eq. Qed.

Lemma refines_lookup ws0 ws o n w :
  refines ws0 ws o → ws !! n = Some w →
  ∃ w0 held, ws0 !! n = Some w0 ∧ o !! n = Some held ∧ node_refines ws0 w0 w held.
Proof.
  intros (Hd & Ho & Hn) Hw. assert (n ∈ dom ws) as Hi by (apply elem_of_dom; eauto).
  rewrite Hd in Hi. apply elem_of_dom in Hi as Hi0. destruct Hi0 as [w0 Hw0].
  rewrite <- Ho in Hi. apply elem_of_dom in Hi as [held Hh]. exists w0, held. eauto 6.
Qed.
Lemma refines_none ws0 ws o n : refines ws0 ws o → ws !! n = None ↔ o !! n = None.
Proof. intros (Hd & Ho & _). rewrite <- !not_elem_of_dom. by rewrite Hd, Ho. Qed.

(** What of a node's state the commands need. *)
Lemma node_refines_ready ws0 w0 w held :
  fresh_cluster ws0 → (∃ n, ws0 !! n = Some w0) → node_refines ws0 w0 w held →
  ready w ∧ room 5 w ∧ v_seed (view w) = v_seed (view w0) ∧
  match held with
  | Some origin => ∃ wo k, ws0 !! origin = Some wo ∧ local_fleet_key (v_seed (view wo)) k ∧
                     v_persistent (view w) !! SLOT = Some k ∧ duplicable_key k
  | None => v_persistent (view w) !! SLOT = None
  end.
Proof.
  intros Hf [n Hn] [Hr Hv]. destruct (Hf _ _ Hn) as (_ & Hroom & Hslot).
  destruct held as [origin|].
  - destruct Hv as (wo & k & Ho & Hk & Hv). unfold room in *. rewrite Hv.
    split_and!; [done..|]. exists wo, k. cbn. rewrite lookup_insert_eq.
    eauto using local_fleet_key_duplicable.
  - unfold room in *. by rewrite Hv.
Qed.
Lemma node_refines_key ws0 w0 w held w' k :
  ready w' → view w' = with_persistent (insert SLOT k) (view w) →
  node_refines ws0 w0 w held → view w' = with_persistent (insert SLOT k) (view w0).
Proof.
  intros Hr Hv [_ Hw]. destruct held as [origin|].
  - destruct Hw as (wo & k' & _ & _ & Hw). by rewrite Hv, Hw, with_persistent_insert_insert.
  - by rewrite Hv, Hw.
Qed.

Lemma refines_insert ws0 ws o n w held w0 :
  refines ws0 ws o → ws0 !! n = Some w0 → node_refines ws0 w0 w held →
  refines ws0 (<[n := w]> ws) (<[n := held]> o).
Proof.
  intros (Hd & Ho & Hn) Hw0 Href. assert (n ∈ dom ws0) as Hi by (apply elem_of_dom; eauto).
  apply singleton_subseteq_l in Hi.
  split_and!; [by rewrite dom_insert_L, ?Hd, ?Ho; apply subseteq_union_1_L..|].
  intros m wm0 wm hm Hm0. destruct (decide (n = m)) as [<-|Hne].
  - rewrite !lookup_insert_eq. congruence.
  - rewrite !lookup_insert_ne by done. by apply Hn.
Qed.

(** * The operations *)
Lemma genesis_refines ws0 ws o n force :
  fresh_cluster ws0 → well_configured (dom ws0) → refines ws0 ws o →
  match spec_step (OpGenesis n force) o with
  | Some o' => ∃ ws', cluster_step der_of_pem env (OpGenesis n force) ws = Some ws' ∧ refines ws0 ws' o'
  | None => cluster_step der_of_pem env (OpGenesis n force) ws = None
  end.
Proof.
  intros Hf Hconf Href. cbn. destruct (ws !! n) as [w|] eqn:Hw.
  2: { apply (refines_none _ _ _ n Href) in Hw as ->. done. }
  destruct (refines_lookup _ _ _ _ _ Href Hw) as (w0 & held & Hw0 & Ho & Hn). rewrite Ho. cbn.
  destruct (node_refines_ready _ _ _ _ Hf (ex_intro _ n Hw0) Hn) as (Hr & Hroom & Hsd & Hslot).
  destruct (Hconf n) as (name & client & Henv & _); [apply elem_of_dom; eauto|].
  destruct (run_genesis_spec (JD:=JD) (ne_tcti (env n)) force w (env_tcti _ _ _ _ _ _ _ _ Henv) Hr)
    as (u & w' & -> & Hr' & k & Hk & Hv); [by eapply room_le, Hroom; lia|].
  exists (<[n := w']> ws). split; [done|]. pose proof (node_refines_key _ _ _ _ _ _ Hr' Hv Hn) as Hv0.
  assert (local_fleet_key (v_seed (view w)) k → node_refines ws0 w0 w' (Some n)) as Hlocal.
  { intros Hl. split; [done|]. exists w0, k. by rewrite <- Hsd. }
  unfold genesis_key in Hk. destruct held as [origin|]; [destruct force|].
  - eapply refines_insert; eauto.
  - rewrite <- (insert_id o n (Some origin)) by done. eapply refines_insert; [done..|].
    destruct Hslot as (wo & k' & Hwo & Hk' & Hs & _). rewrite Hs in Hk. subst k'. split; [done|]. eauto.
  - eapply refines_insert; [done..|]. apply Hlocal. destruct force; [done|]. by rewrite Hslot in Hk.
Qed.

(** [enroll] on a node without a key fails. *)
Lemma enroll_setup_no_key fs now leaf_key listen max tcti dir name client w :
  enroll_env fs now leaf_key listen tcti dir name client → ready w → room 3 w →
  v_persistent (view w) !! SLOT = None →
  fails (enroll_setup fs now leaf_key listen max tcti dir) w (λ _ w', ready w' ∧ view w' = view w).
Proof.
  intros [(a & Ha & _) [t Ht] _ _ _] Hr Hroom Hs. unfold enroll_setup.
  eapply fails_bind_lift; [by rewrite Ha|]. eapply fails_bind_lift; [by rewrite Ht|].
  eapply fails_bind_r; [by apply run_map_errM, context_new_spec|]. cbv beta. intros c w1 (Hr1 & Hf1 & Hv1).
  apply fails_on_failure, fails_bind_l, fails_map_errM.
  eapply fails_mono; [apply load_fleet_key_none; [done| |by rewrite Hv1]|].
  { eapply room_open; [exact Hv1|]. by eapply room_le, Hroom; lia. }
  cbv beta. intros e w2 [Hr2 Hv2]. destruct (context_drop_spec c w2 Hr2) as [Hr3 Hv3]. split; [done|].
  rewrite Hv3, Hv2, Hv1. autorewrite with ctx. by apply close_context_fresh.
Qed.

Lemma enroll_refines ws0 ws o a b :
  fresh_cluster ws0 → well_configured (dom ws0) → refines ws0 ws o →
  match spec_step (OpEnroll a b) o with
  | Some o' => ∃ ws', cluster_step der_of_pem env (OpEnroll a b) ws = Some ws' ∧ refines ws0 ws' o'
  | None => cluster_step der_of_pem env (OpEnroll a b) ws = None
  end.
Proof.
  intros Hf Hconf Href. cbn. destruct (ws !! a) as [wa|] eqn:Ha.
  2: { apply (refines_none _ _ _ a Href) in Ha as ->. done. }
  destruct (refines_lookup _ _ _ _ _ Href Ha) as (wa0 & helda & Ha0 & Hoa & Hna). rewrite Hoa. cbn.
  destruct (node_refines_ready _ _ _ _ Hf (ex_intro _ a Ha0) Hna) as (Hra & Hrooma & _ & Hslota).
  destruct (Hconf a) as (name & client & Henva & Hjoin); [apply elem_of_dom; eauto|].
  destruct helda as [origin|]; cbn.
  2: { destruct (ws !! b); [|done]. cbn. destruct (decide (a = b)); [done|].
    destruct (enroll_setup_no_key _ _ _ _ 1 _ _ _ _ wa Henva Hra) as (e & w' & -> & _); [|done..].
    by eapply room_le, Hrooma; lia. }
  destruct (ws !! b) as [wb|] eqn:Hb.
  2: { apply (refines_none _ _ _ b Href) in Hb as ->. done. }
  destruct (refines_lookup _ _ _ _ _ Href Hb) as (wb0 & heldb & Hb0 & Hob & Hnb). rewrite Hob. cbn.
  destruct (decide (a = b)); [done|].
  destruct (node_refines_ready _ _ _ _ Hf (ex_intro _ b Hb0) Hnb) as (Hrb & Hroomb & _ & _).
  destruct (Hjoin b) as (pem & ep & Henvb & Hep & Hcert); [apply elem_of_dom; eauto|].
  destruct Hslota as (wo & k & Hwo & Hlk & Hk & Hdup).
  assert (room 3 wa) as Hra3 by (by eapply room_le, Hrooma; lia).
  assert (room 4 wb) as Hrb4 by (by eapply room_le, Hroomb; lia).
  destruct (enroll_join der_of_pem _ _ _ _ _ _ _ _ _ _ _ _ _ ep k wa wb Hra Hra3 Hk Hdup Henva Henvb Hep
    Hcert Hrb Hrb4) as (lsn & wa2 & -> & Hj). clear Hra3.
  destruct Hj as (u & jw & -> & Hra3 & Hva3 & Hrb3 & Hvb3). eexists. split; [done|].
  eapply refines_insert; [|done|].
  - rewrite <- (insert_id o a (Some origin)) by done. eapply refines_insert; [done..|].
    split; [done|]. destruct Hna as [_ Hna]. by rewrite Hva3.
  - split; [done|]. exists wo, k. split_and!; [done..|]. by eapply node_refines_key.
Qed.

(** The same for any operation. *)
Lemma step_refines ws0 ws o op :
  fresh_cluster ws0 → well_configured (dom ws0) → refines ws0 ws o →
  match spec_step op o with
  | Some o' => ∃ ws', cluster_step der_of_pem env op ws = Some ws' ∧ refines ws0 ws' o'
  | None => cluster_step der_of_pem env op ws = None
  end.
Proof. destruct op; [apply genesis_refines|apply enroll_refines]. Qed.
Lemma steps_refine ws0 ops : ∀ ws o,
  fresh_cluster ws0 → well_configured (dom ws0) → refines ws0 ws o →
  match spec_steps ops o with
  | Some o' => ∃ ws', cluster_steps der_of_pem env ops ws = Some ws' ∧ refines ws0 ws' o'
  | None => cluster_steps der_of_pem env ops ws = None
  end.
Proof.
  induction ops as [|op ops IH]; intros ws o Hf Hc Href; cbn [spec_steps cluster_steps]; [eauto|].
  pose proof (step_refines ws0 ws o op Hf Hc Href) as Hs.
  destruct (spec_step op o) as [o1|]; cbn; [|by rewrite Hs].
  destruct Hs as (ws1 & -> & Href1). by apply IH.
Qed.
Lemma refines_initial ws0 : fresh_cluster ws0 → refines ws0 ws0 (no_keys ws0).
Proof.
  intros Hf. unfold no_keys. split_and!; [done|by rewrite dom_fmap_L|].
  intros n w0 w held Hw0 Hw. rewrite lookup_fmap, Hw. cbn. intros [= <-].
  assert (w0 = w) as -> by congruence. split; [|done]. by destruct (Hf _ _ Hw) as [? _].
Qed.

(** No node's SRK shares its identifier with a fleet key that a node derives. *)
Definition ids_distinct_among (ws0 : gmap string World) : Prop :=
  ∀ n m wn wm, ws0 !! n = Some wn → ws0 !! m = Some wm → ids_distinct (v_seed (view wn)) (v_seed (view wm)).

(** C1. A cluster of any size, operated in any order, does what a table of key
    origins says: a sequence of [genesis] and [enroll]/[join] operations succeeds
    exactly if the table allows it, every node then holds the key that the TPM of
    its origin derives and is otherwise as it was, and any two nodes with the same
    origin decrypt each other's ciphertext, also after reboots. *)
Theorem cluster_refines_origins ws0 ops :
  ids_distinct_among ws0 → fresh_cluster ws0 → well_configured (dom ws0) →
  match spec_steps ops (no_keys ws0) with
  | None => cluster_steps der_of_pem env ops ws0 = None
  | Some o => ∃ ws, cluster_steps der_of_pem env ops ws0 = Some ws ∧ refines ws0 ws o ∧
      ∀ n m origin wn wm wn' wm' tn tm pt uid,
        o !! n = Some (Some origin) → o !! m = Some (Some origin) →
        ws !! n = Some wn → ws !! m = Some wm → later wn wn' → later wm wm' →
        (length pt ≤ MAX_SEAL_DATA)%nat →
        run (build_sealer (JD:=JD) tn) wn' (λ r w, run (encrypt tss_display (mkEncryptRequest pt uid))
          (mkKmsState (kms_service_of r) w) (λ resp _,
            decrypts der_of_pem tm wm' (enc_ciphertext resp) (enc_key_id resp) pt))
  end.
Proof.
  intros Hids Hf Hc. pose proof (steps_refine ws0 ops ws0 _ Hf Hc (refines_initial _ Hf)) as Hs.
  destruct (spec_steps ops (no_keys ws0)) as [o|]; [|done]. destruct Hs as (ws & Hws & Href).
  exists ws. split_and!; [done..|]. intros n m origin wn wm wn' wm' tn tm pt uid Hon Hom Hwn Hwm Hln Hlm Hpt.
  assert (∀ n w w', o !! n = Some (Some origin) → ws !! n = Some w → later w w' →
    ready w' ∧ room 4 w' ∧ (∃ w0, ws0 !! n = Some w0 ∧ v_seed (view w') = v_seed (view w0)) ∧ ∃ wo k, ws0 !! origin = Some wo ∧ local_fleet_key (v_seed (view wo)) k ∧
      duplicable_key k ∧ v_persistent (view w') !! SLOT = Some k) as Hkey.
  { clear -Hf Href. intros n w w' Ho Hw (Hr & Hroom & Hsd & Hp).
    destruct (refines_lookup _ _ _ _ _ Href Hw) as (w0 & held & Hw0 & Ho' & Hn). simplify_eq.
    destruct (node_refines_ready _ _ _ _ Hf (ex_intro _ n Hw0) Hn) as (_ & _ & Hsd0 & wo & k & ? & ? & ? & ?).
    split_and!; [done|by eapply room_le, Hroom; lia|exists w0; split; [done|congruence]|]. exists wo, k. by rewrite Hp. }
  destruct (Hkey _ _ _ Hon Hwn Hln) as (Hrn & Hroomn & (wn0 & Hn0 & Hsdn) & wo & k & Hwo & Hk & Hdup & Hsn).
  destruct (Hkey _ _ _ Hom Hwm Hlm) as (Hrm & Hroomm & (wm0 & Hm0 & Hsdm) & wo' & k' & Hwo' & Hk' & _ & Hsm). simplify_eq.
  rewrite (local_fleet_key_unique _ _ _ Hk' Hk) in Hsm.
  pose proof (Hids _ _ _ _ Hwo Hn0 k Hk) as Hidn. rewrite <- Hsdn in Hidn.
  pose proof (Hids _ _ _ _ Hwo Hm0 k Hk) as Hidm. rewrite <- Hsdm in Hidm.
  eapply run_mono; [by apply (fleet_service der_of_pem tn wn' k)|]. cbv beta. intros r w (srk & _ & Hkok & Hid & _).
  eapply run_mono; [by eapply encrypt_spec|]. cbv beta. intros resp st (_ & _ & _ & He & _ & Hkid).
  destruct srk_public_spec as (p & Hp & _).
  eapply (fleet_node_decrypts der_of_pem tm wm' k _ _ _ _ k); [done..|by exists p|by left|by rewrite Hkid|done].
Qed.
End Refinement.

(** * Examples *)
(** Controllers n1 and n2, with seeds 7 and 9. *)
Definition demo_env (n : string) : NodeEnv (P:=sim_pki) :=
  mkNodeEnv sim_pki (sim_fs n) "device:/dev/tpmrm0" K0S_DEFAULT_DATA_DIR "0.0.0.0:8443" (n +:+ ":8443") 0
    (Ok "key"%string).
Definition demo_cluster : gmap string SimWorld :=
  {[ "n1"%string := sim_init x07; "n2"%string := sim_init x09 ]}.
(** n2 gets n1's key, makes one of its own by force, and hands that to n1. *)
Definition demo_operations : list Operation :=
  [OpGenesis "n1" false; OpEnroll "n1" "n2"; OpGenesis "n2" false; OpGenesis "n2" true; OpEnroll "n2" "n1"].
Definition demo_origins : gmap string (option string) :=
  {[ "n1"%string := Some "n2"%string; "n2"%string := Some "n2"%string ]}.

Lemma demo_cluster_nodes n w :
  demo_cluster !! n = Some w → (n = "n1"%string ∧ w = sim_init x07) ∨ (n = "n2"%string ∧ w = sim_init x09).
Proof.
  unfold demo_cluster. rewrite lookup_insert_Some, lookup_singleton_Some.
  intros [[? ?]|(_ & ? & ?)]; simplify_eq; auto.
Qed.
Lemma demo_fresh : fresh_cluster (TS:=sim_spec) demo_cluster.
Proof.
  intros n w [[_ ->]|[_ ->]]%demo_cluster_nodes;
    (split_and!; [apply sim_init_ready|apply sim_init_room; lia|reflexivity]).
Qed.
Lemma demo_well_configured :
  well_configured (D:=sim_data) (O:=sim_ops) (X:=sim_x509) (PI:=sim_pki_issue) (ET:=sim_text)
    (ED:=sim_enroll_deps) String.list_byte_of_string demo_env (dom demo_cluster).
Proof.
  intros a [wa Ha]%elem_of_dom. exists a, ["n1"; "n2"]%string.
  assert (∀ n w, demo_cluster !! n = Some w → n = "n1"%string ∨ n = "n2"%string) as Hn.
  { intros n w [[-> _]|[-> _]]%demo_cluster_nodes; auto. }
  split; [destruct (Hn _ _ Ha) as [->| ->]; split; repeat eexists; vm_compute; reflexivity|].
  intros b [wb Hb]%elem_of_dom. exists ("system:node:" +:+ b)%string, ("https://" +:+ a +:+ ":8443", "system:node:" +:+ b)%string.
  split; [destruct (Hn _ _ Ha) as [->| ->], (Hn _ _ Hb) as [->| ->]; split; repeat eexists; vm_compute; reflexivity|].
  split; [done|]. intros msg. exists b.
  destruct (Hn _ _ Hb) as [->| ->]; eexists _, [], _, _, []; split_and!; try reflexivity;
    first [done|exists tt; reflexivity].
Qed.

Lemma cluster_refines_origins_witness :
  ∃ ws, cluster_steps (O:=sim_ops) (X:=sim_x509) (PI:=sim_pki_issue) (ET:=sim_text) (ED:=sim_enroll_deps)
          String.list_byte_of_string demo_env demo_operations demo_cluster = Some ws ∧
        refines (TS:=sim_spec) demo_cluster ws demo_origins.
Proof.
  pose proof (cluster_refines_origins (TS:=sim_spec) (L:=sim_data_laws) (KL:=sim_key_id_laws) (X:=sim_x509)
    (PI:=sim_pki_issue) (ET:=sim_text) (ED:=sim_enroll_deps) String.list_byte_of_string demo_env
    demo_cluster demo_operations (λ _ _ wn wm _ _, sim_ids_distinct _ _) demo_fresh demo_well_configured) as H.
  assert (spec_steps demo_operations (no_keys (A:=World (TssOps:=sim_ops)) demo_cluster) = Some demo_origins) as E
    by (vm_compute; reflexivity).
  rewrite E in H. destruct H as (ws & H1 & H2 & _). exists ws. split; [exact H1|exact H2].
Defined.
