(* ===== verification/Vex.v ===== *)
(** Presence-based auto-VEX generation,
    [src/crates/sceau-vex/src/auto_vex_presence.rs], and its command-line driver
    [src/crates/sceau-vex/src/bin/auto_vex_presence.rs].

    A [HashSet] is a [gset]; a [BTreeMap] is the list of its entries in key
    order ([btree_insert]); [serde_json] is the class [Json]. *)
From stdpp Require Import pretty sorting.
From S2P Require Import Prelude Host.
From stdpp Require Import list.
#[local] Open Scope Z_scope.

(** * Schemas *)
Record GrypeVuln := mkGrypeVuln { vuln_id : string }.
Record GrypeArtifact := mkGrypeArtifact { artifact_purl : option string }.
Record GrypeMatch := mkGrypeMatch { vulnerability : GrypeVuln; artifact : GrypeArtifact }.
Record GrypeReport := mkGrypeReport { matches : list GrypeMatch }.

Record SbomComponent := mkSbomComponent { component_purl : option string }.
Record Sbom := mkSbom { components : option (list SbomComponent) }.

Definition OPENVEX_CONTEXT : string := "https://openvex.dev/ns/v0.2.0".
Definition OPENVEX_VERSION : Z := 1.
Definition AUTO_IMPACT_STATEMENT : string :=
  "Auto-derived by auto-vex-presence: the vulnerable component's package URL is not present in any release SBOM, so the CVE cannot be exploited against this product.".

Record Vuln := mkVuln { vuln_name : string }.
Record Product := mkProduct { product_id : string }.
Record Statement := mkStatement {
  st_vulnerability : Vuln;
  st_products : list Product;
  st_status : string;
  st_justification : option string;
  st_impact_statement : option string;
  st_timestamp : string
}.
Record Document := mkDocument {
  doc_context : string;
  doc_id : string;
  doc_author : string;
  doc_timestamp : string;
  doc_version : Z;
  doc_statements : list Statement
}.

(** * Byte-wise order of strings, and maps in that order *)
Fixpoint str_ltb (s t : string) : bool :=
  match s, t with
  | _, EmptyString => false
  | EmptyString, String _ _ => true
  | String a s', String b t' =>
      (Ascii.N_of_ascii a <? Ascii.N_of_ascii b)%N
      || ((Ascii.N_of_ascii a =? Ascii.N_of_ascii b)%N && str_ltb s' t')
  end.
Abbreviation str_lt s t := (str_ltb s t = true).

Lemma ascii_N_inj a b : Ascii.N_of_ascii a = Ascii.N_of_ascii b → a = b.
Proof. intros H. by rewrite <- (Ascii.ascii_N_embedding a), H, Ascii.ascii_N_embedding. Qed.
Lemma str_ltb_irrefl s : str_ltb s s = false.
Proof.
  induction s as [|a s IH]; [done|]. cbn. by rewrite N.ltb_irrefl, N.eqb_refl, IH.
Qed.
Lemma str_lt_trans s t u : str_lt s t → str_lt t u → str_lt s u.
Proof.
  revert t u. induction s as [|a s IH]; intros [|b t] [|c u]; cbn; try done.
  rewrite !orb_true_iff, !andb_true_iff, !N.ltb_lt, !N.eqb_eq.
  intros [?|[Hab ?]] [?|[Hbc ?]]; [left; lia|left; lia|left; lia|right]. split; [lia|eauto].
Qed.
Lemma str_lt_total s t : s ≠ t → str_ltb s t = false → str_lt t s.
Proof.
  revert t. induction s as [|a s IH]; intros [|b t]; cbn; try done.
  rewrite orb_false_iff, orb_true_iff, andb_true_iff, andb_false_iff, N.ltb_ge, N.ltb_lt, N.eqb_eq, N.eqb_neq.
  intros Hne [Hle Hs]. destruct (decide (Ascii.N_of_ascii b = Ascii.N_of_ascii a)) as [He|]; [right|left; lia].
  split; [done|]. apply ascii_N_inj in He as ->. apply IH; [congruence|]. by destruct Hs.
Qed.

(** [BTreeMap::insert], [contains_key] and [into_values] on the entry list. *)
Fixpoint btree_insert {V} (k : string) (v : V) (m : list (string * V)) : list (string * V) :=
  match m with
  | [] => [(k, v)]
  | (k', v') :: m' =>
      if bool_decide (k = k') then (k, v) :: m'
      else if str_ltb k k' then (k, v) :: m
      else (k', v') :: btree_insert k v m'
  end.
Definition contains_key {V} (k : string) (m : list (string * V)) : bool := bool_decide (k ∈ m.*1).

(** * Core logic *)
Definition MAX_INPUT_FILE_BYTES : Z := 256 * 1024 * 1024.

(** [serde_json] at the three types, and its rendering. *)
Class Json := {
  JsonError : Type;
  json_display : JsonError → string;
  parse_grype : list byte → outcome JsonError GrypeReport;
  parse_sbom : list byte → outcome JsonError Sbom;
  parse_document : list byte → outcome JsonError Document;
  to_string_pretty : Document → outcome JsonError string
}.

Definition read_file_capped (fs : Fs) (path : string) : outcome IoError (list byte) :=
  len ← metadata_len fs path;
  if bool_decide (len > MAX_INPUT_FILE_BYTES) then
    Err (mkIoError InvalidData (path +:+ ": file is " +:+ pretty len +:+ " bytes, exceeding the "
           +:+ pretty (MAX_INPUT_FILE_BYTES / (1024 * 1024)) +:+ " MiB input limit")%string)
  else fs_read fs path.

(** [is_none_or(Vec::is_empty)] *)
Definition no_components (s : Sbom) : bool :=
  match components s with None => true | Some cs => bool_decide (cs = []) end.

Definition load_sbom_from_path `{Json} (fs : Fs) (path : string) : outcome IoError Sbom :=
  bytes ← read_file_capped fs path;
  sbom ← map_err (λ e, mkIoError InvalidData (path +:+ ": " +:+ json_display e)%string)
           (parse_sbom bytes);
  if no_components sbom then
    Err (mkIoError InvalidData (path +:+ ": SBOM parsed successfully but contains zero components; refusing to derive not_affected statements from an empty SBOM (input is likely truncated or broken)")%string)
  else Ok sbom.

(** The purls of all components of all SBOMs. *)
Definition sbom_purls (sboms : list Sbom) : gset string :=
  list_to_set (omap component_purl (s ← sboms; default [] (components s))).

Definition auto_statement (product_purl statement_timestamp cve : string) : Statement := {|
  st_vulnerability := mkVuln cve;
  st_products := [mkProduct product_purl];
  st_status := "not_affected";
  st_justification := Some "component_not_present"%string;
  st_impact_statement := Some AUTO_IMPACT_STATEMENT;
  st_timestamp := statement_timestamp
|}.

(** The body of the loop over [grype.matches]. *)
Definition consider (purls already_triaged : gset string) (product_purl statement_timestamp : string)
  (emitted : list (string * Statement)) (m : GrypeMatch) : list (string * Statement) :=
  let cve := vuln_id (vulnerability m) in
  if bool_decide (cve ∈ already_triaged) then emitted
  else if contains_key cve emitted then emitted
  else match artifact_purl (artifact m) with
       | Some p =>
           if str_is_empty p then emitted
           else if bool_decide (p ∈ purls) then emitted
           else btree_insert cve (auto_statement product_purl statement_timestamp cve) emitted
       | None => emitted
       end.

Definition compute_presence_vex (grype : GrypeReport) (sboms : list Sbom)
  (already_triaged : gset string) (product_purl statement_timestamp : string) : list Statement :=
  (foldl (consider (sbom_purls sboms) already_triaged product_purl statement_timestamp) []
     (matches grype)).*2.

Definition build_document (statements : list Statement) (id author timestamp : string) : Document := {|
  doc_context := OPENVEX_CONTEXT;
  doc_id := id;
  doc_author := author;
  doc_timestamp := timestamp;
  doc_version := OPENVEX_VERSION;
  doc_statements := statements
|}.

(** Is the directory entry a statement file? *)
Definition is_statement_file (path : string) : bool :=
  bool_decide (extension path = Some "json"%string) &&
  negb (match file_name path with Some n => starts_with "." n | None => false end).

(** The loop over the directory entries. *)
Fixpoint collect_triaged `{Json} (fs : Fs) (entries : list (outcome IoError string))
  (triaged : gset string) : outcome IoError (gset string) :=
  match entries with
  | [] => Ok triaged
  | e :: rest =>
      path ← e;
      if negb (is_statement_file path) then collect_triaged fs rest triaged else
      bytes ← read_file_capped fs path;
      doc ← map_err (λ e, mkIoError InvalidData (path +:+ ": " +:+ json_display e)%string)
              (parse_document bytes);
      collect_triaged fs rest
        (list_to_set (vuln_name ∘ st_vulnerability <$> doc_statements doc) ∪ triaged)
  end.

Definition load_triaged_from_vex_dir `{Json} (fs : Fs) (vex_dir : string) :
  outcome IoError (gset string) :=
  match read_dir fs vex_dir with
  | Ok entries => collect_triaged fs entries ∅
  | Err err => if bool_decide (io_kind err = NotFound) then Ok ∅ else Err err
  | Panic => Panic
  end.

(** * Specification *)
Section Vex.
Context (purls triaged : gset string) (product ts : string).
Abbreviation consider := (consider purls triaged product ts).

(** Match [m] justifies a statement about [cve]: untriaged, and for a
    component with a purl that no SBOM has. *)
Definition justifies (m : GrypeMatch) (cve : string) : Prop :=
  vuln_id (vulnerability m) = cve ∧ (cve ∉ triaged) ∧
  ∃ p, artifact_purl (artifact m) = Some p ∧ p ≠ ""%string ∧ (p ∉ purls).

Lemma btree_insert_keys {V} k (v : V) m k' :
  k' ∈ (btree_insert k v m).*1 ↔ k' = k ∨ k' ∈ m.*1.
Proof.
  induction m as [|[k0 v0] m IH]; cbn; [by rewrite list_elem_of_singleton, elem_of_nil; tauto|].
  case_bool_decide as Hk; [subst|destruct (str_ltb k k0)]; cbn; rewrite !elem_of_cons; [tauto..|].
  rewrite IH. tauto.
Qed.
Lemma btree_insert_sorted {V} k (v : V) m :
  StronglySorted (λ a b, str_lt a b) m.*1 → StronglySorted (λ a b, str_lt a b) (btree_insert k v m).*1.
Proof.
  induction m as [|[k0 v0] m IH]; cbn; [by repeat constructor|].
  intros [Hs Hall]%StronglySorted_inv. case_bool_decide as Hk; [subst; by constructor|].
  destruct (str_ltb k k0) eqn:Hlt; cbn.
  - constructor; [by constructor|]. constructor; [done|].
    eapply Forall_impl; [exact Hall|]. intros x Hx. by eapply str_lt_trans.
  - constructor; [by apply IH|]. apply Forall_forall. intros x [->|Hx]%btree_insert_keys.
    + by apply str_lt_total.
    + rewrite Forall_forall in Hall. by apply Hall.
Qed.
Lemma btree_insert_values k m :
  Forall (λ e, e.2 = auto_statement product ts e.1) m →
  Forall (λ e, e.2 = auto_statement product ts e.1)
    (btree_insert k (auto_statement product ts k) m).
Proof.
  induction 1 as [|[k0 v0] m Hv Hm IH]; cbn; [by repeat constructor|].
  case_bool_decide; [by constructor|]. destruct (str_ltb k k0); by repeat constructor.
Qed.

Definition vex_map_ok (em : list (string * Statement)) : Prop :=
  StronglySorted (λ a b, str_lt a b) em.*1 ∧
  Forall (λ e, e.2 = auto_statement product ts e.1) em.

Lemma consider_spec em m :
  vex_map_ok em →
  vex_map_ok (consider em m) ∧
  (∀ c, c ∈ (consider em m).*1 ↔ c ∈ em.*1 ∨ justifies m c).
Proof.
  intros Hok. unfold Vex.consider, justifies. case_bool_decide as Ht.
  { split; [done|]. intros c. split; [auto|]. intros [?|(<- & ? & _)]; done. }
  unfold contains_key. case_bool_decide as Hc.
  { split; [done|]. intros c. split; [auto|]. intros [?|(<- & _)]; done. }
  destruct (artifact_purl (artifact m)) as [p|] eqn:Hp.
  2:{ split; [done|]. intros c. split; [auto|]. by intros [?|(_ & _ & ? & [=] & _)]. }
  destruct (str_is_empty p) eqn:He.
  { destruct p; [|done]. split; [done|]. intros c. split; [auto|].
    intros [?|(_ & _ & ? & [= <-] & H & _)]; [done|by contradict H]. }
  case_bool_decide as Hin.
  { split; [done|]. intros c. split; [auto|].
    by intros [?|(_ & _ & ? & [= <-] & _ & ?)]. }
  destruct Hok as [Hs Hv]. split; [split; [by apply btree_insert_sorted|by apply btree_insert_values]|].
  intros c. rewrite btree_insert_keys. split.
  - intros [->|?]; [right|by left]. split_and!; [done..|]. exists p. split_and!; [done| |done].
    by intros ->.
  - intros [?|(<- & _)]; [by right|by left].
Qed.

Lemma foldl_consider_spec ms em :
  vex_map_ok em →
  vex_map_ok (foldl consider em ms) ∧
  (∀ c, c ∈ (foldl consider em ms).*1 ↔ c ∈ em.*1 ∨ Exists (λ m, justifies m c) ms).
Proof.
  revert em. induction ms as [|m ms IH]; intros em Hok; cbn.
  { split; [done|]. intros c. rewrite Exists_nil. tauto. }
  destruct (consider_spec em m Hok) as [Hok1 Hk1]. destruct (IH _ Hok1) as [Hok2 Hk2].
  split; [done|]. intros c. rewrite Hk2, Hk1, Exists_cons. tauto.
Qed.

Lemma sorted_unique (l l' : list string) :
  StronglySorted (λ a b, str_lt a b) l → StronglySorted (λ a b, str_lt a b) l' →
  (∀ c, c ∈ l ↔ c ∈ l') → l = l'.
Proof.
  intros Hs. revert l'. induction Hs as [|x l Hs IH Hx]; intros l' Hs' Heq.
  { destruct l' as [|y l']; [done|]. specialize (Heq y). rewrite elem_of_nil, elem_of_cons in Heq. tauto. }
  destruct Hs' as [|y l' Hs' Hy].
  { specialize (Heq x). rewrite elem_of_nil, elem_of_cons in Heq. tauto. }
  rewrite Forall_forall in Hx, Hy.
  assert (x = y) as ->.
  { pose proof (Heq x) as Hx0. pose proof (Heq y) as Hy0. rewrite !elem_of_cons in Hx0, Hy0.
    destruct (proj1 Hx0) as [?|Hxl]; [by left|done|].
    destruct (proj2 Hy0) as [?|Hyl]; [by left|done|].
    pose proof (str_lt_trans _ _ _ (Hy _ Hxl) (Hx _ Hyl)) as Hyy. by rewrite str_ltb_irrefl in Hyy. }
  f_equal. apply IH; [done|]. intros c. specialize (Heq c). rewrite !elem_of_cons in Heq.
  assert (∀ l0 : list string, (∀ z, z ∈ l0 → str_lt y z) → c ∈ l0 → c ≠ y) as Hne.
  { intros l0 Hl0 Hc ->. specialize (Hl0 y Hc). by rewrite str_ltb_irrefl in Hl0. }
  split; intros Hc.
  - destruct (proj1 Heq (or_intror Hc)) as [Hcy|?]; [|done]. by destruct (Hne l Hx Hc).
  - destruct (proj2 Heq (or_intror Hc)) as [Hcy|?]; [|done]. by destruct (Hne l' Hy Hc).
Qed.
End Vex.

Lemma map_snd_values em product ts :
  Forall (λ e, e.2 = auto_statement product ts e.1) em → em.*2 = auto_statement product ts <$> em.*1.
Proof. induction 1 as [|[k v] em Hv _ IH]; cbn in *; congruence. Qed.

(** The CVEs of the output, in order. *)
Definition vex_cves (sts : list Statement) : list string := vuln_name ∘ st_vulnerability <$> sts.

Lemma compute_presence_vex_spec grype sboms triaged product ts :
  let out := compute_presence_vex grype sboms triaged product ts in
  out = auto_statement product ts <$> vex_cves out ∧
  StronglySorted (λ a b, str_lt a b) (vex_cves out) ∧
  ∀ c, c ∈ vex_cves out ↔ Exists (λ m, justifies (sbom_purls sboms) triaged m c) (matches grype).
Proof.
  cbv zeta. unfold compute_presence_vex.
  destruct (foldl_consider_spec (sbom_purls sboms) triaged product ts (matches grype) [])
    as [[Hs Hv] Hk]; [by split; constructor|].
  set (em := foldl _ _ _) in *. rewrite (map_snd_values _ _ _ Hv).
  assert (vex_cves (auto_statement product ts <$> em.*1) = em.*1) as ->.
  { unfold vex_cves. rewrite <- list_fmap_compose. by apply list_fmap_id. }
  split_and!; [done..|]. intros c. rewrite Hk, elem_of_nil. tauto.
Qed.

(** * The command-line driver *)
Record VexCli := mkVexCli {
  cli_grype_json : string;
  cli_sbom : list string;
  cli_vex_dir : string;
  cli_product_purl : string;
  cli_id : string;
  cli_author : string;
  cli_timestamp : option string;
  cli_output : option string
}.

(** What a successful run has printed: where (a file, or standard output),
    what, and the three counts of the summary line. *)
Record Emitted := mkEmitted {
  em_target : option string;
  em_text : string;
  em_counts : nat * nat * nat
}.

(** The [time] crate's clock readings. *)
Class Clock := {
  Instant : Type;
  ClockError : Type;
  clock_display : ClockError → string;
  replace_nanosecond : Instant → Z → outcome ClockError Instant;
  format_rfc3339 : Instant → outcome ClockError string
}.
(** [now_rfc3339]; [now_utc] is what the clock shows. *)
Definition now_rfc3339 `{Clock} (now_utc : Instant) : outcome string string :=
  now ← map_err clock_display (replace_nanosecond now_utc 0);
  map_err clock_display (format_rfc3339 now).

Section Driver.
Context `{J : Json}.

(** The loop that loads every [--sbom]; an [anyhow] error is its text. *)
Fixpoint load_sboms (fs : Fs) (paths : list string) : outcome string (list Sbom) :=
  match paths with
  | [] => Ok []
  | path :: rest =>
      sbom ← map_err (λ e, "failed to load --sbom " +:+ path +:+ ": " +:+ io_display e)%string
               (load_sbom_from_path fs path);
      sboms ← load_sboms fs rest;
      Ok (sbom :: sboms)
  end.

(** [run]; [now] is what [now_rfc3339()] would return and [write] is [std::fs::write]. *)
Definition vex_run (fs : Fs) (now : outcome string string)
  (write : string → string → outcome IoError unit) (cli : VexCli) : outcome string Emitted :=
  grype_bytes ← map_err (λ e, "failed to read --grype-json " +:+ cli_grype_json cli +:+ ": "
                                +:+ io_display e)%string (read_file_capped fs (cli_grype_json cli));
  grype ← map_err (λ e, "failed to parse --grype-json " +:+ cli_grype_json cli +:+ ": "
                          +:+ json_display e)%string (parse_grype grype_bytes);
  sboms ← load_sboms fs (cli_sbom cli);
  triaged ← map_err (λ e, "failed to load --vex-dir " +:+ cli_vex_dir cli +:+ ": " +:+ io_display e)%string
              (load_triaged_from_vex_dir fs (cli_vex_dir cli));
  timestamp ← match cli_timestamp cli with Some ts => Ok ts | None => now end;
  let statements := compute_presence_vex grype sboms triaged (cli_product_purl cli) timestamp in
  let doc := build_document statements (cli_id cli) (cli_author cli) timestamp in
  text ← map_err json_display (to_string_pretty doc);
  let rendered := (text +:+ String (Ascii.ascii_of_nat 10) EmptyString)%string in
  _ ← match cli_output cli with
      | Some path => map_err (λ e, "failed to write --output " +:+ path +:+ ": " +:+ io_display e)%string
                       (write path rendered)
      | None => Ok tt
      end;
  Ok {| em_target := cli_output cli; em_text := rendered;
        em_counts := (length (matches grype), length (doc_statements doc), size triaged) |}.

(** A finished process: its exit code and what it left on its two streams. *)
Record Exited := mkExited { exit_code : Z; stdout : string; stderr : string }.
Definition EXIT_SUCCESS : Z := 0.
Definition EXIT_FAILURE : Z := 1.
(** The exit code of a panic. *)
Definition EXIT_PANIC : Z := 101.
Definition newline : string := String (Ascii.ascii_of_nat 10) EmptyString.

(** The summary line at the end of [run]. *)
Definition summary_line (cli : VexCli) (e : Emitted) : string :=
  match em_counts e with
  | (found, emitted, triaged) =>
      "auto-vex-presence: " +:+ pretty found +:+ " grype match(es) -> " +:+ pretty emitted
      +:+ " statement(s) emitted (" +:+ pretty triaged +:+ " already triaged in " +:+ cli_vex_dir cli
      +:+ ")" +:+ newline
  end%string.

(** [main] of the tool. *)
Definition vex_main `{C : Clock} (fs : Fs) (now_utc : Instant)
  (write : string → string → outcome IoError unit) (cli : VexCli) : Exited :=
  match vex_run fs (now_rfc3339 now_utc) write cli with
  | Ok e => mkExited EXIT_SUCCESS (match em_target e with Some _ => ""%string | None => em_text e end)
              (summary_line cli e)
  | Err err => mkExited EXIT_FAILURE "" ("auto-vex-presence: " +:+ err +:+ newline)%string
  | Panic => mkExited EXIT_PANIC "" ""
  end.

(** * Loading *)
Lemma load_sbom_ok fs path s :
  load_sbom_from_path fs path = Ok s → ∃ c cs, components s = Some (c :: cs).
Proof.
  unfold load_sbom_from_path. destruct (read_file_capped fs path) as [bs| |]; cbn; [|done..].
  destruct (parse_sbom bs) as [sb| |]; cbn; [|done..]. unfold no_components.
  destruct (components sb) as [[|c cs]|] eqn:Hc; cbn; [done| |done].
  intros [= <-]. eauto.
Qed.
Lemma load_sboms_ok fs paths sboms :
  load_sboms fs paths = Ok sboms → Forall2 (λ p s, load_sbom_from_path fs p = Ok s) paths sboms.
Proof.
  revert sboms. induction paths as [|p paths IH]; cbn; intros sboms.
  { intros [= <-]. constructor. }
  destruct (load_sbom_from_path fs p) as [s| |] eqn:Hp; cbn; [|done..].
  destruct (load_sboms fs paths) as [ss| |]; cbn; [|done..]. intros [= <-]. constructor; auto.
Qed.

(** [name] is triaged by a statement file among [entries]. *)
Definition triaged_by (fs : Fs) (entries : list (outcome IoError string)) (name : string) : Prop :=
  ∃ path bytes doc, Ok path ∈ entries ∧ is_statement_file path = true ∧
    read_file_capped fs path = Ok bytes ∧ parse_document bytes = Ok doc ∧
    name ∈ vex_cves (doc_statements doc).

Lemma collect_triaged_spec fs entries triaged out :
  collect_triaged fs entries triaged = Ok out →
  (∀ name, name ∈ out ↔ name ∈ triaged ∨ triaged_by fs entries name) ∧
  Forall (λ e, ∃ path, e = Ok path ∧ (is_statement_file path = true →
            ∃ bytes doc, read_file_capped fs path = Ok bytes ∧ parse_document bytes = Ok doc)) entries.
Proof.
  revert triaged. induction entries as [|e entries IH]; cbn; intros triaged.
  { intros [= <-]. split; [|constructor]. intros name. split; [by left|].
    intros [?|(p & bs & d & []%not_elem_of_nil & _)]. done. }
  destruct e as [path|err|]; cbn; [|done..]. destruct (is_statement_file path) eqn:Hf; cbn.
  - destruct (read_file_capped fs path) as [bs| |] eqn:Hr; cbn; [|done..].
    destruct (parse_document bs) as [doc| |] eqn:Hd; cbn; [|done..].
    intros [Hout Hall]%IH. split; [|constructor; [|done]; exists path; split; [done|]; eauto].
    intros name. rewrite Hout, elem_of_union, elem_of_list_to_set. split.
    + intros [[?|?]|(p & b & d & Hin & ?)]; [right|by left|right].
      * exists path, bs, doc. split_and!; [by left|done..].
      * exists p, b, d. split; [by right|done].
    + intros [?|(p & b & d & Hin & Hst & Hb & Hp & Hn)]; [by left; right|].
      apply elem_of_cons in Hin as [[= ->]|Hin]; [left; left|right; by exists p, b, d].
      rewrite Hr in Hb. injection Hb as <-. rewrite Hd in Hp. by injection Hp as <-.
  - intros [Hout Hall]%IH. split; [|constructor; [|done]; exists path; split; [done|by rewrite Hf]].
    intros name. rewrite Hout. split.
    + intros [?|(p & b & d & Hin & ?)]; [by left|right; exists p, b, d; split; [by right|done]].
    + intros [?|(p & b & d & Hin & Hst & ?)]; [by left|right; exists p, b, d; split; [|done]].
      apply elem_of_cons in Hin as [[= ->]|Hin]; [congruence|done].
Qed.
End Driver.

(** * Theorems *)
(** C34. What is dismissed, exactly: the output has one
    [not_affected / component_not_present] statement per CVE that is not yet
    triaged and that some finding reports for a component whose nonempty purl no
    SBOM contains, in ascending byte order of the CVE identifiers and hence
    without duplicates. *)
Theorem vex_output_exact grype sboms triaged product ts :
  let out := compute_presence_vex grype sboms triaged product ts in
  out = auto_statement product ts <$> vex_cves out ∧
  StronglySorted (λ a b, str_lt a b) (vex_cves out) ∧
  ∀ c, c ∈ vex_cves out ↔ Exists (λ m, justifies (sbom_purls sboms) triaged m c) (matches grype).
Proof. apply compute_presence_vex_spec. Qed.

(** The output depends only on the sets of findings and of SBOM purls:
    reordering or repeating findings or SBOMs gives the identical list of
    statements. *)
Theorem vex_output_order_independent g g' sboms sboms' triaged product ts :
  (∀ m, m ∈ matches g ↔ m ∈ matches g') → (∀ s, s ∈ sboms ↔ s ∈ sboms') →
  compute_presence_vex g sboms triaged product ts = compute_presence_vex g' sboms' triaged product ts.
Proof.
  intros Hm Hs.
  destruct (compute_presence_vex_spec g sboms triaged product ts) as (H1 & S1 & E1).
  destruct (compute_presence_vex_spec g' sboms' triaged product ts) as (H2 & S2 & E2).
  rewrite H1, H2. f_equal. apply sorted_unique; [done..|]. intros c. rewrite E1, E2, !Exists_exists.
  assert (sbom_purls sboms = sbom_purls sboms') as ->.
  { apply set_eq. intros p. unfold sbom_purls. rewrite !elem_of_list_to_set, !list_elem_of_omap.
    setoid_rewrite list_elem_of_bind. setoid_rewrite Hs. done. }
  setoid_rewrite Hm. done.
Qed.

Lemma vex_dismisses grype sboms triaged product ts m c :
  m ∈ matches grype → justifies (sbom_purls sboms) triaged m c →
  auto_statement product ts c ∈ compute_presence_vex grype sboms triaged product ts.
Proof.
  intros Hm Hj. destruct (compute_presence_vex_spec grype sboms triaged product ts) as (H1 & _ & E1).
  rewrite H1. apply list_elem_of_fmap_2, E1, Exists_exists. eauto.
Qed.

(** C37. A CVE is dismissed for the whole product as soon as one of its
    findings is about an absent component, also when another finding of the same
    CVE is about a component that an SBOM does contain. *)
Theorem present_component_can_be_dismissed grype sboms triaged product ts m m' p p' :
  m ∈ matches grype → m' ∈ matches grype →
  vuln_id (vulnerability m') = vuln_id (vulnerability m) →
  artifact_purl (artifact m) = Some p → p ∈ sbom_purls sboms →
  artifact_purl (artifact m') = Some p' → p' ≠ ""%string → p' ∉ sbom_purls sboms →
  vuln_id (vulnerability m) ∉ triaged →
  auto_statement product ts (vuln_id (vulnerability m)) ∈
    compute_presence_vex grype sboms triaged product ts.
Proof.
  intros _ Hm' Hid _ _ Hp' Hne Hnp Ht. apply (vex_dismisses _ _ _ _ _ m'); [done|].
  split_and!; [done..|]. eauto.
Qed.

(** More SBOMs or more triaged CVEs never dismiss more: the dismissed CVEs
    of the larger input are among those of the smaller. *)
Theorem vex_output_antitone grype sboms sboms' triaged triaged' product ts c :
  sbom_purls sboms ⊆ sbom_purls sboms' → triaged ⊆ triaged' →
  c ∈ vex_cves (compute_presence_vex grype sboms' triaged' product ts) →
  c ∈ vex_cves (compute_presence_vex grype sboms triaged product ts).
Proof.
  intros Hs Ht.
  destruct (compute_presence_vex_spec grype sboms triaged product ts) as (_ & _ & E1).
  destruct (compute_presence_vex_spec grype sboms' triaged' product ts) as (_ & _ & E2).
  rewrite E1, E2. intros Hex. eapply Exists_impl; [exact Hex|]. intros m (? & Hnt & p & ? & ? & Hnp).
  split_and!; [done|by intros ?%Ht|]. exists p. split_and!; [done..|by intros ?%Hs].
Qed.

Section LoadTheorems.
Context `{J : Json}.

(** Inputs fail closed: a file over 256 MiB is refused before it is read,
    and a loaded SBOM has at least one component and, on a file system whose
    metadata are right, came from a file of at most 256 MiB. *)
Theorem load_sbom_fails_closed fs path :
  (∀ len, metadata_len fs path = Ok len → MAX_INPUT_FILE_BYTES < len →
     ∃ e, load_sbom_from_path fs path = Err e ∧ io_kind e = InvalidData) ∧
  (∀ s, fs_coherent fs → load_sbom_from_path fs path = Ok s →
     (∃ c cs, components s = Some (c :: cs)) ∧
     ∃ bytes, fs_read fs path = Ok bytes ∧ Z.of_nat (length bytes) ≤ MAX_INPUT_FILE_BYTES).
Proof.
  split.
  - intros len Hl Hgt. unfold load_sbom_from_path, read_file_capped. rewrite Hl. cbn.
    rewrite bool_decide_true by lia. cbn. eauto.
  - intros s Hco Hs. split; [by eapply load_sbom_ok|].
    unfold load_sbom_from_path, read_file_capped in Hs.
    destruct (metadata_len fs path) as [len| |] eqn:Hl; cbn in Hs; [|done..].
    case_bool_decide; cbn in Hs; [done|]. destruct (fs_read fs path) as [bs| |] eqn:Hr; [|done..].
    apply Hco in Hr. rewrite Hl in Hr. injection Hr as ->. exists bs. split; [done|lia].
Qed.

(** An SBOM file whose components carry no purl. *)
Definition purl_less_file (fs : Fs) (path : string) : Prop :=
  ∃ bytes s c cs, read_file_capped fs path = Ok bytes ∧ parse_sbom bytes = Ok s ∧
    components s = Some (c :: cs) ∧ Forall (λ x, component_purl x = None) (c :: cs).
Lemma load_purl_less fs paths :
  Forall (purl_less_file fs) paths → ∃ sboms, load_sboms fs paths = Ok sboms ∧ sbom_purls sboms = ∅.
Proof.
  induction 1 as [|path paths (bytes & s & c & cs & Hr & Hp & Hc & Hnone) _ (sboms & Hs & He)]; [by exists []|].
  exists (s :: sboms). split.
  - cbn. unfold load_sbom_from_path. rewrite Hr. cbn. rewrite Hp. cbn. unfold no_components. rewrite Hc. cbn.
    by rewrite Hs.
  - unfold sbom_purls in *. rewrite bind_cons, omap_app, Hc, list_to_set_app_L, He.
    assert (omap component_purl (c :: cs) = []) as Hnil.
    { clear Hc. induction Hnone as [|x xs Hx _ IH]; [done|]. cbn. by rewrite Hx. }
    change (default [] (Some (c :: cs))) with (c :: cs). rewrite Hnil. set_solver.
Qed.

(** C38. The guard against empty SBOMs counts components, not purls: a run whose
    SBOMs list components but carry no purl is not refused, and dismisses every
    untriaged finding that has a purl, all the vulnerabilities of the product among
    them. *)
Theorem purl_less_sbom_dismisses_everything fs now write cli bytes grype triaged ts :
  read_file_capped fs (cli_grype_json cli) = Ok bytes → parse_grype bytes = Ok grype →
  Forall (purl_less_file fs) (cli_sbom cli) →
  load_triaged_from_vex_dir fs (cli_vex_dir cli) = Ok triaged →
  cli_timestamp cli = Some ts → cli_output cli = None →
  ∃ statements,
    (∀ m p, m ∈ matches grype → artifact_purl (artifact m) = Some p → p ≠ ""%string →
       vuln_id (vulnerability m) ∉ triaged →
       auto_statement (cli_product_purl cli) ts (vuln_id (vulnerability m)) ∈ statements) ∧
    ∀ text, to_string_pretty (build_document statements (cli_id cli) (cli_author cli) ts) = Ok text →
      ∃ e, vex_run fs now write cli = Ok e ∧ em_text e = (text +:+ newline)%string.
Proof.
  intros Hg Hgp Hs Ht Hts Ho. destruct (load_purl_less _ _ Hs) as (sboms & Hl & He).
  exists (compute_presence_vex grype sboms triaged (cli_product_purl cli) ts). split.
  - intros m p Hm Hp Hne Hnt. apply (vex_dismisses _ _ _ _ _ m); [done|]. split_and!; [done..|]. exists p.
    split_and!; [done..|]. rewrite He. apply not_elem_of_empty.
  - intros text Htext. unfold vex_run. rewrite Hg. cbn. rewrite Hgp. cbn. rewrite Hl. cbn. rewrite Ht. cbn.
    rewrite Hts. cbn. rewrite Htext. cbn. rewrite Ho. cbn. by eexists.
Qed.

(** The triaged set is what the statement files say: if loading succeeds
    on an existing directory, every entry was readable, every [*.json] entry that
    is not a dotfile parsed, and the result is the set of the CVE names in them;
    a missing directory means nothing is triaged. *)
Theorem load_triaged_exact fs dir :
  (∀ out entries, read_dir fs dir = Ok entries → load_triaged_from_vex_dir fs dir = Ok out →
    (∀ name, name ∈ out ↔ triaged_by fs entries name) ∧
    Forall (λ e, ∃ path, e = Ok path ∧ (is_statement_file path = true →
      ∃ bytes doc, read_file_capped fs path = Ok bytes ∧ parse_document bytes = Ok doc)) entries) ∧
  (∀ e, read_dir fs dir = Err e → io_kind e = NotFound → load_triaged_from_vex_dir fs dir = Ok ∅) ∧
  (∀ e, read_dir fs dir = Err e → io_kind e ≠ NotFound → load_triaged_from_vex_dir fs dir = Err e).
Proof.
  unfold load_triaged_from_vex_dir. split_and!.
  - intros out entries ->. intros [Hout Hall]%collect_triaged_spec. split; [|done].
    intros name. rewrite Hout, elem_of_empty. tauto.
  - intros e -> He. by rewrite bool_decide_true.
  - intros e -> He. by rewrite bool_decide_false.
Qed.

(** A successful run of the tool: every [--sbom] was loaded and is not
    empty, and what it printed is the rendering of the document whose statements
    are those of [compute_presence_vex] for exactly these inputs. *)
Theorem vex_run_output fs now write cli e :
  vex_run fs now write cli = Ok e →
  ∃ grype sboms triaged ts text,
    Forall2 (λ p s, load_sbom_from_path fs p = Ok s) (cli_sbom cli) sboms ∧
    Forall (λ s, ∃ c cs, components s = Some (c :: cs)) sboms ∧
    load_triaged_from_vex_dir fs (cli_vex_dir cli) = Ok triaged ∧
    to_string_pretty (build_document
      (compute_presence_vex grype sboms triaged (cli_product_purl cli) ts)
      (cli_id cli) (cli_author cli) ts) = Ok text ∧
    em_text e = (text +:+ String (Ascii.ascii_of_nat 10) EmptyString)%string ∧
    em_target e = cli_output cli ∧
    (∃ bytes, read_file_capped fs (cli_grype_json cli) = Ok bytes ∧ parse_grype bytes = Ok grype) ∧
    (cli_timestamp cli = Some ts ∨ cli_timestamp cli = None ∧ now = Ok ts).
Proof.
  unfold vex_run. rewrite !bind_Ok. setoid_rewrite map_err_Ok.
  intros (bytes & Hb & He). apply bind_Ok in He as (grype & Hg & He).
  apply map_err_Ok in Hg. apply bind_Ok in He as (sboms & Hs & He).
  apply bind_Ok in He as (triaged & Ht & He). apply map_err_Ok in Ht.
  apply bind_Ok in He as (ts & Hts & He). apply bind_Ok in He as (text & Htext & He).
  apply map_err_Ok in Htext. apply bind_Ok in He as ([] & _ & [= <-]).
  apply load_sboms_ok in Hs. exists grype, sboms, triaged, ts, text. split_and!; try done.
  - apply Forall_forall. intros s [i Hi]%list_elem_of_lookup.
    destruct (Forall2_lookup_r _ _ _ _ _ Hs Hi) as (p & _ & Hp). by eapply load_sbom_ok.
  - eauto.
  - destruct (cli_timestamp cli) as [ts'|]; [left; congruence|by right].
Qed.

Lemma vex_run_sboms fs now write cli e :
  vex_run fs now write cli = Ok e →
  ∃ sboms, Forall2 (λ p s, load_sbom_from_path fs p = Ok s) (cli_sbom cli) sboms.
Proof.
  unfold vex_run. intros (bytes & _ & He)%bind_Ok. apply bind_Ok in He as (grype & _ & He).
  apply bind_Ok in He as (sboms & Hs%load_sboms_ok & _). eauto.
Qed.
Lemma load_sboms_fails fs paths p :
  p ∈ paths → (∀ s, load_sbom_from_path fs p ≠ Ok s) → ∀ ss, load_sboms fs paths ≠ Ok ss.
Proof.
  intros Hp Hbad ss Hs%load_sboms_ok. apply list_elem_of_lookup in Hp as [i Hi].
  destruct (Forall2_lookup_l _ _ _ _ _ Hs Hi) as (s & _ & ?). by eapply Hbad.
Qed.

(** The tool fails closed: it exits with 0 exactly when [run] succeeds, and
    if any [--sbom] cannot be loaded (or is one without components, which would
    dismiss every finding) it exits with another code, prints nothing on standard
    output and never gets as far as writing [--output]. *)
Theorem vex_main_fails_closed `{C : Clock} fs now write cli :
  (exit_code (vex_main fs now write cli) = EXIT_SUCCESS ↔ ∃ e, vex_run fs (now_rfc3339 now) write cli = Ok e) ∧
  (∀ p, p ∈ cli_sbom cli → (∀ s, load_sbom_from_path fs p ≠ Ok s) →
     exit_code (vex_main fs now write cli) ≠ EXIT_SUCCESS ∧
     stdout (vex_main fs now write cli) = ""%string ∧
     ∀ write', vex_main fs now write' cli = vex_main fs now write cli).
Proof.
  split.
  - unfold vex_main. destruct (vex_run fs _ write cli) as [e|err|]; cbn; split; try done; eauto;
      by intros [? ?].
  - intros p Hp Hbad. pose proof (load_sboms_fails fs (cli_sbom cli) p Hp Hbad) as Hs.
    assert (∃ r : outcome string Emitted, (∀ e, r ≠ Ok e) ∧ ∀ w, vex_run fs (now_rfc3339 now) w cli = r) as (r & Hr & Hw).
    { unfold vex_run. destruct (map_err _ (read_file_capped _ _)) as [bs|e|]; cbn; [|eexists; split; [|intros; reflexivity]; done..].
      destruct (map_err _ (parse_grype bs)) as [g|e|]; cbn; [|eexists; split; [|intros; reflexivity]; done..].
      destruct (load_sboms fs (cli_sbom cli)) as [ss|e|]; cbn; [by destruct (Hs ss)|eexists; split; [|intros; reflexivity]; done..]. }
    unfold vex_main. setoid_rewrite Hw. destruct r as [e|err|]; [by destruct (Hr e)|done..].
Qed.
End LoadTheorems.

(** * Examples *)
(** Two findings of one CVE, for an absent and for a present component, and a
    triaged one. *)
Definition finding (cve purl : string) : GrypeMatch :=
  mkGrypeMatch (mkGrypeVuln cve) (mkGrypeArtifact (Some purl)).
Definition demo_grype : GrypeReport := mkGrypeReport
  [finding "CVE-2" "pkg:a"; finding "CVE-1" "pkg:x"; finding "CVE-2" "pkg:y"; finding "CVE-3" "pkg:z"].
Definition demo_sbom : Sbom := mkSbom (Some [mkSbomComponent (Some "pkg:a"%string)]).
Definition blind_sbom : Sbom := mkSbom (Some [mkSbomComponent None]).
Definition demo_triaged : gset string := {[ "CVE-3"%string ]}.

Example demo_vex :
  vex_cves (compute_presence_vex demo_grype [demo_sbom] demo_triaged "pkg:oci/sceau" "t") =
  ["CVE-1"; "CVE-2"]%string.
Proof. vm_compute. reflexivity. Qed.

(** A clock that counts nanoseconds and prints seconds. *)
#[export] Instance sim_clock : Clock | 100 := {|
  Instant := Z; ClockError := unit; clock_display _ := "year out of range"%string;
  replace_nanosecond t n := Ok (t - t `mod` 10 ^ 9 + n);
  format_rfc3339 t := Ok (pretty (t / 10 ^ 9) +:+ "Z")%string
|}.
(** One byte stands for a document of each kind. *)
#[export] Instance sim_json : Json | 100 := {|
  JsonError := unit;
  json_display _ := "expected value at line 1 column 1"%string;
  parse_grype bs := if bool_decide (bs = [x01]) then Ok demo_grype else Err tt;
  parse_sbom bs :=
    if bool_decide (bs = [x02]) then Ok demo_sbom
    else if bool_decide (bs = [x03]) then Ok blind_sbom else Err tt;
  parse_document bs :=
    if bool_decide (bs = [x04]) then
      Ok (build_document [auto_statement "p" "t" "CVE-3"] "i" "a" "t") else Err tt;
  to_string_pretty d := Ok (foldr (λ c s, c +:+ " " +:+ s)%string ""%string (vex_cves (doc_statements d)))
|}.
Definition sim_vex_files : gmap string (list byte) :=
  {[ "grype.json" := [x01]; "sbom.json" := [x02]; "blind.json" := [x03];
     ".vex/a.json" := [x04]; ".vex/.hidden.json" := [x00] ]}%string.
Definition sim_vex_fs : Fs := {|
  metadata_len p := match sim_vex_files !! p with
                    | Some bs => Ok (Z.of_nat (length bs))
                    | None => if bool_decide (p = "huge.json"%string) then Ok (2 ^ 40) else Err no_such_file
                    end;
  fs_read p := match sim_vex_files !! p with Some bs => Ok bs | None => Err no_such_file end;
  read_dir p := if bool_decide (p = ".vex"%string)
                then Ok [Ok ".vex/.hidden.json"%string; Ok ".vex/a.json"%string]
                else Err no_such_file
|}.
Definition demo_vex_cli : VexCli :=
  mkVexCli "grype.json" ["sbom.json"]%string ".vex" "pkg:oci/sceau" "id" "auto-vex-presence"
    (Some "t"%string) None.

Lemma sim_vex_fs_coherent : fs_coherent sim_vex_fs.
Proof. intros p bs. cbn. destruct (sim_vex_files !! p); intros; by simplify_eq. Qed.

Lemma vex_output_order_independent_witness :
  compute_presence_vex demo_grype [demo_sbom] demo_triaged "p" "t" =
  compute_presence_vex (mkGrypeReport (rev (matches demo_grype))) [demo_sbom; demo_sbom] demo_triaged
    "p" "t".
Proof.
  apply (vex_output_order_independent demo_grype (mkGrypeReport (rev (matches demo_grype))));
    intros x; cbn; rewrite !elem_of_cons; tauto.
Defined.

Lemma present_component_can_be_dismissed_witness :
  auto_statement "p" "t" "CVE-2" ∈ compute_presence_vex demo_grype [demo_sbom] ∅ "p" "t".
Proof.
  apply (present_component_can_be_dismissed demo_grype [demo_sbom] ∅ "p" "t"
           (finding "CVE-2" "pkg:a") (finding "CVE-2" "pkg:y") "pkg:a" "pkg:y");
    [cbn; rewrite !elem_of_cons; tauto|cbn; rewrite !elem_of_cons; tauto|reflexivity|reflexivity
    | |reflexivity|done| |]; apply (bool_decide_unpack _); vm_compute; exact I.
Defined.

Lemma vex_output_antitone_witness :
  "CVE-1"%string ∈ vex_cves (compute_presence_vex demo_grype [blind_sbom] ∅ "p" "t").
Proof.
  apply (vex_output_antitone demo_grype [blind_sbom] [demo_sbom] ∅ demo_triaged "p" "t" "CVE-1");
    apply (bool_decide_unpack _); vm_compute; exact I.
Defined.

Lemma load_sbom_fails_closed_witness :
  (∃ e, load_sbom_from_path sim_vex_fs "huge.json" = Err e ∧ io_kind e = InvalidData) ∧
  (∃ c cs, components demo_sbom = Some (c :: cs)).
Proof.
  split.
  - apply (proj1 (load_sbom_fails_closed sim_vex_fs "huge.json") (2 ^ 40)); vm_compute; reflexivity.
  - apply (proj1 (proj2 (load_sbom_fails_closed (J:=sim_json) sim_vex_fs "sbom.json") demo_sbom
                    sim_vex_fs_coherent ltac:(vm_compute; reflexivity))).
Defined.

Definition blind_vex_cli : VexCli :=
  mkVexCli "grype.json" ["blind.json"; "blind.json"]%string ".vex" "p" "id" "a" (Some "t"%string) None.
Lemma purl_less_sbom_dismisses_everything_witness :
  ∃ statements,
    (∀ m p, m ∈ matches demo_grype → artifact_purl (artifact m) = Some p → p ≠ ""%string →
       vuln_id (vulnerability m) ∉ demo_triaged → auto_statement "p" "t" (vuln_id (vulnerability m)) ∈ statements) ∧
    ∀ text, to_string_pretty (build_document statements "id" "a" "t") = Ok text →
      ∃ e, vex_run sim_vex_fs (Err ""%string) (λ _ _, Ok tt) blind_vex_cli = Ok e ∧ em_text e = (text +:+ newline)%string.
Proof.
  assert (purl_less_file sim_vex_fs "blind.json") as Hb.
  { exists [x03], blind_sbom, (mkSbomComponent None), []. split_and!; [vm_compute; reflexivity|reflexivity..|].
    by apply Forall_singleton. }
  apply (purl_less_sbom_dismisses_everything sim_vex_fs (Err ""%string) (λ _ _, Ok tt) blind_vex_cli [x01]
           demo_grype demo_triaged "t"); [reflexivity..| |vm_compute; reflexivity|reflexivity|reflexivity].
  by repeat constructor.
Defined.

Lemma load_triaged_exact_witness :
  load_triaged_from_vex_dir sim_vex_fs "missing" = Ok ∅ ∧
  ∀ name, name ∈ demo_triaged ↔
    triaged_by sim_vex_fs [Ok ".vex/.hidden.json"%string; Ok ".vex/a.json"%string] name.
Proof.
  split.
  - apply (proj1 (proj2 (load_triaged_exact sim_vex_fs "missing")) no_such_file); reflexivity.
  - apply (proj1 (load_triaged_exact sim_vex_fs ".vex") demo_triaged);
      [reflexivity|vm_compute; reflexivity].
Defined.

Definition demo_vex_emitted : Emitted :=
  match vex_run sim_vex_fs (Err ""%string) (λ _ _, Ok tt) demo_vex_cli with
  | Ok e => e
  | _ => mkEmitted None ""%string (0, 0, 0)%nat
  end.
Lemma vex_run_output_witness :
  ∃ grype sboms triaged ts text,
    Forall2 (λ p s, load_sbom_from_path sim_vex_fs p = Ok s) (cli_sbom demo_vex_cli) sboms ∧
    Forall (λ s, ∃ c cs, components s = Some (c :: cs)) sboms ∧
    load_triaged_from_vex_dir sim_vex_fs (cli_vex_dir demo_vex_cli) = Ok triaged ∧
    to_string_pretty (build_document
      (compute_presence_vex grype sboms triaged (cli_product_purl demo_vex_cli) ts)
      (cli_id demo_vex_cli) (cli_author demo_vex_cli) ts) = Ok text ∧
    em_text demo_vex_emitted = (text +:+ String (Ascii.ascii_of_nat 10) EmptyString)%string ∧
    em_target demo_vex_emitted = cli_output demo_vex_cli ∧
    (∃ bytes, read_file_capped sim_vex_fs (cli_grype_json demo_vex_cli) = Ok bytes ∧
              parse_grype bytes = Ok grype) ∧
    (cli_timestamp demo_vex_cli = Some ts ∨
     cli_timestamp demo_vex_cli = None ∧ Err (A:=string) ""%string = Ok ts).
Proof.
  apply (vex_run_output sim_vex_fs (Err ""%string) (λ _ _, Ok tt) demo_vex_cli demo_vex_emitted).
  vm_compute. reflexivity.
Defined.

(** The second SBOM is over the size cap. *)
Definition demo_bad_cli : VexCli :=
  mkVexCli "grype.json" ["sbom.json"; "huge.json"]%string ".vex" "pkg:oci/sceau" "id" "auto-vex-presence"
    (Some "t"%string) (Some "out.json"%string).
Example demo_vex_streams :
  vex_main (C:=sim_clock) sim_vex_fs 0 (λ _ _, Ok tt) demo_vex_cli =
  mkExited 0 ("CVE-1 CVE-2 " +:+ newline)
    ("auto-vex-presence: 4 grype match(es) -> 2 statement(s) emitted (1 already triaged in .vex)" +:+ newline).
Proof. vm_compute. reflexivity. Qed.
Lemma vex_main_fails_closed_witness :
  exit_code (vex_main (C:=sim_clock) sim_vex_fs 0 (λ _ _, Ok tt) demo_bad_cli) ≠ EXIT_SUCCESS ∧
  stdout (vex_main (C:=sim_clock) sim_vex_fs 0 (λ _ _, Ok tt) demo_bad_cli) = ""%string ∧
  ∀ write', vex_main (C:=sim_clock) sim_vex_fs 0 write' demo_bad_cli =
            vex_main (C:=sim_clock) sim_vex_fs 0 (λ _ _, Ok tt) demo_bad_cli.
Proof.
  apply (proj2 (vex_main_fails_closed (C:=sim_clock) sim_vex_fs 0 (λ _ _, Ok tt) demo_bad_cli) "huge.json").
  - apply (bool_decide_unpack _). vm_compute. exact I.
  - intros s H. vm_compute in H. discriminate H.
Defined.
