(* ===== verification/VexJson.v ===== *)
(** The JSON schemas of [src/crates/sceau-vex/src/auto_vex_presence.rs].

    What [serde] derives for a struct is determined by its fields and attributes:
    here it is written out, from and to a JSON value ([Value]).  The text level of
    [serde_json], bytes to values and back, is the class [JsonText]; together they
    give the class [Json] of [Vex.v].

    As [serde] documents it, a derived [Deserialize] accepts an object with the
    fields in any order, ignores fields it does not know, rejects one that occurs
    twice and one that is missing unless its type is an [Option]; and it accepts an
    array with exactly the fields in the order of declaration. *)
From Stdlib Require Import Strings.Ascii.
From stdpp Require Import sorting.
From S2P Require Import Prelude Host Vex.
From stdpp Require Import list.
#[local] Open Scope Z_scope.

#[warnings="-register-all"]
Inductive Value :=
| Null
| Bool (b : bool)
| Number (n : Z)
| Float (text : string)
| Str (s : string)
| Array (l : list Value)
| Object (fields : list (string * Value)).

(** [serde::de::Error], as far as a struct's visitor makes one. *)
Inductive DataError :=
| MissingField (name : string)
| DuplicateField (name : string)
| InvalidLength
| InvalidType
| InvalidValue.

Abbreviation De A := (Value → outcome DataError A).

(** * Fields *)
Definition de_string : De string := λ v, match v with Str s => Ok s | _ => Err InvalidType end.
Definition U32 : Z := 2 ^ 32.
Definition de_u32 : De Z := λ v,
  match v with
  | Number n => if (0 <=? n) && (n <? U32) then Ok n else Err InvalidValue
  | _ => Err InvalidType
  end.
Definition de_option {A} (de : De A) : De (option A) := λ v,
  match v with Null => Ok None | _ => a ← de v; Ok (Some a) end.
Fixpoint de_list {A} (de : De A) (l : list Value) : outcome DataError (list A) :=
  match l with [] => Ok [] | v :: l' => a ← de v; l'' ← de_list de l'; Ok (a :: l'') end.
Definition de_vec {A} (de : De A) : De (list A) := λ v,
  match v with Array l => de_list de l | _ => Err InvalidType end.

(** The values of the field [name], in the order of the text. *)
Definition occurrences (name : string) (fields : list (string * Value)) : list Value :=
  omap (λ f, if bool_decide (f.1 = name) then Some f.2 else None) fields.
(** A field of an object; [absent] is its value when it does not occur. *)
Definition field {A} (absent : outcome DataError A) (name : string) (de : De A)
  (fields : list (string * Value)) : outcome DataError A :=
  match occurrences name fields with
  | [] => absent
  | [v] => de v
  | _ => Err (DuplicateField name)
  end.
Definition required {A} (name : string) : De A → list (string * Value) → outcome DataError A :=
  field (Err (MissingField name)) name.
Definition optional {A} (name : string) (de : De A) : list (string * Value) → outcome DataError (option A) :=
  field (Ok None) name (de_option de).

(** An array in place of an object: the same fields, by position. *)
Definition as_fields (names : list string) (v : Value) : outcome DataError (list (string * Value)) :=
  match v with
  | Object fields => Ok fields
  | Array l => if bool_decide (length l = length names) then Ok (zip names l) else Err InvalidLength
  | _ => Err InvalidType
  end.

(** * The structs that are read *)
Definition de_GrypeVuln : De GrypeVuln := λ v,
  f ← as_fields ["id"]%string v; id ← required "id" de_string f; Ok (mkGrypeVuln id).
Definition de_GrypeArtifact : De GrypeArtifact := λ v,
  f ← as_fields ["purl"]%string v; purl ← optional "purl" de_string f; Ok (mkGrypeArtifact purl).
Definition de_GrypeMatch : De GrypeMatch := λ v,
  f ← as_fields ["vulnerability"; "artifact"]%string v;
  vulnerability ← required "vulnerability" de_GrypeVuln f;
  artifact ← required "artifact" de_GrypeArtifact f;
  Ok (mkGrypeMatch vulnerability artifact).
Definition de_GrypeReport : De GrypeReport := λ v,
  f ← as_fields ["matches"]%string v; matches ← required "matches" (de_vec de_GrypeMatch) f; Ok (mkGrypeReport matches).

Definition de_SbomComponent : De SbomComponent := λ v,
  f ← as_fields ["purl"]%string v; purl ← optional "purl" de_string f; Ok (mkSbomComponent purl).
Definition de_Sbom : De Sbom := λ v,
  f ← as_fields ["components"]%string v;
  components ← optional "components" (de_vec de_SbomComponent) f; Ok (mkSbom components).

Definition de_Vuln : De Vuln := λ v,
  f ← as_fields ["name"]%string v; name ← required "name" de_string f; Ok (mkVuln name).
Definition de_Product : De Product := λ v,
  f ← as_fields ["@id"]%string v; id ← required "@id" de_string f; Ok (mkProduct id).
Definition statement_fields : list string :=
  ["vulnerability"; "products"; "status"; "justification"; "impact_statement"; "timestamp"]%string.
Definition de_Statement : De Statement := λ v,
  f ← as_fields statement_fields v;
  vulnerability ← required "vulnerability" de_Vuln f;
  products ← required "products" (de_vec de_Product) f;
  status ← required "status" de_string f;
  justification ← optional "justification" de_string f;
  impact_statement ← optional "impact_statement" de_string f;
  timestamp ← required "timestamp" de_string f;
  Ok (mkStatement vulnerability products status justification impact_statement timestamp).
Definition document_fields : list string :=
  ["@context"; "@id"; "author"; "timestamp"; "version"; "statements"]%string.
Definition de_Document : De Document := λ v,
  f ← as_fields document_fields v;
  context ← required "@context" de_string f;
  id ← required "@id" de_string f;
  author ← required "author" de_string f;
  timestamp ← required "timestamp" de_string f;
  version ← required "version" de_u32 f;
  statements ← required "statements" (de_vec de_Statement) f;
  Ok (mkDocument context id author timestamp version statements).

(** * The structs that are written *)
(** [skip_serializing_if = "Option::is_none"]. *)
Definition ser_option (name : string) (o : option string) : list (string * Value) :=
  match o with Some s => [(name, Str s)] | None => [] end.
Definition ser_Vuln (x : Vuln) : Value := Object [("name"%string, Str (vuln_name x))].
Definition ser_Product (x : Product) : Value := Object [("@id"%string, Str (product_id x))].
Definition ser_Statement (x : Statement) : Value := Object (
  [("vulnerability", ser_Vuln (st_vulnerability x)); ("products", Array (ser_Product <$> st_products x));
   ("status", Str (st_status x))]%string ++
  ser_option "justification" (st_justification x) ++ ser_option "impact_statement" (st_impact_statement x) ++
  [("timestamp"%string, Str (st_timestamp x))]).
Definition ser_Document (x : Document) : Value := Object
  [("@context", Str (doc_context x)); ("@id", Str (doc_id x)); ("author", Str (doc_author x));
   ("timestamp", Str (doc_timestamp x)); ("version", Number (doc_version x));
   ("statements", Array (ser_Statement <$> doc_statements x))]%string.

(** * The text level *)
Class JsonText := {
  JsonError : Type;
  json_display : JsonError → string;
  json_parse : list byte → outcome JsonError Value;
  (** the error, with its position in the text, for what a visitor rejects *)
  json_data_error : list byte → DataError → JsonError;
  json_print_pretty : Value → string
}.
Section Text.
Context `{T : JsonText}.
Definition from_slice {A} (de : De A) (bytes : list byte) : outcome JsonError A :=
  v ← json_parse bytes; map_err (json_data_error bytes) (de v).
#[export] Instance derived_json : Json := {|
  Vex.JsonError := JsonError;
  Vex.json_display := json_display;
  parse_grype := from_slice de_GrypeReport;
  parse_sbom := from_slice de_Sbom;
  parse_document := from_slice de_Document;
  to_string_pretty d := Ok (json_print_pretty (ser_Document d))
|}.
End Text.

(** * Round trips *)
Lemma de_list_ser {A} (de : De A) (ser : A → Value) l :
  (∀ x, de (ser x) = Ok x) → de_list de (ser <$> l) = Ok l.
Proof. intros H. induction l as [|x l IH]; [done|]. cbn. rewrite H. cbn. by rewrite IH. Qed.
Lemma required_found {A} name (de : De A) fields v :
  occurrences name fields = [v] → required name de fields = de v.
Proof. intros H. unfold required, field. by rewrite H. Qed.
Lemma optional_found {A} name (de : De A) fields v :
  occurrences name fields = [v] → optional name de fields = de_option de v.
Proof. intros H. unfold optional, field. by rewrite H. Qed.
Lemma optional_absent {A} name (de : De A) fields :
  occurrences name fields = [] → optional name de fields = Ok None.
Proof. intros H. unfold optional, field. by rewrite H. Qed.
(** The next field of an object that is written out. *)
Ltac next_field :=
  first [erewrite required_found by reflexivity|erewrite optional_found by reflexivity
        |rewrite optional_absent by reflexivity]; cbn [snd de_vec de_string de_option].

Lemma de_ser_Vuln x : de_Vuln (ser_Vuln x) = Ok x.
Proof. by destruct x. Qed.
Lemma de_ser_Product x : de_Product (ser_Product x) = Ok x.
Proof. by destruct x. Qed.
Lemma de_ser_Statement x : de_Statement (ser_Statement x) = Ok x.
Proof.
  destruct x as [n ps s j i t]. unfold de_Statement, ser_Statement. cbn [as_fields mbind outcome_bind].
  destruct j, i; repeat next_field; cbn [st_vulnerability st_products];
    by rewrite de_ser_Vuln; cbn [mbind outcome_bind]; rewrite (de_list_ser _ _ _ de_ser_Product).
Qed.
Lemma de_ser_Document x : 0 ≤ doc_version x < U32 → de_Document (ser_Document x) = Ok x.
Proof.
  destruct x as [c i a t v sts]. cbn [doc_version]. intros Hv.
  unfold de_Document, ser_Document. cbn [as_fields mbind outcome_bind].
  repeat next_field. unfold de_u32. cbn [doc_version doc_statements].
  assert ((0 <=? v) && (v <? U32) = true) as -> by (apply andb_true_iff; rewrite Z.leb_le, Z.ltb_lt; lia).
  by rewrite (de_list_ser _ _ _ de_ser_Statement).
Qed.

(** * What a schema looks at *)
Lemma required_same {A} name (de : De A) f f' :
  occurrences name f = occurrences name f' → required name de f = required name de f'.
Proof. unfold required, field. by intros ->. Qed.
Lemma optional_same {A} name (de : De A) f f' :
  occurrences name f = occurrences name f' → optional name de f = optional name de f'.
Proof. unfold optional, field. by intros ->. Qed.
(** Two objects with the same occurrences of [names]. *)
Definition same_fields (names : list string) (f f' : list (string * Value)) : Prop :=
  Forall (λ name, occurrences name f = occurrences name f') names.

Lemma occurrences_none name f : name ∉ f.*1 → occurrences name f = [].
Proof.
  induction f as [|[k v] f IH]; [done|]. cbn. intros [Hk Hf]%not_elem_of_cons.
  rewrite bool_decide_false by done. by apply IH.
Qed.

(** * A second run *)
(** [fs] after the file [p], with contents [bytes], was put into [dir]. *)
Definition with_file (fs : Fs) (dir p : string) (bytes : list byte) : Fs := {|
  metadata_len q := if bool_decide (q = p) then Ok (Z.of_nat (length bytes)) else metadata_len fs q;
  fs_read q := if bool_decide (q = p) then Ok bytes else fs_read fs q;
  read_dir d :=
    if bool_decide (d = dir) then
      match read_dir fs d with
      | Ok es => Ok (es ++ [Ok p])
      | Err e => if bool_decide (io_kind e = NotFound) then Ok [Ok p] else Err e
      | Panic => Panic
      end
    else read_dir fs d
|}.
Lemma with_file_other fs dir p bytes q : q ≠ p → read_file_capped (with_file fs dir p bytes) q = read_file_capped fs q.
Proof. intros Hq. unfold read_file_capped. cbn. by rewrite bool_decide_false. Qed.
Lemma with_file_new fs dir p bytes :
  Z.of_nat (length bytes) ≤ MAX_INPUT_FILE_BYTES → read_file_capped (with_file fs dir p bytes) p = Ok bytes.
Proof.
  intros Hl. unfold read_file_capped. cbn. rewrite bool_decide_true by done. cbn.
  rewrite bool_decide_false; [done|lia].
Qed.

Section Rerun.
Context `{J : Json}.
Lemma load_sboms_same fs fs' paths :
  (∀ q, q ∈ paths → read_file_capped fs' q = read_file_capped fs q) → load_sboms fs' paths = load_sboms fs paths.
Proof.
  induction paths as [|q paths IH]; intros H; [done|]. cbn. unfold load_sbom_from_path.
  rewrite (H q) by by left. rewrite IH; [done|]. intros q' Hq'. apply H. by right.
Qed.
Lemma collect_triaged_app fs es es' tr :
  collect_triaged fs (es ++ es') tr = tr' ← collect_triaged fs es tr; collect_triaged fs es' tr'.
Proof.
  revert tr. induction es as [|e es IH]; intros tr; [done|]. cbn.
  destruct e as [path|err|]; cbn; [|done..]. destruct (is_statement_file path); cbn; [|apply IH].
  destruct (read_file_capped fs path); cbn; [|done..]. destruct (map_err _ _); cbn; [apply IH|done..].
Qed.
Lemma collect_triaged_same fs fs' es tr :
  (∀ q, Ok q ∈ es → read_file_capped fs' q = read_file_capped fs q) →
  collect_triaged fs' es tr = collect_triaged fs es tr.
Proof.
  revert tr. induction es as [|e es IH]; intros tr H; [done|]. cbn.
  assert (∀ tr, collect_triaged fs' es tr = collect_triaged fs es tr) as Hes.
  { intros tr'. apply IH. intros q Hq. apply H. by right. }
  destruct e as [path|err|]; cbn; [|done..]. rewrite !Hes, (H path) by by left.
  destruct (is_statement_file path); cbn; [|done].
  destruct (read_file_capped fs path); cbn; [|done..]. destruct (map_err _ _); cbn; [apply Hes|done..].
Qed.
(** The file that is added adds the names of its document. *)
Lemma load_triaged_with_file fs dir p bytes doc tr :
  is_statement_file p = true → Z.of_nat (length bytes) ≤ MAX_INPUT_FILE_BYTES →
  (∀ es, read_dir fs dir = Ok es → Ok p ∉ es) → parse_document bytes = Ok doc →
  load_triaged_from_vex_dir fs dir = Ok tr →
  load_triaged_from_vex_dir (with_file fs dir p bytes) dir = Ok (list_to_set (vex_cves (doc_statements doc)) ∪ tr).
Proof.
  intros Hst Hlen Hfresh Hdoc Htr. unfold load_triaged_from_vex_dir in *. cbn [read_dir with_file].
  rewrite bool_decide_true by done.
  assert (∀ tr, collect_triaged (with_file fs dir p bytes) [Ok p] tr =
    Ok (list_to_set (vex_cves (doc_statements doc)) ∪ tr)) as Hlast.
  { intros tr'. cbn [collect_triaged]. cbn [mbind outcome_bind]. rewrite Hst. cbn [negb].
    rewrite with_file_new by done. cbn [mbind outcome_bind]. by rewrite Hdoc. }
  destruct (read_dir fs dir) as [es|err|] eqn:Hd; [| |done].
  - rewrite collect_triaged_app, (collect_triaged_same fs), Htr; [apply Hlast|].
    intros q Hq. apply with_file_other. intros ->. by eapply Hfresh.
  - case_bool_decide; [|done]. injection Htr as <-. apply Hlast.
Qed.
End Rerun.

Lemma triaged_output_empty grype sboms tr tr' product ts ts' :
  tr ⊆ tr' → list_to_set (vex_cves (compute_presence_vex grype sboms tr product ts)) ⊆ tr' →
  compute_presence_vex grype sboms tr' product ts' = [].
Proof.
  intros Hsub Hout.
  destruct (compute_presence_vex_spec grype sboms tr product ts) as (_ & _ & E1).
  destruct (compute_presence_vex_spec grype sboms tr' product ts') as (H2 & _ & E2). rewrite H2.
  destruct (vex_cves (compute_presence_vex grype sboms tr' product ts')) as [|c cs]; [done|].
  assert (c ∈ c :: cs) as Hc by (by left). apply E2, Exists_exists in Hc as (m & Hm & ? & Hn & Hp).
  exfalso. apply Hn, Hout, elem_of_list_to_set, E1, Exists_exists. exists m. split; [done|].
  split_and!; [done| |done]. intros Hin. by apply Hn, Hsub.
Qed.

Lemma sorted_nodup (l : list string) : StronglySorted (λ a b, str_lt a b) l → NoDup l.
Proof.
  induction 1 as [|x l _ IH Hx]; [constructor|]. constructor; [|done]. intros Hin.
  rewrite Forall_forall in Hx. specialize (Hx x Hin). by rewrite str_ltb_irrefl in Hx.
Qed.
(** What is emitted was not triaged, so the triaged set grows by its length. *)
Lemma triaged_size grype sboms tr product ts :
  let cves := vex_cves (compute_presence_vex grype sboms tr product ts) in
  size (list_to_set cves ∪ tr : gset string) = (length cves + size tr)%nat.
Proof.
  cbv zeta. destruct (compute_presence_vex_spec grype sboms tr product ts) as (_ & Hs & E).
  rewrite size_union; [by rewrite size_list_to_set by by apply sorted_nodup|].
  intros c Hc%elem_of_list_to_set. apply E, Exists_exists in Hc as (m & _ & _ & ? & _). done.
Qed.

Section Theorems.
Context `{T : JsonText}.
Definition text_bytes (text : string) : list byte := String.list_byte_of_string text.
(** [serde_json] reads what it wrote, and allows whitespace after it. *)
Definition reads_back : Prop := ∀ d, 0 ≤ doc_version d < U32 →
  json_parse (text_bytes (json_print_pretty (ser_Document d) +:+ newline)) = Ok (ser_Document d).

Lemma document_text_round_trip d :
  reads_back → 0 ≤ doc_version d < U32 →
  parse_document (text_bytes (json_print_pretty (ser_Document d) +:+ newline)) = Ok d.
Proof.
  intros Hrb Hv. unfold parse_document, derived_json, from_slice. rewrite Hrb by done.
  cbn [mbind outcome_bind]. by rewrite de_ser_Document.
Qed.

(** Round trip: a document that is rendered and parsed again is the same
    document, with or without the two fields that are left out when they are
    [None]. *)
Theorem document_json_round_trip d text :
  reads_back → 0 ≤ doc_version d < U32 → to_string_pretty d = Ok text →
  parse_document (text_bytes (text +:+ newline)) = Ok d.
Proof.
  intros Hrb Hv [= <-]. by apply document_text_round_trip.
Qed.

(** The reports are read by field names alone: the order of an object's
    fields and any field the tool does not know make no difference to what is read
    from a Grype report, an SBOM or an OpenVEX document. *)
Theorem schemas_ignore_the_rest f f' :
  (same_fields ["matches"]%string f f' → de_GrypeReport (Object f) = de_GrypeReport (Object f')) ∧
  (same_fields ["components"]%string f f' → de_Sbom (Object f) = de_Sbom (Object f')) ∧
  (same_fields document_fields f f' → de_Document (Object f) = de_Document (Object f')).
Proof.
  split_and!; intros Hs; unfold de_GrypeReport, de_Sbom, de_Document; cbn [as_fields mbind outcome_bind];
    unfold same_fields, document_fields in Hs;
    repeat match goal with H : Forall _ (_ :: _) |- _ => apply Forall_cons in H as [? H] end;
    repeat match goal with H : occurrences ?n f = _ |- _ =>
      rewrite ?(required_same n _ f f' H), ?(optional_same n _ f f' H); clear H end; done.
Qed.

(** An SBOM in another format is refused: a JSON object without the field
    [components], such as an SPDX document, never counts as an SBOM in which
    nothing is present. *)
Theorem foreign_sbom_is_refused fs path bytes f :
  read_file_capped fs path = Ok bytes → json_parse bytes = Ok (Object f) → "components"%string ∉ f.*1 →
  ∃ e, load_sbom_from_path fs path = Err e ∧ io_kind e = InvalidData.
Proof.
  intros Hr Hp Hf. unfold load_sbom_from_path. rewrite Hr. cbn. unfold from_slice. rewrite Hp. cbn.
  unfold de_Sbom. cbn [as_fields mbind outcome_bind]. rewrite optional_absent by by apply occurrences_none.
  cbn. eauto.
Qed.

(** C35. Running the tool again is harmless: once the document of a run has been
    put among the statement files, the same run succeeds and emits no statement. *)
Theorem rerun_emits_nothing fs now write cli e p :
  reads_back → (∀ path text, write path text = Ok tt) →
  vex_run fs now write cli = Ok e →
  is_statement_file p = true → p ≠ cli_grype_json cli → p ∉ cli_sbom cli →
  (∀ es, read_dir fs (cli_vex_dir cli) = Ok es → Ok p ∉ es) →
  Z.of_nat (length (text_bytes (em_text e))) ≤ MAX_INPUT_FILE_BYTES →
  ∃ e' ts, vex_run (with_file fs (cli_vex_dir cli) p (text_bytes (em_text e))) now write cli = Ok e' ∧
    em_text e' = (json_print_pretty (ser_Document (build_document [] (cli_id cli) (cli_author cli) ts)) +:+ newline)%string ∧
    em_counts e' = ((em_counts e).1.1, 0, (em_counts e).1.2 + (em_counts e).2)%nat.
Proof.
  intros Hrb Hw He Hst Hg Hsb Hfresh Hlen. unfold vex_run in He.
  apply bind_Ok in He as (bytes & Hb%map_err_Ok & He). apply bind_Ok in He as (grype & Hgr%map_err_Ok & He).
  apply bind_Ok in He as (sboms & Hs & He). apply bind_Ok in He as (tr & Htr%map_err_Ok & He).
  apply bind_Ok in He as (ts & Hts & He). cbv zeta in He.
  set (out := compute_presence_vex grype sboms tr (cli_product_purl cli) ts) in *.
  set (doc := build_document out (cli_id cli) (cli_author cli) ts) in *.
  apply bind_Ok in He as (text & Htext%map_err_Ok & He). apply bind_Ok in He as ([] & _ & [= <-]).
  cbn [em_text em_counts fst snd] in *. set (fs' := with_file _ _ _ _).
  assert (load_triaged_from_vex_dir fs' (cli_vex_dir cli) = Ok (list_to_set (vex_cves out) ∪ tr)) as Htr'.
  { apply (load_triaged_with_file fs (cli_vex_dir cli) p _ doc tr); [done..| |done].
    injection Htext as <-. by apply document_text_round_trip. }
  assert (∀ q, q ≠ p → read_file_capped fs' q = read_file_capped fs q) as Hother by (intros q; apply with_file_other).
  eexists _, ts. split.
  { unfold vex_run. rewrite Hother by done. rewrite Hb. cbn [map_err mbind outcome_bind].
    rewrite Hgr. cbn [map_err mbind outcome_bind].
    rewrite (load_sboms_same fs) by (intros q Hq; apply Hother; by intros ->). rewrite Hs.
    cbn [mbind outcome_bind]. rewrite Htr'. cbn [map_err mbind outcome_bind]. rewrite Hts. cbn [mbind outcome_bind].
    rewrite (triaged_output_empty grype sboms tr _ (cli_product_purl cli) ts ts)
      by (apply union_subseteq_r || apply union_subseteq_l).
    cbv zeta. unfold to_string_pretty, derived_json. cbn [map_err mbind outcome_bind].
    assert (∀ text, match cli_output cli with
      | Some path => map_err (λ e, "failed to write --output " +:+ path +:+ ": " +:+ io_display e)%string (write path text)
      | None => Ok tt end = Ok tt) as Hout by (intros; destruct (cli_output cli); [by rewrite Hw|done]).
    rewrite Hout. reflexivity. }
  cbn [em_text em_counts]. split; [done|].
  pose proof (triaged_size grype sboms tr (cli_product_purl cli) ts) as Hz. cbv zeta in Hz. fold out in Hz.
  rewrite Hz. unfold vex_cves. by rewrite length_fmap.
Qed.
End Theorems.

(** * Examples *)
(** A text level whose documents are binary numbers and whose reports are single
    bytes. *)
Fixpoint pos_string (p : positive) : string :=
  match p with
  | xH => "."
  | xO p' => String "0"%char (pos_string p')
  | xI p' => String "1"%char (pos_string p')
  end.
Fixpoint string_pos (s : string) : positive :=
  match s with
  | String "0"%char s' => xO (string_pos s')
  | String "1"%char s' => xI (string_pos s')
  | _ => xH
  end.
Lemma string_pos_string p t : string_pos (pos_string p +:+ t) = p.
Proof.
  induction p as [p IH|p IH|]; [..|done].
  - change (xI (string_pos (pos_string p +:+ t)) = xI p). by rewrite IH.
  - change (xO (string_pos (pos_string p +:+ t)) = xO p). by rewrite IH.
Qed.

#[export] Instance Statement_eq_dec : EqDecision Statement.
Proof. unfold EqDecision, Decision. repeat decide equality. Defined.
#[export] Instance Statement_countable : Countable Statement.
Proof.
  refine (inj_countable'
    (λ x, (vuln_name (st_vulnerability x), product_id <$> st_products x, st_status x, st_justification x,
           st_impact_statement x, st_timestamp x))
    (λ '(n, ps, s, j, i, t), mkStatement (mkVuln n) (mkProduct <$> ps) s j i t) _).
  intros [[n] ps s j i t]. cbn. f_equal. rewrite <- list_fmap_compose.
  etrans; [|apply list_fmap_id]. apply list_fmap_ext. by intros _ [] _.
Defined.
#[export] Instance Document_eq_dec : EqDecision Document.
Proof. unfold EqDecision, Decision. repeat decide equality. Defined.
#[export] Instance Document_countable : Countable Document.
Proof.
  refine (inj_countable'
    (λ x, (doc_context x, doc_id x, doc_author x, doc_timestamp x, doc_version x, doc_statements x))
    (λ '(c, i, a, t, v, sts), mkDocument c i a t v sts) _). by intros [].
Defined.

Definition json_finding (cve purl : string) : Value := Object
  [("artifact", Object [("purl", Str purl); ("version", Str "1")]); ("vulnerability", Object [("id", Str cve)])]%string.
Definition json_reports (bs : list byte) : option Value :=
  match bs with
  | [x01] => Some (Object [("descriptor", Null);
      ("matches", Array [json_finding "CVE-2" "pkg:a"; json_finding "CVE-1" "pkg:x"; json_finding "CVE-2" "pkg:y"])]%string)
  | [x02] => Some (Object [("bomFormat", Str "CycloneDX"); ("components", Array [Object [("purl", Str "pkg:a")]])]%string)
  | [x03] => Some (Object [("spdxVersion", Str "SPDX-2.3"); ("packages", Array [])]%string)
  | _ => None
  end.
#[export] Instance binary_text : JsonText | 100 := {|
  JsonError := option DataError;
  json_display _ := "expected value at line 1 column 1"%string;
  json_parse bs :=
    match json_reports bs with
    | Some v => Ok v
    | None => match decode (string_pos (String.string_of_list_byte bs)) with
              | Some d => Ok (ser_Document d)
              | None => Err None
              end
    end;
  json_data_error _ e := Some e;
  json_print_pretty v := match de_Document v with Ok d => pos_string (encode d) | _ => ""%string end
|}.
Lemma report_is_short bs v : json_reports bs = Some v → ∃ b, bs = [b] ∧ (b = x01 ∨ b = x02 ∨ b = x03).
Proof. destruct bs as [|b [|? ?]]; [done| |]; destruct b; cbn; try done; intros; eexists; auto. Qed.
Lemma binary_reads_back : reads_back (T:=binary_text).
Proof.
  intros d Hv. cbn -[de_Document ser_Document encode decode json_reports]. rewrite de_ser_Document by done.
  destruct (json_reports _) as [v|] eqn:Hr.
  { apply report_is_short in Hr as (b & Hb & Hcases). unfold text_bytes in Hb.
    destruct (encode d) as [q|q|]; [destruct q..|]; done. }
  unfold text_bytes. rewrite String.string_of_list_byte_of_string, string_pos_string. by rewrite decode_encode.
Qed.

Definition json_fs : Fs := {|
  metadata_len p := if bool_decide (p ∈ ["grype.json"; "sbom.json"; "spdx.json"]%string) then Ok 1 else Err no_such_file;
  fs_read p :=
    if bool_decide (p = "grype.json"%string) then Ok [x01]
    else if bool_decide (p = "sbom.json"%string) then Ok [x02]
    else if bool_decide (p = "spdx.json"%string) then Ok [x03] else Err no_such_file;
  read_dir _ := Err no_such_file
|}.
Definition json_emitted : Emitted :=
  match vex_run json_fs (Err ""%string) (λ _ _, Ok tt) demo_vex_cli with
  | Ok e => e
  | _ => mkEmitted None ""%string (0, 0, 0)%nat
  end.
(** The first run finds two CVEs, one of them twice. *)
Example json_emitted_counts : em_counts json_emitted = (3, 2, 0)%nat.
Proof. vm_compute. reflexivity. Qed.
Definition json_runs : bool :=
  match vex_run json_fs (Err ""%string) (λ _ _, Ok tt) demo_vex_cli with Ok _ => true | _ => false end.
Lemma json_emitted_run : vex_run json_fs (Err ""%string) (λ _ _, Ok tt) demo_vex_cli = Ok json_emitted.
Proof.
  assert (json_runs = true) as H by (vm_compute; reflexivity). unfold json_runs in H. unfold json_emitted.
  by destruct (vex_run _ _ _ _).
Qed.

Lemma rerun_emits_nothing_witness :
  ∃ e' ts, vex_run (with_file json_fs ".vex" ".vex/auto.json" (text_bytes (em_text json_emitted)))
      (Err ""%string) (λ _ _, Ok tt) demo_vex_cli = Ok e' ∧
    em_text e' = (json_print_pretty (ser_Document
      (build_document [] (cli_id demo_vex_cli) (cli_author demo_vex_cli) ts)) +:+ newline)%string ∧
    em_counts e' = ((em_counts json_emitted).1.1, 0, (em_counts json_emitted).1.2 + (em_counts json_emitted).2)%nat.
Proof.
  apply (rerun_emits_nothing (T:=binary_text) json_fs (Err ""%string) (λ _ _, Ok tt) demo_vex_cli json_emitted ".vex/auto.json");
    [apply binary_reads_back|done|apply json_emitted_run|reflexivity|done| |done|].
  - apply (bool_decide_unpack _). vm_compute. exact I.
  - apply Z.leb_le. vm_compute. reflexivity.
Defined.

Definition demo_document : Document := build_document [auto_statement "p" "t" "CVE-1"] "i" "a" "t".
Lemma document_json_round_trip_witness :
  parse_document (text_bytes (json_print_pretty (ser_Document demo_document) +:+ newline)) = Ok demo_document.
Proof.
  apply (document_json_round_trip (T:=binary_text) demo_document); [apply binary_reads_back|done|reflexivity].
Defined.

Lemma schemas_ignore_the_rest_witness :
  de_Sbom (Object [("bomFormat", Str "CycloneDX"); ("components", Null)]%string) =
  de_Sbom (Object [("components", Null); ("specVersion", Str "1.6"); ("specVersion", Null)]%string).
Proof.
  apply (proj1 (proj2 (schemas_ignore_the_rest _ _))). apply Forall_singleton. reflexivity.
Defined.

Lemma foreign_sbom_is_refused_witness :
  ∃ e, load_sbom_from_path json_fs "spdx.json" = Err e ∧ io_kind e = InvalidData.
Proof.
  apply (foreign_sbom_is_refused (T:=binary_text) json_fs "spdx.json" [x03]
    [("spdxVersion", Str "SPDX-2.3"); ("packages", Array [])]%string);
    [reflexivity|reflexivity|apply (bool_decide_unpack _); vm_compute; exact I].
Defined.
