(* ===== verification/VexCli.v ===== *)
(** The command line of [auto-vex-presence],
    [src/crates/sceau-vex/src/bin/auto_vex_presence.rs], on the matcher of [Clap.v],
    and the process from its arguments to its exit code. *)
From S2P Require Import Prelude Host Clap Vex.

(** [#[derive(Parser)]] for [Cli]. *)
Definition vex_command : ClapCommand := {|
  globals := [];
  args := [text_arg "grype-json" true None; list_arg "sbom" true; text_arg "vex-dir" true None;
           text_arg "product-purl" true None; text_arg "id" true None;
           text_arg "author" false (Some "auto-vex-presence"%string);
           text_arg "timestamp" false None; text_arg "output" false None]%string;
  subcommands := []
|}.

Section VexCli.
Context `{C : Clap}.
Definition VexCli_from_arg_matches (m : ArgMatches) : outcome ClapError VexCli :=
  grype_json ← one_text m "grype-json";
  vex_dir ← one_text m "vex-dir";
  product_purl ← one_text m "product-purl";
  id ← one_text m "id";
  author ← one_text m "author";
  Ok (mkVexCli grype_json (many_text m "sbom") vex_dir product_purl id author
        (maybe_text m "timestamp") (maybe_text m "output")).
Definition VexCli_try_parse_from (argv : list string) : outcome ClapError VexCli :=
  m ← try_get_matches_from vex_command argv; VexCli_from_arg_matches m.

(** The process; [Cli::parse] prints clap's message and ends it if the command line is
    not accepted, and also for [--help] and [--version]. *)
Definition auto_vex_presence `{J : Json} `{K : Clock} (argv : list string) (fs : Fs) (now_utc : Instant)
  (write : string → string → outcome IoError unit) : Exited :=
  match VexCli_try_parse_from argv with
  | Ok cli => vex_main fs now_utc write cli
  | Err e => mkExited (clap_exit_code e) (clap_stdout e) (clap_stderr e)
  | Panic => mkExited EXIT_PANIC "" ""
  end.
End VexCli.

Lemma vex_scope m : NoDup (arg_long <$> in_scope vex_command m).
Proof.
  unfold in_scope. destruct (subcommand_name m); apply (bool_decide_unpack _); vm_compute; exact I.
Qed.
Lemma vex_parse_ok `{C : Clap} {CL : ClapLaws} argv cli :
  VexCli_try_parse_from argv = Ok cli → cli_sbom cli ≠ [].
Proof.
  intros (m & Hm & Hc)%bind_Ok. repeat apply bind_Ok in Hc as (? & _ & Hc). injection Hc as <-. cbn.
  apply (many_text_ok _ _ _ Hm (vex_scope m)). unfold in_scope. cbn. right. by left.
Qed.

(** C39. No finding is ever dismissed without an SBOM: the tool exits with 0 after a
    run only if at least one SBOM was named on its command line, and each of them
    was loaded and has a component; and a command line that is refused prints no
    statement, unless it asks for the tool's help or version, which exits with 0
    too but is no run. *)
Theorem nothing_dismissed_without_sbom `{C : Clap} {CL : ClapLaws} `{J : Json} `{K : Clock} argv fs now write :
  (∀ e, VexCli_try_parse_from argv = Err e → exit_code (auto_vex_presence argv fs now write) ≠ EXIT_SUCCESS →
     stdout (auto_vex_presence argv fs now write) = ""%string) ∧
  ∀ cli, VexCli_try_parse_from argv = Ok cli →
    exit_code (auto_vex_presence argv fs now write) = EXIT_SUCCESS →
    cli_sbom cli ≠ [] ∧
    Forall (λ path, ∃ s c cs, load_sbom_from_path fs path = Ok s ∧ components s = Some (c :: cs)) (cli_sbom cli).
Proof.
  unfold auto_vex_presence. split; [intros e ->; apply clap_errors_on_stderr|]. intros cli Hcli. rewrite Hcli. intros Hx.
  split; [by eapply vex_parse_ok|].
  assert (∃ e, vex_run fs (now_rfc3339 now) write cli = Ok e) as [e He].
  { unfold vex_main in Hx. destruct (vex_run fs _ write cli); [by eexists|done..]. }
  destruct (vex_run_sboms _ _ _ _ _ He) as (sboms & Hs).
  apply Forall_lookup. intros i path Hi.
  destruct (Forall2_lookup_l _ _ _ _ _ Hs Hi) as (s & _ & Hl). destruct (load_sbom_ok _ _ _ Hl) as (c & cs & ?).
  by exists s, c, cs.
Qed.

(** * Examples *)
Definition vex_argv : list string :=
  ["--grype-json"; "grype.json"; "--sbom"; "sbom.json"; "--vex-dir"; ".vex"; "--product-purl"; "pkg:oci/sceau";
   "--id"; "id"; "--timestamp=t"]%string.
Definition vex_cli_of (argv : list string) : option VexCli :=
  match VexCli_try_parse_from (C:=sim_clap) argv with Ok cli => Some cli | _ => None end.
Example vex_argv_parses : vex_cli_of vex_argv = Some demo_vex_cli.
Proof. vm_compute. reflexivity. Qed.
Example vex_needs_sbom : vex_cli_of (take 2 vex_argv ++ drop 4 vex_argv) = None.
Proof. vm_compute. reflexivity. Qed.
Example vex_takes_many_sboms :
  cli_sbom <$> vex_cli_of (vex_argv ++ ["--sbom=other.json"]%string) = Some ["sbom.json"; "other.json"]%string.
Proof. vm_compute. reflexivity. Qed.

Lemma nothing_dismissed_without_sbom_witness :
  cli_sbom demo_vex_cli ≠ [] ∧
  Forall (λ path, ∃ s c cs, load_sbom_from_path (H:=sim_json) sim_vex_fs path = Ok s ∧ components s = Some (c :: cs))
    (cli_sbom demo_vex_cli).
Proof.
  apply (proj2 (nothing_dismissed_without_sbom (CL:=sim_clap_laws) (J:=sim_json) (K:=sim_clock) vex_argv sim_vex_fs
    0 (λ _ _, Ok tt)) demo_vex_cli); vm_compute; reflexivity.
Defined.
